(** * bigfloat.c: fixed-point arithmetic for deep Mandelbrot zooms

    A shallow embedding of [apps/web/src/wasm/bigfloat.c].  The C code works
    on [BigFloat] structs through pointers and on one global scratch array,
    so the embedding threads an explicit machine state: a heap of [BigFloat]
    records addressed by pointers, plus the scratch array.  Every function of
    the source is a state transformer that performs the reads and writes of
    the C text in the same order, so that aliased arguments behave as they do
    in C.  Doubles are IEEE-754 binary64 values ([spec_float] with precision
    53 and maximal exponent 1024). *)

From Stdlib Require Import ZArith List Lia Ascii String.
From Stdlib Require Import Floats.SpecFloat.
From stdpp Require Import base option list gmap.

Local Open Scope Z_scope.

(** ** Machine integers *)

Definition BF_LIMB_BITS : Z := 32.
Definition BF_MAX_LIMBS : nat := 128.
Definition KARATSUBA_THRESHOLD : Z := 16.

(** [limb_t] is [uint32_t] and [dlimb_t] is [uint64_t]; both are carried by
    [Z], with the casts written out. *)
Definition limb_t := Z.
Definition dlimb_t := Z.

Definition to_limb (x : Z) : limb_t := x mod 2 ^ 32.
Definition to_dlimb (x : Z) : dlimb_t := x mod 2 ^ 64.

(** Negation of an [int8_t]; [-(-128)] wraps back to [-128]. *)
Definition neg_int8 (x : Z) : Z := (- x + 128) mod 256 - 128.

(** ** Doubles *)

Definition double := spec_float.

Module Dbl.

Definition prec : Z := 53.
Definition emax : Z := 1024.

Definition add : double -> double -> double := SFadd prec emax.
Definition sub : double -> double -> double := SFsub prec emax.
Definition mul : double -> double -> double := SFmul prec emax.
Definition div : double -> double -> double := SFdiv prec emax.
Definition neg : double -> double := SFopp.
Definition ltb : double -> double -> bool := SFltb.
Definition eqb : double -> double -> bool := SFeqb.
Definition gtb (x y : double) : bool := SFltb y x.

(** Conversion of an integer to double, round to nearest even. *)
Definition of_Z (z : Z) : double := binary_normalize prec emax z 0 false.

(** Conversion of a double to an integer type truncates toward zero.  The
    conversion of a NaN or an infinity is undefined in C; it is 0 here. *)
Definition trunc (d : double) : Z :=
  match d with
  | S754_finite s m e =>
      let a := match e with
               | Z0 => Zpos m
               | Zpos _ => Zpos m * 2 ^ e
               | Zneg _ => Zpos m / 2 ^ (- e)
               end in
      if s then - a else a
  | _ => 0
  end.

Definition zero : double := S754_zero false.
Definition two28 : double := of_Z (2 ^ 28).        (* (double)(1 << 28) *)
Definition two32 : double := of_Z (2 ^ 32).        (* (double)(1ULL << 32) *)
Definition one : double := of_Z 1.
Definition two : double := of_Z 2.
Definition four : double := of_Z 4.
Definition ten : double := of_Z 10.
Definition tenth : double := S754_finite false 7205759403792794 (-56). (* 0.1 *)
Definition ten16 : double := of_Z (10 ^ 16).       (* 1e16 *)

(** [m * 2^e] as a double, for writing inputs. *)
Definition of_bits (m e : Z) : double := binary_normalize prec emax m e false.

End Dbl.

(** ** The BigFloat struct and the machine state *)

Record BigFloat := mkBigFloat {
  limbs : list limb_t;   (* limb_t limbs[BF_MAX_LIMBS], least significant first *)
  nlimbs : Z;            (* int32_t nlimbs *)
  sign : Z               (* int8_t sign: 1, -1 or 0 *)
}.

Definition ptr := positive.

Record state := mkState {
  heap : gmap ptr BigFloat;
  scratch : list limb_t  (* static limb_t scratch[BF_MAX_LIMBS * 2 + 2] *)
}.

(** A struct whose storage exists but was never written. *)
Definition bf_blank : BigFloat :=
  mkBigFloat (replicate BF_MAX_LIMBS 0) 0 0.

Definition deref (s : state) (p : ptr) : BigFloat :=
  default bf_blank (heap s !! p).

Definition store (p : ptr) (v : BigFloat) (s : state) : state :=
  mkState (<[p := v]> (heap s)) (scratch s).

(** [p->limbs[i]], [p->nlimbs], [p->sign] as r-values.  A read outside the
    array is undefined in C and yields 0 here. *)
Definition limb (s : state) (p : ptr) (i : nat) : limb_t :=
  default 0 (limbs (deref s p) !! i).
Definition get_nlimbs (s : state) (p : ptr) : Z := nlimbs (deref s p).
Definition get_sign (s : state) (p : ptr) : Z := sign (deref s p).

(** The same as l-values.  A write outside the array is undefined in C and
    does nothing here. *)
Definition set_limb (p : ptr) (i : nat) (v : limb_t) (s : state) : state :=
  let x := deref s p in
  store p (mkBigFloat (<[i := v]> (limbs x)) (nlimbs x) (sign x)) s.
Definition set_nlimbs (p : ptr) (n : Z) (s : state) : state :=
  let x := deref s p in store p (mkBigFloat (limbs x) n (sign x)) s.
Definition set_sign (p : ptr) (sg : Z) (s : state) : state :=
  let x := deref s p in store p (mkBigFloat (limbs x) (nlimbs x) sg) s.

Definition scr (s : state) (i : nat) : limb_t := default 0 (scratch s !! i).
Definition set_scr (i : nat) (v : limb_t) (s : state) : state :=
  mkState (heap s) (<[i := v]> (scratch s)).

(** ** Loops *)

(** [for (int i = 0; i < n; i++) body] *)
Definition for_loop {A} (n : nat) (body : nat -> A -> A) (init : A) : A :=
  fold_left (fun acc i => body i acc) (seq 0 n) init.

(** [for (int i = n - 1; i >= 0; i--) body] *)
Definition for_down {A} (n : nat) (body : nat -> A -> A) (init : A) : A :=
  fold_left (fun acc i => body i acc) (rev (seq 0 n)) init.

(** ** Representation: [bf_zero], [bf_copy] *)

(** [memset(r->limbs, 0, n * sizeof(limb_t))] *)
Definition memset_limbs (r : ptr) (n : nat) (s : state) : state :=
  for_loop n (fun i s => set_limb r i 0 s) s.

(** [memcpy(r->limbs, a->limbs, n * sizeof(limb_t))] *)
Definition memcpy_limbs (r a : ptr) (n : nat) (s : state) : state :=
  for_loop n (fun i s => set_limb r i (limb s a i) s) s.

Definition bf_zero (r : ptr) (n : Z) (s : state) : state :=
  let s := memset_limbs r (Z.to_nat n) s in
  let s := set_nlimbs r n s in
  set_sign r 0 s.

Definition bf_copy (r a : ptr) (s : state) : state :=
  let s := memcpy_limbs r a (Z.to_nat (get_nlimbs s a)) s in
  let s := set_nlimbs r (get_nlimbs s a) s in
  set_sign r (get_sign s a) s.

(** ** Conversions: [bf_set_d], [bf_to_d] *)

(** The loop [for (int i = nlimbs - 1; i >= 0 && d > 0; i--)]; [k] is [i + 1]. *)
Fixpoint bf_set_d_loop (r : ptr) (n : Z) (k : nat) (d : double) (s : state)
  : state :=
  match k with
  | O => s
  | S i =>
      if Dbl.gtb d Dbl.zero then
        let d := Dbl.mul d Dbl.two32 in
        let l := to_limb (Dbl.trunc d) in
        let d := Dbl.sub d (Dbl.of_Z l) in
        let s :=
          if Z.of_nat i =? n - 1
          then set_limb r i (Z.lor (limb s r i) (Z.shiftr l 4)) s
          else set_limb r i l s in
        bf_set_d_loop r n i d s
      else s
  end.

Definition bf_set_d (r : ptr) (d : double) (n : Z) (s : state) : state :=
  let s := bf_zero r n s in
  if Dbl.eqb d Dbl.zero then s
  else
    let s := set_sign r (if Dbl.ltb d Dbl.zero then -1 else 1) s in
    let d := if Dbl.ltb d Dbl.zero then Dbl.neg d else d in
    let int_part := Dbl.trunc d in
    let d := Dbl.sub d (Dbl.of_Z int_part) in
    let s :=
      if n - 1 <? 0 then s
      else set_limb r (Z.to_nat (n - 1))
                    (to_limb (Z.shiftl (to_limb int_part) 28)) s in
    bf_set_d_loop r n (Z.to_nat n) d s.

Definition bf_to_d (a : ptr) (s : state) : double :=
  if get_sign s a =? 0 then Dbl.zero
  else
    let n := get_nlimbs s a in
    let '(result, scale) :=
      for_down (Z.to_nat n)
        (fun i '(result, scale) =>
           if Z.of_nat i =? n - 1 then
             let result := Dbl.of_Z (Z.shiftr (limb s a i) 28) in
             let result :=
               Dbl.add result
                 (Dbl.div (Dbl.of_Z (Z.land (limb s a i) 268435455)) Dbl.two28) in
             (result, scale)
           else
             let scale := Dbl.div scale Dbl.two32 in
             (Dbl.add result (Dbl.mul (Dbl.of_Z (limb s a i)) scale), scale))
        (Dbl.zero, Dbl.one) in
    if get_sign s a <? 0 then Dbl.neg result else result.

(** ** Magnitude primitives *)

(** The loop of [bf_cmp_mag], from limb [n - 1] down; [k] is [i + 1]. *)
Fixpoint bf_cmp_mag_loop (a b : ptr) (k : nat) (s : state) : Z :=
  match k with
  | O => 0
  | S i =>
      if limb s a i <? limb s b i then -1
      else if limb s a i >? limb s b i then 1
      else bf_cmp_mag_loop a b i s
  end.

Definition bf_cmp_mag (a b : ptr) (s : state) : Z :=
  bf_cmp_mag_loop a b (Z.to_nat (get_nlimbs s a)) s.

Definition bf_add_mag (r a b : ptr) (s : state) : state :=
  let n := get_nlimbs s a in
  fst (for_loop (Z.to_nat n)
         (fun i '(s, carry) =>
            let sum := to_dlimb (limb s a i + limb s b i + carry) in
            (set_limb r i (to_limb sum) s, Z.shiftr sum 32))
         (s, 0)).

Definition bf_sub_mag (r a b : ptr) (s : state) : state :=
  let n := get_nlimbs s a in
  fst (for_loop (Z.to_nat n)
         (fun i '(s, borrow) =>
            let diff := limb s a i - limb s b i - borrow in
            let '(diff, borrow) :=
              if diff <? 0 then (diff + 2 ^ 32, 1) else (diff, 0) in
            (set_limb r i (to_limb diff) s, borrow))
         (s, 0)).

Definition bf_is_zero (a : ptr) (s : state) : bool :=
  forallb (fun i => limb s a i =? 0) (seq 0 (Z.to_nat (get_nlimbs s a))).

(** [if (bf_is_zero(r)) r->sign = 0;], the last statement of [bf_add],
    [bf_mul_schoolbook] and [bf_sqr]. *)
Definition normalize_zero (r : ptr) (s : state) : state :=
  if bf_is_zero r s then set_sign r 0 s else s.

(** ** Addition *)

Definition bf_add (r a b : ptr) (s : state) : state :=
  let s := set_nlimbs r (get_nlimbs s a) s in
  if get_sign s a =? 0 then bf_copy r b s
  else if get_sign s b =? 0 then bf_copy r a s
  else
    let s :=
      if get_sign s a =? get_sign s b then
        let s := bf_add_mag r a b s in
        set_sign r (get_sign s a) s
      else
        let cmp := bf_cmp_mag a b s in
        if cmp =? 0 then bf_zero r (get_nlimbs s a) s
        else if cmp >? 0 then
          let s := bf_sub_mag r a b s in
          set_sign r (get_sign s a) s
        else
          let s := bf_sub_mag r b a s in
          set_sign r (get_sign s b) s in
    normalize_zero r s.

(** ** Multiplication and squaring *)

(** [memset(scratch, 0, m * sizeof(limb_t))] *)
Definition memset_scratch (m : nat) (s : state) : state :=
  for_loop m (fun i s => set_scr i 0 s) s.

(** The extraction loop shared by [bf_mul_schoolbook] and [bf_sqr]. *)
Definition extract_result (r : ptr) (n : nat) (s : state) : state :=
  for_loop n
    (fun i s =>
       let combined := to_dlimb (Z.shiftl (scr s (n + i)) 4) in
       let combined :=
         if (0 <? n + i)%nat
         then Z.lor combined (Z.shiftr (scr s (n + i - 1)) 28)
         else combined in
       set_limb r i (to_limb combined) s)
    s.

(** One turn of the inner loop of [bf_mul_schoolbook]. *)
Definition mul_inner (a b : ptr) (i j : nat) (sc : state * dlimb_t)
  : state * dlimb_t :=
  let '(s, carry) := sc in
  let prod := to_dlimb (limb s a i * limb s b j) in
  let sum := to_dlimb (scr s (i + j) + prod + carry) in
  (set_scr (i + j) (to_limb sum) s, Z.shiftr sum 32).

(** One turn of its outer loop. *)
Definition mul_row (a b : ptr) (n i : nat) (s : state) : state :=
  let '(s, carry) := for_loop n (mul_inner a b i) (s, 0) in
  set_scr (i + n) (to_limb (scr s (i + n) + to_limb carry)) s.

Definition bf_mul_schoolbook (r a b : ptr) (s : state) : state :=
  let nz := get_nlimbs s a in
  let n := Z.to_nat nz in
  let s := memset_scratch (2 * n + 2) s in
  let s := for_loop n (mul_row a b n) s in
  let s := extract_result r n s in
  let s := set_nlimbs r nz s in
  let s := set_sign r (if get_sign s a =? get_sign s b then 1 else -1) s in
  let s :=
    if (get_sign s a =? 0) || (get_sign s b =? 0) then set_sign r 0 s else s in
  normalize_zero r s.

(** The source's Karatsuba entry point falls back to schoolbook. *)
Definition bf_mul_karatsuba (r a b : ptr) (depth : Z) (s : state) : state :=
  bf_mul_schoolbook r a b s.

Definition bf_mul (r a b : ptr) (s : state) : state :=
  if get_nlimbs s a <=? KARATSUBA_THRESHOLD
  then bf_mul_schoolbook r a b s
  else bf_mul_karatsuba r a b 0 s.

(** [while (carry && k < 2 * n + 2)] of [bf_sqr]; [fuel] bounds the number
    of turns by the distance of [k] to the end of the scratch window. *)
Fixpoint sqr_carry_loop (fuel : nat) (k : nat) (carry : dlimb_t) (s : state)
  : state :=
  match fuel with
  | O => s
  | S fuel' =>
      if carry =? 0 then s
      else
        let sum := to_dlimb (scr s k + carry) in
        sqr_carry_loop fuel' (S k) (Z.shiftr sum 32) (set_scr k (to_limb sum) s)
  end.

(** [for (int j = lo; j < n; j++) body] *)
Definition for_range {A} (lo n : nat) (body : nat -> A -> A) (init : A) : A :=
  fold_left (fun acc j => body j acc) (seq lo (n - lo)) init.

(** The diagonal term of row [i] of [bf_sqr].  In [scratch[2*i] + (limb_t)diag]
    both operands are [uint32_t], so the sum is taken modulo [2^32] before it
    is widened to [dlimb_t]. *)
Definition sqr_diag (a : ptr) (i : nat) (s : state) : state :=
  let diag := to_dlimb (limb s a i * limb s a i) in
  let sum := to_limb (scr s (2 * i) + to_limb diag) in
  let s := set_scr (2 * i) (to_limb sum) s in
  let carry := to_dlimb (Z.shiftr sum 32 + Z.shiftr diag 32) in
  let s :=
    set_scr (2 * i + 1) (to_limb (scr s (2 * i + 1) + to_limb carry)) s in
  if Z.shiftr carry 32 =? 0 then s
  else set_scr (2 * i + 2) (to_limb (scr s (2 * i + 2) + 1)) s.

(** The doubled off-diagonal term [(i, j)] of [bf_sqr]; again
    [scratch[i + j] + (limb_t)prod] is a [uint32_t] sum. *)
Definition sqr_offdiag (a : ptr) (n i j : nat) (s : state) : state :=
  let prod := to_dlimb (limb s a i * limb s a j) in
  let prod_hi := Z.shiftr prod 63 in
  let prod := to_dlimb (Z.shiftl prod 1) in
  let sum := to_limb (scr s (i + j) + to_limb prod) in
  let s := set_scr (i + j) (to_limb sum) s in
  let carry := to_dlimb (Z.shiftr sum 32 + Z.shiftr prod 32 + prod_hi) in
  let k := (i + j + 1)%nat in
  sqr_carry_loop (2 * n + 2 - k) k carry s.

Definition sqr_row (a : ptr) (n i : nat) (s : state) : state :=
  for_range (i + 1) n (sqr_offdiag a n i) (sqr_diag a i s).

Definition bf_sqr (r a : ptr) (s : state) : state :=
  let nz := get_nlimbs s a in
  let n := Z.to_nat nz in
  let s := memset_scratch (2 * n + 2) s in
  let s := for_loop n (sqr_row a n) s in
  let s := extract_result r n s in
  let s := set_nlimbs r nz s in
  let s := set_sign r (if get_sign s a =? 0 then 0 else 1) s in
  normalize_zero r s.

(** ** Escape test *)

Definition mag_sq (re_d im_d : double) : double :=
  Dbl.add (Dbl.mul re_d re_d) (Dbl.mul im_d im_d).

Definition bf_escaped (re im : ptr) (threshold : double) (s : state) : bool :=
  if get_nlimbs s re =? 0 then false
  else Dbl.gtb (mag_sq (bf_to_d re s) (bf_to_d im s)) threshold.

(** ** Decimal parsing *)

Definition is_digit (c : ascii) : bool :=
  (48 <=? Z.of_N (N_of_ascii c)) && (Z.of_N (N_of_ascii c) <=? 57).

(** The digit's value, [c - '0']. *)
Definition digit_val (c : ascii) : Z := Z.of_N (N_of_ascii c) - 48.

(** Skip the leading spaces: [while (c == ' ') p++], [c] the character at [p]. *)
Fixpoint skip_spaces (p : string) : string :=
  match p with
  | String c p' => if Ascii.eqb c " " then skip_spaces p' else p
  | EmptyString => p
  end.

Definition parse_sign (p : string) : bool * string :=
  match p with
  | String c p' =>
      if Ascii.eqb c "-" then (true, p')
      else if Ascii.eqb c "+" then (false, p')
      else (false, p)
  | EmptyString => (false, p)
  end.

(** While [c] is a digit: [int_part = int_part * 10 + (c - '0'); p++]. *)
Fixpoint parse_int (int_part : double) (p : string) : double * string :=
  match p with
  | String c p' =>
      if is_digit c
      then parse_int (Dbl.add (Dbl.mul int_part Dbl.ten) (Dbl.of_Z (digit_val c))) p'
      else (int_part, p)
  | EmptyString => (int_part, p)
  end.

(** While [c] is a digit:
    [frac += (c - '0') * frac_scale; frac_scale *= 0.1; p++]. *)
Fixpoint parse_frac_digits (frac frac_scale : double) (p : string) : double :=
  match p with
  | String c p' =>
      if is_digit c
      then parse_frac_digits
             (Dbl.add frac (Dbl.mul (Dbl.of_Z (digit_val c)) frac_scale))
             (Dbl.mul frac_scale Dbl.tenth) p'
      else frac
  | EmptyString => frac
  end.

Definition parse_frac (p : string) : double :=
  match p with
  | String c p' =>
      if Ascii.eqb c "." then parse_frac_digits Dbl.zero Dbl.tenth p'
      else Dbl.zero
  | EmptyString => Dbl.zero
  end.

(** The double that [bf_from_str] hands to [bf_set_d], and the sign flag. *)
Definition parse_decimal (str : string) : bool * double :=
  let p := skip_spaces str in
  let '(negative, p) := parse_sign p in
  let '(int_part, p) := parse_int Dbl.zero p in
  let frac := parse_frac p in
  (negative, Dbl.add int_part frac).

Definition bf_from_str (r : ptr) (str : string) (n : Z) (s : state) : state :=
  let s := bf_zero r n s in
  let '(negative, d) := parse_decimal str in
  let s := bf_set_d r d n s in
  if negative then set_sign r (neg_int8 (get_sign s r)) s else s.

(** ** Stack storage *)

(** A local [BigFloat] lives at an address that nothing else uses; its
    contents are indeterminate until written, so the functions that declare
    locals take those contents as a parameter. *)
Definition alloca (uninit : BigFloat) (s : state) : ptr * state :=
  let p := fresh (dom (heap s)) in (p, store p uninit s).

Definition release (p : ptr) (s : state) : state :=
  mkState (delete p (heap s)) (scratch s).

Section WithStack.

Variable uninit : BigFloat.

(** ** Subtraction *)

Definition bf_sub (r a b : ptr) (s : state) : state :=
  let '(neg_b, s) := alloca uninit s in
  let s := bf_copy neg_b b s in
  let s := set_sign neg_b (neg_int8 (get_sign s neg_b)) s in
  let s := bf_add r a neg_b s in
  release neg_b s.

(** ** Mandelbrot iteration *)

(** The loop of [mandelbrot_step] that doubles [prod] in place. *)
Definition double_limbs (prod : ptr) (s : state) : state :=
  fst (for_loop (Z.to_nat (get_nlimbs s prod))
         (fun i '(s, carry) =>
            let val := Z.lor (to_dlimb (Z.shiftl (limb s prod i) 1)) carry in
            (set_limb prod i (to_limb val) s, Z.shiftr val 32))
         (s, 0)).

Definition mandelbrot_step (zr zi cr ci tmp1 tmp2 : ptr) (s : state) : state :=
  let s := bf_sqr tmp1 zr s in
  let s := bf_sqr tmp2 zi s in
  let '(prod, s) := alloca uninit s in
  let s := bf_mul prod zr zi s in
  let s := double_limbs prod s in
  let s := bf_add zi prod ci s in
  let s := bf_sub tmp1 tmp1 tmp2 s in
  let s := bf_add zr tmp1 cr s in
  release prod s.

(** The locals [cr, ci, zr, zi, tmp1, tmp2] of the three drivers. *)
Record frame := mkFrame {
  f_cr : ptr; f_ci : ptr; f_zr : ptr; f_zi : ptr; f_tmp1 : ptr; f_tmp2 : ptr
}.

Definition enter_frame (s : state) : frame * state :=
  let '(cr, s) := alloca uninit s in
  let '(ci, s) := alloca uninit s in
  let '(zr, s) := alloca uninit s in
  let '(zi, s) := alloca uninit s in
  let '(tmp1, s) := alloca uninit s in
  let '(tmp2, s) := alloca uninit s in
  (mkFrame cr ci zr zi tmp1 tmp2, s).

Definition leave_frame (f : frame) (s : state) : state :=
  release (f_cr f) (release (f_ci f) (release (f_zr f) (release (f_zi f)
    (release (f_tmp1 f) (release (f_tmp2 f) s))))).

Definition step_frame (f : frame) (s : state) : state :=
  mandelbrot_step (f_zr f) (f_zi f) (f_cr f) (f_ci f) (f_tmp1 f) (f_tmp2 f) s.

(** The statements that precede the loop in [mandelbrot_iterate] and in
    [compute_reference_orbit]: parse, [z = 0], set the scratch operands'
    limb counts. *)
Definition orbit_prologue (f : frame) (cr_str ci_str : string)
    (precision_limbs : Z) (s : state) : state :=
  let s := bf_from_str (f_cr f) cr_str precision_limbs s in
  let s := bf_from_str (f_ci f) ci_str precision_limbs s in
  let s := bf_zero (f_zr f) precision_limbs s in
  let s := bf_zero (f_zi f) precision_limbs s in
  let s := set_nlimbs (f_tmp1 f) precision_limbs s in
  set_nlimbs (f_tmp2 f) precision_limbs s.

(** [for (int i = 0; i < max_iter; i++)] of [mandelbrot_iterate]; [k] is the
    number of turns left and [i] the loop index. *)
Fixpoint mandelbrot_iterate_loop (f : frame) (max_iter : Z) (k : nat) (i : Z)
    (s : state) : Z * state :=
  match k with
  | O => (max_iter, s)
  | S k' =>
      if bf_escaped (f_zr f) (f_zi f) Dbl.four s then (i, s)
      else mandelbrot_iterate_loop f max_iter k' (i + 1) (step_frame f s)
  end.

Definition mandelbrot_iterate (cr_str ci_str : string)
    (max_iter precision_limbs : Z) (s : state) : Z * state :=
  let '(f, s) := enter_frame s in
  let s := orbit_prologue f cr_str ci_str precision_limbs s in
  let '(ret, s) := mandelbrot_iterate_loop f max_iter (Z.to_nat max_iter) 0 s in
  (ret, leave_frame f s).

(** ** Reference orbits *)

(** The caller's output buffers: [orbit_re_out], [orbit_im_out] (each of
    [max_iter + 1] doubles) and the cell [escape_iter] points to.  They are
    distinct objects that do not overlap. *)
Record orbit_out := mkOrbit {
  orbit_re_out : list double;
  orbit_im_out : list double;
  escape_iter : Z
}.

Definition dbl_at (l : list double) (i : nat) : double :=
  default Dbl.zero (l !! i).

Fixpoint compute_reference_orbit_loop (f : frame) (max_iter : Z) (k i : nat)
    (o : orbit_out) (s : state) : Z * orbit_out * state :=
  match k with
  | O => (max_iter, o, s)
  | S k' =>
      let s := step_frame f s in
      let zr_d := bf_to_d (f_zr f) s in
      let zi_d := bf_to_d (f_zi f) s in
      let o := mkOrbit (<[S i := zr_d]> (orbit_re_out o))
                       (<[S i := zi_d]> (orbit_im_out o)) (escape_iter o) in
      if Dbl.gtb (mag_sq zr_d zi_d) Dbl.ten16 then
        (Z.of_nat i + 1,
         mkOrbit (orbit_re_out o) (orbit_im_out o) (Z.of_nat i + 1), s)
      else compute_reference_orbit_loop f max_iter k' (S i) o s
  end.

Definition compute_reference_orbit (cr_str ci_str : string)
    (max_iter precision_limbs : Z) (o : orbit_out) (s : state)
  : Z * orbit_out * state :=
  let '(f, s) := enter_frame s in
  let s := orbit_prologue f cr_str ci_str precision_limbs s in
  let o := mkOrbit (<[O := Dbl.zero]> (orbit_re_out o))
                   (<[O := Dbl.zero]> (orbit_im_out o)) (-1) in
  let '(ret, o, s) :=
    compute_reference_orbit_loop f max_iter (Z.to_nat max_iter) 0 o s in
  (ret, o, leave_frame f s).

(** The buffers of [compute_reference_orbit_extended]. *)
Record orbit_ext := mkOrbitExt {
  x_re : list double;      (* orbit_re_out *)
  x_im : list double;      (* orbit_im_out *)
  x_z2_re : list double;   (* orbit_z2_re_out *)
  x_z2_im : list double;   (* orbit_z2_im_out *)
  x_escape : Z             (* *escape_iter *)
}.

Fixpoint compute_reference_orbit_extended_loop (f : frame) (z2r z2i : ptr)
    (max_iter : Z) (k i : nat) (o : orbit_ext) (s : state)
  : Z * orbit_ext * state :=
  match k with
  | O => (max_iter, o, s)
  | S k' =>
      let s := bf_sqr z2r (f_zr f) s in
      let s := bf_sqr z2i (f_zi f) s in
      let s := step_frame f s in
      let zr_d := bf_to_d (f_zr f) s in
      let zi_d := bf_to_d (f_zi f) s in
      let re := <[S i := zr_d]> (x_re o) in
      let im := <[S i := zi_d]> (x_im o) in
      let z2r_d := bf_to_d z2r s in
      let z2i_d := bf_to_d z2i s in
      let z2_re := <[S i := Dbl.sub z2r_d z2i_d]> (x_z2_re o) in
      let z2_im :=
        <[S i := Dbl.mul (Dbl.mul Dbl.two (dbl_at re i)) (dbl_at im i)]>
          (x_z2_im o) in
      if Dbl.gtb (mag_sq zr_d zi_d) Dbl.ten16 then
        (Z.of_nat i + 1, mkOrbitExt re im z2_re z2_im (Z.of_nat i + 1), s)
      else
        compute_reference_orbit_extended_loop f z2r z2i max_iter k' (S i)
          (mkOrbitExt re im z2_re z2_im (x_escape o)) s
  end.

Definition compute_reference_orbit_extended (cr_str ci_str : string)
    (max_iter precision_limbs : Z) (o : orbit_ext) (s : state)
  : Z * orbit_ext * state :=
  let '(f, s) := enter_frame s in
  let '(z2r, s) := alloca uninit s in
  let '(z2i, s) := alloca uninit s in
  let s := orbit_prologue f cr_str ci_str precision_limbs s in
  let s := set_nlimbs z2r precision_limbs s in
  let s := set_nlimbs z2i precision_limbs s in
  let o := mkOrbitExt (<[O := Dbl.zero]> (x_re o)) (<[O := Dbl.zero]> (x_im o))
             (<[O := Dbl.zero]> (x_z2_re o)) (<[O := Dbl.zero]> (x_z2_im o))
             (-1) in
  let '(ret, o, s) :=
    compute_reference_orbit_extended_loop f z2r z2i max_iter
      (Z.to_nat max_iter) 0 o s in
  (ret, o, release z2i (release z2r (leave_frame f s))).

End WithStack.

(** ** Tiles *)

(** [float] is IEEE 754 binary32: 24 bits of precision. *)
Definition float := spec_float.

Module Flt.

Definition prec : Z := 24.
Definition emax : Z := 128.

(** [(float)i] for an [int] [i], round to nearest even. *)
Definition of_Z (z : Z) : float := binary_normalize prec emax z 0 false.

(** [(float)d] for a [double] [d], round to nearest even. *)
Definition of_double (d : double) : float :=
  match d with
  | S754_finite sg m e => binary_round prec emax sg m e
  | _ => d
  end.

End Flt.

(** The literal [0.5]. *)
Definition dbl_half : double := Dbl.of_bits 1 (-1).

(** [((double)p - tile_size * 0.5) / tile_size] *)
Definition pixel_norm (p tile_size : Z) : double :=
  Dbl.div (Dbl.sub (Dbl.of_Z p) (Dbl.mul (Dbl.of_Z tile_size) dbl_half))
          (Dbl.of_Z tile_size).

(** The locals of [mandelbrot_tile] that live for the whole call. *)
Record tile_locals := mkTile {
  t_center_r : ptr; t_center_i : ptr; t_scale : ptr;
  t_frame : frame;               (* cr, ci, zr, zi, tmp1, tmp2 *)
  t_pixel_offset : ptr
}.

Section Tile.

Variable uninit : BigFloat.

(** [log] of the C library, which the source does not define. *)
Variable log : double -> double.

(** [for (iter = 0; iter < max_iter; iter++)] with its [break]; [k] is the
    number of turns left, the result is [iter] after the loop. *)
Fixpoint tile_iterate_loop (f : frame) (k : nat) (iter : Z) (s : state)
  : Z * state :=
  match k with
  | O => (iter, s)
  | S k' =>
      if bf_escaped (f_zr f) (f_zi f) Dbl.four s then (iter, s)
      else tile_iterate_loop f k' (iter + 1) (step_frame uninit f s)
  end.

(** The smooth-colouring value stored for a pixel that escaped. *)
Definition smooth (iter : Z) (zr_d zi_d : double) : float :=
  let m := mag_sq zr_d zi_d in
  let log_zn := Dbl.mul dbl_half (log m) in
  let nu := Dbl.div (log (Dbl.div log_zn (log Dbl.two))) (log Dbl.two) in
  Flt.of_double (Dbl.sub (Dbl.of_Z (iter + 1)) nu).

(** The body of the two pixel loops. *)
Definition tile_pixel (t : tile_locals) (tile_size max_iter precision_limbs : Z)
    (py px : nat) (acc : list float * state) : list float * state :=
  let '(out, s) := acc in
  let f := t_frame t in
  let px_norm := pixel_norm (Z.of_nat px) tile_size in
  let py_norm := pixel_norm (Z.of_nat py) tile_size in
  let s := bf_copy (f_cr f) (t_center_r t) s in
  let s := bf_copy (f_ci f) (t_center_i t) s in
  let s := bf_set_d (t_pixel_offset t) px_norm precision_limbs s in
  let '(tmp, s) := alloca uninit s in
  let s := bf_mul tmp (t_pixel_offset t) (t_scale t) s in
  let s := bf_add (f_cr f) (f_cr f) tmp s in
  let s := bf_set_d (t_pixel_offset t) py_norm precision_limbs s in
  let s := bf_mul tmp (t_pixel_offset t) (t_scale t) s in
  let s := bf_add (f_ci f) (f_ci f) tmp s in
  let s := bf_zero (f_zr f) precision_limbs s in
  let s := bf_zero (f_zi f) precision_limbs s in
  let '(iter, s) := tile_iterate_loop f (Z.to_nat max_iter) 0 s in
  let v :=
    if iter <? max_iter
    then smooth iter (bf_to_d (f_zr f) s) (bf_to_d (f_zi f) s)
    else Flt.of_Z max_iter in
  (<[Z.to_nat (Z.of_nat py * tile_size + Z.of_nat px) := v]> out,
   release tmp s).

(** [iterations_out] is the caller's buffer of [tile_size * tile_size]
    floats; a store past its end is undefined in C and does nothing here. *)
Definition mandelbrot_tile (center_r_str center_i_str scale_str : string)
    (tile_size max_iter precision_limbs : Z) (iterations_out : list float)
    (s : state) : list float * state :=
  let '(center_r, s) := alloca uninit s in
  let '(center_i, s) := alloca uninit s in
  let '(scale, s) := alloca uninit s in
  let '(f, s) := enter_frame uninit s in
  let '(pixel_offset, s) := alloca uninit s in
  let t := mkTile center_r center_i scale f pixel_offset in
  let s := bf_from_str center_r center_r_str precision_limbs s in
  let s := bf_from_str center_i center_i_str precision_limbs s in
  let s := bf_from_str scale scale_str precision_limbs s in
  let '(out, s) :=
    for_loop (Z.to_nat tile_size)
      (fun py acc =>
         for_loop (Z.to_nat tile_size)
           (tile_pixel t tile_size max_iter precision_limbs py) acc)
      (iterations_out, s) in
  (out,
   release center_r (release center_i (release scale
     (leave_frame f (release pixel_offset s))))).

End Tile.

(** ** Vocabulary of the statements *)

(** The magnitude held in the first [n] limbs at [p]: limb [i] weighs
    [2^(32 i)]. *)
Fixpoint magnitude (s : state) (p : ptr) (n : nat) : Z :=
  match n with
  | O => 0
  | S k => magnitude s p k + limb s p k * 2 ^ (32 * Z.of_nat k)
  end.

(** The same over the scratch array. *)
Fixpoint scratch_value (s : state) (n : nat) : Z :=
  match n with
  | O => 0
  | S k => scratch_value s k + scr s k * 2 ^ (32 * Z.of_nat k)
  end.

(** Every one of the first [n] limbs at [p] is a [uint32_t]. *)
Definition limbs_in_range (s : state) (p : ptr) (n : nat) : Prop :=
  forall i, (i < n)%nat -> 0 <= limb s p i < 2 ^ 32.

(** What is left of the text once [bf_from_str] has consumed the spaces, the
    sign and the integer digits; it is empty exactly when the text ended
    before or inside the integer part. *)
Definition rest_after_int (str : string) : string :=
  snd (parse_int Dbl.zero (snd (parse_sign (skip_spaces str)))).

(** Every struct on [s]'s heap that is in use. *)
Definition allocated (s : state) (p : ptr) : Prop := is_Some (heap s !! p).

(** The six locals of a driver are different structs, all in use. *)
Definition frame_ptrs (f : frame) : list ptr :=
  [f_cr f; f_ci f; f_zr f; f_zi f; f_tmp1 f; f_tmp2 f].

Definition frame_live (f : frame) (s : state) : Prop :=
  NoDup (frame_ptrs f) /\ Forall (allocated s) (frame_ptrs f).

(** The two squarings that open a turn of the loop of
    [compute_reference_orbit_extended], and the whole turn's effect on the
    state. *)
Definition ext_squares (f : frame) (z2r z2i : ptr) (s : state) : state :=
  bf_sqr z2i (f_zi f) (bf_sqr z2r (f_zr f) s).

Definition ext_turn (u : BigFloat) (f : frame) (z2r z2i : ptr) (s : state)
  : state :=
  step_frame u f (ext_squares f z2r z2i s).

(** The schoolbook fixed-point product as the specification words it: of the
    [2 n]-limb product of the magnitudes, the [n]-limb window that starts 4
    bits below the upper [n] limbs, i.e. bits [32 n - 4 .. 64 n - 5]. *)
Definition spec_product (n : nat) (ma mb : Z) : Z :=
  (ma * mb / 2 ^ (32 * Z.of_nat n - 4)) mod 2 ^ (32 * Z.of_nat n).

(** The sign of the product: zero when an operand is zero or the stored
    magnitude is, else positive for equal signs and negative otherwise. *)
Definition spec_product_sign (sa sb : Z) (zero_magnitude : bool) : Z :=
  if (sa =? 0) || (sb =? 0) || zero_magnitude then 0
  else if sa =? sb then 1 else -1.

(** The accumulation state of [bf_mul_schoolbook] at the start of a row or
    inside one: [x] keeps the heap and the scratch length of [s0], and its
    first [2 n] scratch cells are limbs. *)
Definition acc_ok (s0 x : state) (n : nat) : Prop :=
  heap x = heap s0 /\
  length (scratch x) = length (scratch s0) /\
  forall k, (k < 2 * n)%nat -> 0 <= scr x k < 2 ^ 32.

(** [s'] agrees with [s] on every struct outside [W], and no storage that
    [s] has is gone in [s']. *)
Definition frame_rel (W : gset ptr) (s s' : state) : Prop :=
  (forall p, p ∉ W -> heap s' !! p = heap s !! p) /\
  (forall p, allocated s p -> allocated s' p).

(** [s'] has the limb counts and the signs of [s]. *)
Definition hdr_same (s s' : state) : Prop :=
  forall p, get_nlimbs s' p = get_nlimbs s p /\ get_sign s' p = get_sign s p.

(** What one turn of the extraction loop stores at limb [i]. *)
Definition extracted_limb (x : state) (n i : nat) : Z :=
  to_limb
    (if (0 <? n + i)%nat
     then Z.lor (to_dlimb (Z.shiftl (scr x (n + i)) 4))
                (Z.shiftr (scr x (n + i - 1)) 28)
     else to_dlimb (Z.shiftl (scr x (n + i)) 4)).

(** The signed integer a struct stands for, in units of the last fraction
    bit: sign times magnitude. *)
Definition value (s : state) (p : ptr) (n : nat) : Z :=
  get_sign s p * magnitude s p n.

(** A well-formed [n]-limb operand: its limb count is [n], its limbs are
    [uint32_t] values, its sign is 1, -1 or 0, and the sign is 0 exactly when
    the magnitude is. *)
Definition bf_valid (s : state) (p : ptr) (n : nat) : Prop :=
  get_nlimbs s p = Z.of_nat n /\
  limbs_in_range s p n /\
  (get_sign s p = 0 \/ get_sign s p = 1 \/ get_sign s p = -1) /\
  (get_sign s p = 0 <-> magnitude s p n = 0).

(** [s'] has the array lengths of [s]: no limb array and not the scratch
    array changes size. *)
Definition len_same (s s' : state) : Prop :=
  (forall p, length (limbs (deref s' p)) = length (limbs (deref s p))) /\
  length (scratch s') = length (scratch s).

(** ** Sample states for evaluating the code *)

Module Demo.

(** Storage that was used before: nonzero limbs everywhere. *)
Definition dirty : BigFloat := mkBigFloat (replicate BF_MAX_LIMBS 3735928559) 7 1.

Definition r : ptr := 1%positive.
Definition a : ptr := 2%positive.
Definition r' : ptr := 3%positive.

Definition s0 : state :=
  mkState {[ r := dirty ]} (replicate (2 * BF_MAX_LIMBS + 2) 3735928559).

(** 2^-29 and 2^-33: one significant bit each, magnitude below 16. *)
Definition small : double := Dbl.of_bits 1 (-29).
Definition smaller : double := Dbl.of_bits 1 (-33).

(** The two-limb value [0x10000000 FFFFFFFF], about 1.0000000037. *)
Definition near_one : BigFloat :=
  mkBigFloat ([4294967295; 268435456] ++ replicate 126 0) 2 1.

Definition s1 : state :=
  mkState {[ a := near_one; r := dirty; r' := dirty ]}
          (replicate (2 * BF_MAX_LIMBS + 2) 3735928559).

(** Two one-limb operands whose sum carries out of the top limb. *)
Definition b : ptr := 4%positive.
Definition s2 : state :=
  mkState {[ a := mkBigFloat (4026531840 :: replicate 127 0) 1 1;
             b := mkBigFloat (536870912 :: replicate 127 0) 1 1;
             r := dirty ]}
          (replicate (2 * BF_MAX_LIMBS + 2) 0).

(** Two 17-limb operands (above the Karatsuba threshold), both about 1. *)
Definition s17 : state :=
  mkState {[ a := mkBigFloat (replicate 16 4294967295 ++ 268435455
                                :: replicate 111 0) 17 1;
             b := mkBigFloat (replicate 16 1 ++ 268435456
                                :: replicate 111 0) 17 (-1);
             r := dirty ]}
          (replicate (2 * BF_MAX_LIMBS + 2) 3735928559).

(** The six locals of a driver after its prologue, for [c = 0.5 + 0.25 i] at
    two limbs. *)
Definition f0 : frame := fst (enter_frame dirty s0).
Definition s3 : state :=
  orbit_prologue f0 "0.5" "0.25" 2 (snd (enter_frame dirty s0)).

(** The same after one step: [z = c]. *)
Definition s4 : state := step_frame dirty f0 s3.

End Demo.

(** * Properties *)

(** ** Loops and the state accessors *)

Lemma for_loop_0 {A} (body : nat -> A -> A) (init : A) :
  for_loop 0 body init = init.
Proof. reflexivity. Qed.

Lemma for_loop_S {A} (n : nat) (body : nat -> A -> A) (init : A) :
  for_loop (S n) body init = body n (for_loop n body init).
Proof. unfold for_loop. rewrite seq_S, fold_left_app. reflexivity. Qed.

(** Loop invariants: [P i acc] holds before turn [i]. *)
Lemma for_loop_ind {A} (P : nat -> A -> Prop) (n : nat)
    (body : nat -> A -> A) (init : A) :
  P 0%nat init ->
  (forall i acc, (i < n)%nat -> P i acc -> P (S i) (body i acc)) ->
  P n (for_loop n body init).
Proof.
  intros H0 HS. induction n as [|n IH].
  - exact H0.
  - rewrite for_loop_S. apply HS; [lia|]. apply IH.
    intros i acc Hi. apply HS. lia.
Qed.

Lemma for_range_ind {A} (P : nat -> A -> Prop) (lo n : nat)
    (body : nat -> A -> A) (init : A) :
  P lo init ->
  (forall j acc, (lo <= j < n)%nat -> P j acc -> P (S j) (body j acc)) ->
  P (lo + (n - lo))%nat (for_range lo n body init).
Proof.
  intros H0 HS. unfold for_range.
  assert (Hle : (lo + (n - lo) <= Nat.max lo n)%nat) by lia.
  revert Hle. generalize (n - lo)%nat as m. intros m.
  induction m as [|m IH]; intros Hle.
  - rewrite Nat.add_0_r. exact H0.
  - rewrite seq_S, fold_left_app. simpl.
    replace (lo + S m)%nat with (S (lo + m)) by lia.
    apply HS; [lia|]. apply IH. lia.
Qed.

Lemma deref_store (p q : ptr) (v : BigFloat) (s : state) :
  deref (store p v s) q = if decide (p = q) then v else deref s q.
Proof.
  unfold deref, store. simpl. rewrite lookup_insert.
  destruct (decide (p = q)); reflexivity.
Qed.

Lemma scratch_store (p : ptr) (v : BigFloat) (s : state) :
  scratch (store p v s) = scratch s.
Proof. reflexivity. Qed.

Lemma deref_set_scr (i : nat) (v : Z) (s : state) (p : ptr) :
  deref (set_scr i v s) p = deref s p.
Proof. reflexivity. Qed.

(** ** The double constants *)

Example tenth_is_one_tenth : Dbl.div Dbl.one Dbl.ten = Dbl.tenth.
Proof. reflexivity. Qed.

Example ten16_is_exact : Dbl.ten16 = S754_finite false 5000000000000000 1.
Proof. reflexivity. Qed.

Example trunc_toward_zero :
  Dbl.trunc (Dbl.of_bits 7 (-1)) = 3 /\ Dbl.trunc (Dbl.of_bits (-7) (-1)) = -3.
Proof. split; reflexivity. Qed.

(** ** C1, C2: [bf_set_d] on a small double *)


(** C1 (the code departs from the claim).  The doubles 2^-29 and 2^-33 have
    a single significant bit and magnitude below 16.  With two limbs,
    [bf_set_d] stores all-zero limbs for 2^-29 and [bf_to_d] gives back +0.0;
    for 2^-33 it stores [2^31] in limb 0 and [bf_to_d] gives back 0.5.  The
    round trip returns neither double. *)
Theorem bf_set_d_to_d_small_double :
  let s' := bf_set_d Demo.r Demo.small 2 Demo.s0 in
  let s'' := bf_set_d Demo.r Demo.smaller 2 Demo.s0 in
  Demo.small = S754_finite false 4503599627370496 (-81) /\
  take 2 (limbs (deref s' Demo.r)) = [0; 0] /\
  bf_to_d Demo.r s' = S754_zero false /\
  Dbl.eqb (bf_to_d Demo.r s') Demo.small = false /\
  Demo.smaller = S754_finite false 4503599627370496 (-85) /\
  take 2 (limbs (deref s'' Demo.r)) = [2147483648; 0] /\
  bf_to_d Demo.r s'' = Dbl.of_bits 1 (-1) /\
  Dbl.eqb (bf_to_d Demo.r s'') Demo.smaller = false.
Proof. vm_compute. repeat split. Qed.

(** C2 (the code departs from the claim).  On the same input [bf_set_d]
    leaves the sign at 1 although every active limb is 0; [bf_add],
    [bf_mul_schoolbook] and [bf_sqr] end with a zero check that [bf_set_d]
    lacks.  [bf_from_str] inherits the behaviour. *)
Theorem bf_set_d_sign_not_normalized :
  let s' := bf_set_d Demo.r Demo.small 2 Demo.s0 in
  get_nlimbs s' Demo.r = 2 /\
  bf_is_zero Demo.r s' = true /\
  get_sign s' Demo.r = 1 /\
  let s'' := bf_from_str Demo.r "0.000000001" 1 Demo.s0 in
  get_nlimbs s'' Demo.r = 1 /\
  bf_is_zero Demo.r s'' = true /\
  get_sign s'' Demo.r = 1.
Proof. vm_compute. repeat split. Qed.

(** C3 (the code departs from the claim).  For the two-limb value
    [0x10000000 FFFFFFFF] (about 1.0000000037) [bf_sqr] and [bf_mul] of the
    value with itself store different limbs: the scratch cell 2 is one short
    in [bf_sqr], which loses the carry out of the 32-bit sum
    [scratch[1] + (limb_t)prod].  The limbs of [bf_mul] are those of the
    exact product; the limbs of [bf_sqr] are not. *)
Theorem bf_sqr_differs_from_bf_mul :
  let sq := bf_sqr Demo.r Demo.a Demo.s1 in
  let ml := bf_mul Demo.r' Demo.a Demo.a Demo.s1 in
  take 2 (limbs (deref sq Demo.r)) = [4294967293; 268435457] /\
  take 2 (limbs (deref ml Demo.r')) = [13; 268435458] /\
  take 4 (scratch sq) = [1; 3758096382; 536870911; 16777216] /\
  take 4 (scratch ml) = [1; 3758096382; 536870912; 16777216] /\
  get_sign sq Demo.r = get_sign ml Demo.r' /\
  get_nlimbs sq Demo.r = get_nlimbs ml Demo.r' /\
  magnitude ml Demo.r' 2
  = spec_product 2 (magnitude Demo.s1 Demo.a 2) (magnitude Demo.s1 Demo.a 2) /\
  magnitude sq Demo.r 2
  <> spec_product 2 (magnitude Demo.s1 Demo.a 2) (magnitude Demo.s1 Demo.a 2).
Proof. vm_compute. repeat split. discriminate. Qed.

(** ** Footprints *)

Lemma frame_rel_refl W s : frame_rel W s s.
Proof. split; auto. Qed.

Lemma frame_rel_trans W s1 s2 s3 :
  frame_rel W s1 s2 -> frame_rel W s2 s3 -> frame_rel W s1 s3.
Proof.
  intros [H1 A1] [H2 A2]. split.
  - intros p Hp. rewrite H2, H1; auto.
  - auto.
Qed.

Lemma frame_rel_weaken W W' s s' :
  W ⊆ W' -> frame_rel W s s' -> frame_rel W' s s'.
Proof. intros Hsub [H A]. split; [|exact A]. intros p Hp. apply H. set_solver. Qed.

Lemma frame_rel_deref W s s' p :
  frame_rel W s s' -> p ∉ W -> deref s' p = deref s p.
Proof. intros [H _] Hp. unfold deref. rewrite H; auto. Qed.

Lemma hdr_same_refl s : hdr_same s s.
Proof. intros p. split; reflexivity. Qed.

Lemma hdr_same_trans s1 s2 s3 :
  hdr_same s1 s2 -> hdr_same s2 s3 -> hdr_same s1 s3.
Proof.
  intros H1 H2 p. destruct (H1 p) as [A B]. destruct (H2 p) as [C D].
  split; congruence.
Qed.

Section Preorder.

Variable R : state -> state -> Prop.
Hypothesis R_refl : forall s, R s s.
Hypothesis R_trans : forall s1 s2 s3, R s1 s2 -> R s2 s3 -> R s1 s3.

Lemma for_loop_rel (n : nat) (body : nat -> state -> state) (s : state) :
  (forall i x, R x (body i x)) -> R s (for_loop n body s).
Proof.
  intros Hb. apply (for_loop_ind (fun _ x => R s x)); [apply R_refl|].
  intros i x _ Hx. eapply R_trans; [exact Hx | apply Hb].
Qed.

Lemma for_loop_fst_rel {C} (n : nat) (body : nat -> state * C -> state * C)
    (s : state) (c : C) :
  (forall i x c', R x (fst (body i (x, c')))) ->
  R s (fst (for_loop n body (s, c))).
Proof.
  intros Hb. apply (for_loop_ind (fun _ x => R s (fst x))); [apply R_refl|].
  intros i [x c'] _ Hx. eapply R_trans; [exact Hx | apply Hb].
Qed.

Lemma for_range_rel (lo n : nat) (body : nat -> state -> state) (s : state) :
  (forall i x, R x (body i x)) -> R s (for_range lo n body s).
Proof.
  intros Hb. apply (for_range_ind (fun _ x => R s x)); [apply R_refl|].
  intros i x _ Hx. eapply R_trans; [exact Hx | apply Hb].
Qed.

End Preorder.

Lemma frame_for_loop W n body s :
  (forall i x, frame_rel W x (body i x)) -> frame_rel W s (for_loop n body s).
Proof.
  apply (for_loop_rel (frame_rel W));
    [apply frame_rel_refl | apply frame_rel_trans].
Qed.

Lemma frame_for_loop_fst {C} W n (body : nat -> state * C -> state * C) s c :
  (forall i x c', frame_rel W x (fst (body i (x, c')))) ->
  frame_rel W s (fst (for_loop n body (s, c))).
Proof.
  apply (for_loop_fst_rel (frame_rel W));
    [apply frame_rel_refl | apply frame_rel_trans].
Qed.

Lemma frame_for_range W lo n body s :
  (forall i x, frame_rel W x (body i x)) ->
  frame_rel W s (for_range lo n body s).
Proof.
  apply (for_range_rel (frame_rel W));
    [apply frame_rel_refl | apply frame_rel_trans].
Qed.

Lemma frame_for_range_from W lo n body s s0 :
  frame_rel W s0 s ->
  (forall i x, frame_rel W x (body i x)) ->
  frame_rel W s0 (for_range lo n body s).
Proof.
  intros H Hb. eapply frame_rel_trans; [exact H | apply frame_for_range, Hb].
Qed.

Lemma hdr_for_loop n body s :
  (forall i x, hdr_same x (body i x)) -> hdr_same s (for_loop n body s).
Proof.
  apply (for_loop_rel hdr_same); [apply hdr_same_refl | apply hdr_same_trans].
Qed.

Lemma hdr_for_loop_fst {C} n (body : nat -> state * C -> state * C) s c :
  (forall i x c', hdr_same x (fst (body i (x, c')))) ->
  hdr_same s (fst (for_loop n body (s, c))).
Proof.
  apply (for_loop_fst_rel hdr_same);
    [apply hdr_same_refl | apply hdr_same_trans].
Qed.

Lemma hdr_for_range lo n body s :
  (forall i x, hdr_same x (body i x)) -> hdr_same s (for_range lo n body s).
Proof.
  apply (for_range_rel hdr_same); [apply hdr_same_refl | apply hdr_same_trans].
Qed.

Lemma frame_rel_store r v s W : r ∈ W -> frame_rel W s (store r v s).
Proof.
  intros Hr. split.
  - intros p Hp. unfold store; simpl. apply lookup_insert_ne. set_solver.
  - intros p [x Hx]. unfold allocated, store; simpl. rewrite lookup_insert.
    destruct (decide (r = p)); eauto.
Qed.

Lemma frame_rel_set_limb r i v s W : r ∈ W -> frame_rel W s (set_limb r i v s).
Proof. apply frame_rel_store. Qed.

Lemma frame_rel_set_nlimbs r n s W : r ∈ W -> frame_rel W s (set_nlimbs r n s).
Proof. apply frame_rel_store. Qed.

Lemma frame_rel_set_sign r sg s W : r ∈ W -> frame_rel W s (set_sign r sg s).
Proof. apply frame_rel_store. Qed.

Lemma frame_rel_set_scr i v s W : frame_rel W s (set_scr i v s).
Proof. split; auto. Qed.

Lemma hdr_same_set_limb r i v s : hdr_same s (set_limb r i v s).
Proof.
  intros p. unfold get_nlimbs, get_sign, set_limb. rewrite deref_store.
  destruct (decide (r = p)) as [->|]; split; reflexivity.
Qed.

Lemma hdr_same_set_scr i v s : hdr_same s (set_scr i v s).
Proof. intros p. split; reflexivity. Qed.

Lemma get_sign_set_sign r sg s p :
  get_sign (set_sign r sg s) p = if decide (r = p) then sg else get_sign s p.
Proof.
  unfold get_sign, set_sign. rewrite deref_store.
  destruct (decide (r = p)) as [->|]; reflexivity.
Qed.

Lemma get_nlimbs_set_sign r sg s p :
  get_nlimbs (set_sign r sg s) p = get_nlimbs s p.
Proof.
  unfold get_nlimbs, set_sign. rewrite deref_store.
  destruct (decide (r = p)) as [->|]; reflexivity.
Qed.

Lemma get_sign_set_nlimbs r n s p :
  get_sign (set_nlimbs r n s) p = get_sign s p.
Proof.
  unfold get_sign, set_nlimbs. rewrite deref_store.
  destruct (decide (r = p)) as [->|]; reflexivity.
Qed.

Lemma get_nlimbs_set_nlimbs r n s p :
  get_nlimbs (set_nlimbs r n s) p = if decide (r = p) then n else get_nlimbs s p.
Proof.
  unfold get_nlimbs, set_nlimbs. rewrite deref_store.
  destruct (decide (r = p)) as [->|]; reflexivity.
Qed.

Lemma limb_set_sign r sg s p i : limb (set_sign r sg s) p i = limb s p i.
Proof.
  unfold limb, set_sign. rewrite deref_store.
  destruct (decide (r = p)) as [->|]; reflexivity.
Qed.

Lemma limb_set_nlimbs r n s p i : limb (set_nlimbs r n s) p i = limb s p i.
Proof.
  unfold limb, set_nlimbs. rewrite deref_store.
  destruct (decide (r = p)) as [->|]; reflexivity.
Qed.

Lemma limb_set_scr k v s p i : limb (set_scr k v s) p i = limb s p i.
Proof. reflexivity. Qed.

Lemma limb_set_limb_eq r i v s :
  (i < length (limbs (deref s r)))%nat -> limb (set_limb r i v s) r i = v.
Proof.
  intros Hi. unfold limb, set_limb. rewrite deref_store.
  destruct (decide (r = r)); [|congruence]. simpl.
  rewrite list_lookup_insert_eq; auto.
Qed.

Lemma limb_set_limb_ne r i v s p j :
  r <> p \/ i <> j -> limb (set_limb r i v s) p j = limb s p j.
Proof.
  intros Hne. unfold limb, set_limb. rewrite deref_store.
  destruct (decide (r = p)) as [->|]; [|reflexivity]. simpl.
  rewrite list_lookup_insert_ne; [reflexivity|]. destruct Hne; congruence.
Qed.

Lemma length_limbs_set_limb r i v s p :
  length (limbs (deref (set_limb r i v s) p)) = length (limbs (deref s p)).
Proof.
  unfold set_limb. rewrite deref_store.
  destruct (decide (r = p)) as [->|]; [|reflexivity]. simpl.
  apply length_insert.
Qed.

(** Footprints of the arithmetic functions: each writes the struct at [r]
    (and the scratch array) and nothing else on the heap. *)

(** Peel the outermost field write off the final state. *)
Ltac frame_peel :=
  match goal with
  | |- frame_rel ?W ?s (set_sign ?r ?v ?x) =>
      apply (frame_rel_trans W s x);
      [| apply frame_rel_set_sign; set_solver]
  | |- frame_rel ?W ?s (set_nlimbs ?r ?v ?x) =>
      apply (frame_rel_trans W s x);
      [| apply frame_rel_set_nlimbs; set_solver]
  | |- frame_rel ?W ?s (set_limb ?r ?i ?v ?x) =>
      apply (frame_rel_trans W s x);
      [| apply frame_rel_set_limb; set_solver]
  | |- frame_rel ?W ?s (set_scr ?i ?v ?x) =>
      apply (frame_rel_trans W s x); [| apply frame_rel_set_scr]
  end.

Lemma frame_rel_memset_limbs r n s : frame_rel {[r]} s (memset_limbs r n s).
Proof.
  apply frame_for_loop. intros. apply frame_rel_set_limb. set_solver.
Qed.

Lemma frame_rel_bf_zero r n s : frame_rel {[r]} s (bf_zero r n s).
Proof.
  unfold bf_zero. do 2 frame_peel. apply frame_rel_memset_limbs.
Qed.

Lemma frame_rel_bf_copy r a s : frame_rel {[r]} s (bf_copy r a s).
Proof.
  unfold bf_copy. do 2 frame_peel.
  apply frame_for_loop. intros. apply frame_rel_set_limb. set_solver.
Qed.

Lemma frame_rel_bf_add_mag r a b s : frame_rel {[r]} s (bf_add_mag r a b s).
Proof.
  unfold bf_add_mag.
  apply frame_for_loop_fst. intros i x c. simpl.
  apply frame_rel_set_limb. set_solver.
Qed.

Lemma frame_rel_bf_sub_mag r a b s : frame_rel {[r]} s (bf_sub_mag r a b s).
Proof.
  unfold bf_sub_mag.
  apply frame_for_loop_fst. intros i x c. simpl.
  destruct (limb x a i - limb x b i - c <? 0); simpl;
    apply frame_rel_set_limb; set_solver.
Qed.

Lemma frame_rel_normalize_zero r s : frame_rel {[r]} s (normalize_zero r s).
Proof.
  unfold normalize_zero. destruct (bf_is_zero r s); [|apply frame_rel_refl].
  apply frame_rel_set_sign. set_solver.
Qed.

(** Header writes and the final zero check at the end of a function. *)
Ltac frame_tail :=
  repeat match goal with
         | |- frame_rel _ _ (normalize_zero ?r ?x) =>
             eapply frame_rel_trans; [|apply frame_rel_normalize_zero]
         | |- frame_rel _ _ (if ?c then _ else _) => destruct c
         | _ => frame_peel
         end.

Lemma frame_rel_bf_add r a b s : frame_rel {[r]} s (bf_add r a b s).
Proof.
  unfold bf_add. cbv zeta.
  assert (H1 : frame_rel {[r]} s (set_nlimbs r (get_nlimbs s a) s))
    by (apply frame_rel_set_nlimbs; set_solver).
  set (s1 := set_nlimbs r (get_nlimbs s a) s) in *.
  destruct (get_sign s1 a =? 0);
    [eapply frame_rel_trans; [exact H1 | apply frame_rel_bf_copy]|].
  destruct (get_sign s1 b =? 0);
    [eapply frame_rel_trans; [exact H1 | apply frame_rel_bf_copy]|].
  eapply frame_rel_trans; [|apply frame_rel_normalize_zero].
  eapply frame_rel_trans; [exact H1|].
  destruct (get_sign s1 a =? get_sign s1 b).
  - frame_peel. apply frame_rel_bf_add_mag.
  - destruct (bf_cmp_mag a b s1 =? 0); [apply frame_rel_bf_zero|].
    destruct (bf_cmp_mag a b s1 >? 0);
      frame_peel; apply frame_rel_bf_sub_mag.
Qed.

Lemma frame_rel_memset_scratch W m s : frame_rel W s (memset_scratch m s).
Proof. apply frame_for_loop. intros. apply frame_rel_set_scr. Qed.

Lemma frame_rel_extract_result r n s : frame_rel {[r]} s (extract_result r n s).
Proof.
  apply frame_for_loop. intros. apply frame_rel_set_limb. set_solver.
Qed.

Lemma frame_rel_mul_row W a b n i s : frame_rel W s (mul_row a b n i s).
Proof.
  unfold mul_row.
  pose proof (frame_for_loop_fst W n (mul_inner a b i) s 0) as Hin.
  assert (H : frame_rel W s (fst (for_loop n (mul_inner a b i) (s, 0))))
    by (apply Hin; intros j y c'; apply frame_rel_set_scr).
  destruct (for_loop n (mul_inner a b i) (s, 0)) as [x c].
  frame_peel. exact H.
Qed.

Lemma frame_rel_bf_mul_schoolbook r a b s :
  frame_rel {[r]} s (bf_mul_schoolbook r a b s).
Proof.
  unfold bf_mul_schoolbook. cbv zeta. frame_tail;
    (eapply frame_rel_trans; [|apply frame_rel_extract_result]);
    (eapply frame_rel_trans; [apply frame_rel_memset_scratch|]);
    apply frame_for_loop; intros; apply frame_rel_mul_row.
Qed.

Lemma frame_rel_bf_mul r a b s : frame_rel {[r]} s (bf_mul r a b s).
Proof.
  unfold bf_mul, bf_mul_karatsuba.
  destruct (get_nlimbs s a <=? KARATSUBA_THRESHOLD);
    apply frame_rel_bf_mul_schoolbook.
Qed.

Lemma frame_rel_sqr_carry_loop W fuel k carry s :
  frame_rel W s (sqr_carry_loop fuel k carry s).
Proof.
  revert k carry s. induction fuel as [|fuel IH]; intros k carry s; simpl.
  - apply frame_rel_refl.
  - destruct (carry =? 0); [apply frame_rel_refl|].
    eapply frame_rel_trans; [|apply IH]. apply frame_rel_set_scr.
Qed.

Lemma frame_rel_sqr_row W a n i s : frame_rel W s (sqr_row a n i s).
Proof.
  unfold sqr_row. apply frame_for_range_from.
  - unfold sqr_diag. cbv zeta.
    destruct (_ =? 0); repeat frame_peel; apply frame_rel_refl.
  - intros j y. unfold sqr_offdiag. cbv zeta.
    eapply frame_rel_trans; [|apply frame_rel_sqr_carry_loop].
    apply frame_rel_set_scr.
Qed.

Lemma frame_rel_bf_sqr r a s : frame_rel {[r]} s (bf_sqr r a s).
Proof.
  unfold bf_sqr. cbv zeta. frame_tail;
    (eapply frame_rel_trans; [|apply frame_rel_extract_result]);
    (eapply frame_rel_trans; [apply frame_rel_memset_scratch|]);
    apply frame_for_loop; intros; apply frame_rel_sqr_row.
Qed.

Lemma frame_rel_bf_set_d_loop r n k d s :
  frame_rel {[r]} s (bf_set_d_loop r n k d s).
Proof.
  revert d s. induction k as [|k IH]; intros d s; simpl.
  - apply frame_rel_refl.
  - destruct (Dbl.gtb d Dbl.zero); [|apply frame_rel_refl].
    eapply frame_rel_trans; [|apply IH].
    destruct (Z.of_nat k =? n - 1); apply frame_rel_set_limb; set_solver.
Qed.

Lemma frame_rel_bf_set_d r d n s : frame_rel {[r]} s (bf_set_d r d n s).
Proof.
  unfold bf_set_d. cbv zeta.
  pose proof (frame_rel_bf_zero r n s) as H0.
  destruct (Dbl.eqb d Dbl.zero); [exact H0|].
  eapply frame_rel_trans; [|apply frame_rel_bf_set_d_loop].
  destruct (n - 1 <? 0); repeat frame_peel; exact H0.
Qed.

Lemma frame_rel_bf_from_str r str n s : frame_rel {[r]} s (bf_from_str r str n s).
Proof.
  unfold bf_from_str. cbv zeta. destruct (parse_decimal str) as [negative d].
  assert (H : frame_rel {[r]} s (bf_set_d r d n (bf_zero r n s)))
    by (eapply frame_rel_trans; [apply frame_rel_bf_zero | apply frame_rel_bf_set_d]).
  destruct negative; [frame_peel|]; exact H.
Qed.

Lemma frame_rel_double_limbs p s : frame_rel {[p]} s (double_limbs p s).
Proof.
  unfold double_limbs. apply frame_for_loop_fst. intros i x c. simpl.
  apply frame_rel_set_limb. set_solver.
Qed.

(** *** Stack slots *)

Lemma alloca_fresh u s q s1 : alloca u s = (q, s1) -> heap s !! q = None.
Proof.
  unfold alloca. intros [= <- _]. apply not_elem_of_dom. apply is_fresh.
Qed.

(** A function that allocates a local, works within [W] and the local, and
    releases the local, has footprint [W]. *)
Lemma frame_rel_scoped W u s q s1 s2 :
  alloca u s = (q, s1) ->
  frame_rel (W ∪ {[q]}) s1 s2 ->
  frame_rel W s (release q s2).
Proof.
  intros Ha. pose proof (alloca_fresh u s q s1 Ha) as Hfresh.
  unfold alloca in Ha. injection Ha as Hq Hs1. subst s1.
  intros [H A]. split.
  - intros p Hp. unfold release. simpl.
    destruct (decide (p = q)) as [->|Hne].
    + rewrite lookup_delete_eq. symmetry. exact Hfresh.
    + rewrite lookup_delete_ne by congruence.
      rewrite H by (apply not_elem_of_union; split;
                    [exact Hp | apply not_elem_of_singleton; exact Hne]).
      unfold store. simpl.
      rewrite Hq. apply lookup_insert_ne. congruence.
  - intros p Hp. unfold allocated, release. simpl.
    assert (p <> q) by (intros ->; destruct Hp as [x Hx]; congruence).
    rewrite lookup_delete_ne by congruence. apply A.
    unfold allocated, store. simpl. rewrite Hq.
    rewrite lookup_insert_ne by congruence. exact Hp.
Qed.

Lemma frame_rel_bf_sub u r a b s : frame_rel {[r]} s (bf_sub u r a b s).
Proof.
  unfold bf_sub. destruct (alloca u s) as [q s1] eqn:Ha.
  apply (frame_rel_scoped _ u s q s1 _ Ha).
  eapply frame_rel_trans;
    [|eapply frame_rel_weaken; [|apply frame_rel_bf_add]; set_solver].
  frame_peel.
  eapply frame_rel_weaken; [|apply frame_rel_bf_copy]. set_solver.
Qed.

Lemma frame_rel_mandelbrot_step u zr zi cr ci tmp1 tmp2 s :
  frame_rel {[zr; zi; tmp1; tmp2]} s
    (mandelbrot_step u zr zi cr ci tmp1 tmp2 s).
Proof.
  unfold mandelbrot_step.
  assert (H2 : frame_rel {[zr; zi; tmp1; tmp2]} s (bf_sqr tmp2 zi (bf_sqr tmp1 zr s))).
  { eapply frame_rel_trans;
      (eapply frame_rel_weaken; [|apply frame_rel_bf_sqr]; set_solver). }
  revert H2. generalize (bf_sqr tmp2 zi (bf_sqr tmp1 zr s)). intros s2 H2.
  eapply frame_rel_trans; [exact H2|].
  destruct (alloca u s2) as [q s3] eqn:Ha.
  apply (frame_rel_scoped _ u s2 q s3 _ Ha).
  eapply frame_rel_trans;
    [|eapply frame_rel_weaken; [|apply frame_rel_bf_add]; set_solver].
  eapply frame_rel_trans;
    [|eapply frame_rel_weaken; [|apply frame_rel_bf_sub]; set_solver].
  eapply frame_rel_trans;
    [|eapply frame_rel_weaken; [|apply frame_rel_bf_add]; set_solver].
  eapply frame_rel_trans;
    [|eapply frame_rel_weaken; [|apply frame_rel_double_limbs]; set_solver].
  eapply frame_rel_weaken; [|apply frame_rel_bf_mul]. set_solver.
Qed.

(** ** C10: the operations leave their inputs alone *)

(** C10.  When the output [r] is a different struct from the inputs, [bf_add],
    [bf_sub], [bf_mul] and [bf_sqr] leave the whole input structs (limbs, limb
    count, sign) as they were; [bf_sub] negates a copy of [b] on its own
    stack, so the sign of [b] itself is not flipped. *)
Theorem operands_unchanged (u : BigFloat) (s : state) (r a b : ptr) :
  r <> a -> r <> b ->
  (deref (bf_add r a b s) a = deref s a /\
   deref (bf_add r a b s) b = deref s b) /\
  (deref (bf_sub u r a b s) a = deref s a /\
   deref (bf_sub u r a b s) b = deref s b /\
   get_sign (bf_sub u r a b s) b = get_sign s b) /\
  (deref (bf_mul r a b s) a = deref s a /\
   deref (bf_mul r a b s) b = deref s b) /\
  deref (bf_sqr r a s) a = deref s a.
Proof.
  intros Ha Hb.
  assert (Na : a ∉ ({[r]} : gset ptr)) by set_solver.
  assert (Nb : b ∉ ({[r]} : gset ptr)) by set_solver.
  pose proof (frame_rel_bf_add r a b s) as Fadd.
  pose proof (frame_rel_bf_sub u r a b s) as Fsub.
  pose proof (frame_rel_bf_mul r a b s) as Fmul.
  pose proof (frame_rel_bf_sqr r a s) as Fsqr.
  repeat split;
    try (eapply frame_rel_deref; [eassumption|assumption]).
  unfold get_sign. f_equal. eapply frame_rel_deref; eassumption.
Qed.

Lemma operands_unchanged_witness :
  (deref (bf_add Demo.r Demo.a Demo.r' Demo.s1) Demo.a = deref Demo.s1 Demo.a /\
   deref (bf_add Demo.r Demo.a Demo.r' Demo.s1) Demo.r' = deref Demo.s1 Demo.r') /\
  (deref (bf_sub Demo.dirty Demo.r Demo.a Demo.r' Demo.s1) Demo.a
     = deref Demo.s1 Demo.a /\
   deref (bf_sub Demo.dirty Demo.r Demo.a Demo.r' Demo.s1) Demo.r'
     = deref Demo.s1 Demo.r' /\
   get_sign (bf_sub Demo.dirty Demo.r Demo.a Demo.r' Demo.s1) Demo.r'
     = get_sign Demo.s1 Demo.r') /\
  (deref (bf_mul Demo.r Demo.a Demo.r' Demo.s1) Demo.a = deref Demo.s1 Demo.a /\
   deref (bf_mul Demo.r Demo.a Demo.r' Demo.s1) Demo.r' = deref Demo.s1 Demo.r') /\
  deref (bf_sqr Demo.r Demo.a Demo.s1) Demo.a = deref Demo.s1 Demo.a.
Proof.
  apply (operands_unchanged Demo.dirty Demo.s1 Demo.r Demo.a Demo.r');
    discriminate.
Defined.

(** ** C8: same-sign addition keeps the low [32 n] bits *)

Lemma magnitude_ext s s' p q n :
  (forall i, (i < n)%nat -> limb s' q i = limb s p i) ->
  magnitude s' q n = magnitude s p n.
Proof.
  induction n as [|n IH]; intros H; simpl; [reflexivity|].
  rewrite IH by (intros; apply H; lia). rewrite H by lia. reflexivity.
Qed.

Lemma magnitude_bounds s p n :
  limbs_in_range s p n -> 0 <= magnitude s p n < 2 ^ (32 * Z.of_nat n).
Proof.
  induction n as [|n IH]; intros H; simpl magnitude.
  - simpl. lia.
  - assert (Hn : limbs_in_range s p n) by (intros i Hi; apply H; lia).
    specialize (IH Hn). pose proof (H n ltac:(lia)) as Hl.
    replace (32 * Z.of_nat (S n)) with (32 * Z.of_nat n + 32) by lia.
    rewrite Z.pow_add_r by lia.
    assert (0 < 2 ^ (32 * Z.of_nat n)) by (apply Z.pow_pos_nonneg; lia).
    nia.
Qed.

Lemma pow2_32_succ (i : nat) :
  2 ^ (32 * Z.of_nat (S i)) = 2 ^ (32 * Z.of_nat i) * 2 ^ 32.
Proof.
  replace (32 * Z.of_nat (S i)) with (32 * Z.of_nat i + 32) by lia.
  apply Z.pow_add_r; lia.
Qed.

(** The ripple-carry loop, for any aliasing of [r] with [a] and [b]. *)
Lemma bf_add_mag_spec s r a b n :
  get_nlimbs s a = Z.of_nat n ->
  (n <= length (limbs (deref s r)))%nat ->
  limbs_in_range s a n -> limbs_in_range s b n ->
  let s' := bf_add_mag r a b s in
  magnitude s' r n =
    (magnitude s a n + magnitude s b n) mod 2 ^ (32 * Z.of_nat n) /\
  limbs_in_range s' r n /\
  hdr_same s s'.
Proof.
  intros Hn Hlen Ha Hb. unfold bf_add_mag. rewrite Hn, Nat2Z.id.
  set (body := fun (i : nat) '(s, carry) =>
                 let sum := to_dlimb (limb s a i + limb s b i + carry) in
                 (set_limb r i (to_limb sum) s, Z.shiftr sum 32)).
  pose (P := fun (i : nat) (xc : state * Z) =>
       (i <= n)%nat ->
       (forall q j, q <> r \/ (i <= j)%nat -> limb (fst xc) q j = limb s q j) /\
       length (limbs (deref (fst xc) r)) = length (limbs (deref s r)) /\
       magnitude (fst xc) r i + snd xc * 2 ^ (32 * Z.of_nat i)
         = magnitude s a i + magnitude s b i /\
       0 <= snd xc <= 1 /\
       limbs_in_range (fst xc) r i /\
       hdr_same s (fst xc)).
  assert (Inv : P n (for_loop n body (s, 0))).
  { apply (for_loop_ind P); unfold P.
    - intros _. simpl.
      refine (conj _ (conj _ (conj _ (conj _ (conj _ _))))); auto; try lia.
      + intros i Hi. lia.
      + apply hdr_same_refl.
    - intros i [x c] Hi IH _. specialize (IH ltac:(lia)).
      destruct IH as (Hfr & Hl & Hsum & Hc & Hrg & Hhdr). simpl in *.
      rewrite (Hfr a i) by (right; lia). rewrite (Hfr b i) by (right; lia).
      pose proof (Ha i Hi) as Hai. pose proof (Hb i Hi) as Hbi.
      set (t := limb s a i + limb s b i + c) in *.
      assert (Ht : to_dlimb t = t)
        by (unfold to_dlimb; apply Z.mod_small; unfold t; lia).
      rewrite Ht.
      assert (Hmag : magnitude (set_limb r i (to_limb t) x) r i = magnitude x r i).
      { apply magnitude_ext. intros j Hj. apply limb_set_limb_ne. right. lia. }
      assert (Hdiv : 0 <= t / 2 ^ 32 <= 1).
      { split; [apply Z.div_pos; unfold t; lia|].
        assert (t / 2 ^ 32 < 2); [|lia].
        apply Z.div_lt_upper_bound; unfold t; lia. }
      refine (conj _ (conj _ (conj _ (conj _ (conj _ _))))).
      + intros q j Hq. rewrite limb_set_limb_ne; [apply Hfr|].
        * destruct Hq; [left; auto | right; lia].
        * destruct Hq; [left; auto | right; lia].
      + rewrite length_limbs_set_limb. exact Hl.
      + rewrite Hmag, limb_set_limb_eq by lia.
        rewrite pow2_32_succ, Z.shiftr_div_pow2 by lia. unfold to_limb.
        pose proof (Z.div_mod t (2 ^ 32) ltac:(lia)) as Hdm.
        nia.
      + rewrite Z.shiftr_div_pow2 by lia. exact Hdiv.
      + intros j Hj. destruct (decide (j = i)) as [->|Hne].
        * rewrite limb_set_limb_eq by lia. unfold to_limb.
          apply Z.mod_pos_bound. lia.
        * rewrite limb_set_limb_ne by (right; lia). apply Hrg. lia.
      + eapply hdr_same_trans; [exact Hhdr | apply hdr_same_set_limb]. }
  unfold P in Inv. clear P. specialize (Inv ltac:(lia)).
  destruct (for_loop n body (s, 0)) as [x c]. simpl in *.
  destruct Inv as (_ & _ & Hsum & Hc & Hrg & Hhdr).
  split; [|split; assumption].
  pose proof (magnitude_bounds x r n Hrg) as Hbd.
  apply Z.mod_unique_pos with (q := c); lia.
Qed.

Lemma bf_is_zero_true a s :
  bf_is_zero a s = true <->
  forall i, (i < Z.to_nat (get_nlimbs s a))%nat -> limb s a i = 0.
Proof.
  unfold bf_is_zero. rewrite forallb_forall. split.
  - intros H i Hi. apply Z.eqb_eq. apply H. apply in_seq. lia.
  - intros H i Hi. apply in_seq in Hi. apply Z.eqb_eq. apply H. lia.
Qed.

Lemma magnitude_zero_iff s p n :
  limbs_in_range s p n ->
  magnitude s p n = 0 <-> forall i, (i < n)%nat -> limb s p i = 0.
Proof.
  induction n as [|n IH]; intros Hr; simpl magnitude.
  - split; [intros _ i Hi; lia | reflexivity].
  - assert (Hn : limbs_in_range s p n) by (intros i Hi; apply Hr; lia).
    specialize (IH Hn). pose proof (magnitude_bounds s p n Hn) as Hb.
    pose proof (Hr n ltac:(lia)) as Hl.
    assert (0 < 2 ^ (32 * Z.of_nat n)) by (apply Z.pow_pos_nonneg; lia).
    split.
    + intros Hz i Hi.
      assert (limb s p n = 0) by nia.
      destruct (decide (i = n)) as [->|]; [assumption|].
      apply IH; [nia|lia].
    + intros Hz. rewrite (Hz n) by lia.
      rewrite (proj2 IH) by (intros; apply Hz; lia). lia.
Qed.

Lemma limb_normalize_zero r s p i : limb (normalize_zero r s) p i = limb s p i.
Proof.
  unfold normalize_zero. destruct (bf_is_zero r s); [apply limb_set_sign|reflexivity].
Qed.

Lemma get_nlimbs_normalize_zero r s p :
  get_nlimbs (normalize_zero r s) p = get_nlimbs s p.
Proof.
  unfold normalize_zero.
  destruct (bf_is_zero r s); [apply get_nlimbs_set_sign|reflexivity].
Qed.

(** C8.  For nonzero operands of equal sign that share the limb count [n],
    [bf_add] leaves in [r] the magnitude [(|a| + |b|) mod 2^(32 n)]: the
    carry out of the top limb is dropped, the limb count stays [n], and the
    sign is the operands' sign unless the stored magnitude is zero.  [r] may
    be the same struct as [a] or [b]. *)
Theorem bf_add_same_sign_wraps (s : state) (r a b : ptr) (n : nat) :
  get_sign s a <> 0 -> get_sign s b <> 0 -> get_sign s a = get_sign s b ->
  get_nlimbs s a = Z.of_nat n -> get_nlimbs s b = Z.of_nat n ->
  (n <= length (limbs (deref s r)))%nat ->
  limbs_in_range s a n -> limbs_in_range s b n ->
  let s' := bf_add r a b s in
  magnitude s' r n =
    (magnitude s a n + magnitude s b n) mod 2 ^ (32 * Z.of_nat n) /\
  get_nlimbs s' r = Z.of_nat n /\
  get_sign s' r = (if magnitude s' r n =? 0 then 0 else get_sign s a).
Proof.
  intros Hsa Hsb Hsab Hna Hnb Hlen Hra Hrb s'. subst s'.
  unfold bf_add. cbv zeta.
  set (s1 := set_nlimbs r (get_nlimbs s a) s).
  assert (Hs1 : forall p, get_sign s1 p = get_sign s p)
    by (intros; apply get_sign_set_nlimbs).
  assert (Hl1 : forall p i, limb s1 p i = limb s p i)
    by (intros; apply limb_set_nlimbs).
  assert (Hn1 : get_nlimbs s1 a = Z.of_nat n /\ get_nlimbs s1 r = Z.of_nat n).
  { unfold s1. rewrite !get_nlimbs_set_nlimbs.
    destruct (decide (r = a)); destruct (decide (r = r)); try congruence; auto. }
  destruct Hn1 as [Hn1a Hn1r].
  rewrite !Hs1.
  destruct (get_sign s a =? 0) eqn:E1; [apply Z.eqb_eq in E1; contradiction|].
  destruct (get_sign s b =? 0) eqn:E2; [apply Z.eqb_eq in E2; contradiction|].
  rewrite (proj2 (Z.eqb_eq _ _) Hsab).
  destruct (bf_add_mag_spec s1 r a b n) as (Hmag & Hrng & Hhdr); auto.
  { unfold s1, set_nlimbs. rewrite deref_store.
    destruct (decide (r = r)); [exact Hlen|congruence]. }
  { intros i Hi. rewrite Hl1. apply Hra, Hi. }
  { intros i Hi. rewrite Hl1. apply Hrb, Hi. }
  set (s2 := bf_add_mag r a b s1) in *.
  rewrite (magnitude_ext s s1 a a n) in Hmag by (intros; apply Hl1).
  rewrite (magnitude_ext s s1 b b n) in Hmag by (intros; apply Hl1).
  assert (Hsg2 : get_sign s2 a = get_sign s a)
    by (rewrite (proj2 (Hhdr a)); apply Hs1).
  assert (Hn2 : get_nlimbs s2 r = Z.of_nat n)
    by (rewrite (proj1 (Hhdr r)); exact Hn1r).
  set (s3 := set_sign r (get_sign s2 a) s2).
  assert (Hmag3 : magnitude (normalize_zero r s3) r n = magnitude s2 r n).
  { apply magnitude_ext. intros i Hi.
    rewrite limb_normalize_zero. apply limb_set_sign. }
  rewrite Hmag3.
  split; [exact Hmag|]. split.
  { rewrite get_nlimbs_normalize_zero. unfold s3.
    rewrite get_nlimbs_set_sign. exact Hn2. }
  assert (Hn3 : get_nlimbs s3 r = Z.of_nat n)
    by (unfold s3; rewrite get_nlimbs_set_sign; exact Hn2).
  unfold normalize_zero.
  destruct (bf_is_zero r s3) eqn:Ez.
  - rewrite get_sign_set_sign. destruct (decide (r = r)); [|congruence].
    pose proof (proj1 (bf_is_zero_true r s3) Ez) as Ez'.
    rewrite Hn3, Nat2Z.id in Ez'.
    assert (Hz : magnitude s2 r n = 0).
    { apply magnitude_zero_iff; [exact Hrng|]. intros i Hi.
      rewrite <- (limb_set_sign r (get_sign s2 a) s2). apply Ez', Hi. }
    rewrite Hz. reflexivity.
  - assert (Hnz : magnitude s2 r n <> 0).
    { intros Hz.
      pose proof (proj1 (magnitude_zero_iff _ _ _ Hrng) Hz) as Hz'.
      assert (bf_is_zero r s3 = true); [|congruence].
      apply (proj2 (bf_is_zero_true r s3)). rewrite Hn3, Nat2Z.id.
      intros i Hi. unfold s3. rewrite limb_set_sign. apply Hz', Hi. }
    apply Z.eqb_neq in Hnz. rewrite Hnz.
    unfold s3. rewrite get_sign_set_sign.
    destruct (decide (r = r)); [exact Hsg2|congruence].
Qed.

Lemma bf_add_same_sign_wraps_witness :
  let s' := bf_add Demo.r Demo.a Demo.b Demo.s2 in
  magnitude s' Demo.r 1 =
    (magnitude Demo.s2 Demo.a 1 + magnitude Demo.s2 Demo.b 1)
      mod 2 ^ (32 * Z.of_nat 1) /\
  get_nlimbs s' Demo.r = Z.of_nat 1 /\
  get_sign s' Demo.r =
    (if magnitude s' Demo.r 1 =? 0 then 0 else get_sign Demo.s2 Demo.a).
Proof.
  apply (bf_add_same_sign_wraps Demo.s2 Demo.r Demo.a Demo.b 1).
  - vm_compute. lia.
  - vm_compute. lia.
  - reflexivity.
  - reflexivity.
  - reflexivity.
  - vm_compute. lia.
  - intros i Hi. assert (i = 0%nat) as -> by lia. vm_compute.
    split; [discriminate | reflexivity].
  - intros i Hi. assert (i = 0%nat) as -> by lia. vm_compute.
    split; [discriminate | reflexivity].
Defined.

(** ** C9: trailing characters in [bf_from_str] *)

Lemma skip_spaces_app (p q : string) :
  skip_spaces (p ++ q)%string =
    match skip_spaces p with
    | EmptyString => skip_spaces q
    | String c p' => String c (p' ++ q)%string
    end.
Proof.
  induction p as [|c p IH]; simpl; [reflexivity|].
  destruct (Ascii.eqb c " "); [exact IH | reflexivity].
Qed.

Lemma parse_frac_digits_app (frac scale : double) (p : string) c rest :
  is_digit c = false ->
  parse_frac_digits frac scale (p ++ String c rest)%string
    = parse_frac_digits frac scale p.
Proof.
  intros Hc. revert frac scale.
  induction p as [|x p IH]; intros frac scale; simpl.
  - rewrite Hc. reflexivity.
  - destruct (is_digit x); [apply IH | reflexivity].
Qed.

Lemma parse_frac_app (p : string) c rest :
  is_digit c = false -> (c = "."%char -> p <> EmptyString) ->
  parse_frac (p ++ String c rest)%string = parse_frac p.
Proof.
  intros Hc Hdot. destruct p as [|x p]; simpl.
  - destruct (Ascii.eqb c ".") eqn:E; [|reflexivity].
    apply Ascii.eqb_eq in E. exfalso. apply (Hdot E). reflexivity.
  - destruct (Ascii.eqb x "."); [|reflexivity].
    apply parse_frac_digits_app, Hc.
Qed.

(** The integer digits and the fraction of [p], as [bf_from_str] adds them. *)
Lemma parse_int_frac_app (acc : double) (p : string) c rest :
  is_digit c = false ->
  (c = "."%char -> snd (parse_int acc p) <> EmptyString) ->
  (let '(i, q) := parse_int acc (p ++ String c rest)%string in
   Dbl.add i (parse_frac q))
  = (let '(i, q) := parse_int acc p in Dbl.add i (parse_frac q)).
Proof.
  intros Hc. revert acc. induction p as [|x p IH]; intros acc Hdot; simpl in *.
  - rewrite Hc. simpl.
    destruct (Ascii.eqb c ".") eqn:E; [|reflexivity].
    apply Ascii.eqb_eq in E. exfalso. apply (Hdot E). reflexivity.
  - destruct (is_digit x).
    + apply IH, Hdot.
    + f_equal.
      apply (parse_frac_app (String x p) c rest Hc). discriminate.
Qed.

Lemma snd_parse_int_acc (acc acc' : double) (p : string) :
  snd (parse_int acc p) = snd (parse_int acc' p).
Proof.
  revert acc acc'. induction p as [|x p IH]; intros acc acc'; simpl.
  - reflexivity.
  - destruct (is_digit x); [apply IH | reflexivity].
Qed.

Lemma parse_decimal_app (str : string) c rest :
  is_digit c = false ->
  (c = "."%char -> rest_after_int str <> EmptyString) ->
  (c = " "%char \/ c = "-"%char \/ c = "+"%char ->
   skip_spaces str <> EmptyString) ->
  parse_decimal (str ++ String c rest) = parse_decimal str.
Proof.
  intros Hc Hdot Hsp. unfold parse_decimal, rest_after_int in *.
  rewrite skip_spaces_app.
  destruct (skip_spaces str) as [|x p] eqn:Esk.
  - (* only spaces so far *)
    assert (Hns : Ascii.eqb c " " = false).
    { apply Ascii.eqb_neq. intros ->. apply Hsp; auto. }
    assert (Hnm : Ascii.eqb c "-" = false).
    { apply Ascii.eqb_neq. intros ->. apply Hsp; auto. }
    assert (Hnp : Ascii.eqb c "+" = false).
    { apply Ascii.eqb_neq. intros ->. apply Hsp; auto. }
    assert (Hnd : Ascii.eqb c "." = false).
    { apply Ascii.eqb_neq. intros ->. simpl in Hdot. apply Hdot; reflexivity. }
    simpl. rewrite Hns. simpl. rewrite Hnm, Hnp. simpl. rewrite Hc. simpl.
    rewrite Hnd. reflexivity.
  - unfold parse_sign in *.
    destruct (Ascii.eqb x "-").
    + pose proof (parse_int_frac_app Dbl.zero p c rest Hc Hdot) as H.
      destruct (parse_int Dbl.zero (p ++ String c rest)) as [i q].
      destruct (parse_int Dbl.zero p) as [i' q']. congruence.
    + destruct (Ascii.eqb x "+").
      * pose proof (parse_int_frac_app Dbl.zero p c rest Hc Hdot) as H.
        destruct (parse_int Dbl.zero (p ++ String c rest)) as [i q].
        destruct (parse_int Dbl.zero p) as [i' q']. congruence.
      * pose proof (parse_int_frac_app Dbl.zero (String x p) c rest Hc Hdot)
          as H.
        change (String x (p ++ String c rest))%string
          with (String x p ++ String c rest)%string.
        destruct (parse_int Dbl.zero (String x p ++ String c rest)) as [i q].
        destruct (parse_int Dbl.zero (String x p)) as [i' q']. congruence.
Qed.

(** C9 as amended.  [bf_from_str] has no error result, and a suffix whose
    first character [c] is no digit changes nothing, provided [c] cannot
    extend what was read: [c] is not ['.'] unless the text is already past
    its integer digits, and [c] is not a space or a sign unless the text
    holds more than spaces. *)
Theorem bf_from_str_ignores_suffix (r : ptr) (str : string) (c : ascii)
    (rest : string) (n : Z) (s : state) :
  is_digit c = false ->
  (c = "."%char -> rest_after_int str <> EmptyString) ->
  (c = " "%char \/ c = "-"%char \/ c = "+"%char ->
   skip_spaces str <> EmptyString) ->
  bf_from_str r (str ++ String c rest) n s = bf_from_str r str n s.
Proof.
  intros Hc Hdot Hsp. unfold bf_from_str.
  rewrite (parse_decimal_app str c rest Hc Hdot Hsp). reflexivity.
Qed.

Lemma bf_from_str_ignores_suffix_witness :
  bf_from_str Demo.r ("-1.5" ++ String "." "7x") 2 Demo.s0
  = bf_from_str Demo.r "-1.5" 2 Demo.s0 /\
  bf_from_str Demo.r (" 12" ++ String "e" "5") 2 Demo.s0
  = bf_from_str Demo.r " 12" 2 Demo.s0.
Proof.
  split.
  - apply (bf_from_str_ignores_suffix Demo.r "-1.5" "." "7x" 2 Demo.s0).
    + reflexivity.
    + intros _. vm_compute. discriminate.
    + intros _. vm_compute. discriminate.
  - apply (bf_from_str_ignores_suffix Demo.r " 12" "e" "5" 2 Demo.s0).
    + reflexivity.
    + intros H. discriminate H.
    + intros _. vm_compute. discriminate.
Defined.

(** C9 as stated fails: appended to the empty text, the suffix ["-1"] begins
    with a character that is neither a digit nor ['.'], and the value changes
    from 0 to -1. *)
Lemma bf_from_str_suffix_counterexample :
  ~ (forall (r : ptr) (str : string) (c : ascii) (rest : string) (n : Z)
            (s : state),
        is_digit c = false -> c <> "."%char ->
        bf_from_str r (str ++ String c rest) n s = bf_from_str r str n s).
Proof.
  intros H.
  specialize (H Demo.r EmptyString "-"%char "1"%string 1 Demo.s0
                eq_refl ltac:(discriminate)).
  apply (f_equal (fun x => get_sign x Demo.r)) in H.
  vm_compute in H. discriminate H.
Qed.

(** ** Signs and limb counts through the arithmetic *)

Lemma hdr_same_memset_limbs r n s : hdr_same s (memset_limbs r n s).
Proof. apply hdr_for_loop. intros. apply hdr_same_set_limb. Qed.

Lemma hdr_same_memcpy_limbs r a n s : hdr_same s (memcpy_limbs r a n s).
Proof. apply hdr_for_loop. intros. apply hdr_same_set_limb. Qed.

Lemma hdr_same_memset_scratch m s : hdr_same s (memset_scratch m s).
Proof. apply hdr_for_loop. intros. apply hdr_same_set_scr. Qed.

Lemma hdr_same_extract_result r n s : hdr_same s (extract_result r n s).
Proof. apply hdr_for_loop. intros. apply hdr_same_set_limb. Qed.

Lemma hdr_same_mul_row a b n i s : hdr_same s (mul_row a b n i s).
Proof.
  unfold mul_row.
  assert (H : hdr_same s (fst (for_loop n (mul_inner a b i) (s, 0))))
    by (apply hdr_for_loop_fst; intros j y c'; apply hdr_same_set_scr).
  destruct (for_loop n (mul_inner a b i) (s, 0)) as [x c].
  eapply hdr_same_trans; [exact H | apply hdr_same_set_scr].
Qed.

Lemma hdr_same_sqr_carry_loop fuel k carry s :
  hdr_same s (sqr_carry_loop fuel k carry s).
Proof.
  revert k carry s. induction fuel as [|fuel IH]; intros k carry s; simpl.
  - apply hdr_same_refl.
  - destruct (carry =? 0); [apply hdr_same_refl|].
    eapply hdr_same_trans; [|apply IH]. apply hdr_same_set_scr.
Qed.

Lemma hdr_same_sqr_row a n i s : hdr_same s (sqr_row a n i s).
Proof.
  unfold sqr_row.
  eapply hdr_same_trans; [|apply hdr_for_range].
  - unfold sqr_diag. cbv zeta.
    destruct (_ =? 0);
      repeat (eapply hdr_same_trans; [|apply hdr_same_set_scr]);
      apply hdr_same_refl.
  - intros j y. unfold sqr_offdiag. cbv zeta.
    eapply hdr_same_trans; [|apply hdr_same_sqr_carry_loop].
    apply hdr_same_set_scr.
Qed.

Lemma hdr_same_double_limbs p s : hdr_same s (double_limbs p s).
Proof.
  unfold double_limbs. apply hdr_for_loop_fst. intros i x c. simpl.
  apply hdr_same_set_limb.
Qed.

Lemma get_sign_normalize_zero_0 r s :
  get_sign s r = 0 -> get_sign (normalize_zero r s) r = 0.
Proof.
  intros H. unfold normalize_zero. destruct (bf_is_zero r s); [|exact H].
  rewrite get_sign_set_sign. destruct (decide (r = r)); congruence.
Qed.

Lemma get_sign_bf_zero r n s : get_sign (bf_zero r n s) r = 0.
Proof.
  unfold bf_zero. rewrite get_sign_set_sign.
  destruct (decide (r = r)); congruence.
Qed.

Lemma get_nlimbs_bf_zero r n s : get_nlimbs (bf_zero r n s) r = n.
Proof.
  unfold bf_zero. rewrite get_nlimbs_set_sign, get_nlimbs_set_nlimbs.
  destruct (decide (r = r)); congruence.
Qed.

Lemma get_sign_bf_copy r a s : get_sign (bf_copy r a s) r = get_sign s a.
Proof.
  unfold bf_copy. rewrite get_sign_set_sign.
  destruct (decide (r = r)); [|congruence].
  rewrite get_sign_set_nlimbs.
  apply (hdr_same_memcpy_limbs r a (Z.to_nat (get_nlimbs s a)) s a).
Qed.

(** A zero first operand makes [bf_add] a copy of the second. *)
Lemma get_sign_bf_add_zero_l r a b s :
  get_sign s a = 0 -> get_sign (bf_add r a b s) r = get_sign s b.
Proof.
  intros Ha. unfold bf_add. cbv zeta.
  rewrite get_sign_set_nlimbs, Ha. simpl.
  rewrite get_sign_bf_copy. apply get_sign_set_nlimbs.
Qed.

Lemma get_sign_bf_sqr_zero r a s :
  get_sign s a = 0 -> get_sign (bf_sqr r a s) r = 0.
Proof.
  intros Ha. unfold bf_sqr. cbv zeta.
  set (n := Z.to_nat (get_nlimbs s a)).
  set (s3 := extract_result r n
               (for_loop n (sqr_row a n) (memset_scratch (2 * n + 2) s))).
  assert (H3 : hdr_same s s3).
  { eapply hdr_same_trans; [|apply hdr_same_extract_result].
    eapply hdr_same_trans; [apply hdr_same_memset_scratch|].
    apply hdr_for_loop. intros. apply hdr_same_sqr_row. }
  apply get_sign_normalize_zero_0.
  rewrite get_sign_set_sign. destruct (decide (r = r)); [|congruence].
  rewrite get_sign_set_nlimbs, (proj2 (H3 a)), Ha. reflexivity.
Qed.

Lemma get_sign_bf_mul_zero r a b s :
  get_sign s a = 0 -> r <> a -> get_sign (bf_mul r a b s) r = 0.
Proof.
  intros Ha Hra.
  assert (H : get_sign (bf_mul_schoolbook r a b s) r = 0).
  { unfold bf_mul_schoolbook. cbv zeta.
    set (n := Z.to_nat (get_nlimbs s a)).
    set (s3 := extract_result r n
                 (for_loop n (mul_row a b n) (memset_scratch (2 * n + 2) s))).
    assert (H3 : hdr_same s s3).
    { eapply hdr_same_trans; [|apply hdr_same_extract_result].
      eapply hdr_same_trans; [apply hdr_same_memset_scratch|].
      apply hdr_for_loop. intros. apply hdr_same_mul_row. }
    apply get_sign_normalize_zero_0.
    set (s4 := set_nlimbs r (get_nlimbs s a) s3).
    set (s5 := set_sign r _ s4).
    assert (H5 : get_sign s5 a = 0).
    { unfold s5. rewrite get_sign_set_sign.
      destruct (decide (r = a)); [congruence|].
      unfold s4. rewrite get_sign_set_nlimbs, (proj2 (H3 a)). exact Ha. }
    rewrite H5. simpl. rewrite get_sign_set_sign.
    destruct (decide (r = r)); congruence. }
  unfold bf_mul, bf_mul_karatsuba.
  destruct (get_nlimbs s a <=? KARATSUBA_THRESHOLD); exact H.
Qed.

Lemma neg_int8_0 : neg_int8 0 = 0.
Proof. reflexivity. Qed.

Lemma get_sign_frame W s s' p :
  frame_rel W s s' -> p ∉ W -> get_sign s' p = get_sign s p.
Proof.
  intros H Hp. unfold get_sign. f_equal. eapply frame_rel_deref; eassumption.
Qed.

Lemma allocated_store p v s q : allocated s q -> allocated (store p v s) q.
Proof.
  intros [x Hx]. unfold allocated, store. simpl. rewrite lookup_insert.
  destruct (decide (p = q)); eauto.
Qed.

Lemma alloca_spec u s q s1 :
  alloca u s = (q, s1) ->
  s1 = store q u s /\ allocated s1 q /\ (forall p, allocated s p -> p <> q).
Proof.
  intros Ha. pose proof (alloca_fresh u s q s1 Ha) as Hf.
  unfold alloca in Ha. injection Ha as Hq Hs. subst s1. rewrite Hq.
  split; [reflexivity|]. split.
  - unfold allocated, store. simpl. rewrite lookup_insert_eq. eauto.
  - intros p [x Hx] ->. congruence.
Qed.

Lemma deref_release_ne q s p : p <> q -> deref (release q s) p = deref s p.
Proof.
  intros H. unfold deref, release. simpl. rewrite lookup_delete_ne; auto.
Qed.

(** [bf_sub] of two zero-signed operands gives a zero-signed result. *)
Lemma get_sign_bf_sub_zero u r a b s :
  allocated s r -> allocated s a -> allocated s b ->
  get_sign s a = 0 -> get_sign s b = 0 ->
  get_sign (bf_sub u r a b s) r = 0.
Proof.
  intros Ar Aa Ab Ha Hb. unfold bf_sub.
  destruct (alloca u s) as [q s1] eqn:E.
  destruct (alloca_spec u s q s1 E) as (-> & Aq & Hne).
  pose proof (Hne r Ar) as Hrq. pose proof (Hne a Aa) as Haq.
  pose proof (Hne b Ab) as Hbq.
  set (s1 := store q u s).
  assert (Hd : forall p, p <> q -> deref s1 p = deref s p).
  { intros p Hp. unfold s1. rewrite deref_store.
    destruct (decide (q = p)); congruence. }
  set (s2 := bf_copy q b s1).
  assert (H2q : get_sign s2 q = 0).
  { unfold s2. rewrite get_sign_bf_copy. unfold get_sign. rewrite Hd; auto. }
  set (s3 := set_sign q (neg_int8 (get_sign s2 q)) s2).
  assert (H3q : get_sign s3 q = 0).
  { unfold s3. rewrite get_sign_set_sign, H2q.
    destruct (decide (q = q)); [reflexivity|congruence]. }
  assert (H3a : get_sign s3 a = 0).
  { unfold s3. rewrite get_sign_set_sign.
    destruct (decide (q = a)); [congruence|].
    rewrite (get_sign_frame {[q]} s1 s2); [|apply frame_rel_bf_copy|set_solver].
    unfold get_sign. rewrite Hd; auto. }
  unfold get_sign. rewrite deref_release_ne by auto.
  change (get_sign (bf_add r a q s3) r = 0).
  rewrite get_sign_bf_add_zero_l; auto.
Qed.

(** ** The locals of the drivers *)

Lemma NoDup6 (a b c d e g : ptr) :
  NoDup [a; b; c; d; e; g] ->
  a <> b /\ a <> c /\ a <> d /\ a <> e /\ a <> g /\
  b <> c /\ b <> d /\ b <> e /\ b <> g /\
  c <> d /\ c <> e /\ c <> g /\
  d <> e /\ d <> g /\ e <> g.
Proof.
  intros H. repeat (apply NoDup_cons in H as [? H]). set_solver.
Qed.

Lemma frame_live_frame_rel W f s s' :
  frame_rel W s s' -> frame_live f s -> frame_live f s'.
Proof.
  intros [_ A] [Hnd Hall]. split; [exact Hnd|].
  eapply Forall_impl; [exact Hall|]. exact A.
Qed.

Lemma frame_live_step u f s :
  frame_live f s -> frame_live f (step_frame u f s).
Proof.
  apply frame_live_frame_rel with (W := {[f_zr f; f_zi f; f_tmp1 f; f_tmp2 f]}).
  unfold step_frame. apply frame_rel_mandelbrot_step.
Qed.

(** From zero-signed [z] and [c], one step gives zero-signed [z] again. *)
(** Non-membership in an enumerated set of pointers. *)
Ltac notin :=
  repeat rewrite not_elem_of_union; repeat rewrite not_elem_of_singleton;
  repeat split; congruence.

Lemma step_frame_zero u f s :
  frame_live f s ->
  get_sign s (f_zr f) = 0 -> get_sign s (f_zi f) = 0 ->
  get_sign s (f_cr f) = 0 -> get_sign s (f_ci f) = 0 ->
  let s' := step_frame u f s in
  get_sign s' (f_zr f) = 0 /\ get_sign s' (f_zi f) = 0 /\
  get_sign s' (f_cr f) = 0 /\ get_sign s' (f_ci f) = 0.
Proof.
  intros [Hnd Hall] Hzr Hzi Hcr Hci s'.
  pose proof (frame_rel_mandelbrot_step u (f_zr f) (f_zi f) (f_cr f) (f_ci f)
                (f_tmp1 f) (f_tmp2 f) s) as Fstep.
  fold (step_frame u f s) in Fstep. fold s' in Fstep.
  destruct f as [cr ci zr zi tmp1 tmp2]. unfold frame_ptrs in *.
  cbn [f_cr f_ci f_zr f_zi f_tmp1 f_tmp2] in *.
  apply NoDup6 in Hnd.
  destruct Hnd as (N1 & N2 & N3 & N4 & N5 & N6 & N7 & N8 & N9 & N10 & N11
                   & N12 & N13 & N14 & N15).
  repeat (apply Forall_cons in Hall as [? Hall]).
  assert (Hc : get_sign s' cr = 0 /\ get_sign s' ci = 0).
  { split; rewrite (get_sign_frame _ _ _ _ Fstep) by notin; assumption. }
  destruct Hc as [Hcr' Hci'].
  cut (get_sign s' zr = 0 /\ get_sign s' zi = 0); [tauto|].
  clear Fstep Hcr' Hci'. subst s'. unfold step_frame, mandelbrot_step.
  cbn [f_cr f_ci f_zr f_zi f_tmp1 f_tmp2].
  pose proof (frame_rel_bf_sqr tmp1 zr s) as F1.
  pose proof (get_sign_bf_sqr_zero tmp1 zr s Hzr) as T1.
  revert F1 T1. generalize (bf_sqr tmp1 zr s). intros s1 F1 T1.
  assert (Hzi1 : get_sign s1 zi = 0)
    by (rewrite (get_sign_frame _ _ _ _ F1) by notin; assumption).
  pose proof (frame_rel_bf_sqr tmp2 zi s1) as F2.
  pose proof (get_sign_bf_sqr_zero tmp2 zi s1 Hzi1) as T2.
  revert F2 T2. generalize (bf_sqr tmp2 zi s1). intros s2 F2 T2.
  assert (A2 : forall p, allocated s p -> allocated s2 p)
    by (intros p Hp; apply F2, F1, Hp).
  destruct (alloca u s2) as [q s3] eqn:E.
  destruct (alloca_spec u s2 q s3 E) as (Es3 & Aq & Hne).
  assert (Hd3 : forall p, p <> q -> get_sign s3 p = get_sign s2 p)
    by (intros p Hp; unfold get_sign; rewrite Es3, deref_store;
        destruct (decide (q = p)); congruence).
  assert (A3 : forall p, allocated s p -> allocated s3 p)
    by (intros p Hp; rewrite Es3; apply allocated_store, A2, Hp).
  assert (Qcr : cr <> q) by (apply Hne, A2; assumption).
  assert (Qci : ci <> q) by (apply Hne, A2; assumption).
  assert (Qzr : zr <> q) by (apply Hne, A2; assumption).
  assert (Qzi : zi <> q) by (apply Hne, A2; assumption).
  assert (Qt1 : tmp1 <> q) by (apply Hne, A2; assumption).
  assert (Qt2 : tmp2 <> q) by (apply Hne, A2; assumption).
  clear E Es3 Hne.
  assert (Hzr3 : get_sign s3 zr = 0).
  { rewrite Hd3 by assumption.
    rewrite (get_sign_frame _ _ _ _ F2) by notin.
    rewrite (get_sign_frame _ _ _ _ F1) by notin. assumption. }
  pose proof (frame_rel_bf_mul q zr zi s3) as F4.
  pose proof (get_sign_bf_mul_zero q zr zi s3 Hzr3 ltac:(congruence)) as T4.
  revert F4 T4. generalize (bf_mul q zr zi s3). intros s4 F4 T4.
  pose proof (frame_rel_double_limbs q s4) as F5.
  pose proof (proj2 (hdr_same_double_limbs q s4 q)) as T5.
  rewrite T4 in T5.
  revert F5 T5. generalize (double_limbs q s4). intros s5 F5 T5.
  assert (B5 : forall p, p <> q -> get_sign s5 p = get_sign s2 p).
  { intros p Hp.
    rewrite (get_sign_frame _ _ _ _ F5) by notin.
    rewrite (get_sign_frame _ _ _ _ F4) by notin.
    apply Hd3, Hp. }
  assert (A5 : forall p, allocated s p -> allocated s5 p)
    by (intros p Hp; apply F5, F4, A3, Hp).
  assert (Hci5 : get_sign s5 ci = 0).
  { rewrite B5 by assumption.
    rewrite (get_sign_frame _ _ _ _ F2) by notin.
    rewrite (get_sign_frame _ _ _ _ F1) by notin. assumption. }
  pose proof (frame_rel_bf_add zi q ci s5) as F6.
  pose proof (get_sign_bf_add_zero_l zi q ci s5 T5) as T6.
  rewrite Hci5 in T6.
  revert F6 T6. generalize (bf_add zi q ci s5). intros s6 F6 T6.
  assert (Ht16 : get_sign s6 tmp1 = 0).
  { rewrite (get_sign_frame _ _ _ _ F6) by notin.
    rewrite B5 by assumption.
    rewrite (get_sign_frame _ _ _ _ F2) by notin. assumption. }
  assert (Ht26 : get_sign s6 tmp2 = 0).
  { rewrite (get_sign_frame _ _ _ _ F6) by notin.
    rewrite B5 by assumption. assumption. }
  assert (A6 : forall p, allocated s p -> allocated s6 p)
    by (intros p Hp; apply F6, A5, Hp).
  pose proof (frame_rel_bf_sub u tmp1 tmp1 tmp2 s6) as F7.
  pose proof (get_sign_bf_sub_zero u tmp1 tmp1 tmp2 s6
                ltac:(apply A6; assumption) ltac:(apply A6; assumption)
                ltac:(apply A6; assumption) Ht16 Ht26) as T7.
  revert F7 T7. generalize (bf_sub u tmp1 tmp1 tmp2 s6). intros s7 F7 T7.
  assert (Hcr7 : get_sign s7 cr = 0).
  { rewrite (get_sign_frame _ _ _ _ F7) by notin.
    rewrite (get_sign_frame _ _ _ _ F6) by notin.
    rewrite B5 by assumption.
    rewrite (get_sign_frame _ _ _ _ F2) by notin.
    rewrite (get_sign_frame _ _ _ _ F1) by notin. assumption. }
  pose proof (frame_rel_bf_add zr tmp1 cr s7) as F8.
  pose proof (get_sign_bf_add_zero_l zr tmp1 cr s7 T7) as T8.
  rewrite Hcr7 in T8.
  revert F8 T8. generalize (bf_add zr tmp1 cr s7). intros s8 F8 T8.
  unfold get_sign. rewrite !deref_release_ne by assumption.
  fold (get_sign s8 zr). fold (get_sign s8 zi).
  split; [exact T8|].
  rewrite (get_sign_frame _ _ _ _ F8) by notin.
  rewrite (get_sign_frame _ _ _ _ F7) by notin. exact T6.
Qed.

(** Non-membership in a list of pointers that are all known to differ. *)
Ltac notin_list :=
  repeat rewrite not_elem_of_cons; repeat split;
  try congruence; apply not_elem_of_nil.

Lemma enter_frame_live u s :
  frame_live (fst (enter_frame u s)) (snd (enter_frame u s)) /\
  (forall p, allocated s p -> allocated (snd (enter_frame u s)) p).
Proof.
  unfold enter_frame.
  destruct (alloca u s) as [p1 s1] eqn:E1.
  destruct (alloca u s1) as [p2 s2] eqn:E2.
  destruct (alloca u s2) as [p3 s3] eqn:E3.
  destruct (alloca u s3) as [p4 s4] eqn:E4.
  destruct (alloca u s4) as [p5 s5] eqn:E5.
  destruct (alloca u s5) as [p6 s6] eqn:E6.
  destruct (alloca_spec _ _ _ _ E1) as (-> & A1 & D1).
  destruct (alloca_spec _ _ _ _ E2) as (-> & A2 & D2).
  destruct (alloca_spec _ _ _ _ E3) as (-> & A3 & D3).
  destruct (alloca_spec _ _ _ _ E4) as (-> & A4 & D4).
  destruct (alloca_spec _ _ _ _ E5) as (-> & A5 & D5).
  destruct (alloca_spec _ _ _ _ E6) as (-> & A6 & D6).
  clear E1 E2 E3 E4 E5 E6. simpl.
  pose proof allocated_store as St.
  split; [split|].
  - unfold frame_ptrs. simpl.
    assert (p1 <> p2) by (apply D2; auto).
    assert (p1 <> p3 /\ p2 <> p3) as [? ?] by (split; apply D3; auto).
    assert (p1 <> p4 /\ p2 <> p4 /\ p3 <> p4) as (? & ? & ?)
      by (repeat split; apply D4; auto).
    assert (p1 <> p5 /\ p2 <> p5 /\ p3 <> p5 /\ p4 <> p5) as (? & ? & ? & ?)
      by (repeat split; apply D5; auto 6).
    assert (p1 <> p6 /\ p2 <> p6 /\ p3 <> p6 /\ p4 <> p6 /\ p5 <> p6)
      as (? & ? & ? & ? & ?) by (repeat split; apply D6; auto 7).
    repeat (apply NoDup_cons; split; [notin_list|]). apply NoDup_nil_2.
  - unfold frame_ptrs. simpl. repeat (apply Forall_cons; split); auto 7.
  - intros p Hp. auto 8.
Qed.

Lemma limb_set_limb_zero r i s : limb (set_limb r i 0 s) r i = 0.
Proof.
  unfold limb, set_limb. rewrite deref_store.
  destruct (decide (r = r)); [|congruence]. cbn [limbs].
  destruct (decide (i < length (limbs (deref s r)))%nat) as [Hlt|Hge].
  - rewrite list_lookup_insert_eq by exact Hlt. reflexivity.
  - rewrite lookup_ge_None_2; [reflexivity|].
    rewrite length_insert. apply Nat.nlt_ge in Hge. exact Hge.
Qed.

Lemma limb_memset_limbs r n s i :
  (i < n)%nat -> limb (memset_limbs r n s) r i = 0.
Proof.
  unfold memset_limbs.
  apply (for_loop_ind
           (fun k x => (i < k)%nat -> limb x r i = 0) n
           (fun i s => set_limb r i 0 s) s).
  - intros H. inversion H.
  - intros k x Hk IH Hi. destruct (decide (i = k)) as [->|Hne].
    + apply limb_set_limb_zero.
    + rewrite limb_set_limb_ne by (right; lia). apply IH. lia.
Qed.

Lemma bf_is_zero_bf_zero r n s : bf_is_zero r (bf_zero r n s) = true.
Proof.
  apply (proj2 (bf_is_zero_true r (bf_zero r n s))).
  rewrite get_nlimbs_bf_zero. intros i Hi. unfold bf_zero.
  rewrite limb_set_sign, limb_set_nlimbs. apply limb_memset_limbs, Hi.
Qed.

(** [bf_is_zero], [bf_to_d] and [bf_escaped] read only the structs they are
    given. *)
Lemma bf_is_zero_deref a s s' :
  deref s' a = deref s a -> bf_is_zero a s' = bf_is_zero a s.
Proof.
  intros H. unfold bf_is_zero, get_nlimbs, limb. rewrite H. reflexivity.
Qed.

Lemma bf_to_d_deref a s s' :
  deref s' a = deref s a -> bf_to_d a s' = bf_to_d a s.
Proof.
  intros H. unfold bf_to_d, get_sign, get_nlimbs, limb. rewrite H.
  reflexivity.
Qed.

Lemma bf_escaped_zero_signs re im s :
  get_sign s re = 0 -> get_sign s im = 0 ->
  bf_escaped re im Dbl.four s = false.
Proof.
  intros Hre Him. unfold bf_escaped, bf_to_d. rewrite Hre, Him.
  destruct (get_nlimbs s re =? 0); reflexivity.
Qed.

Lemma parse_decimal_0 : parse_decimal "0" = (false, S754_zero false).
Proof. vm_compute. reflexivity. Qed.

Lemma get_sign_bf_from_str_0 r n s : get_sign (bf_from_str r "0" n s) r = 0.
Proof.
  unfold bf_from_str. rewrite parse_decimal_0. unfold bf_set_d.
  change (Dbl.eqb (S754_zero false) Dbl.zero) with true. cbv iota zeta.
  apply get_sign_bf_zero.
Qed.

Lemma frame_rel_orbit_prologue f cr_str ci_str n s :
  frame_rel (list_to_set (frame_ptrs f)) s
    (orbit_prologue f cr_str ci_str n s).
Proof.
  unfold orbit_prologue, frame_ptrs. cbv zeta.
  repeat match goal with
         | |- frame_rel ?W ?s (set_nlimbs ?r ?v ?x) =>
             apply (frame_rel_trans W s x);
             [| apply frame_rel_set_nlimbs; set_solver]
         | |- frame_rel ?W ?s (bf_zero ?r ?v ?x) =>
             apply (frame_rel_trans W s x);
             [| eapply frame_rel_weaken; [|apply frame_rel_bf_zero];
                set_solver]
         | |- frame_rel ?W ?s (bf_from_str ?r ?v ?n ?x) =>
             apply (frame_rel_trans W s x);
             [| eapply frame_rel_weaken; [|apply frame_rel_bf_from_str];
                set_solver]
         end.
  apply frame_rel_refl.
Qed.

(** After the prologue [z] is zero; for the text ["0"] so is [c]. *)
Lemma orbit_prologue_zero f cr_str ci_str n s :
  frame_live f s ->
  let s0 := orbit_prologue f cr_str ci_str n s in
  frame_live f s0 /\
  get_sign s0 (f_zr f) = 0 /\ get_sign s0 (f_zi f) = 0 /\
  bf_is_zero (f_zr f) s0 = true /\ bf_is_zero (f_zi f) s0 = true /\
  (cr_str = "0"%string -> get_sign s0 (f_cr f) = 0) /\
  (ci_str = "0"%string -> get_sign s0 (f_ci f) = 0).
Proof.
  intros Hlive s0.
  split.
  { eapply frame_live_frame_rel; [apply frame_rel_orbit_prologue|exact Hlive]. }
  destruct Hlive as [Hnd _]. subst s0. unfold orbit_prologue. cbv zeta.
  destruct f as [cr ci zr zi tmp1 tmp2]. unfold frame_ptrs in Hnd.
  cbn [f_cr f_ci f_zr f_zi f_tmp1 f_tmp2] in *.
  apply NoDup6 in Hnd.
  destruct Hnd as (N1 & N2 & N3 & N4 & N5 & N6 & N7 & N8 & N9 & N10 & N11
                   & N12 & N13 & N14 & N15).
  pose proof (frame_rel_bf_from_str cr cr_str n s) as F1.
  pose proof (get_sign_bf_from_str_0 cr n s) as T1.
  assert (T1' : cr_str = "0"%string -> get_sign (bf_from_str cr cr_str n s) cr = 0)
    by (intros ->; exact T1).
  clear T1. revert F1 T1'. generalize (bf_from_str cr cr_str n s).
  intros s1 F1 T1.
  pose proof (frame_rel_bf_from_str ci ci_str n s1) as F2.
  pose proof (get_sign_bf_from_str_0 ci n s1) as T2.
  assert (T2' : ci_str = "0"%string -> get_sign (bf_from_str ci ci_str n s1) ci = 0)
    by (intros ->; exact T2).
  clear T2. revert F2 T2'. generalize (bf_from_str ci ci_str n s1).
  intros s2 F2 T2.
  pose proof (frame_rel_bf_zero zr n s2) as F3.
  pose proof (get_sign_bf_zero zr n s2) as T3.
  pose proof (bf_is_zero_bf_zero zr n s2) as Z3.
  revert F3 T3 Z3. generalize (bf_zero zr n s2). intros s3 F3 T3 Z3.
  pose proof (frame_rel_bf_zero zi n s3) as F4.
  pose proof (get_sign_bf_zero zi n s3) as T4.
  pose proof (bf_is_zero_bf_zero zi n s3) as Z4.
  revert F4 T4 Z4. generalize (bf_zero zi n s3). intros s4 F4 T4 Z4.
  assert (F5 : frame_rel {[tmp1]} s4 (set_nlimbs tmp1 n s4))
    by (apply frame_rel_set_nlimbs; set_solver).
  revert F5. generalize (set_nlimbs tmp1 n s4). intros s5 F5.
  assert (F6 : frame_rel {[tmp2]} s5 (set_nlimbs tmp2 n s5))
    by (apply frame_rel_set_nlimbs; set_solver).
  revert F6. generalize (set_nlimbs tmp2 n s5). intros s6 F6.
  assert (Dzr : deref s6 zr = deref s3 zr).
  { rewrite (frame_rel_deref _ _ _ _ F6) by notin.
    rewrite (frame_rel_deref _ _ _ _ F5) by notin.
    apply (frame_rel_deref _ _ _ _ F4). notin. }
  assert (Dzi : deref s6 zi = deref s4 zi).
  { rewrite (frame_rel_deref _ _ _ _ F6) by notin.
    apply (frame_rel_deref _ _ _ _ F5). notin. }
  assert (Dcr : deref s6 cr = deref s1 cr).
  { rewrite (frame_rel_deref _ _ _ _ F6) by notin.
    rewrite (frame_rel_deref _ _ _ _ F5) by notin.
    rewrite (frame_rel_deref _ _ _ _ F4) by notin.
    rewrite (frame_rel_deref _ _ _ _ F3) by notin.
    apply (frame_rel_deref _ _ _ _ F2). notin. }
  assert (Dci : deref s6 ci = deref s2 ci).
  { rewrite (frame_rel_deref _ _ _ _ F6) by notin.
    rewrite (frame_rel_deref _ _ _ _ F5) by notin.
    rewrite (frame_rel_deref _ _ _ _ F4) by notin.
    apply (frame_rel_deref _ _ _ _ F3). notin. }
  rewrite (bf_is_zero_deref zr s3 s6 Dzr), (bf_is_zero_deref zi s4 s6 Dzi).
  unfold get_sign in *. rewrite Dzr, Dzi, Dcr, Dci. auto 10.
Qed.

(** *** The loop of [mandelbrot_iterate] *)

Lemma mandelbrot_iterate_loop_spec u f max_iter k i s :
  let ret := fst (mandelbrot_iterate_loop u f max_iter k i s) in
  let esc j :=
    bf_escaped (f_zr f) (f_zi f) Dbl.four (Nat.iter j (step_frame u f) s) in
  (ret = max_iter /\ forall j, (j < k)%nat -> esc j = false) \/
  (exists j, (j < k)%nat /\ ret = i + Z.of_nat j /\ esc j = true /\
             forall j', (j' < j)%nat -> esc j' = false).
Proof.
  revert i s. induction k as [|k IH]; intros i s; simpl.
  - left. split; [reflexivity|]. intros j Hj. lia.
  - destruct (bf_escaped (f_zr f) (f_zi f) Dbl.four s) eqn:E.
    + right. exists 0%nat. simpl. repeat split; [lia|lia|exact E|].
      intros j' Hj'. lia.
    + destruct (IH (i + 1) (step_frame u f s)) as [[Hret Hno]|(j & Hj & Hret & Hesc & Hno)].
      * left. split; [exact Hret|]. intros j Hj.
        destruct j as [|j]; [exact E|].
        rewrite Nat.iter_succ_r. apply Hno. lia.
      * right. exists (S j). repeat split.
        -- lia.
        -- rewrite Hret. lia.
        -- rewrite Nat.iter_succ_r. exact Hesc.
        -- intros j' Hj'. destruct j' as [|j']; [exact E|].
           rewrite Nat.iter_succ_r. apply Hno. lia.
Qed.

Lemma fst_mandelbrot_iterate u cr_str ci_str max_iter n s :
  fst (mandelbrot_iterate u cr_str ci_str max_iter n s)
  = fst (mandelbrot_iterate_loop u (fst (enter_frame u s)) max_iter
           (Z.to_nat max_iter) 0
           (orbit_prologue (fst (enter_frame u s)) cr_str ci_str n
              (snd (enter_frame u s)))).
Proof.
  unfold mandelbrot_iterate. destruct (enter_frame u s) as [f s1].
  cbn [fst snd]. cbv zeta.
  destruct (mandelbrot_iterate_loop u f max_iter (Z.to_nat max_iter) 0
              (orbit_prologue f cr_str ci_str n s1)) as [ret s2].
  reflexivity.
Qed.

(** Zero-signed [z] and [c] stay so along the whole trajectory. *)
Lemma iter_step_zero u f s k :
  frame_live f s ->
  get_sign s (f_zr f) = 0 -> get_sign s (f_zi f) = 0 ->
  get_sign s (f_cr f) = 0 -> get_sign s (f_ci f) = 0 ->
  let s' := Nat.iter k (step_frame u f) s in
  frame_live f s' /\
  get_sign s' (f_zr f) = 0 /\ get_sign s' (f_zi f) = 0 /\
  get_sign s' (f_cr f) = 0 /\ get_sign s' (f_ci f) = 0.
Proof.
  intros Hl Hzr Hzi Hcr Hci. induction k as [|k IH]; simpl.
  - auto.
  - destruct IH as (Hl' & Hzr' & Hzi' & Hcr' & Hci').
    split; [apply frame_live_step, Hl'|].
    apply step_frame_zero; assumption.
Qed.

Lemma mandelbrot_iterate_origin u max_iter n s :
  fst (mandelbrot_iterate u "0" "0" max_iter n s) = max_iter.
Proof.
  rewrite fst_mandelbrot_iterate.
  destruct (enter_frame_live u s) as [Hlive _].
  set (f := fst (enter_frame u s)) in *.
  set (s1 := snd (enter_frame u s)) in *.
  destruct (orbit_prologue_zero f "0" "0" n s1 Hlive)
    as (Hl0 & Hzr & Hzi & _ & _ & Hcr & Hci).
  specialize (Hcr eq_refl). specialize (Hci eq_refl).
  set (s0 := orbit_prologue f "0" "0" n s1) in *.
  destruct (mandelbrot_iterate_loop_spec u f max_iter (Z.to_nat max_iter) 0 s0)
    as [[Hret _]|(j & Hj & _ & Hesc & _)]; [exact Hret|].
  exfalso.
  destruct (iter_step_zero u f s0 j Hl0 Hzr Hzi Hcr Hci) as (_ & Hzr' & Hzi' & _).
  rewrite (bf_escaped_zero_signs _ _ _ Hzr' Hzi') in Hesc. discriminate.
Qed.

(** After the prologue [cr] and [ci] hold what the two calls of
    [bf_from_str] left in them, and the scratch operands have [n] limbs. *)
Lemma orbit_prologue_coordinates f cr_str ci_str n s :
  frame_live f s ->
  let s1 := bf_from_str (f_cr f) cr_str n s in
  let s2 := bf_from_str (f_ci f) ci_str n s1 in
  let s0 := orbit_prologue f cr_str ci_str n s in
  deref s0 (f_cr f) = deref s1 (f_cr f) /\
  deref s0 (f_ci f) = deref s2 (f_ci f) /\
  get_nlimbs s0 (f_tmp1 f) = n /\ get_nlimbs s0 (f_tmp2 f) = n.
Proof.
  intros [Hnd _]. cbv zeta. unfold orbit_prologue. cbv zeta.
  destruct f as [cr ci zr zi tmp1 tmp2]. unfold frame_ptrs in Hnd.
  cbn [f_cr f_ci f_zr f_zi f_tmp1 f_tmp2] in *.
  apply NoDup6 in Hnd.
  destruct Hnd as (N1 & N2 & N3 & N4 & N5 & N6 & N7 & N8 & N9 & N10 & N11
                   & N12 & N13 & N14 & N15).
  generalize (bf_from_str cr cr_str n s). intros s1.
  pose proof (frame_rel_bf_from_str ci ci_str n s1) as F2.
  revert F2. generalize (bf_from_str ci ci_str n s1). intros s2 F2.
  pose proof (frame_rel_bf_zero zr n s2) as F3.
  revert F3. generalize (bf_zero zr n s2). intros s3 F3.
  pose proof (frame_rel_bf_zero zi n s3) as F4.
  revert F4. generalize (bf_zero zi n s3). intros s4 F4.
  assert (F5 : frame_rel {[tmp1]} s4 (set_nlimbs tmp1 n s4))
    by (apply frame_rel_set_nlimbs; set_solver).
  assert (T5 : get_nlimbs (set_nlimbs tmp1 n s4) tmp1 = n).
  { rewrite get_nlimbs_set_nlimbs.
    destruct (decide (tmp1 = tmp1)); congruence. }
  revert F5 T5. generalize (set_nlimbs tmp1 n s4). intros s5 F5 T5.
  assert (F6 : frame_rel {[tmp2]} s5 (set_nlimbs tmp2 n s5))
    by (apply frame_rel_set_nlimbs; set_solver).
  assert (T : get_nlimbs (set_nlimbs tmp2 n s5) tmp1 = n /\
              get_nlimbs (set_nlimbs tmp2 n s5) tmp2 = n).
  { rewrite !get_nlimbs_set_nlimbs.
    destruct (decide (tmp2 = tmp1)); destruct (decide (tmp2 = tmp2));
      try congruence.
    split; [exact T5|reflexivity]. }
  revert F6 T. generalize (set_nlimbs tmp2 n s5). intros s6 F6 T.
  split; [|split; [|exact T]].
  - rewrite (frame_rel_deref _ _ _ _ F6) by notin.
    rewrite (frame_rel_deref _ _ _ _ F5) by notin.
    rewrite (frame_rel_deref _ _ _ _ F4) by notin.
    rewrite (frame_rel_deref _ _ _ _ F3) by notin.
    apply (frame_rel_deref _ _ _ _ F2). notin.
  - rewrite (frame_rel_deref _ _ _ _ F6) by notin.
    rewrite (frame_rel_deref _ _ _ _ F5) by notin.
    rewrite (frame_rel_deref _ _ _ _ F4) by notin.
    apply (frame_rel_deref _ _ _ _ F3). notin.
Qed.

(** The steps never write [cr] or [ci]. *)
Lemma iter_step_coordinates u f s k :
  NoDup (frame_ptrs f) ->
  deref (Nat.iter k (step_frame u f) s) (f_cr f) = deref s (f_cr f) /\
  deref (Nat.iter k (step_frame u f) s) (f_ci f) = deref s (f_ci f).
Proof.
  intros Hnd. induction k as [|k [IHr IHi]]; [split; reflexivity|].
  rewrite Nat.iter_succ. rewrite <- IHr, <- IHi.
  generalize (Nat.iter k (step_frame u f) s). intros x.
  pose proof (frame_rel_mandelbrot_step u (f_zr f) (f_zi f) (f_cr f) (f_ci f)
                (f_tmp1 f) (f_tmp2 f) x) as F.
  fold (step_frame u f x) in F.
  destruct f as [cr ci zr zi tmp1 tmp2]. unfold frame_ptrs in Hnd.
  cbn [f_cr f_ci f_zr f_zi f_tmp1 f_tmp2] in *.
  apply NoDup6 in Hnd.
  destruct Hnd as (N1 & N2 & N3 & N4 & N5 & N6 & N7 & N8 & N9 & N10 & N11
                   & N12 & N13 & N14 & N15).
  split; apply (frame_rel_deref _ _ _ _ F); notin.
Qed.

(** ** C5: [mandelbrot_iterate] returns the first escaping index *)

(** C5.  [mandelbrot_iterate] parses the coordinates, starts from [z = 0]
    and tests [bf_escaped] with threshold 4.0 before each step.  When the
    loop is entered [cr] holds what [bf_from_str] made of [cr_str] and [ci]
    what [bf_from_str], called next, made of [ci_str]; no step changes
    them.  [zr] and [zi] are zero there, and the scratch operands [tmp1]
    and [tmp2] have [n] limbs.  With [z k] the state after [k]
    steps, the result is the first [k < max_iter] at which the test holds,
    and [max_iter] when it holds at none.  For the texts ["0"], ["0"] the
    result is [max_iter]. *)
Theorem mandelbrot_iterate_first_escape (u : BigFloat)
    (cr_str ci_str : string) (max_iter n : Z) (s : state) :
  0 <= max_iter ->
  let f := fst (enter_frame u s) in
  let parsed_cr := bf_from_str (f_cr f) cr_str n (snd (enter_frame u s)) in
  let parsed_ci := bf_from_str (f_ci f) ci_str n parsed_cr in
  let s0 := orbit_prologue f cr_str ci_str n (snd (enter_frame u s)) in
  let z := fun k : nat => Nat.iter k (step_frame u f) s0 in
  let esc := fun k : nat =>
    bf_escaped (f_zr f) (f_zi f) Dbl.four (Nat.iter k (step_frame u f) s0) in
  let ret := fst (mandelbrot_iterate u cr_str ci_str max_iter n s) in
  (deref s0 (f_cr f) = deref parsed_cr (f_cr f) /\
   deref s0 (f_ci f) = deref parsed_ci (f_ci f) /\
   (forall k : nat,
      deref (z k) (f_cr f) = deref parsed_cr (f_cr f) /\
      deref (z k) (f_ci f) = deref parsed_ci (f_ci f)) /\
   get_nlimbs s0 (f_tmp1 f) = n /\ get_nlimbs s0 (f_tmp2 f) = n) /\
  (get_sign s0 (f_zr f) = 0 /\ bf_is_zero (f_zr f) s0 = true /\
   get_sign s0 (f_zi f) = 0 /\ bf_is_zero (f_zi f) s0 = true) /\
  0 <= ret <= max_iter /\
  (forall k : nat, Z.of_nat k < ret -> esc k = false) /\
  (ret < max_iter -> esc (Z.to_nat ret) = true) /\
  fst (mandelbrot_iterate u "0" "0" max_iter n s) = max_iter.
Proof.
  intros Hmax f parsed_cr parsed_ci s0 z esc ret.
  destruct (enter_frame_live u s) as [Hlive _]. fold f in Hlive.
  destruct (orbit_prologue_zero f cr_str ci_str n _ Hlive)
    as (_ & Hzr & Hzi & Zzr & Zzi & _). fold s0 in Hzr, Hzi, Zzr, Zzi.
  destruct (orbit_prologue_coordinates f cr_str ci_str n _ Hlive)
    as (Pcr & Pci & Pt1 & Pt2).
  fold parsed_cr in Pcr, Pci. fold parsed_ci in Pci.
  fold s0 in Pcr, Pci, Pt1, Pt2.
  split.
  { split; [exact Pcr|]. split; [exact Pci|].
    split; [|split; [exact Pt1 | exact Pt2]]. intros k.
    destruct (iter_step_coordinates u f s0 k (proj1 Hlive)) as [Kr Ki].
    unfold z. rewrite Kr, Ki. auto. }
  split; [auto|].
  assert (Hret : ret = fst (mandelbrot_iterate_loop u f max_iter
                              (Z.to_nat max_iter) 0 s0))
    by apply fst_mandelbrot_iterate.
  destruct (mandelbrot_iterate_loop_spec u f max_iter (Z.to_nat max_iter) 0 s0)
    as [[Hr Hno]|(j & Hj & Hr & Hesc & Hno)]; rewrite <- Hret in Hr.
  - split; [lia|]. split; [|split].
    + intros k Hk. apply Hno. lia.
    + intros Hlt. lia.
    + apply mandelbrot_iterate_origin.
  - split; [lia|]. split; [|split].
    + intros k Hk. apply Hno. lia.
    + intros _. rewrite Hr, Z.add_0_l, Nat2Z.id. exact Hesc.
    + apply mandelbrot_iterate_origin.
Qed.

Lemma mandelbrot_iterate_first_escape_witness :
  let f := fst (enter_frame Demo.dirty Demo.s0) in
  let s1 := snd (enter_frame Demo.dirty Demo.s0) in
  let parsed_ci :=
    bf_from_str (f_ci f) "-0.75" 2 (bf_from_str (f_cr f) "0.5" 2 s1) in
  fst (mandelbrot_iterate Demo.dirty "0.5" "-0.75" 10 2 Demo.s0) = 3 /\
  deref (orbit_prologue f "0.5" "-0.75" 2 s1) (f_ci f)
    = deref parsed_ci (f_ci f) /\
  fst (mandelbrot_iterate Demo.dirty "0" "0" 10 2 Demo.s0) = 10.
Proof.
  pose proof (mandelbrot_iterate_first_escape Demo.dirty "0.5" "-0.75" 10 2
                Demo.s0 ltac:(lia)) as H.
  cbv zeta in H. destruct H as ((_ & Hci & _) & _ & _ & _ & _ & H0).
  cbv zeta. split; [vm_compute; reflexivity|]. split; [exact Hci | exact H0].
Defined.

(** ** C6: the reference orbit *)

Lemma iter_shift {A} (g : A -> A) (j : nat) (x : A) :
  Nat.iter j g (g x) = Nat.iter (S j) g x.
Proof. symmetry. apply Nat.iter_succ_r. Qed.

(** The loop of [compute_reference_orbit], started at index [i] with [k]
    turns left: [m] is the number of steps it performs. *)
Lemma compute_reference_orbit_loop_spec u f max_iter k i o s :
  (i + k < length (orbit_re_out o))%nat ->
  (i + k < length (orbit_im_out o))%nat ->
  let res := compute_reference_orbit_loop u f max_iter k i o s in
  let ret := fst (fst res) in
  let o' := snd (fst res) in
  let z j := Nat.iter j (step_frame u f) s in
  let big j :=
    Dbl.gtb (mag_sq (bf_to_d (f_zr f) (z j)) (bf_to_d (f_zi f) (z j)))
            Dbl.ten16 in
  (forall j, (j <= i)%nat ->
     orbit_re_out o' !! j = orbit_re_out o !! j /\
     orbit_im_out o' !! j = orbit_im_out o !! j) /\
  exists m, (m <= k)%nat /\
    (forall j, (1 <= j <= m)%nat ->
       orbit_re_out o' !! (i + j)%nat = Some (bf_to_d (f_zr f) (z j)) /\
       orbit_im_out o' !! (i + j)%nat = Some (bf_to_d (f_zi f) (z j))) /\
    (forall j, (1 <= j < m)%nat -> big j = false) /\
    ((ret = Z.of_nat (i + m) /\ (1 <= m)%nat /\
      escape_iter o' = Z.of_nat (i + m) /\ big m = true) \/
     (ret = max_iter /\ m = k /\ escape_iter o' = escape_iter o /\
      forall j, (1 <= j <= k)%nat -> big j = false)).
Proof.
  revert i o s. induction k as [|k IH]; intros i o s Hre Him.
  - simpl. split; [auto|]. exists 0%nat. split; [lia|].
    split; [intros j Hj; lia|]. split; [intros j Hj; lia|].
    right. repeat split; auto. intros j Hj. lia.
  - cbn [compute_reference_orbit_loop]. cbv zeta.
    set (s1 := step_frame u f s).
    set (zr_d := bf_to_d (f_zr f) s1). set (zi_d := bf_to_d (f_zi f) s1).
    set (re1 := <[S i := zr_d]> (orbit_re_out o)).
    set (im1 := <[S i := zi_d]> (orbit_im_out o)).
    assert (Hre1 : re1 !! S i = Some zr_d)
      by (apply list_lookup_insert_eq; lia).
    assert (Him1 : im1 !! S i = Some zi_d)
      by (apply list_lookup_insert_eq; lia).
    assert (Hpre : forall j, (j <= i)%nat ->
              re1 !! j = orbit_re_out o !! j /\ im1 !! j = orbit_im_out o !! j).
    { intros j Hj. split; apply list_lookup_insert_ne; lia. }
    destruct (Dbl.gtb (mag_sq zr_d zi_d) Dbl.ten16) eqn:E.
    + cbn [fst snd orbit_re_out orbit_im_out escape_iter].
      split; [exact Hpre|]. exists 1%nat. split; [lia|].
      split.
      { intros j Hj. assert (j = 1%nat) as -> by lia.
        replace (i + 1)%nat with (S i) by lia. simpl. auto. }
      split; [intros j Hj; lia|].
      left. repeat split; try lia. simpl. exact E.
    + specialize (IH (S i) (mkOrbit re1 im1 (escape_iter o)) s1).
      cbn [orbit_re_out orbit_im_out escape_iter] in IH.
      specialize (IH ltac:(unfold re1; rewrite length_insert; lia)
                     ltac:(unfold im1; rewrite length_insert; lia)).
      cbv zeta in IH.
      destruct (compute_reference_orbit_loop u f max_iter k (S i)
                  (mkOrbit re1 im1 (escape_iter o)) s1) as [[ret o'] s'].
      cbn [fst snd] in *.
      destruct IH as (Hkeep & m & Hm & Hrec & Hno & Hend).
      split.
      { intros j Hj. destruct (Hkeep j ltac:(lia)) as [-> ->].
        apply Hpre, Hj. }
      exists (S m). split; [lia|].
      assert (Hsh : forall j, Nat.iter j (step_frame u f) s1
                              = Nat.iter (S j) (step_frame u f) s)
        by (intros j; apply iter_shift).
      split.
      { intros j Hj. destruct (decide (j = 1%nat)) as [->|Hne].
        - replace (i + 1)%nat with (S i) by lia.
          destruct (Hkeep (S i) ltac:(lia)) as [-> ->]. simpl. auto.
        - destruct j as [|j]; [lia|].
          replace (i + S j)%nat with (S i + j)%nat by lia.
          rewrite <- Hsh. apply Hrec. lia. }
      split.
      { intros j Hj. destruct j as [|[|j]]; [lia|exact E|].
        rewrite <- Hsh. apply Hno. lia. }
      destruct Hend as [(Hr & Hm1 & He & Hb)|(Hr & Hmk & He & Hb)].
      * left. replace (i + S m)%nat with (S i + m)%nat by lia.
        rewrite <- Hsh. repeat split; auto; lia.
      * right. split; [exact Hr|]. split; [lia|]. split; [exact He|].
        intros j Hj. destruct j as [|[|j]]; [lia|exact E|].
        rewrite <- Hsh. apply Hb. lia.
Qed.

Lemma compute_reference_orbit_unfold u cr_str ci_str max_iter n o s :
  fst (compute_reference_orbit u cr_str ci_str max_iter n o s)
  = fst (compute_reference_orbit_loop u (fst (enter_frame u s)) max_iter
           (Z.to_nat max_iter) 0
           (mkOrbit (<[O := Dbl.zero]> (orbit_re_out o))
                    (<[O := Dbl.zero]> (orbit_im_out o)) (-1))
           (orbit_prologue (fst (enter_frame u s)) cr_str ci_str n
              (snd (enter_frame u s)))).
Proof.
  unfold compute_reference_orbit. destruct (enter_frame u s) as [f s1].
  cbn [fst snd]. cbv zeta.
  destruct (compute_reference_orbit_loop u f max_iter (Z.to_nat max_iter) 0 _ _)
    as [[ret o'] s2].
  reflexivity.
Qed.

(** C6.  [compute_reference_orbit] stores (0, 0) at index 0 and, with [z k]
    the state after [k] steps, the converted pair of [z k] at every index
    [1 <= k <= ret]; it stops at the first [k] whose squared magnitude
    exceeds 1e16 and then both returns [k] and stores [k] in [escape_iter];
    when no step up to [max_iter] does, it returns [max_iter] and
    [escape_iter] is -1. *)
Theorem compute_reference_orbit_records (u : BigFloat)
    (cr_str ci_str : string) (max_iter n : Z) (o : orbit_out) (s : state) :
  0 <= max_iter ->
  (Z.to_nat max_iter < length (orbit_re_out o))%nat ->
  (Z.to_nat max_iter < length (orbit_im_out o))%nat ->
  let f := fst (enter_frame u s) in
  let s0 := orbit_prologue f cr_str ci_str n (snd (enter_frame u s)) in
  let z := fun k : nat => Nat.iter k (step_frame u f) s0 in
  let big := fun k : nat =>
    Dbl.gtb (mag_sq (bf_to_d (f_zr f) (z k)) (bf_to_d (f_zi f) (z k)))
            Dbl.ten16 in
  let res := compute_reference_orbit u cr_str ci_str max_iter n o s in
  let ret := fst (fst res) in
  let o' := snd (fst res) in
  orbit_re_out o' !! 0%nat = Some Dbl.zero /\
  orbit_im_out o' !! 0%nat = Some Dbl.zero /\
  0 <= ret <= max_iter /\
  (forall k : nat, (1 <= k)%nat -> Z.of_nat k <= ret ->
     orbit_re_out o' !! k = Some (bf_to_d (f_zr f) (z k)) /\
     orbit_im_out o' !! k = Some (bf_to_d (f_zi f) (z k))) /\
  (forall k : nat, (1 <= k)%nat -> Z.of_nat k < ret -> big k = false) /\
  ((escape_iter o' = ret /\ 1 <= ret /\ big (Z.to_nat ret) = true) \/
   (escape_iter o' = -1 /\ ret = max_iter /\
    forall k : nat, (1 <= k)%nat -> Z.of_nat k <= max_iter -> big k = false)).
Proof.
  intros Hmax Hre Him. cbv zeta. rewrite compute_reference_orbit_unfold.
  set (f := fst (enter_frame u s)).
  set (s0 := orbit_prologue f cr_str ci_str n (snd (enter_frame u s))).
  set (o0 := mkOrbit (<[O := Dbl.zero]> (orbit_re_out o))
                     (<[O := Dbl.zero]> (orbit_im_out o)) (-1)).
  pose proof (compute_reference_orbit_loop_spec u f max_iter
                (Z.to_nat max_iter) 0 o0 s0) as H.
  cbn [orbit_re_out orbit_im_out o0] in H.
  specialize (H ltac:(rewrite length_insert; lia)
                ltac:(rewrite length_insert; lia)).
  cbv zeta in H. fold o0 in H.
  destruct (compute_reference_orbit_loop u f max_iter (Z.to_nat max_iter) 0 o0 s0)
    as [[ret o'] s'].
  cbn [fst snd] in *.
  destruct H as (Hkeep & m & Hm & Hrec & Hno & Hend).
  destruct (Hkeep 0%nat ltac:(lia)) as [K1 K2].
  split; [rewrite K1; apply list_lookup_insert_eq; lia|].
  split; [rewrite K2; apply list_lookup_insert_eq; lia|].
  destruct Hend as [(Hr & Hm1 & He & Hb)|(Hr & Hmk & He & Hb)].
  - rewrite Nat.add_0_l in Hr, He. subst ret.
    split; [lia|]. split.
    { intros k Hk1 Hk2. exact (Hrec k ltac:(lia)). }
    split.
    { intros k Hk1 Hk2. exact (Hno k ltac:(lia)). }
    left. rewrite Nat2Z.id. split; [exact He|]. split; [lia|exact Hb].
  - subst ret m.
    split; [lia|]. split.
    { intros k Hk1 Hk2. exact (Hrec k ltac:(lia)). }
    split.
    { intros k Hk1 Hk2. exact (Hno k ltac:(lia)). }
    right. split; [exact He|]. split; [reflexivity|].
    intros k Hk1 Hk2. exact (Hb k ltac:(lia)).
Qed.

Lemma compute_reference_orbit_records_witness :
  let res := compute_reference_orbit Demo.dirty "-1" "0" 6 2
               (mkOrbit (replicate 7 Dbl.one) (replicate 7 Dbl.one) 77)
               Demo.s0 in
  orbit_re_out (snd (fst res)) !! 0%nat = Some Dbl.zero /\
  0 <= fst (fst res) <= 6.
Proof.
  pose proof (compute_reference_orbit_records Demo.dirty "-1" "0" 6 2
                (mkOrbit (replicate 7 Dbl.one) (replicate 7 Dbl.one) 77)
                Demo.s0 ltac:(lia) ltac:(vm_compute; lia)
                ltac:(vm_compute; lia)) as H.
  cbv zeta in H. destruct H as (H0 & _ & Hr & _).
  split; [exact H0 | exact Hr].
Defined.

(** ** C7: the extended orbit *)

Lemma compute_reference_orbit_extended_loop_S u f z2r z2i max_iter k i o s :
  compute_reference_orbit_extended_loop u f z2r z2i max_iter (S k) i o s =
    let s1 := ext_turn u f z2r z2i s in
    let zr_d := bf_to_d (f_zr f) s1 in
    let zi_d := bf_to_d (f_zi f) s1 in
    let re := <[S i := zr_d]> (x_re o) in
    let im := <[S i := zi_d]> (x_im o) in
    let z2_re :=
      <[S i := Dbl.sub (bf_to_d z2r s1) (bf_to_d z2i s1)]> (x_z2_re o) in
    let z2_im :=
      <[S i := Dbl.mul (Dbl.mul Dbl.two (dbl_at re i)) (dbl_at im i)]>
        (x_z2_im o) in
    if Dbl.gtb (mag_sq zr_d zi_d) Dbl.ten16 then
      (Z.of_nat i + 1, mkOrbitExt re im z2_re z2_im (Z.of_nat i + 1), s1)
    else
      compute_reference_orbit_extended_loop u f z2r z2i max_iter k (S i)
        (mkOrbitExt re im z2_re z2_im (x_escape o)) s1.
Proof.
  cbn [compute_reference_orbit_extended_loop].
  unfold ext_turn, ext_squares. reflexivity.
Qed.

Lemma ext_turn_keeps_squares u f z2r z2i s :
  z2r ∉ ({[f_zr f; f_zi f; f_tmp1 f; f_tmp2 f]} : gset ptr) ->
  z2i ∉ ({[f_zr f; f_zi f; f_tmp1 f; f_tmp2 f]} : gset ptr) ->
  bf_to_d z2r (ext_turn u f z2r z2i s)
    = bf_to_d z2r (ext_squares f z2r z2i s) /\
  bf_to_d z2i (ext_turn u f z2r z2i s)
    = bf_to_d z2i (ext_squares f z2r z2i s).
Proof.
  intros Hr Hi. unfold ext_turn, step_frame.
  generalize (ext_squares f z2r z2i s). intros x.
  split; apply bf_to_d_deref;
    (eapply frame_rel_deref; [apply frame_rel_mandelbrot_step|assumption]).
Qed.

Lemma compute_reference_orbit_extended_loop_spec u f z2r z2i max_iter k i o s :
  z2r ∉ ({[f_zr f; f_zi f; f_tmp1 f; f_tmp2 f]} : gset ptr) ->
  z2i ∉ ({[f_zr f; f_zi f; f_tmp1 f; f_tmp2 f]} : gset ptr) ->
  (i + k < length (x_re o))%nat -> (i + k < length (x_im o))%nat ->
  (i + k < length (x_z2_re o))%nat -> (i + k < length (x_z2_im o))%nat ->
  let res := compute_reference_orbit_extended_loop u f z2r z2i max_iter k i o s in
  let ret := fst (fst res) in
  let o' := snd (fst res) in
  let pre j := Nat.iter j (ext_turn u f z2r z2i) s in
  let sq j := ext_squares f z2r z2i (pre j) in
  (forall j, (j <= i)%nat ->
     x_re o' !! j = x_re o !! j /\ x_im o' !! j = x_im o !! j /\
     x_z2_re o' !! j = x_z2_re o !! j /\ x_z2_im o' !! j = x_z2_im o !! j) /\
  exists m, (m <= k)%nat /\
    (ret = Z.of_nat (i + m) \/ (ret = max_iter /\ m = k)) /\
    forall j, (j < m)%nat ->
      x_re o' !! (i + S j)%nat = Some (bf_to_d (f_zr f) (pre (S j))) /\
      x_im o' !! (i + S j)%nat = Some (bf_to_d (f_zi f) (pre (S j))) /\
      x_z2_re o' !! (i + S j)%nat
        = Some (Dbl.sub (bf_to_d z2r (sq j)) (bf_to_d z2i (sq j))) /\
      x_z2_im o' !! (i + S j)%nat
        = Some (Dbl.mul (Dbl.mul Dbl.two (dbl_at (x_re o') (i + j)))
                        (dbl_at (x_im o') (i + j))).
Proof.
  intros Hz2r Hz2i. revert i o s.
  induction k as [|k IH]; intros i o s Hre Him Hz2re Hz2im.
  - cbn [compute_reference_orbit_extended_loop fst snd].
    split; [auto|]. exists 0%nat. split; [lia|].
    split; [right; auto|]. intros j Hj. lia.
  - rewrite compute_reference_orbit_extended_loop_S. cbv zeta.
    destruct (ext_turn_keeps_squares u f z2r z2i s Hz2r Hz2i) as [Dr Di].
    rewrite Dr, Di. clear Dr Di.
    assert (Hp1 : ext_turn u f z2r z2i s
                  = Nat.iter 1 (ext_turn u f z2r z2i) s) by reflexivity.
    assert (Hp0 : ext_squares f z2r z2i s
                  = ext_squares f z2r z2i (Nat.iter 0 (ext_turn u f z2r z2i) s))
      by reflexivity.
    revert Hp1 Hp0.
    generalize (ext_squares f z2r z2i s). generalize (ext_turn u f z2r z2i s).
    intros s1 sq0 Hp1 Hp0.
    set (zr_d := bf_to_d (f_zr f) s1). set (zi_d := bf_to_d (f_zi f) s1).
    set (re1 := <[S i := zr_d]> (x_re o)).
    set (im1 := <[S i := zi_d]> (x_im o)).
    set (v_re := Dbl.sub (bf_to_d z2r sq0) (bf_to_d z2i sq0)).
    set (v_im := Dbl.mul (Dbl.mul Dbl.two (dbl_at re1 i)) (dbl_at im1 i)).
    set (zre1 := <[S i := v_re]> (x_z2_re o)).
    set (zim1 := <[S i := v_im]> (x_z2_im o)).
    assert (H1 : re1 !! S i = Some zr_d /\ im1 !! S i = Some zi_d /\
                 zre1 !! S i = Some v_re /\ zim1 !! S i = Some v_im).
    { repeat split; apply list_lookup_insert_eq; lia. }
    destruct H1 as (Hre1 & Him1 & Hzre1 & Hzim1).
    assert (Hpre : forall j, (j <= i)%nat ->
              re1 !! j = x_re o !! j /\ im1 !! j = x_im o !! j /\
              zre1 !! j = x_z2_re o !! j /\ zim1 !! j = x_z2_im o !! j).
    { intros j Hj. repeat split; apply list_lookup_insert_ne; lia. }
    destruct (Dbl.gtb (mag_sq zr_d zi_d) Dbl.ten16) eqn:E.
    + cbn [fst snd x_re x_im x_z2_re x_z2_im].
      split; [exact Hpre|]. exists 1%nat. split; [lia|].
      split; [left; lia|].
      intros j Hj. assert (j = 0%nat) as -> by lia.
      replace (i + 1)%nat with (S i) by lia. rewrite Nat.add_0_r.
      rewrite <- Hp1, <- Hp0. repeat split; auto.
    + specialize (IH (S i) (mkOrbitExt re1 im1 zre1 zim1 (x_escape o)) s1).
      cbn [x_re x_im x_z2_re x_z2_im] in IH.
      specialize (IH ltac:(unfold re1; rewrite length_insert; lia)
                     ltac:(unfold im1; rewrite length_insert; lia)
                     ltac:(unfold zre1; rewrite length_insert; lia)
                     ltac:(unfold zim1; rewrite length_insert; lia)).
      cbv zeta in IH.
      destruct (compute_reference_orbit_extended_loop u f z2r z2i max_iter k
                  (S i) (mkOrbitExt re1 im1 zre1 zim1 (x_escape o)) s1)
        as [[ret o'] s'].
      cbn [fst snd] in *.
      destruct IH as (Hkeep & m & Hm & Hret & Hrec).
      split.
      { intros j Hj. destruct (Hkeep j ltac:(lia)) as (-> & -> & -> & ->).
        apply Hpre, Hj. }
      exists (S m). split; [lia|]. split.
      { destruct Hret as [Hr|[Hr Hmk]]; [left|right]; [lia|split; [auto|lia]]. }
      assert (Hsh : forall j, Nat.iter j (ext_turn u f z2r z2i) s1
                              = Nat.iter (S j) (ext_turn u f z2r z2i) s)
        by (intros j; rewrite Hp1; apply iter_shift).
      intros j Hj. destruct j as [|j].
      * replace (i + 1)%nat with (S i) by lia. rewrite Nat.add_0_r.
        destruct (Hkeep (S i) ltac:(lia)) as (-> & -> & -> & ->).
        rewrite Hre1, Him1, Hzre1, Hzim1. rewrite <- Hp1, <- Hp0.
        repeat split. unfold v_im. unfold dbl_at.
        destruct (Hkeep i ltac:(lia)) as (-> & -> & _). reflexivity.
      * replace (i + S (S j))%nat with (S i + S j)%nat by lia.
        replace (i + S j)%nat with (S i + j)%nat by lia.
        rewrite <- !Hsh. apply Hrec. lia.
Qed.

(** Where the loop of [compute_reference_orbit_extended] stops: at the first
    turn after which the squared magnitude of the converted [z] exceeds
    1e16, which it also stores in [escape_iter]; otherwise it runs all [k]
    turns and leaves [escape_iter] alone. *)
Lemma compute_reference_orbit_extended_loop_stop u f z2r z2i max_iter k i o s :
  let res := compute_reference_orbit_extended_loop u f z2r z2i max_iter k i o s in
  let ret := fst (fst res) in
  let o' := snd (fst res) in
  let pre j := Nat.iter j (ext_turn u f z2r z2i) s in
  let big j :=
    Dbl.gtb (mag_sq (bf_to_d (f_zr f) (pre j)) (bf_to_d (f_zi f) (pre j)))
            Dbl.ten16 in
  (ret = max_iter /\ x_escape o' = x_escape o /\
   forall j, (1 <= j <= k)%nat -> big j = false) \/
  (exists m, (1 <= m <= k)%nat /\ ret = Z.of_nat (i + m) /\
     x_escape o' = Z.of_nat (i + m) /\ big m = true /\
     forall j, (1 <= j < m)%nat -> big j = false).
Proof.
  revert i o s. induction k as [|k IH]; intros i o s.
  - cbn [compute_reference_orbit_extended_loop fst snd].
    left. split; [reflexivity|]. split; [reflexivity|]. intros j Hj. lia.
  - rewrite compute_reference_orbit_extended_loop_S. cbv zeta.
    assert (Hsh : forall j, Nat.iter j (ext_turn u f z2r z2i)
                              (ext_turn u f z2r z2i s)
                            = Nat.iter (S j) (ext_turn u f z2r z2i) s)
      by (intros j; apply iter_shift).
    assert (Hp1 : ext_turn u f z2r z2i s
                  = Nat.iter 1 (ext_turn u f z2r z2i) s) by reflexivity.
    destruct (Dbl.gtb (mag_sq (bf_to_d (f_zr f) (ext_turn u f z2r z2i s))
                              (bf_to_d (f_zi f) (ext_turn u f z2r z2i s)))
                      Dbl.ten16) eqn:E.
    + cbn [fst snd x_escape]. right. exists 1%nat.
      split; [lia|]. split; [lia|]. split; [lia|].
      split; [rewrite <- Hp1; exact E|]. intros j Hj. lia.
    + match goal with
      | |- context [compute_reference_orbit_extended_loop u f z2r z2i max_iter
                      k (S i) ?o1 ?s1] =>
          specialize (IH (S i) o1 s1); cbv zeta in IH;
          destruct (compute_reference_orbit_extended_loop u f z2r z2i max_iter
                      k (S i) o1 s1) as [[ret o'] s']
      end.
      cbn [fst snd x_escape] in *.
      destruct IH as [(Hr & He & Hb)|(m & Hm & Hr & He & Hb & Hno)].
      * left. split; [exact Hr|]. split; [exact He|].
        intros j Hj. destruct j as [|[|j]]; [lia|rewrite <- Hp1; exact E|].
        rewrite <- Hsh. apply Hb. lia.
      * right. exists (S m). split; [lia|].
        replace (i + S m)%nat with (S i + m)%nat by lia.
        split; [exact Hr|]. split; [exact He|].
        split; [rewrite <- Hsh; exact Hb|].
        intros j Hj. destruct j as [|[|j]]; [lia|rewrite <- Hp1; exact E|].
        rewrite <- Hsh. apply Hno. lia.
Qed.

Lemma compute_reference_orbit_extended_unfold u cr_str ci_str max_iter n o s :
  let f := fst (enter_frame u s) in
  let s1 := snd (enter_frame u s) in
  let z2r := fst (alloca u s1) in
  let s2 := snd (alloca u s1) in
  let z2i := fst (alloca u s2) in
  let s3 := snd (alloca u s2) in
  fst (compute_reference_orbit_extended u cr_str ci_str max_iter n o s)
  = fst (compute_reference_orbit_extended_loop u f z2r z2i max_iter
           (Z.to_nat max_iter) 0
           (mkOrbitExt (<[O := Dbl.zero]> (x_re o)) (<[O := Dbl.zero]> (x_im o))
              (<[O := Dbl.zero]> (x_z2_re o)) (<[O := Dbl.zero]> (x_z2_im o))
              (-1))
           (set_nlimbs z2i n
              (set_nlimbs z2r n (orbit_prologue f cr_str ci_str n s3)))).
Proof.
  unfold compute_reference_orbit_extended.
  destruct (enter_frame u s) as [f s1]. cbn [fst snd].
  destruct (alloca u s1) as [z2r s2]. cbn [fst snd].
  destruct (alloca u s2) as [z2i s3]. cbn [fst snd]. cbv zeta.
  destruct (compute_reference_orbit_extended_loop u f z2r z2i max_iter
              (Z.to_nat max_iter) 0 _ _) as [[ret o'] s4].
  reflexivity.
Qed.

(** The two extra locals are different structs from those the step writes. *)
Lemma ext_locals_apart u s :
  let f := fst (enter_frame u s) in
  let s1 := snd (enter_frame u s) in
  let z2r := fst (alloca u s1) in
  let z2i := fst (alloca u (snd (alloca u s1))) in
  (z2r ∉ ({[f_zr f; f_zi f; f_tmp1 f; f_tmp2 f]} : gset ptr)) /\
  (z2i ∉ ({[f_zr f; f_zi f; f_tmp1 f; f_tmp2 f]} : gset ptr)).
Proof.
  cbv zeta. destruct (enter_frame_live u s) as [[_ Hall] _].
  set (f := fst (enter_frame u s)) in *.
  set (s1 := snd (enter_frame u s)) in *.
  destruct (alloca u s1) as [z2r s2] eqn:E1. cbn [fst snd].
  destruct (alloca u s2) as [z2i s3] eqn:E2. cbn [fst snd].
  destruct (alloca_spec _ _ _ _ E1) as (-> & _ & D1).
  destruct (alloca_spec _ _ _ _ E2) as (_ & _ & D2).
  unfold frame_ptrs in Hall.
  repeat (apply Forall_cons in Hall as [? Hall]).
  assert (D : forall p, allocated s1 p -> p <> z2r /\ p <> z2i).
  { intros p Hp. split; [apply D1, Hp|]. apply D2, allocated_store, Hp. }
  split; repeat rewrite not_elem_of_union; repeat rewrite not_elem_of_singleton;
    repeat split; intros Heq; symmetry in Heq; revert Heq; apply D; assumption.
Qed.

(** C7.  In [compute_reference_orbit_extended], at every recorded index
    [j + 1] the stored imaginary part of z^2 is
    [2 * orbit_re[j] * orbit_im[j]], read back from the previous orbit entry,
    while [orbit_re[j + 1]] and [orbit_im[j + 1]] hold the converted [z] after
    the step; the stored real part is the converted [z2r] minus the converted
    [z2i], which are [bf_sqr] of [zr] and [zi] taken before the step.  The
    recorded indices are [1 .. ret], and [ret] is the first turn after which
    the squared magnitude of the converted [z] exceeds 1e16, also stored in
    [escape_iter], or [max_iter] with [escape_iter = -1] when no turn up to
    [max_iter] does.  All four arrays hold 0 at index 0. *)
Theorem compute_reference_orbit_extended_z2 (u : BigFloat)
    (cr_str ci_str : string) (max_iter n : Z) (o : orbit_ext) (s : state) :
  0 <= max_iter ->
  (Z.to_nat max_iter < length (x_re o))%nat ->
  (Z.to_nat max_iter < length (x_im o))%nat ->
  (Z.to_nat max_iter < length (x_z2_re o))%nat ->
  (Z.to_nat max_iter < length (x_z2_im o))%nat ->
  let f := fst (enter_frame u s) in
  let s1 := snd (enter_frame u s) in
  let z2r := fst (alloca u s1) in
  let s2 := snd (alloca u s1) in
  let z2i := fst (alloca u s2) in
  let s3 := snd (alloca u s2) in
  let s0 := set_nlimbs z2i n
              (set_nlimbs z2r n (orbit_prologue f cr_str ci_str n s3)) in
  let pre := fun j : nat => Nat.iter j (ext_turn u f z2r z2i) s0 in
  let sq := fun j : nat => ext_squares f z2r z2i (pre j) in
  let big := fun k : nat =>
    Dbl.gtb (mag_sq (bf_to_d (f_zr f) (pre k)) (bf_to_d (f_zi f) (pre k)))
            Dbl.ten16 in
  let res := compute_reference_orbit_extended u cr_str ci_str max_iter n o s in
  let ret := fst (fst res) in
  let o' := snd (fst res) in
  0 <= ret <= max_iter /\
  x_re o' !! 0%nat = Some Dbl.zero /\ x_im o' !! 0%nat = Some Dbl.zero /\
  (forall j : nat, Z.of_nat j < ret ->
    x_z2_im o' !! S j
      = Some (Dbl.mul (Dbl.mul Dbl.two (dbl_at (x_re o') j))
                      (dbl_at (x_im o') j)) /\
    x_z2_re o' !! S j
      = Some (Dbl.sub (bf_to_d z2r (sq j)) (bf_to_d z2i (sq j))) /\
    x_re o' !! S j = Some (bf_to_d (f_zr f) (pre (S j))) /\
    x_im o' !! S j = Some (bf_to_d (f_zi f) (pre (S j)))) /\
  x_z2_re o' !! 0%nat = Some Dbl.zero /\
  x_z2_im o' !! 0%nat = Some Dbl.zero /\
  (forall k : nat, (1 <= k)%nat -> Z.of_nat k < ret -> big k = false) /\
  ((x_escape o' = ret /\ 1 <= ret /\ big (Z.to_nat ret) = true) \/
   (x_escape o' = -1 /\ ret = max_iter /\
    forall k : nat, (1 <= k)%nat -> Z.of_nat k <= max_iter -> big k = false)).
Proof.
  intros Hmax L1 L2 L3 L4. cbv zeta.
  pose proof (compute_reference_orbit_extended_unfold u cr_str ci_str max_iter
                n o s) as Hun.
  cbv zeta in Hun. rewrite Hun. clear Hun.
  destruct (ext_locals_apart u s) as [Hz2r Hz2i].
  set (f := fst (enter_frame u s)) in *.
  set (z2r := fst (alloca u (snd (enter_frame u s)))) in *.
  set (z2i := fst (alloca u (snd (alloca u (snd (enter_frame u s)))))) in *.
  generalize (set_nlimbs z2i n (set_nlimbs z2r n
                (orbit_prologue f cr_str ci_str n
                   (snd (alloca u (snd (alloca u (snd (enter_frame u s))))))))).
  intros s0.
  set (o0 := mkOrbitExt (<[O := Dbl.zero]> (x_re o)) (<[O := Dbl.zero]> (x_im o))
               (<[O := Dbl.zero]> (x_z2_re o)) (<[O := Dbl.zero]> (x_z2_im o))
               (-1)).
  pose proof (compute_reference_orbit_extended_loop_spec u f z2r z2i max_iter
                (Z.to_nat max_iter) 0 o0 s0 Hz2r Hz2i) as H.
  cbn [x_re x_im x_z2_re x_z2_im o0] in H.
  specialize (H ltac:(rewrite length_insert; lia)
                ltac:(rewrite length_insert; lia)
                ltac:(rewrite length_insert; lia)
                ltac:(rewrite length_insert; lia)).
  cbv zeta in H. fold o0 in H.
  pose proof (compute_reference_orbit_extended_loop_stop u f z2r z2i max_iter
                (Z.to_nat max_iter) 0 o0 s0) as Hstop.
  cbv zeta in Hstop.
  destruct (compute_reference_orbit_extended_loop u f z2r z2i max_iter
              (Z.to_nat max_iter) 0 o0 s0) as [[ret o'] s'].
  cbn [fst snd] in *.
  destruct H as (Hkeep & m & Hm & Hret & Hrec).
  assert (Hrm : ret = Z.of_nat m) by (destruct Hret as [?|[? ?]]; lia).
  split; [lia|].
  destruct (Hkeep 0%nat ltac:(lia)) as (K1 & K2 & K3 & K4).
  split; [rewrite K1; apply list_lookup_insert_eq; lia|].
  split; [rewrite K2; apply list_lookup_insert_eq; lia|].
  split.
  { intros j Hj.
    destruct (Hrec j ltac:(lia)) as (R1 & R2 & R3 & R4).
    cbn [Nat.add] in R1, R2, R3, R4. auto. }
  split; [rewrite K3; apply list_lookup_insert_eq; lia|].
  split; [rewrite K4; apply list_lookup_insert_eq; lia|].
  destruct Hstop as [(Hr & He & Hb)|(m' & Hm' & Hr & He & Hb & Hno)].
  - split.
    { intros k Hk1 Hk2. apply Hb. lia. }
    right. split; [exact He|]. split; [exact Hr|].
    intros k Hk1 Hk2. apply Hb. lia.
  - rewrite Nat.add_0_l in Hr, He.
    split.
    { intros k Hk1 Hk2. apply Hno. lia. }
    left. split; [lia|]. split; [lia|].
    rewrite Hr, Nat2Z.id. exact Hb.
Qed.

Lemma compute_reference_orbit_extended_z2_witness :
  let res := compute_reference_orbit_extended Demo.dirty "0.25" "0.5" 4 2
               (mkOrbitExt (replicate 5 Dbl.one) (replicate 5 Dbl.one)
                  (replicate 5 Dbl.one) (replicate 5 Dbl.one) 77)
               Demo.s0 in
  let o' := snd (fst res) in
  fst (fst res) = 4 /\
  x_escape o' = -1 /\
  x_re o' !! 0%nat = Some Dbl.zero /\
  forall j : nat, (j < 4)%nat ->
    x_z2_im o' !! S j
      = Some (Dbl.mul (Dbl.mul Dbl.two (dbl_at (x_re o') j))
                      (dbl_at (x_im o') j)).
Proof.
  pose proof (compute_reference_orbit_extended_z2 Demo.dirty "0.25" "0.5" 4 2
                (mkOrbitExt (replicate 5 Dbl.one) (replicate 5 Dbl.one)
                   (replicate 5 Dbl.one) (replicate 5 Dbl.one) 77)
                Demo.s0 ltac:(lia) ltac:(vm_compute; lia)
                ltac:(vm_compute; lia) ltac:(vm_compute; lia)
                ltac:(vm_compute; lia)) as H.
  cbv zeta in H. cbv zeta.
  destruct H as (_ & H0 & _ & Hrec & _ & _ & _ & Hend).
  assert (E : fst (fst (compute_reference_orbit_extended Demo.dirty "0.25"
                          "0.5" 4 2
                          (mkOrbitExt (replicate 5 Dbl.one)
                             (replicate 5 Dbl.one) (replicate 5 Dbl.one)
                             (replicate 5 Dbl.one) 77) Demo.s0)) = 4)
    by (vm_compute; reflexivity).
  split; [exact E|]. split.
  { destruct Hend as [(He & _ & Hb)|(He & _)]; [|exact He].
    exfalso. rewrite E in Hb. vm_compute in Hb. discriminate Hb. }
  split; [exact H0|].
  intros j Hj. rewrite E in Hrec.
  destruct (Hrec j ltac:(lia)) as (R & _). exact R.
Defined.

(** ** C4: [bf_mul] is the schoolbook product at every limb count *)

Lemma scr_set_scr_eq k v s :
  (k < length (scratch s))%nat -> scr (set_scr k v s) k = v.
Proof.
  intros H. unfold scr, set_scr. cbn [scratch].
  rewrite list_lookup_insert_eq; [reflexivity|exact H].
Qed.

Lemma scr_set_scr_ne k v s j : k <> j -> scr (set_scr k v s) j = scr s j.
Proof.
  intros H. unfold scr, set_scr. cbn [scratch].
  rewrite list_lookup_insert_ne; [reflexivity|exact H].
Qed.

Lemma length_scratch_set_scr k v s :
  length (scratch (set_scr k v s)) = length (scratch s).
Proof. unfold set_scr. cbn [scratch]. apply length_insert. Qed.

Lemma scratch_value_ext s s' m :
  (forall k, (k < m)%nat -> scr s' k = scr s k) ->
  scratch_value s' m = scratch_value s m.
Proof.
  induction m as [|m IH]; intros H; simpl; [reflexivity|].
  rewrite IH by (intros; apply H; lia). rewrite H by lia. reflexivity.
Qed.

(** Writing one cell changes the value by the difference, at the cell's
    weight. *)
Lemma scratch_value_set_scr k v s m :
  (k < m)%nat -> (k < length (scratch s))%nat ->
  scratch_value (set_scr k v s) m
  = scratch_value s m + (v - scr s k) * 2 ^ (32 * Z.of_nat k).
Proof.
  intros Hk Hlen. induction m as [|m IH]; [lia|].
  simpl scratch_value. destruct (decide (k = m)) as [->|Hne].
  - rewrite scr_set_scr_eq by exact Hlen.
    rewrite (scratch_value_ext s (set_scr m v s) m)
      by (intros j Hj; apply scr_set_scr_ne; lia).
    ring.
  - rewrite IH by lia. rewrite scr_set_scr_ne by exact Hne. ring.
Qed.

Lemma scr_memset_scratch m s k :
  (k < m)%nat -> scr (memset_scratch m s) k = 0.
Proof.
  unfold memset_scratch.
  apply (for_loop_ind (fun i x => (k < i)%nat -> scr x k = 0) m
           (fun i s => set_scr i 0 s) s).
  - intros H. inversion H.
  - intros i x Hi IH Hk. destruct (decide (k = i)) as [->|Hne].
    + unfold scr, set_scr. cbn [scratch].
      destruct (decide (i < length (scratch x))%nat) as [Hlt|Hge].
      * rewrite list_lookup_insert_eq by exact Hlt. reflexivity.
      * rewrite lookup_ge_None_2; [reflexivity|].
        rewrite length_insert. apply Nat.nlt_ge in Hge. exact Hge.
    + rewrite scr_set_scr_ne by congruence. apply IH. lia.
Qed.

Lemma heap_memset_scratch m s : heap (memset_scratch m s) = heap s.
Proof.
  unfold memset_scratch.
  apply (for_loop_ind (fun _ x => heap x = heap s)); [reflexivity|].
  intros i x _ IH. exact IH.
Qed.

Lemma length_scratch_memset_scratch m s :
  length (scratch (memset_scratch m s)) = length (scratch s).
Proof.
  unfold memset_scratch.
  apply (for_loop_ind (fun _ x => length (scratch x) = length (scratch s)));
    [reflexivity|].
  intros i x _ IH. rewrite length_scratch_set_scr. exact IH.
Qed.

Lemma scratch_value_zero s m :
  (forall k, (k < m)%nat -> scr s k = 0) -> scratch_value s m = 0.
Proof.
  induction m as [|m IH]; intros H; simpl; [reflexivity|].
  rewrite IH by (intros; apply H; lia). rewrite H by lia. ring.
Qed.

Lemma limb_heap_eq s s' p i : heap s' = heap s -> limb s' p i = limb s p i.
Proof. intros H. unfold limb, deref. rewrite H. reflexivity. Qed.

Lemma pow2_32_pos (k : nat) : 0 < 2 ^ (32 * Z.of_nat k).
Proof. apply Z.pow_pos_nonneg; lia. Qed.

Lemma pow2_32_add (i j : nat) :
  2 ^ (32 * Z.of_nat (i + j)) = 2 ^ (32 * Z.of_nat i) * 2 ^ (32 * Z.of_nat j).
Proof.
  replace (32 * Z.of_nat (i + j)) with (32 * Z.of_nat i + 32 * Z.of_nat j)
    by lia.
  apply Z.pow_add_r; lia.
Qed.

(** One row of the schoolbook product: adds [a_i * |b| * 2^(32 i)]. *)
Lemma mul_row_spec s0 a b n i x :
  (2 * n <= length (scratch s0))%nat ->
  limbs_in_range s0 a n -> limbs_in_range s0 b n ->
  (i < n)%nat ->
  acc_ok s0 x n ->
  (forall k, (i + n <= k < 2 * n)%nat -> scr x k = 0) ->
  let x' := mul_row a b n i x in
  acc_ok s0 x' n /\
  (forall k, (S i + n <= k < 2 * n)%nat -> scr x' k = 0) /\
  scratch_value x' (2 * n)
  = scratch_value x (2 * n)
    + limb s0 a i * magnitude s0 b n * 2 ^ (32 * Z.of_nat i).
Proof.
  intros Hlen Ha Hb Hi (Hheap & Hlx & Hrg) Hzero. unfold mul_row.
  pose (P := fun (j : nat) (xc : state * Z) =>
       acc_ok s0 (fst xc) n /\
       (forall k, (i + j <= k)%nat -> scr (fst xc) k = scr x k) /\
       0 <= snd xc < 2 ^ 32 /\
       scratch_value (fst xc) (2 * n) + snd xc * 2 ^ (32 * Z.of_nat (i + j))
       = scratch_value x (2 * n)
         + limb s0 a i * magnitude s0 b j * 2 ^ (32 * Z.of_nat i)).
  assert (Inv : P n (for_loop n (mul_inner a b i) (x, 0))).
  { apply (for_loop_ind P); unfold P.
    - cbn [fst snd magnitude]. split; [exact (conj Hheap (conj Hlx Hrg))|].
      split; [auto|]. split; [lia|]. ring.
    - intros j [y c] Hj ((Hh & Hl & Hr) & Hsame & Hc & Hval).
      cbn [fst snd] in *. unfold mul_inner.
      rewrite (limb_heap_eq s0 y a i Hh), (limb_heap_eq s0 y b j Hh).
      pose proof (Ha i Hi) as Hai. pose proof (Hb j Hj) as Hbj.
      pose proof (Hr (i + j)%nat ltac:(lia)) as Hs.
      set (p := limb s0 a i * limb s0 b j) in *.
      assert (Hp : 0 <= p <= (2 ^ 32 - 1) * (2 ^ 32 - 1)) by (unfold p; nia).
      assert (Hpd : to_dlimb p = p)
        by (unfold to_dlimb; apply Z.mod_small; lia).
      rewrite Hpd.
      set (t := scr y (i + j) + p + c) in *.
      assert (Ht : 0 <= t < 2 ^ 64) by (unfold t; lia).
      assert (Htd : to_dlimb t = t)
        by (unfold to_dlimb; apply Z.mod_small; lia).
      rewrite Htd. cbn [fst snd].
      assert (Hdiv : 0 <= t / 2 ^ 32 < 2 ^ 32).
      { split; [apply Z.div_pos; lia|].
        apply Z.div_lt_upper_bound; lia. }
      split; [|split; [|split]].
      + split; [exact Hh|]. split; [rewrite length_scratch_set_scr; exact Hl|].
        intros k Hk. destruct (decide ((i + j)%nat = k)) as [<-|Hne].
        * rewrite scr_set_scr_eq by lia. unfold to_limb.
          apply Z.mod_pos_bound. lia.
        * rewrite scr_set_scr_ne by exact Hne. apply Hr, Hk.
      + intros k Hk. rewrite scr_set_scr_ne by lia. apply Hsame. lia.
      + rewrite Z.shiftr_div_pow2 by lia. exact Hdiv.
      + rewrite scratch_value_set_scr by lia.
        rewrite Z.shiftr_div_pow2 by lia. cbn [magnitude].
        replace (i + S j)%nat with (S (i + j)) by lia.
        rewrite pow2_32_succ. rewrite pow2_32_add in *. unfold to_limb.
        pose proof (Z.div_mod t (2 ^ 32) ltac:(lia)) as Hdm.
        fold p. unfold t in *. nia. }
  unfold P in Inv. clear P.
  destruct (for_loop n (mul_inner a b i) (x, 0)) as [y c].
  cbn [fst snd] in Inv.
  destruct Inv as ((Hh & Hl & Hr) & Hsame & Hc & Hval).
  assert (Hz : scr y (i + n) = 0)
    by (rewrite Hsame by lia; apply Hzero; lia).
  rewrite Hz.
  assert (Hcl : to_limb (0 + to_limb c) = c).
  { unfold to_limb. rewrite Z.add_0_l, Z.mod_mod by lia.
    apply Z.mod_small. exact Hc. }
  rewrite Hcl. cbv zeta.
  split; [|split].
  - split; [exact Hh|]. split; [rewrite length_scratch_set_scr; exact Hl|].
    intros k Hk. destruct (decide ((i + n)%nat = k)) as [<-|Hne].
    + rewrite scr_set_scr_eq by lia. exact Hc.
    + rewrite scr_set_scr_ne by exact Hne. apply Hr, Hk.
  - intros k Hk. rewrite scr_set_scr_ne by lia.
    rewrite Hsame by lia. apply Hzero. lia.
  - rewrite scratch_value_set_scr by lia. rewrite Hz. lia.
Qed.

(** All rows: the first [2 n] scratch cells hold [|a| * |b|]. *)
Lemma mul_rows_spec s0 a b n :
  (2 * n <= length (scratch s0))%nat ->
  limbs_in_range s0 a n -> limbs_in_range s0 b n ->
  (forall k, (k < 2 * n)%nat -> scr s0 k = 0) ->
  let x := for_loop n (mul_row a b n) s0 in
  acc_ok s0 x n /\
  scratch_value x (2 * n) = magnitude s0 a n * magnitude s0 b n.
Proof.
  intros Hlen Ha Hb Hzero.
  pose (P := fun (i : nat) (x : state) =>
       (i <= n)%nat ->
       acc_ok s0 x n /\
       (forall k, (i + n <= k < 2 * n)%nat -> scr x k = 0) /\
       scratch_value x (2 * n) = magnitude s0 a i * magnitude s0 b n).
  assert (Inv : P n (for_loop n (mul_row a b n) s0)).
  { apply (for_loop_ind P); unfold P.
    - intros _. split; [|split].
      + split; [reflexivity|]. split; [reflexivity|].
        intros k Hk. rewrite Hzero by lia. lia.
      + intros k Hk. apply Hzero. lia.
      + simpl magnitude. rewrite scratch_value_zero by exact Hzero. ring.
    - intros i x Hi IH _. destruct (IH ltac:(lia)) as (Hok & Hz & Hv).
      destruct (mul_row_spec s0 a b n i x Hlen Ha Hb Hi Hok Hz)
        as (Hok' & Hz' & Hv').
      split; [exact Hok'|]. split; [exact Hz'|].
      rewrite Hv', Hv. cbn [magnitude]. ring. }
  unfold P in Inv. destruct (Inv ltac:(lia)) as (Hok & _ & Hv).
  split; assumption.
Qed.

Lemma lor_shiftl_small x y :
  0 <= y < 16 -> Z.lor (Z.shiftl x 4) y = x * 16 + y.
Proof.
  intros Hy.
  assert (Hland : Z.land (Z.shiftl x 4) y = 0).
  { apply Z.bits_inj'. intros i Hi.
    rewrite Z.land_spec, Z.bits_0, Z.shiftl_spec by lia.
    destruct (Z.ltb_spec i 4) as [Hlt|Hge].
    - rewrite Z.testbit_neg_r by lia. reflexivity.
    - destruct (Z.eq_dec y 0) as [->|Hy0].
      + rewrite Z.bits_0. apply andb_false_r.
      + rewrite (Z.bits_above_log2 y i); [apply andb_false_r|lia|].
        apply Z.log2_lt_pow2; [lia|].
        apply Z.lt_le_trans with (2 ^ 4); [lia|].
        apply Z.pow_le_mono_r; lia. }
  rewrite <- Z.lxor_lor by exact Hland.
  rewrite <- Z.add_nocarry_lxor by exact Hland.
  rewrite Z.shiftl_mul_pow2 by lia. lia.
Qed.

Lemma scratch_value_bounds x m :
  (forall k, (k < m)%nat -> 0 <= scr x k < 2 ^ 32) ->
  0 <= scratch_value x m < 2 ^ (32 * Z.of_nat m).
Proof.
  induction m as [|m IH]; intros H; simpl scratch_value.
  - simpl. lia.
  - specialize (IH ltac:(intros; apply H; lia)).
    pose proof (H m ltac:(lia)) as Hm. rewrite pow2_32_succ.
    pose proof (pow2_32_pos m). nia.
Qed.

(** The cell [k] is the base-[2^32] digit [k] of the value. *)
Lemma scratch_value_digit x m k :
  (forall j, (j < m)%nat -> 0 <= scr x j < 2 ^ 32) ->
  (k < m)%nat ->
  (scratch_value x m / 2 ^ (32 * Z.of_nat k)) mod 2 ^ 32 = scr x k.
Proof.
  induction m as [|m IH]; intros H Hk; [lia|].
  simpl scratch_value. pose proof (pow2_32_pos k) as Hpk.
  destruct (decide (k = m)) as [->|Hne].
  - pose proof (scratch_value_bounds x m ltac:(intros; apply H; lia)) as Hb.
    rewrite Z.div_add by lia. rewrite Z.div_small by lia.
    rewrite Z.add_0_l. apply Z.mod_small. apply H. lia.
  - assert (E : 2 ^ (32 * Z.of_nat m)
                 = 2 ^ (32 * Z.of_nat k) * 2 ^ (32 * Z.of_nat (m - k)))
      by (rewrite <- pow2_32_add; do 3 f_equal; lia).
    rewrite E.
    replace (scr x m * (2 ^ (32 * Z.of_nat k) * 2 ^ (32 * Z.of_nat (m - k))))
      with ((scr x m * 2 ^ (32 * Z.of_nat (m - k))) * 2 ^ (32 * Z.of_nat k))
      by ring.
    rewrite Z.div_add by lia.
    replace (m - k)%nat with (S (m - k - 1)) by lia. rewrite pow2_32_succ.
    replace (scr x m * (2 ^ (32 * Z.of_nat (m - k - 1)) * 2 ^ 32))
      with ((scr x m * 2 ^ (32 * Z.of_nat (m - k - 1))) * 2 ^ 32) by ring.
    rewrite Z.mod_add by lia. apply IH; [intros; apply H; lia | lia].
Qed.

(** Limbs that are the digits of [t] add up to [t] modulo [2^(32 n)]. *)
Lemma magnitude_of_digits s p n t :
  (forall i, (i < n)%nat ->
     limb s p i = (t / 2 ^ (32 * Z.of_nat i)) mod 2 ^ 32) ->
  magnitude s p n = t mod 2 ^ (32 * Z.of_nat n).
Proof.
  induction n as [|n IH]; intros H; simpl magnitude.
  - simpl. rewrite Z.mod_1_r. reflexivity.
  - rewrite IH by (intros; apply H; lia). rewrite H by lia.
    rewrite pow2_32_succ. pose proof (pow2_32_pos n).
    rewrite Z.rem_mul_r by lia. ring.
Qed.

Lemma extract_result_spec r n x :
  (n <= length (limbs (deref x r)))%nat ->
  let x' := extract_result r n x in
  (forall i, (i < n)%nat -> limb x' r i = extracted_limb x n i) /\
  hdr_same x x' /\ frame_rel {[r]} x x'.
Proof.
  intros Hlen.
  split; [|split; [apply hdr_same_extract_result|apply frame_rel_extract_result]].
  unfold extract_result.
  pose (P := fun (i : nat) (y : state) =>
       scratch y = scratch x /\
       length (limbs (deref y r)) = length (limbs (deref x r)) /\
       forall j, (j < i)%nat -> limb y r j = extracted_limb x n j).
  cut (P n (for_loop n
              (fun i s =>
                 let combined := to_dlimb (Z.shiftl (scr s (n + i)) 4) in
                 let combined :=
                   if (0 <? n + i)%nat
                   then Z.lor combined (Z.shiftr (scr s (n + i - 1)) 28)
                   else combined in
                 set_limb r i (to_limb combined) s) x)).
  { intros (_ & _ & H). exact H. }
  apply (for_loop_ind P); unfold P.
  - split; [reflexivity|]. split; [reflexivity|]. intros j Hj. lia.
  - intros i y Hi (Hs & Hl & Hlimbs). cbv zeta.
    split; [exact Hs|]. split; [rewrite length_limbs_set_limb; exact Hl|].
    intros j Hj. destruct (decide (j = i)) as [->|Hne].
    + rewrite limb_set_limb_eq by lia. unfold extracted_limb, scr.
      rewrite Hs. destruct (0 <? n + i)%nat; reflexivity.
    + rewrite limb_set_limb_ne by (right; lia). apply Hlimbs. lia.
Qed.

(** The extracted limb [i] is digit [i] of the product shifted down by
    [32 n - 4] bits. *)
Lemma extracted_limb_digit x n i :
  (forall k, (k < 2 * n)%nat -> 0 <= scr x k < 2 ^ 32) ->
  (i < n)%nat ->
  extracted_limb x n i
  = (scratch_value x (2 * n) / 2 ^ (32 * Z.of_nat n - 4)
       / 2 ^ (32 * Z.of_nat i)) mod 2 ^ 32.
Proof.
  intros Hr Hi. unfold extracted_limb.
  assert (Hpos : (0 <? n + i)%nat = true) by (apply Nat.ltb_lt; lia).
  rewrite Hpos.
  pose proof (Hr (n + i)%nat ltac:(lia)) as H1.
  pose proof (Hr (n + i - 1)%nat ltac:(lia)) as H0.
  set (u1 := scr x (n + i)) in *. set (u0 := scr x (n + i - 1)) in *.
  assert (Hsh : to_dlimb (Z.shiftl u1 4) = Z.shiftl u1 4).
  { unfold to_dlimb. apply Z.mod_small.
    rewrite Z.shiftl_mul_pow2 by lia. lia. }
  rewrite Hsh, Z.shiftr_div_pow2 by lia.
  assert (Hq : 0 <= u0 / 2 ^ 28 < 16).
  { split; [apply Z.div_pos; lia|]. apply Z.div_lt_upper_bound; lia. }
  rewrite lor_shiftl_small by exact Hq.
  set (V := scratch_value x (2 * n)).
  set (k := (n + i - 1)%nat).
  pose proof (pow2_32_pos k) as Hpk.
  assert (Hexp : 2 ^ (32 * Z.of_nat n - 4) * 2 ^ (32 * Z.of_nat i)
                 = 2 ^ (32 * Z.of_nat k) * 2 ^ 28).
  { rewrite <- !Z.pow_add_r by lia. f_equal. unfold k. lia. }
  rewrite Z.div_div by (try apply Z.pow_pos_nonneg; try apply Z.pow_nonzero; lia).
  rewrite Hexp.
  rewrite <- Z.div_div by lia.
  pose proof (scratch_value_digit x (2 * n) k Hr ltac:(unfold k; lia)) as D0.
  pose proof (scratch_value_digit x (2 * n) (S k) Hr ltac:(unfold k; lia)) as D1.
  rewrite pow2_32_succ in D1.
  rewrite <- Z.div_div in D1 by lia.
  fold V in D0, D1. change (scr x k) with u0 in D0.
  replace (S k) with (n + i)%nat in D1 by (unfold k; lia).
  change (scr x (n + i)) with u1 in D1.
  set (U := V / 2 ^ (32 * Z.of_nat k)) in *.
  pose proof (Z.div_mod U (2 ^ 32) ltac:(lia)) as HU.
  pose proof (Z.div_mod (U / 2 ^ 32) (2 ^ 32) ltac:(lia)) as HU1.
  rewrite D0 in HU. rewrite D1 in HU1.
  set (U2 := U / 2 ^ 32 / 2 ^ 32) in *.
  assert (HUe : U = u0 + (16 * u1 + 16 * 2 ^ 32 * U2) * 2 ^ 28) by lia.
  rewrite HUe. rewrite Z.div_add by lia. unfold to_limb.
  replace (u0 / 2 ^ 28 + (16 * u1 + 16 * 2 ^ 32 * U2))
    with (u1 * 16 + u0 / 2 ^ 28 + (16 * U2) * 2 ^ 32) by ring.
  rewrite Z.mod_add by lia. reflexivity.
Qed.

Lemma magnitude_heap_eq s s' p n :
  heap s' = heap s -> magnitude s' p n = magnitude s p n.
Proof.
  intros H. apply magnitude_ext. intros i _. apply limb_heap_eq, H.
Qed.

Lemma bf_mul_dispatch r a b s : bf_mul r a b s = bf_mul_schoolbook r a b s.
Proof.
  unfold bf_mul, bf_mul_karatsuba.
  destruct (get_nlimbs s a <=? KARATSUBA_THRESHOLD); reflexivity.
Qed.

(** The magnitude, limb count and (for an output distinct from the inputs)
    sign that [bf_mul_schoolbook] leaves in [r]. *)
Lemma bf_mul_schoolbook_spec s r a b n :
  get_nlimbs s a = Z.of_nat n ->
  (2 * n <= length (scratch s))%nat ->
  (n <= length (limbs (deref s r)))%nat ->
  limbs_in_range s a n -> limbs_in_range s b n ->
  let s' := bf_mul_schoolbook r a b s in
  magnitude s' r n = spec_product n (magnitude s a n) (magnitude s b n) /\
  get_nlimbs s' r = Z.of_nat n /\
  (r <> a -> r <> b ->
   get_sign s' r
   = spec_product_sign (get_sign s a) (get_sign s b) (magnitude s' r n =? 0)).
Proof.
  intros Hn Hscr Hlen Ha Hb. unfold bf_mul_schoolbook. cbv zeta.
  rewrite Hn, Nat2Z.id.
  (* the scratch array after memset *)
  pose proof (heap_memset_scratch (2 * n + 2) s) as Hh0.
  pose proof (length_scratch_memset_scratch (2 * n + 2) s) as Hl0.
  assert (Hz0 : forall k, (k < 2 * n)%nat ->
                          scr (memset_scratch (2 * n + 2) s) k = 0)
    by (intros k Hk; apply scr_memset_scratch; lia).
  revert Hh0 Hl0 Hz0. generalize (memset_scratch (2 * n + 2) s).
  intros s0 Hh0 Hl0 Hz0.
  assert (Ha0 : limbs_in_range s0 a n)
    by (intros i Hi; rewrite (limb_heap_eq s s0 a i Hh0); apply Ha, Hi).
  assert (Hb0 : limbs_in_range s0 b n)
    by (intros i Hi; rewrite (limb_heap_eq s s0 b i Hh0); apply Hb, Hi).
  (* the rows *)
  destruct (mul_rows_spec s0 a b n ltac:(lia) Ha0 Hb0 Hz0)
    as ((Hhx & Hlx & Hrx) & Hval).
  rewrite (magnitude_heap_eq s s0 a n Hh0) in Hval.
  rewrite (magnitude_heap_eq s s0 b n Hh0) in Hval.
  revert Hhx Hlx Hrx Hval. generalize (for_loop n (mul_row a b n) s0).
  intros x Hhx Hlx Hrx Hval.
  assert (Hhxs : heap x = heap s) by congruence.
  (* the extraction *)
  destruct (extract_result_spec r n x) as (Hlimbs & Hhdr & Hfr).
  { unfold deref. rewrite Hhxs. exact Hlen. }
  assert (Hmag : magnitude (extract_result r n x) r n
                 = spec_product n (magnitude s a n) (magnitude s b n)).
  { unfold spec_product. rewrite <- Hval.
    apply magnitude_of_digits. intros i Hi.
    rewrite Hlimbs by exact Hi. apply extracted_limb_digit; assumption. }
  assert (Hrng : limbs_in_range (extract_result r n x) r n).
  { intros i Hi. rewrite Hlimbs by exact Hi. unfold extracted_limb, to_limb.
    apply Z.mod_pos_bound. lia. }
  assert (Hsg : forall p, p <> r ->
                  get_sign (extract_result r n x) p = get_sign s p).
  { intros p Hp. rewrite (proj2 (Hhdr p)). unfold get_sign, deref.
    rewrite Hhxs. reflexivity. }
  revert Hmag Hrng Hsg. clear Hlimbs Hhdr Hfr.
  generalize (extract_result r n x). intros x1 Hmag Hrng Hsg.
  (* the header *)
  set (x2 := set_nlimbs r (Z.of_nat n) x1).
  set (x3 := set_sign r (if get_sign x2 a =? get_sign x2 b then 1 else -1) x2).
  set (x4 := if (get_sign x3 a =? 0) || (get_sign x3 b =? 0)
             then set_sign r 0 x3 else x3).
  assert (L4 : forall i, limb x4 r i = limb x1 r i).
  { intros i. unfold x4.
    destruct ((get_sign x3 a =? 0) || (get_sign x3 b =? 0));
      [rewrite limb_set_sign|]; unfold x3; rewrite limb_set_sign;
      unfold x2; apply limb_set_nlimbs. }
  assert (N4 : get_nlimbs x4 r = Z.of_nat n).
  { unfold x4.
    destruct ((get_sign x3 a =? 0) || (get_sign x3 b =? 0));
      [rewrite get_nlimbs_set_sign|]; unfold x3; rewrite get_nlimbs_set_sign;
      unfold x2; rewrite get_nlimbs_set_nlimbs;
      destruct (decide (r = r)); congruence. }
  assert (M4 : magnitude (normalize_zero r x4) r n = magnitude x1 r n).
  { apply magnitude_ext. intros i _. rewrite limb_normalize_zero. apply L4. }
  rewrite M4. split; [exact Hmag|]. split.
  { rewrite get_nlimbs_normalize_zero. exact N4. }
  intros Hra Hrb.
  assert (S2 : get_sign x2 a = get_sign s a /\ get_sign x2 b = get_sign s b).
  { unfold x2. rewrite !get_sign_set_nlimbs. split; apply Hsg; congruence. }
  destruct S2 as [S2a S2b].
  assert (S3 : get_sign x3 a = get_sign s a /\ get_sign x3 b = get_sign s b).
  { unfold x3. rewrite !get_sign_set_sign.
    destruct (decide (r = a)); [congruence|].
    destruct (decide (r = b)); [congruence|]. auto. }
  destruct S3 as [S3a S3b].
  assert (S4 : get_sign x4 r
               = if (get_sign s a =? 0) || (get_sign s b =? 0) then 0
                 else if get_sign s a =? get_sign s b then 1 else -1).
  { unfold x4. rewrite S3a, S3b.
    destruct ((get_sign s a =? 0) || (get_sign s b =? 0)).
    - rewrite get_sign_set_sign. destruct (decide (r = r)); congruence.
    - unfold x3. rewrite get_sign_set_sign, S2a, S2b.
      destruct (decide (r = r)); congruence. }
  assert (Z4 : bf_is_zero r x4 = (magnitude x1 r n =? 0)).
  { destruct (bf_is_zero r x4) eqn:Ez.
    - pose proof (proj1 (bf_is_zero_true r x4) Ez) as Ez'.
      rewrite N4, Nat2Z.id in Ez'. symmetry. apply Z.eqb_eq.
      apply (proj2 (magnitude_zero_iff x1 r n Hrng)).
      intros i Hi. rewrite <- L4. apply Ez', Hi.
    - symmetry. apply Z.eqb_neq. intros Hz.
      pose proof (proj1 (magnitude_zero_iff x1 r n Hrng) Hz) as Hz'.
      assert (bf_is_zero r x4 = true); [|congruence].
      apply (proj2 (bf_is_zero_true r x4)). rewrite N4, Nat2Z.id.
      intros i Hi. rewrite L4. apply Hz', Hi. }
  unfold spec_product_sign, normalize_zero. rewrite Z4.
  destruct (magnitude x1 r n =? 0).
  - rewrite get_sign_set_sign. destruct (decide (r = r)); [|congruence].
    rewrite orb_true_r. reflexivity.
  - rewrite orb_false_r. exact S4.
Qed.

(** C4.  [bf_mul] is [bf_mul_schoolbook] at every limb count, also above the
    16-limb threshold; for in-range limbs it leaves in [r] the window of the
    [2 n]-limb product that the fixed-point format prescribes, with limb
    count [n], and, when [r] is not an input, the product's sign. *)
Theorem bf_mul_is_schoolbook (s : state) (r a b : ptr) (n : nat) :
  get_nlimbs s a = Z.of_nat n ->
  (2 * n <= length (scratch s))%nat ->
  (n <= length (limbs (deref s r)))%nat ->
  limbs_in_range s a n -> limbs_in_range s b n ->
  let s' := bf_mul r a b s in
  s' = bf_mul_schoolbook r a b s /\
  bf_mul_karatsuba r a b 0 s = bf_mul_schoolbook r a b s /\
  magnitude s' r n = spec_product n (magnitude s a n) (magnitude s b n) /\
  get_nlimbs s' r = Z.of_nat n /\
  (r <> a -> r <> b ->
   get_sign s' r
   = spec_product_sign (get_sign s a) (get_sign s b) (magnitude s' r n =? 0)).
Proof.
  intros Hn Hscr Hlen Ha Hb s'. subst s'. rewrite bf_mul_dispatch.
  split; [reflexivity|]. split; [reflexivity|].
  apply bf_mul_schoolbook_spec; assumption.
Qed.

Lemma bf_mul_is_schoolbook_witness :
  let s' := bf_mul Demo.r Demo.a Demo.b Demo.s17 in
  s' = bf_mul_schoolbook Demo.r Demo.a Demo.b Demo.s17 /\
  magnitude s' Demo.r 17
  = spec_product 17 (magnitude Demo.s17 Demo.a 17)
                    (magnitude Demo.s17 Demo.b 17) /\
  get_nlimbs s' Demo.r = 17.
Proof.
  pose proof (bf_mul_is_schoolbook Demo.s17 Demo.r Demo.a Demo.b 17) as H.
  assert (Hrange : forall p, p = Demo.a \/ p = Demo.b ->
                             limbs_in_range Demo.s17 p 17).
  { intros p Hp i Hi.
    do 17 (destruct i as [|i];
           [destruct Hp as [-> | ->]; vm_compute;
            (split; [discriminate | reflexivity])|]).
    lia. }
  specialize (H eq_refl ltac:(vm_compute; lia) ltac:(vm_compute; lia)
                (Hrange Demo.a (or_introl eq_refl))
                (Hrange Demo.b (or_intror eq_refl))).
  cbv zeta in H. destruct H as (H1 & _ & H2 & H3 & _).
  split; [exact H1|]. split; [exact H2 | exact H3].
Defined.

(** * Further properties of the arithmetic *)

(** ** [bf_cmp_mag] and [bf_sub_mag] *)

Lemma bf_cmp_mag_loop_spec a b k s :
  limbs_in_range s a k -> limbs_in_range s b k ->
  bf_cmp_mag_loop a b k s
  = match magnitude s a k ?= magnitude s b k with
    | Lt => -1
    | Eq => 0
    | Gt => 1
    end.
Proof.
  induction k as [|k IH]; intros Ha Hb; [reflexivity|].
  assert (Ha' : limbs_in_range s a k) by (intros i Hi; apply Ha; lia).
  assert (Hb' : limbs_in_range s b k) by (intros i Hi; apply Hb; lia).
  pose proof (magnitude_bounds s a k Ha') as Ba.
  pose proof (magnitude_bounds s b k Hb') as Bb.
  pose proof (Ha k ltac:(lia)) as La. pose proof (Hb k ltac:(lia)) as Lb.
  cbn [bf_cmp_mag_loop magnitude].
  destruct (Z.ltb_spec (limb s a k) (limb s b k)) as [Hlt|Hge].
  - assert (H : magnitude s a k + limb s a k * 2 ^ (32 * Z.of_nat k)
                < magnitude s b k + limb s b k * 2 ^ (32 * Z.of_nat k)) by nia.
    apply Z.compare_lt_iff in H. rewrite H. reflexivity.
  - destruct (Z.gtb_spec (limb s a k) (limb s b k)) as [Hgt|Hle].
    + assert (H : magnitude s b k + limb s b k * 2 ^ (32 * Z.of_nat k)
                  < magnitude s a k + limb s a k * 2 ^ (32 * Z.of_nat k)) by nia.
      apply Z.compare_gt_iff in H. rewrite H. reflexivity.
    + assert (E : limb s a k = limb s b k) by lia.
      rewrite IH by assumption. rewrite E.
      rewrite (Z.add_comm (magnitude s a k)), (Z.add_comm (magnitude s b k)).
      rewrite Z.add_compare_mono_l. reflexivity.
Qed.

(** X1.  [bf_cmp_mag] compares magnitudes: on [uint32_t] limbs, the limb-wise
    comparison from the most significant limb down returns -1, 0 or 1
    according to whether [|a|] is below, equal to or above [|b|]. *)
Theorem bf_cmp_mag_correct (s : state) (a b : ptr) (n : nat) :
  get_nlimbs s a = Z.of_nat n ->
  limbs_in_range s a n -> limbs_in_range s b n ->
  (bf_cmp_mag a b s = -1 <-> magnitude s a n < magnitude s b n) /\
  (bf_cmp_mag a b s = 0 <-> magnitude s a n = magnitude s b n) /\
  (bf_cmp_mag a b s = 1 <-> magnitude s a n > magnitude s b n).
Proof.
  intros Hn Ha Hb. unfold bf_cmp_mag. rewrite Hn, Nat2Z.id.
  rewrite (bf_cmp_mag_loop_spec a b n s Ha Hb).
  destruct (Z.compare_spec (magnitude s a n) (magnitude s b n));
    repeat split; intros; try lia; try discriminate.
Qed.

Lemma bf_cmp_mag_correct_witness :
  bf_cmp_mag Demo.a Demo.b Demo.s2 = 1 <->
  magnitude Demo.s2 Demo.a 1 > magnitude Demo.s2 Demo.b 1.
Proof.
  refine (proj2 (proj2 (bf_cmp_mag_correct Demo.s2 Demo.a Demo.b 1 _ _ _))).
  - reflexivity.
  - intros i Hi. assert (i = 0%nat) as -> by lia. vm_compute.
    split; [discriminate | reflexivity].
  - intros i Hi. assert (i = 0%nat) as -> by lia. vm_compute.
    split; [discriminate | reflexivity].
Defined.

(** The ripple-borrow loop, for any aliasing of [r] with [a] and [b]. *)
Lemma bf_sub_mag_spec s r a b n :
  get_nlimbs s a = Z.of_nat n ->
  (n <= length (limbs (deref s r)))%nat ->
  limbs_in_range s a n -> limbs_in_range s b n ->
  let s' := bf_sub_mag r a b s in
  magnitude s' r n =
    (magnitude s a n - magnitude s b n) mod 2 ^ (32 * Z.of_nat n) /\
  limbs_in_range s' r n /\
  hdr_same s s'.
Proof.
  intros Hn Hlen Ha Hb. unfold bf_sub_mag. rewrite Hn, Nat2Z.id.
  set (body := fun (i : nat) '(s, borrow) =>
                 let diff := limb s a i - limb s b i - borrow in
                 let '(diff, borrow) :=
                   if diff <? 0 then (diff + 2 ^ 32, 1) else (diff, 0) in
                 (set_limb r i (to_limb diff) s, borrow)).
  pose (P := fun (i : nat) (xc : state * Z) =>
       (i <= n)%nat ->
       (forall q j, q <> r \/ (i <= j)%nat -> limb (fst xc) q j = limb s q j) /\
       length (limbs (deref (fst xc) r)) = length (limbs (deref s r)) /\
       magnitude (fst xc) r i - snd xc * 2 ^ (32 * Z.of_nat i)
         = magnitude s a i - magnitude s b i /\
       0 <= snd xc <= 1 /\
       limbs_in_range (fst xc) r i /\
       hdr_same s (fst xc)).
  assert (Inv : P n (for_loop n body (s, 0))).
  { apply (for_loop_ind P); unfold P.
    - intros _. cbn [fst snd magnitude].
      refine (conj _ (conj _ (conj _ (conj _ (conj _ _))))); auto; try lia.
      + intros i Hi. lia.
      + apply hdr_same_refl.
    - intros i [x c] Hi IH _. specialize (IH ltac:(lia)).
      destruct IH as (Hfr & Hl & Hsum & Hc & Hrg & Hhdr).
      cbn [fst snd] in *. unfold body.
      rewrite (Hfr a i) by (right; lia). rewrite (Hfr b i) by (right; lia).
      pose proof (Ha i Hi) as Hai. pose proof (Hb i Hi) as Hbi.
      set (t := limb s a i - limb s b i - c) in *.
      assert (Hres : exists d c', (if t <? 0 then (t + 2 ^ 32, 1) else (t, 0))
                                  = (d, c') /\
                       0 <= d < 2 ^ 32 /\ 0 <= c' <= 1 /\
                       d - c' * 2 ^ 32 = t).
      { destruct (Z.ltb_spec t 0).
        - exists (t + 2 ^ 32), 1. unfold t in *. repeat split; lia.
        - exists t, 0. unfold t in *. repeat split; lia. }
      destruct Hres as (d & c' & -> & Hd & Hc' & Hdt).
      cbn [fst snd].
      assert (Hdl : to_limb d = d) by (unfold to_limb; apply Z.mod_small; lia).
      rewrite Hdl.
      assert (Hmag : magnitude (set_limb r i d x) r i = magnitude x r i).
      { apply magnitude_ext. intros j Hj. apply limb_set_limb_ne. right. lia. }
      refine (conj _ (conj _ (conj _ (conj _ (conj _ _))))).
      + intros q j Hq. rewrite limb_set_limb_ne; [apply Hfr|].
        * destruct Hq; [left; auto | right; lia].
        * destruct Hq; [left; auto | right; lia].
      + rewrite length_limbs_set_limb. exact Hl.
      + cbn [magnitude]. rewrite Hmag, limb_set_limb_eq by lia.
        rewrite pow2_32_succ. unfold t in Hdt. nia.
      + exact Hc'.
      + intros j Hj. destruct (decide (j = i)) as [->|Hne].
        * rewrite limb_set_limb_eq by lia. exact Hd.
        * rewrite limb_set_limb_ne by (right; lia). apply Hrg. lia.
      + eapply hdr_same_trans; [exact Hhdr | apply hdr_same_set_limb]. }
  unfold P in Inv. clear P. specialize (Inv ltac:(lia)).
  destruct (for_loop n body (s, 0)) as [x c]. cbn [fst snd] in *.
  destruct Inv as (_ & _ & Hsum & Hc & Hrg & Hhdr).
  split; [|split; assumption].
  pose proof (magnitude_bounds x r n Hrg) as Hbd.
  apply Z.mod_unique_pos with (q := - c); lia.
Qed.

(** X2.  [bf_sub_mag] subtracts magnitudes: when [|a| >= |b|] (the
    precondition its caller establishes with [bf_cmp_mag]) it leaves
    [|a| - |b|] in [r], whether or not [r] is [a] or [b] itself; limb counts
    and signs are not touched. *)
Theorem bf_sub_mag_exact (s : state) (r a b : ptr) (n : nat) :
  get_nlimbs s a = Z.of_nat n ->
  (n <= length (limbs (deref s r)))%nat ->
  limbs_in_range s a n -> limbs_in_range s b n ->
  magnitude s b n <= magnitude s a n ->
  let s' := bf_sub_mag r a b s in
  magnitude s' r n = magnitude s a n - magnitude s b n /\
  limbs_in_range s' r n /\
  hdr_same s s'.
Proof.
  intros Hn Hlen Ha Hb Hle.
  destruct (bf_sub_mag_spec s r a b n Hn Hlen Ha Hb) as (Hm & Hr & Hh).
  split; [|split; assumption].
  cbv zeta in Hm. rewrite Hm.
  pose proof (magnitude_bounds s a n Ha). pose proof (magnitude_bounds s b n Hb).
  apply Z.mod_small. lia.
Qed.

Lemma bf_sub_mag_exact_witness :
  magnitude (bf_sub_mag Demo.a Demo.a Demo.b Demo.s2) Demo.a 1
  = magnitude Demo.s2 Demo.a 1 - magnitude Demo.s2 Demo.b 1.
Proof.
  refine (proj1 (bf_sub_mag_exact Demo.s2 Demo.a Demo.a Demo.b 1 _ _ _ _ _)).
  - reflexivity.
  - vm_compute. lia.
  - intros i Hi. assert (i = 0%nat) as -> by lia. vm_compute.
    split; [discriminate | reflexivity].
  - intros i Hi. assert (i = 0%nat) as -> by lia. vm_compute.
    split; [discriminate | reflexivity].
  - vm_compute. discriminate.
Defined.

(** ** [bf_zero] and [bf_copy] *)

Lemma limb_memset_limbs_other r n s p i :
  p <> r \/ (n <= i)%nat -> limb (memset_limbs r n s) p i = limb s p i.
Proof.
  intros H. unfold memset_limbs.
  pose (P := fun (k : nat) (x : state) =>
               (k <= n)%nat -> limb x p i = limb s p i).
  assert (Inv : P n (for_loop n (fun i s => set_limb r i 0 s) s)).
  { apply (for_loop_ind P); unfold P.
    - reflexivity.
    - intros k x Hk IH _. rewrite limb_set_limb_ne; [apply IH; lia|].
      destruct H; [left; congruence | right; lia]. }
  apply Inv. lia.
Qed.

Lemma magnitude_zero_limbs s p n :
  (forall i, (i < n)%nat -> limb s p i = 0) -> magnitude s p n = 0.
Proof.
  induction n as [|n IH]; intros H; cbn [magnitude]; [reflexivity|].
  rewrite IH by (intros; apply H; lia). rewrite (H n) by lia. lia.
Qed.

Lemma bf_zero_facts r n s :
  get_nlimbs (bf_zero r (Z.of_nat n) s) r = Z.of_nat n /\
  get_sign (bf_zero r (Z.of_nat n) s) r = 0 /\
  (forall i, (i < n)%nat -> limb (bf_zero r (Z.of_nat n) s) r i = 0).
Proof.
  refine (conj _ (conj _ _)).
  - apply get_nlimbs_bf_zero.
  - apply get_sign_bf_zero.
  - intros i Hi. unfold bf_zero. cbv zeta.
    rewrite limb_set_sign, limb_set_nlimbs. apply limb_memset_limbs.
    rewrite Nat2Z.id. exact Hi.
Qed.

(** X3.  [bf_zero r n] gives [r] the limb count [n], the sign 0 and [n] zero
    limbs, so the magnitude 0; the limbs from index [n] on keep whatever they
    held, and no other struct changes. *)
Theorem bf_zero_spec (s : state) (r : ptr) (n : Z) :
  let s' := bf_zero r n s in
  get_nlimbs s' r = n /\ get_sign s' r = 0 /\
  (forall i, (i < Z.to_nat n)%nat -> limb s' r i = 0) /\
  magnitude s' r (Z.to_nat n) = 0 /\
  bf_is_zero r s' = true /\
  (forall i, (Z.to_nat n <= i)%nat -> limb s' r i = limb s r i) /\
  (forall p, p <> r -> deref s' p = deref s p).
Proof.
  intros s'.
  assert (Hz : forall i, (i < Z.to_nat n)%nat -> limb s' r i = 0).
  { intros i Hi. unfold s', bf_zero. cbv zeta.
    rewrite limb_set_sign, limb_set_nlimbs. apply limb_memset_limbs, Hi. }
  refine (conj _ (conj _ (conj Hz (conj _ (conj _ (conj _ _)))))).
  - apply get_nlimbs_bf_zero.
  - apply get_sign_bf_zero.
  - apply magnitude_zero_limbs, Hz.
  - apply bf_is_zero_bf_zero.
  - intros i Hi. unfold s', bf_zero. cbv zeta.
    rewrite limb_set_sign, limb_set_nlimbs.
    apply limb_memset_limbs_other. right. exact Hi.
  - intros p Hp. apply (frame_rel_deref {[r]}); [apply frame_rel_bf_zero|].
    rewrite not_elem_of_singleton. exact Hp.
Qed.

Lemma limb_memcpy_limbs r a n s :
  (n <= length (limbs (deref s r)))%nat ->
  let s' := memcpy_limbs r a n s in
  (forall i, (i < n)%nat -> limb s' r i = limb s a i) /\
  (forall p i, p <> r \/ (n <= i)%nat -> limb s' p i = limb s p i) /\
  length (limbs (deref s' r)) = length (limbs (deref s r)).
Proof.
  intros Hlen. cbv zeta. unfold memcpy_limbs.
  pose (P := fun (k : nat) (x : state) =>
       (k <= n)%nat ->
       (forall i, (i < k)%nat -> limb x r i = limb s a i) /\
       (forall p i, p <> r \/ (k <= i)%nat -> limb x p i = limb s p i) /\
       length (limbs (deref x r)) = length (limbs (deref s r))).
  assert (Inv : P n (for_loop n (fun i s => set_limb r i (limb s a i) s) s)).
  { apply (for_loop_ind P); unfold P.
    - intros _. refine (conj _ (conj _ _)); auto. intros i Hi. lia.
    - intros k x Hk IH _. specialize (IH ltac:(lia)).
      destruct IH as (H1 & H2 & H3).
      refine (conj _ (conj _ _)).
      + intros i Hi. destruct (decide (i = k)) as [->|Hne].
        * rewrite limb_set_limb_eq by lia.
          destruct (decide (a = r)) as [->|Har].
          -- apply H2. right. lia.
          -- apply H2. left. exact Har.
        * rewrite limb_set_limb_ne by (right; lia). apply H1. lia.
      + intros p i Hp. rewrite limb_set_limb_ne.
        * apply H2. destruct Hp; [left; assumption | right; lia].
        * destruct Hp; [left; congruence | right; lia].
      + rewrite length_limbs_set_limb. exact H3. }
  apply Inv. lia.
Qed.

Lemma bf_copy_facts s r a n :
  get_nlimbs s a = Z.of_nat n ->
  (n <= length (limbs (deref s r)))%nat ->
  let s' := bf_copy r a s in
  get_nlimbs s' r = Z.of_nat n /\ get_sign s' r = get_sign s a /\
  (forall i, (i < n)%nat -> limb s' r i = limb s a i) /\
  (forall p i, p <> r \/ (n <= i)%nat -> limb s' p i = limb s p i) /\
  length (limbs (deref s' r)) = length (limbs (deref s r)).
Proof.
  intros Hn Hlen. unfold bf_copy. cbv zeta. rewrite Hn, Nat2Z.id.
  destruct (limb_memcpy_limbs r a n s Hlen) as (H1 & H2 & H3).
  pose proof (hdr_same_memcpy_limbs r a n s) as Hh.
  revert H1 H2 H3 Hh. generalize (memcpy_limbs r a n s). intros m H1 H2 H3 Hh.
  refine (conj _ (conj _ (conj _ (conj _ _)))).
  - rewrite get_nlimbs_set_sign, get_nlimbs_set_nlimbs.
    destruct (decide (r = r)); [|congruence]. rewrite (proj1 (Hh a)). exact Hn.
  - rewrite get_sign_set_sign. destruct (decide (r = r)); [|congruence].
    rewrite get_sign_set_nlimbs. apply (proj2 (Hh a)).
  - intros i Hi. rewrite limb_set_sign, limb_set_nlimbs. apply H1, Hi.
  - intros p i Hp. rewrite limb_set_sign, limb_set_nlimbs. apply H2, Hp.
  - unfold set_sign, set_nlimbs. rewrite !deref_store.
    destruct (decide (r = r)); [|congruence]. cbn [limbs]. exact H3.
Qed.

(** X4.  [bf_copy r a] gives [r] the limb count, the sign and the first
    [nlimbs] limbs of [a], hence its magnitude; the limbs of [r] from that
    index on are not touched, and no other struct changes. *)
Theorem bf_copy_spec (s : state) (r a : ptr) (n : nat) :
  get_nlimbs s a = Z.of_nat n ->
  (n <= length (limbs (deref s r)))%nat ->
  let s' := bf_copy r a s in
  get_nlimbs s' r = Z.of_nat n /\ get_sign s' r = get_sign s a /\
  (forall i, (i < n)%nat -> limb s' r i = limb s a i) /\
  magnitude s' r n = magnitude s a n /\
  (forall i, (n <= i)%nat -> limb s' r i = limb s r i) /\
  (forall p, p <> r -> deref s' p = deref s p).
Proof.
  intros Hn Hlen s'.
  destruct (bf_copy_facts s r a n Hn Hlen) as (H1 & H2 & H3 & H4 & _).
  refine (conj H1 (conj H2 (conj H3 (conj _ (conj _ _))))).
  - apply magnitude_ext, H3.
  - intros i Hi. apply H4. right. exact Hi.
  - intros p Hp. apply (frame_rel_deref {[r]}); [apply frame_rel_bf_copy|].
    rewrite not_elem_of_singleton. exact Hp.
Qed.

Lemma bf_copy_spec_witness :
  magnitude (bf_copy Demo.r Demo.a Demo.s1) Demo.r 2
  = magnitude Demo.s1 Demo.a 2 /\
  limb (bf_copy Demo.r Demo.a Demo.s1) Demo.r 2 = limb Demo.s1 Demo.r 2.
Proof.
  destruct (bf_copy_spec Demo.s1 Demo.r Demo.a 2) as (_ & _ & _ & H & K & _).
  - reflexivity.
  - vm_compute. lia.
  - split; [exact H | apply K; lia].
Defined.

(** ** Signed addition and subtraction *)

Lemma limbs_in_range_ext s s' p q n :
  (forall i, (i < n)%nat -> limb s' q i = limb s p i) ->
  limbs_in_range s p n -> limbs_in_range s' q n.
Proof. intros H Hr i Hi. rewrite H by exact Hi. apply Hr, Hi. Qed.

Lemma bf_valid_ext s s' p q n :
  get_nlimbs s' q = Z.of_nat n ->
  get_sign s' q = get_sign s p ->
  (forall i, (i < n)%nat -> limb s' q i = limb s p i) ->
  bf_valid s p n -> bf_valid s' q n /\ value s' q n = value s p n.
Proof.
  intros Hn Hs Hl (_ & Hr & Hsg & Hz).
  pose proof (magnitude_ext s s' p q n Hl) as Hm.
  unfold bf_valid, value. rewrite Hs, Hm.
  refine (conj (conj Hn (conj _ (conj Hsg Hz))) eq_refl).
  exact (limbs_in_range_ext s s' p q n Hl Hr).
Qed.

Lemma bf_valid_deref s s' p n :
  deref s' p = deref s p ->
  bf_valid s p n -> bf_valid s' p n /\ value s' p n = value s p n.
Proof.
  intros E Hv. destruct Hv as (Hn & Hv).
  apply (bf_valid_ext s s' p p n).
  - unfold get_nlimbs. rewrite E. exact Hn.
  - unfold get_sign. rewrite E. reflexivity.
  - intros i _. unfold limb. rewrite E. reflexivity.
  - exact (conj Hn Hv).
Qed.

Lemma normalize_zero_spec r x n :
  get_nlimbs x r = Z.of_nat n -> limbs_in_range x r n ->
  magnitude (normalize_zero r x) r n = magnitude x r n /\
  limbs_in_range (normalize_zero r x) r n /\
  get_nlimbs (normalize_zero r x) r = Z.of_nat n /\
  get_sign (normalize_zero r x) r
  = (if magnitude x r n =? 0 then 0 else get_sign x r).
Proof.
  intros Hn Hr.
  refine (conj _ (conj _ (conj _ _))).
  - apply magnitude_ext. intros. apply limb_normalize_zero.
  - intros i Hi. rewrite limb_normalize_zero. apply Hr, Hi.
  - rewrite get_nlimbs_normalize_zero. exact Hn.
  - unfold normalize_zero. destruct (bf_is_zero r x) eqn:Ez.
    + rewrite get_sign_set_sign. destruct (decide (r = r)); [|congruence].
      pose proof (proj1 (bf_is_zero_true r x) Ez) as Ez'.
      rewrite Hn, Nat2Z.id in Ez'.
      rewrite (proj2 (magnitude_zero_iff x r n Hr) Ez'). reflexivity.
    + destruct (magnitude x r n =? 0) eqn:Em; [|reflexivity].
      apply Z.eqb_eq in Em.
      pose proof (proj1 (magnitude_zero_iff x r n Hr) Em) as Hz.
      assert (bf_is_zero r x = true); [|congruence].
      apply (proj2 (bf_is_zero_true r x)). rewrite Hn, Nat2Z.id. exact Hz.
Qed.

(** The closing zero test turns a sign-and-magnitude pair into a well-formed
    value. *)
Lemma bf_finish r x n :
  get_nlimbs x r = Z.of_nat n -> limbs_in_range x r n ->
  (get_sign x r = 0 \/ get_sign x r = 1 \/ get_sign x r = -1) ->
  (get_sign x r = 0 -> magnitude x r n = 0) ->
  value (normalize_zero r x) r n = get_sign x r * magnitude x r n /\
  bf_valid (normalize_zero r x) r n.
Proof.
  intros Hn Hr Hs Hz.
  destruct (normalize_zero_spec r x n Hn Hr) as (M & R & N & S).
  unfold value, bf_valid. rewrite M, S.
  destruct (Z.eqb_spec (magnitude x r n) 0) as [E|E].
  - rewrite E. split; [lia|].
    refine (conj N (conj R (conj _ _))); [auto|]. split; auto.
  - split; [reflexivity|]. refine (conj N (conj R (conj Hs _))).
    split; intros; [apply Hz; assumption | contradiction].
Qed.

Lemma bf_cmp_mag_compare s a b n :
  get_nlimbs s a = Z.of_nat n ->
  limbs_in_range s a n -> limbs_in_range s b n ->
  bf_cmp_mag a b s
  = match magnitude s a n ?= magnitude s b n with
    | Lt => -1
    | Eq => 0
    | Gt => 1
    end.
Proof.
  intros Hn Ha Hb. unfold bf_cmp_mag. rewrite Hn, Nat2Z.id.
  apply bf_cmp_mag_loop_spec; assumption.
Qed.

Lemma bf_sub_mag_small s r a b n :
  get_nlimbs s a = Z.of_nat n ->
  (n <= length (limbs (deref s r)))%nat ->
  limbs_in_range s a n -> limbs_in_range s b n ->
  magnitude s b n <= magnitude s a n ->
  magnitude (bf_sub_mag r a b s) r n = magnitude s a n - magnitude s b n /\
  limbs_in_range (bf_sub_mag r a b s) r n /\
  hdr_same s (bf_sub_mag r a b s).
Proof.
  intros Hn Hlen Ha Hb Hle.
  destruct (bf_sub_mag_spec s r a b n Hn Hlen Ha Hb) as (Hm & Hr & Hh).
  split; [|split; assumption].
  cbv zeta in Hm. rewrite Hm.
  pose proof (magnitude_bounds s a n Ha). pose proof (magnitude_bounds s b n Hb).
  apply Z.mod_small. lia.
Qed.

(** What [bf_add] computes on well-formed operands, for any aliasing of the
    output with the inputs. *)
Lemma bf_add_value s r a b n :
  bf_valid s a n -> bf_valid s b n ->
  (n <= length (limbs (deref s r)))%nat ->
  bf_valid (bf_add r a b s) r n /\
  value (bf_add r a b s) r n =
    (if get_sign s a =? get_sign s b
     then get_sign s a *
          ((magnitude s a n + magnitude s b n) mod 2 ^ (32 * Z.of_nat n))
     else value s a n + value s b n).
Proof.
  intros Va Vb Hlen.
  pose proof Va as (Hna & Hra & Hsa & Hza).
  pose proof Vb as (Hnb & Hrb & Hsb & Hzb).
  unfold bf_add. cbv zeta.
  set (s1 := set_nlimbs r (get_nlimbs s a) s).
  assert (Hs1 : forall p, get_sign s1 p = get_sign s p)
    by (intros; apply get_sign_set_nlimbs).
  assert (Hl1 : forall p i, limb s1 p i = limb s p i)
    by (intros; apply limb_set_nlimbs).
  assert (Hn1 : forall p, p = r \/ p = a \/ p = b ->
                          get_nlimbs s1 p = Z.of_nat n).
  { intros p Hp. unfold s1. rewrite get_nlimbs_set_nlimbs.
    destruct (decide (r = p)); [exact Hna|].
    destruct Hp as [->|[->| ->]]; congruence. }
  assert (Hlen1 : (n <= length (limbs (deref s1 r)))%nat).
  { unfold s1, set_nlimbs. rewrite deref_store.
    destruct (decide (r = r)); [exact Hlen|congruence]. }
  assert (Hm1 : forall p, magnitude s1 p n = magnitude s p n)
    by (intros; apply magnitude_ext; intros; apply Hl1).
  assert (Hr1 : forall p, limbs_in_range s p n -> limbs_in_range s1 p n)
    by (intros p Hp; apply (limbs_in_range_ext s s1 p p n); auto).
  assert (V1 : forall p, p = a \/ p = b -> bf_valid s p n ->
                 bf_valid s1 p n /\ value s1 p n = value s p n).
  { intros p Hp. apply bf_valid_ext; auto. }
  pose proof (Hn1 r (or_introl eq_refl)) as Hn1r.
  pose proof (Hn1 a (or_intror (or_introl eq_refl))) as Hn1a.
  pose proof (Hn1 b (or_intror (or_intror eq_refl))) as Hn1b.
  clearbody s1. rewrite !Hs1.
  pose proof (magnitude_bounds s a n Hra) as Ba.
  pose proof (magnitude_bounds s b n Hrb) as Bb.
  unfold value at 2 3.
  remember (get_sign s a) as sa eqn:Esa.
  remember (get_sign s b) as sb eqn:Esb.
  remember (magnitude s a n) as ma eqn:Ema.
  remember (magnitude s b n) as mb eqn:Emb.
  destruct (Z.eqb_spec sa 0) as [Ea|Ea].
  { (* a is zero: copy b *)
    destruct (bf_copy_facts s1 r b n Hn1b Hlen1) as (C1 & C2 & C3 & _).
    destruct (V1 b (or_intror eq_refl) Vb) as (Vb1 & Eb1).
    destruct (bf_valid_ext s1 (bf_copy r b s1) b r n C1 C2 C3 Vb1) as (W & E).
    split; [exact W|]. rewrite E, Eb1. unfold value. rewrite <- Esb, <- Emb.
    rewrite Ea. destruct (Z.eqb_spec 0 sb) as [<-|_]; lia. }
  destruct (Z.eqb_spec sb 0) as [Eb|Eb].
  { (* b is zero: copy a *)
    destruct (bf_copy_facts s1 r a n Hn1a Hlen1) as (C1 & C2 & C3 & _).
    destruct (V1 a (or_introl eq_refl) Va) as (Va1 & Ea1).
    destruct (bf_valid_ext s1 (bf_copy r a s1) a r n C1 C2 C3 Va1) as (W & E).
    split; [exact W|]. rewrite E, Ea1. unfold value. rewrite <- Esa, <- Ema.
    rewrite Eb. destruct (Z.eqb_spec sa 0) as [->|_]; lia. }
  assert (Hsa' : sa = 1 \/ sa = -1) by lia.
  assert (Hsb' : sb = 1 \/ sb = -1) by lia.
  destruct (Z.eqb_spec sa sb) as [Eab|Eab].
  { (* equal signs: add the magnitudes *)
    destruct (bf_add_mag_spec s1 r a b n Hn1a Hlen1 (Hr1 a Hra) (Hr1 b Hrb))
      as (Hmag & Hrng & Hhdr).
    cbv zeta in Hmag, Hrng, Hhdr. rewrite !Hm1, <- Ema, <- Emb in Hmag.
    revert Hmag Hrng Hhdr. generalize (bf_add_mag r a b s1).
    intros s2 Hmag Hrng Hhdr.
    rewrite (proj2 (Hhdr a)), Hs1, <- Esa.
    destruct (bf_finish r (set_sign r sa s2) n) as (Hv & Hw).
    - rewrite get_nlimbs_set_sign, (proj1 (Hhdr r)). exact Hn1r.
    - apply (limbs_in_range_ext s2 _ r r n); [|exact Hrng].
      intros; apply limb_set_sign.
    - rewrite get_sign_set_sign. destruct (decide (r = r)); [lia|congruence].
    - rewrite get_sign_set_sign. destruct (decide (r = r)); [lia|congruence].
    - split; [exact Hw|]. rewrite Hv.
      rewrite get_sign_set_sign. destruct (decide (r = r)); [|congruence].
      rewrite (magnitude_ext s2 (set_sign r sa s2) r r n)
        by (intros; apply limb_set_sign).
      rewrite Hmag. reflexivity. }
  (* opposite signs: compare, then subtract the smaller magnitude *)
  rewrite (bf_cmp_mag_compare s1 a b n Hn1a (Hr1 a Hra) (Hr1 b Hrb)).
  rewrite !Hm1, <- Ema, <- Emb.
  destruct (Z.compare_spec ma mb) as [Hc|Hc|Hc].
  - (* equal magnitudes: zero *)
    change (0 =? 0) with true. cbv iota.
    rewrite Hn1a.
    destruct (bf_zero_facts r n s1) as (Z1 & Z2 & Z3).
    revert Z1 Z2 Z3. generalize (bf_zero r (Z.of_nat n) s1).
    intros x Z1 Z2 Z3.
    assert (Hmx : magnitude x r n = 0) by (apply magnitude_zero_limbs, Z3).
    destruct (bf_finish r x n) as (Hv & Hw).
    + exact Z1.
    + intros i Hi. rewrite Z3 by exact Hi. lia.
    + left. exact Z2.
    + intros _. exact Hmx.
    + split; [exact Hw|]. rewrite Hv, Z2. lia.
  - (* |a| < |b| *)
    change (-1 =? 0) with false. change (-1 >? 0) with false. cbv iota.
    destruct (bf_sub_mag_small s1 r b a n Hn1b Hlen1 (Hr1 b Hrb) (Hr1 a Hra))
      as (Hmag & Hrng & Hhdr).
    { rewrite !Hm1, <- Ema, <- Emb. lia. }
    rewrite !Hm1, <- Ema, <- Emb in Hmag.
    revert Hmag Hrng Hhdr. generalize (bf_sub_mag r b a s1).
    intros s2 Hmag Hrng Hhdr.
    rewrite (proj2 (Hhdr b)), Hs1, <- Esb.
    destruct (bf_finish r (set_sign r sb s2) n) as (Hv & Hw).
    + rewrite get_nlimbs_set_sign, (proj1 (Hhdr r)). exact Hn1r.
    + apply (limbs_in_range_ext s2 _ r r n); [|exact Hrng].
      intros; apply limb_set_sign.
    + rewrite get_sign_set_sign. destruct (decide (r = r)); [lia|congruence].
    + rewrite get_sign_set_sign. destruct (decide (r = r)); [lia|congruence].
    + split; [exact Hw|]. rewrite Hv.
      rewrite get_sign_set_sign. destruct (decide (r = r)); [|congruence].
      rewrite (magnitude_ext s2 (set_sign r sb s2) r r n)
        by (intros; apply limb_set_sign).
      rewrite Hmag. destruct Hsa' as [-> | ->]; destruct Hsb' as [-> | ->]; lia.
  - (* |a| > |b| *)
    change (1 =? 0) with false. change (1 >? 0) with true. cbv iota.
    destruct (bf_sub_mag_small s1 r a b n Hn1a Hlen1 (Hr1 a Hra) (Hr1 b Hrb))
      as (Hmag & Hrng & Hhdr).
    { rewrite !Hm1, <- Ema, <- Emb. lia. }
    rewrite !Hm1, <- Ema, <- Emb in Hmag.
    revert Hmag Hrng Hhdr. generalize (bf_sub_mag r a b s1).
    intros s2 Hmag Hrng Hhdr.
    rewrite (proj2 (Hhdr a)), Hs1, <- Esa.
    destruct (bf_finish r (set_sign r sa s2) n) as (Hv & Hw).
    + rewrite get_nlimbs_set_sign, (proj1 (Hhdr r)). exact Hn1r.
    + apply (limbs_in_range_ext s2 _ r r n); [|exact Hrng].
      intros; apply limb_set_sign.
    + rewrite get_sign_set_sign. destruct (decide (r = r)); [lia|congruence].
    + rewrite get_sign_set_sign. destruct (decide (r = r)); [lia|congruence].
    + split; [exact Hw|]. rewrite Hv.
      rewrite get_sign_set_sign. destruct (decide (r = r)); [|congruence].
      rewrite (magnitude_ext s2 (set_sign r sa s2) r r n)
        by (intros; apply limb_set_sign).
      rewrite Hmag. destruct Hsa' as [-> | ->]; destruct Hsb' as [-> | ->]; lia.
Qed.

Lemma magnitude_inj s s' p q n :
  limbs_in_range s p n -> limbs_in_range s' q n ->
  magnitude s p n = magnitude s' q n ->
  forall i, (i < n)%nat -> limb s p i = limb s' q i.
Proof.
  induction n as [|n IH]; intros Hp Hq E i Hi; [lia|].
  assert (Hp' : limbs_in_range s p n) by (intros j Hj; apply Hp; lia).
  assert (Hq' : limbs_in_range s' q n) by (intros j Hj; apply Hq; lia).
  pose proof (magnitude_bounds s p n Hp') as Bp.
  pose proof (magnitude_bounds s' q n Hq') as Bq.
  cbn [magnitude] in E.
  assert (El : limb s p n = limb s' q n) by nia.
  destruct (decide (i = n)) as [->|Hne]; [exact El|].
  apply IH; auto; [|lia]. rewrite El in E. lia.
Qed.

(** A well-formed struct is determined by its value. *)
Lemma value_inj s s' p q n :
  bf_valid s p n -> bf_valid s' q n -> value s p n = value s' q n ->
  get_sign s p = get_sign s' q /\
  forall i, (i < n)%nat -> limb s p i = limb s' q i.
Proof.
  intros (_ & Hp & Sp & Zp) (_ & Hq & Sq & Zq) E. unfold value in E.
  pose proof (magnitude_bounds s p n Hp) as Bp.
  pose proof (magnitude_bounds s' q n Hq) as Bq.
  assert (K : get_sign s p = get_sign s' q /\
              magnitude s p n = magnitude s' q n).
  { destruct Sp as [Ep|[Ep|Ep]]; destruct Sq as [Eq|[Eq|Eq]];
      rewrite Ep, Eq in *;
      try (pose proof (proj1 Zp eq_refl)); try (pose proof (proj1 Zq eq_refl));
      try (split; lia);
      try (assert (magnitude s p n = 0) by lia;
           pose proof (proj2 Zp ltac:(assumption)); lia);
      try (assert (magnitude s' q n = 0) by lia;
           pose proof (proj2 Zq ltac:(assumption)); lia). }
  split; [exact (proj1 K)|]. apply magnitude_inj; tauto.
Qed.

Lemma bf_add_value_exact (s : state) (r a b : ptr) (n : nat) :
  bf_valid s a n -> bf_valid s b n ->
  (n <= length (limbs (deref s r)))%nat ->
  Z.abs (value s a n + value s b n) < 2 ^ (32 * Z.of_nat n) ->
  bf_valid (bf_add r a b s) r n /\
  value (bf_add r a b s) r n = value s a n + value s b n.
Proof.
  intros Va Vb Hlen Hov.
  destruct (bf_add_value s r a b n Va Vb Hlen) as (W & E).
  split; [exact W|]. rewrite E.
  destruct (Z.eqb_spec (get_sign s a) (get_sign s b)) as [Es|Es];
    [|reflexivity].
  destruct Va as (_ & Hra & Hsa & _). destruct Vb as (_ & Hrb & Hsb & _).
  pose proof (magnitude_bounds s a n Hra) as Ba.
  pose proof (magnitude_bounds s b n Hrb) as Bb.
  unfold value in *. rewrite <- Es in *.
  destruct Hsa as [Ea|[Ea|Ea]]; rewrite Ea in *.
  - rewrite !Z.mul_0_l. reflexivity.
  - rewrite Z.mod_small; lia.
  - rewrite Z.mod_small; lia.
Qed.

(** X5.  [bf_add] is exact signed addition: for well-formed operands of [n]
    limbs whose sum fits [n] limbs, the result is well-formed and its value is
    the sum of the operands' values, whatever their signs and whether or not
    the output is one of the inputs. *)
Theorem bf_add_exact (s : state) (r a b : ptr) (n : nat) :
  bf_valid s a n -> bf_valid s b n ->
  (n <= length (limbs (deref s r)))%nat ->
  Z.abs (value s a n + value s b n) < 2 ^ (32 * Z.of_nat n) ->
  bf_valid (bf_add r a b s) r n /\
  value (bf_add r a b s) r n = value s a n + value s b n.
Proof. exact (bf_add_value_exact s r a b n). Qed.

Lemma bf_valid_s2_a : bf_valid Demo.s2 Demo.a 1.
Proof.
  refine (conj eq_refl (conj _ (conj _ _))).
  - intros i Hi. assert (i = 0%nat) as -> by lia. vm_compute.
    split; [discriminate | reflexivity].
  - right. left. reflexivity.
  - vm_compute. split; discriminate.
Qed.

Lemma bf_valid_s2_b : bf_valid Demo.s2 Demo.b 1.
Proof.
  refine (conj eq_refl (conj _ (conj _ _))).
  - intros i Hi. assert (i = 0%nat) as -> by lia. vm_compute.
    split; [discriminate | reflexivity].
  - right. left. reflexivity.
  - vm_compute. split; discriminate.
Qed.

Lemma bf_add_exact_witness :
  value (bf_add Demo.b Demo.b Demo.b Demo.s2) Demo.b 1
  = value Demo.s2 Demo.b 1 + value Demo.s2 Demo.b 1.
Proof.
  refine (proj2 (bf_add_exact Demo.s2 Demo.b Demo.b Demo.b 1
                   bf_valid_s2_b bf_valid_s2_b _ _)).
  - vm_compute. lia.
  - vm_compute. reflexivity.
Defined.

(** X6.  [bf_add] is commutative on well-formed operands: swapping the
    operands gives the same limb count, the same sign and the same [n] limbs,
    also when the sum wraps. *)
Theorem bf_add_commutes (s : state) (r a b : ptr) (n : nat) :
  bf_valid s a n -> bf_valid s b n ->
  (n <= length (limbs (deref s r)))%nat ->
  get_nlimbs (bf_add r a b s) r = get_nlimbs (bf_add r b a s) r /\
  get_sign (bf_add r a b s) r = get_sign (bf_add r b a s) r /\
  forall i, (i < n)%nat ->
    limb (bf_add r a b s) r i = limb (bf_add r b a s) r i.
Proof.
  intros Va Vb Hlen.
  destruct (bf_add_value s r a b n Va Vb Hlen) as (W1 & E1).
  destruct (bf_add_value s r b a n Vb Va Hlen) as (W2 & E2).
  split; [rewrite (proj1 W1), (proj1 W2); reflexivity|].
  apply (value_inj _ _ r r n W1 W2). rewrite E1, E2.
  rewrite (Z.eqb_sym (get_sign s b)).
  destruct (Z.eqb_spec (get_sign s a) (get_sign s b)) as [Es|Es].
  - rewrite Es, (Z.add_comm (magnitude s b n)). reflexivity.
  - apply Z.add_comm.
Qed.

Lemma bf_add_commutes_witness :
  get_sign (bf_add Demo.r Demo.a Demo.b Demo.s2) Demo.r
  = get_sign (bf_add Demo.r Demo.b Demo.a Demo.s2) Demo.r.
Proof.
  refine (proj1 (proj2 (bf_add_commutes Demo.s2 Demo.r Demo.a Demo.b 1
                          bf_valid_s2_a bf_valid_s2_b _))).
  vm_compute. lia.
Defined.

(** X7.  A well-formed zero is the identity of [bf_add] on either side: the
    result has the sign and the [n] limbs of the other operand. *)
Theorem bf_add_zero_identity (s : state) (r a z : ptr) (n : nat) :
  bf_valid s a n -> bf_valid s z n -> get_sign s z = 0 ->
  (n <= length (limbs (deref s r)))%nat ->
  (get_sign (bf_add r a z s) r = get_sign s a /\
   forall i, (i < n)%nat -> limb (bf_add r a z s) r i = limb s a i) /\
  (get_sign (bf_add r z a s) r = get_sign s a /\
   forall i, (i < n)%nat -> limb (bf_add r z a s) r i = limb s a i).
Proof.
  intros Va Vz Hz Hlen.
  destruct (bf_add_value s r a z n Va Vz Hlen) as (W1 & E1).
  destruct (bf_add_value s r z a n Vz Va Hlen) as (W2 & E2).
  assert (Hvz : value s z n = 0) by (unfold value; rewrite Hz; lia).
  rewrite Hz, Hvz in E1, E2.
  split; apply (value_inj _ _ r a n); auto.
  - rewrite E1. destruct (Z.eqb_spec (get_sign s a) 0) as [E|E].
    + unfold value. rewrite E. lia.
    + lia.
  - rewrite E2. destruct (Z.eqb_spec 0 (get_sign s a)) as [E|E].
    + unfold value. rewrite <- E. lia.
    + lia.
Qed.

Lemma bf_valid_s2_zero :
  bf_valid (bf_zero Demo.r 1 Demo.s2) Demo.r 1 /\
  bf_valid (bf_zero Demo.r 1 Demo.s2) Demo.a 1.
Proof.
  split.
  - refine (conj eq_refl (conj _ (conj _ _))).
    + intros i Hi. assert (i = 0%nat) as -> by lia. vm_compute.
      split; [discriminate | reflexivity].
    + left. reflexivity.
    + vm_compute. split; reflexivity.
  - refine (conj eq_refl (conj _ (conj _ _))).
    + intros i Hi. assert (i = 0%nat) as -> by lia. vm_compute.
      split; [discriminate | reflexivity].
    + right. left. reflexivity.
    + vm_compute. split; discriminate.
Qed.

Lemma bf_add_zero_identity_witness :
  get_sign (bf_add Demo.b Demo.a Demo.r (bf_zero Demo.r 1 Demo.s2)) Demo.b
  = get_sign (bf_zero Demo.r 1 Demo.s2) Demo.a.
Proof.
  refine (proj1 (proj1 (bf_add_zero_identity (bf_zero Demo.r 1 Demo.s2)
                          Demo.b Demo.a Demo.r 1
                          (proj2 bf_valid_s2_zero) (proj1 bf_valid_s2_zero)
                          _ _))).
  - reflexivity.
  - vm_compute. lia.
Defined.

Lemma neg_int8_sign x :
  x = 0 \/ x = 1 \/ x = -1 -> neg_int8 x = - x.
Proof. intros [->|[->| ->]]; reflexivity. Qed.

(** What [bf_sub] computes on well-formed operands, for any aliasing of the
    output with the inputs. *)
Lemma bf_sub_value u s r a b n :
  allocated s r -> allocated s a -> allocated s b ->
  bf_valid s a n -> bf_valid s b n ->
  (n <= length (limbs (deref s r)))%nat ->
  (n <= length (limbs u))%nat ->
  bf_valid (bf_sub u r a b s) r n /\
  value (bf_sub u r a b s) r n =
    (if get_sign s a =? - get_sign s b
     then get_sign s a *
          ((magnitude s a n + magnitude s b n) mod 2 ^ (32 * Z.of_nat n))
     else value s a n - value s b n).
Proof.
  intros Ar Aa Ab Va Vb Hlen Hu. unfold bf_sub.
  destruct (alloca u s) as [q s1] eqn:E.
  destruct (alloca_spec u s q s1 E) as (-> & _ & Hq).
  pose proof (Hq r Ar) as Hqr. pose proof (Hq a Aa) as Hqa.
  pose proof (Hq b Ab) as Hqb. clear E Hq.
  assert (D1 : forall p, p <> q -> deref (store q u s) p = deref s p).
  { intros p Hp. rewrite deref_store. destruct (decide (q = p)); congruence. }
  assert (Dq : deref (store q u s) q = u).
  { rewrite deref_store. destruct (decide (q = q)); congruence. }
  revert D1 Dq. generalize (store q u s). intros s1 D1 Dq.
  destruct (bf_valid_deref s s1 a n (D1 a Hqa) Va) as (Va1 & Ea1).
  destruct (bf_valid_deref s s1 b n (D1 b Hqb) Vb) as (Vb1 & Eb1).
  assert (Hlq : (n <= length (limbs (deref s1 q)))%nat) by (rewrite Dq; exact Hu).
  destruct (bf_copy_facts s1 q b n (proj1 Vb1) Hlq) as (C1 & C2 & C3 & _).
  pose proof (frame_rel_bf_copy q b s1) as F2.
  assert (D2 : forall p, p <> q -> deref (bf_copy q b s1) p = deref s1 p).
  { intros p Hp. apply (frame_rel_deref {[q]}); [exact F2|].
    rewrite not_elem_of_singleton. exact Hp. }
  clear F2. revert C1 C2 C3 D2. generalize (bf_copy q b s1).
  intros s2 C1 C2 C3 D2.
  set (s3 := set_sign q (neg_int8 (get_sign s2 q)) s2).
  assert (D3 : forall p, p <> q -> deref s3 p = deref s2 p).
  { intros p Hp. unfold s3, set_sign. rewrite deref_store.
    destruct (decide (q = p)); congruence. }
  assert (Sb : get_sign s1 b = get_sign s b)
    by (unfold get_sign; rewrite (D1 b Hqb); reflexivity).
  assert (Mb : magnitude s1 b n = magnitude s b n).
  { apply magnitude_ext. intros i _. unfold limb. rewrite (D1 b Hqb).
    reflexivity. }
  assert (S3 : get_sign s3 q = - get_sign s b).
  { unfold s3. rewrite get_sign_set_sign.
    destruct (decide (q = q)); [|congruence].
    rewrite C2, Sb. apply neg_int8_sign. apply Vb. }
  assert (M3 : magnitude s3 q n = magnitude s b n).
  { rewrite <- Mb. apply magnitude_ext. intros i Hi. unfold s3.
    rewrite limb_set_sign. apply C3, Hi. }
  assert (V3 : bf_valid s3 q n).
  { destruct Vb as (_ & Hrb & Hsb & Hzb).
    refine (conj _ (conj _ (conj _ _))).
    - unfold s3. rewrite get_nlimbs_set_sign. exact C1.
    - apply (limbs_in_range_ext s1 s3 b q n); [|apply Vb1].
      intros i Hi. unfold s3. rewrite limb_set_sign. apply C3, Hi.
    - rewrite S3. lia.
    - rewrite S3, M3. split; intros H.
      + apply Hzb. lia.
      + apply Hzb in H. lia. }
  assert (Da : deref s3 a = deref s a)
    by (rewrite (D3 a Hqa), (D2 a Hqa); apply D1, Hqa).
  assert (Dr : deref s3 r = deref s r)
    by (rewrite (D3 r Hqr), (D2 r Hqr); apply D1, Hqr).
  destruct (bf_valid_deref s s3 a n Da Va) as (Va3 & Ea3).
  assert (Sa : get_sign s3 a = get_sign s a)
    by (unfold get_sign; rewrite Da; reflexivity).
  assert (Ma : magnitude s3 a n = magnitude s a n).
  { apply magnitude_ext. intros i _. unfold limb. rewrite Da. reflexivity. }
  assert (Hl3 : (n <= length (limbs (deref s3 r)))%nat)
    by (rewrite Dr; exact Hlen).
  destruct (bf_add_value s3 r a q n Va3 V3 Hl3) as (W & Ev).
  clearbody s3.
  assert (Dend : deref (release q (bf_add r a q s3)) r
                 = deref (bf_add r a q s3) r)
    by (apply deref_release_ne, Hqr).
  destruct (bf_valid_deref _ _ r n Dend W) as (W' & Ev').
  split; [exact W'|]. rewrite Ev', Ev, Sa, S3, Ma, M3, Ea3.
  destruct (get_sign s a =? - get_sign s b); [reflexivity|].
  unfold value. rewrite S3, M3. ring.
Qed.

Lemma bf_sub_value_exact (u : BigFloat) (s : state) (r a b : ptr) (n : nat) :
  allocated s r -> allocated s a -> allocated s b ->
  bf_valid s a n -> bf_valid s b n ->
  (n <= length (limbs (deref s r)))%nat ->
  (n <= length (limbs u))%nat ->
  Z.abs (value s a n - value s b n) < 2 ^ (32 * Z.of_nat n) ->
  bf_valid (bf_sub u r a b s) r n /\
  value (bf_sub u r a b s) r n = value s a n - value s b n.
Proof.
  intros Ar Aa Ab Va Vb Hlen Hu Hov.
  destruct (bf_sub_value u s r a b n Ar Aa Ab Va Vb Hlen Hu) as (W & E).
  split; [exact W|]. rewrite E.
  destruct (Z.eqb_spec (get_sign s a) (- get_sign s b)) as [Es|Es];
    [|reflexivity].
  destruct Va as (_ & Hra & Hsa & _). destruct Vb as (_ & Hrb & Hsb & _).
  pose proof (magnitude_bounds s a n Hra) as Ba.
  pose proof (magnitude_bounds s b n Hrb) as Bb.
  unfold value in *.
  destruct Hsa as [Ea|[Ea|Ea]]; rewrite Ea in *;
    destruct Hsb as [Eb|[Eb|Eb]]; rewrite Eb in *; try lia;
    rewrite Z.mod_small; lia.
Qed.

(** X8.  [bf_sub] is exact signed subtraction: for well-formed operands in
    live storage whose difference fits [n] limbs, the result is well-formed
    and its value is the difference of the operands' values, also when the
    output is one of the inputs.  The negated copy of [b] is a fresh local
    that is released: its address [neg_b] is not in use before the call and
    not after it, every struct other than [r] is as before (so [b] itself is
    not negated), and the set of live structs is unchanged. *)
Theorem bf_sub_exact (u : BigFloat) (s : state) (r a b : ptr) (n : nat) :
  allocated s r -> allocated s a -> allocated s b ->
  bf_valid s a n -> bf_valid s b n ->
  (n <= length (limbs (deref s r)))%nat ->
  (n <= length (limbs u))%nat ->
  Z.abs (value s a n - value s b n) < 2 ^ (32 * Z.of_nat n) ->
  let s' := bf_sub u r a b s in
  let neg_b := fst (alloca u s) in
  bf_valid s' r n /\
  value s' r n = value s a n - value s b n /\
  heap s !! neg_b = None /\ heap s' !! neg_b = None /\
  (forall p, p <> r -> heap s' !! p = heap s !! p) /\
  dom (heap s') = dom (heap s).
Proof.
  intros Ar Aa Ab Va Vb Hlen Hu Hov. cbv zeta.
  destruct (bf_sub_value_exact u s r a b n Ar Aa Ab Va Vb Hlen Hu Hov)
    as [W E].
  destruct (frame_rel_bf_sub u r a b s) as [H A].
  assert (Hout : forall p, p <> r ->
            heap (bf_sub u r a b s) !! p = heap s !! p).
  { intros p Hp. apply H. rewrite not_elem_of_singleton. exact Hp. }
  assert (Hq : heap s !! fst (alloca u s) = None).
  { destruct (alloca u s) as [q s1] eqn:Ha. cbn [fst].
    destruct (alloca_spec u s q s1 Ha) as (_ & _ & Hfresh).
    destruct (heap s !! q) as [x|] eqn:Eq; [|reflexivity].
    exfalso. apply (Hfresh q); [|reflexivity].
    unfold allocated. rewrite Eq. eauto. }
  assert (Hqr : fst (alloca u s) <> r).
  { intros Heq. rewrite Heq in Hq. destruct Ar as [x Hx]. congruence. }
  split; [exact W|]. split; [exact E|]. split; [exact Hq|].
  split; [rewrite (Hout _ Hqr); exact Hq|]. split; [exact Hout|].
  apply set_eq. intros p. rewrite !elem_of_dom.
  destruct (decide (p = r)) as [->|Hp];
    [split; intros _; [exact Ar | apply A, Ar]|].
  rewrite (Hout p Hp). reflexivity.
Qed.

Lemma bf_sub_exact_witness :
  let s' := bf_sub Demo.dirty Demo.r Demo.a Demo.b Demo.s2 in
  value s' Demo.r 1 = value Demo.s2 Demo.a 1 - value Demo.s2 Demo.b 1 /\
  heap s' !! Demo.b = heap Demo.s2 !! Demo.b /\
  dom (heap s') = dom (heap Demo.s2).
Proof.
  pose proof (bf_sub_exact Demo.dirty Demo.s2 Demo.r Demo.a Demo.b 1) as H.
  cbv zeta in H.
  assert (Ar : allocated Demo.s2 Demo.r) by (vm_compute; eauto).
  assert (Aa : allocated Demo.s2 Demo.a) by (vm_compute; eauto).
  assert (Ab : allocated Demo.s2 Demo.b) by (vm_compute; eauto).
  assert (L1 : (1 <= length (limbs (deref Demo.s2 Demo.r)))%nat)
    by (vm_compute; lia).
  assert (L2 : (1 <= length (limbs Demo.dirty))%nat) by (vm_compute; lia).
  assert (Hov : Z.abs (value Demo.s2 Demo.a 1 - value Demo.s2 Demo.b 1)
                < 2 ^ (32 * Z.of_nat 1)) by (vm_compute; reflexivity).
  destruct (H Ar Aa Ab bf_valid_s2_a bf_valid_s2_b L1 L2 Hov)
    as (_ & E & _ & _ & Hout & Hdom).
  cbv zeta. split; [exact E|]. split; [|exact Hdom].
  apply Hout. vm_compute. discriminate.
Defined.

(** X9.  Subtracting a well-formed value from itself gives zero with sign
    zero: [bf_sub r a a] leaves sign 0 and [n] zero limbs in [r]. *)
Theorem bf_sub_self (u : BigFloat) (s : state) (r a : ptr) (n : nat) :
  allocated s r -> allocated s a ->
  bf_valid s a n ->
  (n <= length (limbs (deref s r)))%nat ->
  (n <= length (limbs u))%nat ->
  get_sign (bf_sub u r a a s) r = 0 /\
  bf_is_zero r (bf_sub u r a a s) = true /\
  forall i, (i < n)%nat -> limb (bf_sub u r a a s) r i = 0.
Proof.
  intros Ar Aa Va Hlen Hu.
  destruct (bf_sub_value u s r a a n Ar Aa Aa Va Va Hlen Hu) as (W & E).
  assert (E0 : value (bf_sub u r a a s) r n = 0).
  { rewrite E. destruct (Z.eqb_spec (get_sign s a) (- get_sign s a)) as [Es|Es].
    - assert (E0 : get_sign s a = 0) by lia. rewrite E0. lia.
    - lia. }
  destruct W as (Wn & Wr & Ws & Wz). unfold value in E0.
  assert (Hm : magnitude (bf_sub u r a a s) r n = 0).
  { destruct (Z.eq_dec (get_sign (bf_sub u r a a s) r) 0) as [H0|H0].
    - apply Wz, H0.
    - nia. }
  assert (Hl : forall i, (i < n)%nat -> limb (bf_sub u r a a s) r i = 0)
    by (apply magnitude_zero_iff; assumption).
  refine (conj (proj2 Wz Hm) (conj _ Hl)).
  apply bf_is_zero_true. rewrite Wn, Nat2Z.id. exact Hl.
Qed.

Lemma bf_sub_self_witness :
  get_sign (bf_sub Demo.dirty Demo.a Demo.a Demo.a Demo.s2) Demo.a = 0.
Proof.
  refine (proj1 (bf_sub_self Demo.dirty Demo.s2 Demo.a Demo.a 1
                   _ _ bf_valid_s2_a _ _)).
  - vm_compute. eauto.
  - vm_compute. eauto.
  - vm_compute. lia.
  - vm_compute. lia.
Defined.

(** ** Multiplication: the product truncated toward zero *)

Lemma limbs_in_range_extract_result r n x :
  (n <= length (limbs (deref x r)))%nat ->
  limbs_in_range (extract_result r n x) r n.
Proof.
  intros Hlen. destruct (extract_result_spec r n x Hlen) as (H & _).
  intros i Hi. rewrite H by exact Hi. unfold extracted_limb, to_limb.
  apply Z.mod_pos_bound. lia.
Qed.

Lemma limbs_in_range_bf_mul_schoolbook s r a b n :
  get_nlimbs s a = Z.of_nat n ->
  (n <= length (limbs (deref s r)))%nat ->
  limbs_in_range (bf_mul_schoolbook r a b s) r n.
Proof.
  intros Hn Hlen. unfold bf_mul_schoolbook. cbv zeta. rewrite Hn, Nat2Z.id.
  assert (F : frame_rel ∅ s
                (for_loop n (mul_row a b n) (memset_scratch (2 * n + 2) s))).
  { eapply frame_rel_trans; [apply frame_rel_memset_scratch|].
    apply frame_for_loop. intros. apply frame_rel_mul_row. }
  revert F. generalize (for_loop n (mul_row a b n) (memset_scratch (2 * n + 2) s)).
  intros x F.
  assert (Hx : (n <= length (limbs (deref x r)))%nat).
  { rewrite (frame_rel_deref ∅ s x r F); [exact Hlen|]. apply not_elem_of_empty. }
  pose proof (limbs_in_range_extract_result r n x Hx) as R.
  revert R. generalize (extract_result r n x). intros x1 R.
  apply (limbs_in_range_ext x1 _ r r n); [|exact R].
  intros i _. rewrite limb_normalize_zero.
  match goal with |- limb (if ?c then _ else _) _ _ = _ => destruct c end;
    rewrite ?limb_set_sign, limb_set_nlimbs; reflexivity.
Qed.

Lemma spec_product_0_l n m : spec_product n 0 m = 0.
Proof. unfold spec_product. rewrite Z.mul_0_l, Zdiv_0_l. apply Zmod_0_l. Qed.

Lemma spec_product_0_r n m : spec_product n m 0 = 0.
Proof. unfold spec_product. rewrite Z.mul_0_r, Zdiv_0_l. apply Zmod_0_l. Qed.

Lemma spec_product_comm n x y : spec_product n x y = spec_product n y x.
Proof. unfold spec_product. rewrite Z.mul_comm. reflexivity. Qed.

(** What [bf_mul] computes on well-formed operands, for an output that is not
    one of the inputs. *)
Lemma bf_mul_value s r a b n :
  bf_valid s a n -> bf_valid s b n -> r <> a -> r <> b ->
  (2 * n <= length (scratch s))%nat ->
  (n <= length (limbs (deref s r)))%nat ->
  bf_valid (bf_mul r a b s) r n /\
  value (bf_mul r a b s) r n
  = get_sign s a * get_sign s b
    * spec_product n (magnitude s a n) (magnitude s b n).
Proof.
  intros (Hna & Hra & Hsa & Hza) (Hnb & Hrb & Hsb & Hzb) Nra Nrb Hscr Hlen.
  rewrite bf_mul_dispatch.
  destruct (bf_mul_schoolbook_spec s r a b n Hna Hscr Hlen Hra Hrb)
    as (M & N & Sg).
  specialize (Sg Nra Nrb).
  pose proof (limbs_in_range_bf_mul_schoolbook s r a b n Hna Hlen) as R.
  cbv zeta in M, N, Sg.
  unfold value, bf_valid. rewrite Sg, M.
  assert (Z0 : get_sign s a = 0 \/ get_sign s b = 0 ->
               spec_product n (magnitude s a n) (magnitude s b n) = 0).
  { intros [E|E].
    - rewrite (proj1 Hza E). apply spec_product_0_l.
    - rewrite (proj1 Hzb E). apply spec_product_0_r. }
  revert Z0.
  generalize (spec_product n (magnitude s a n) (magnitude s b n)). intros m Z0.
  unfold spec_product_sign.
  destruct Hsa as [Ea|[Ea|Ea]]; destruct Hsb as [Eb|[Eb|Eb]];
    rewrite Ea, Eb in *;
    try (rewrite Z0 by auto; cbn;
         refine (conj (conj N (conj R (conj _ _))) eq_refl);
         [tauto | tauto]);
    cbn [Z.eqb Pos.eqb orb];
    destruct (Z.eqb_spec m 0) as [Em|Em];
    (split; [refine (conj N (conj R (conj _ _))); [lia | split; intros; lia]
            | lia]).
Qed.

Lemma quot_0_l x : 0 ÷ x = 0.
Proof. destruct x; reflexivity. Qed.

Lemma spec_product_exact s a b n :
  bf_valid s a n -> bf_valid s b n ->
  Z.abs ((value s a n * value s b n) ÷ 2 ^ (32 * Z.of_nat n - 4))
    < 2 ^ (32 * Z.of_nat n) ->
  get_sign s a * get_sign s b
    * spec_product n (magnitude s a n) (magnitude s b n)
  = (value s a n * value s b n) ÷ 2 ^ (32 * Z.of_nat n - 4).
Proof.
  intros Va Vb Hov.
  destruct Va as (_ & Hra & Hsa & Hza). destruct Vb as (_ & Hrb & Hsb & Hzb).
  pose proof (magnitude_bounds s a n Hra) as Ba.
  pose proof (magnitude_bounds s b n Hrb) as Bb.
  unfold value in *.
  destruct (Z.eq_dec (get_sign s a) 0) as [Ea|Ea].
  { rewrite Ea, !Z.mul_0_l, quot_0_l. reflexivity. }
  destruct (Z.eq_dec (get_sign s b) 0) as [Eb|Eb].
  { rewrite Eb, Z.mul_0_r, !Z.mul_0_l, Z.mul_0_r, quot_0_l. reflexivity. }
  assert (Hn : (1 <= n)%nat).
  { destruct n; [|lia]. exfalso. apply Ea. apply Hza. reflexivity. }
  assert (HS : 0 < 2 ^ (32 * Z.of_nat n - 4)) by (apply Z.pow_pos_nonneg; lia).
  unfold spec_product.
  revert HS Hov. generalize (2 ^ (32 * Z.of_nat n - 4)). intros S HS Hov.
  set (P := magnitude s a n * magnitude s b n).
  assert (HP : 0 <= P) by (unfold P; nia).
  assert (HQ : 0 <= P / S) by (apply Z.div_pos; lia).
  assert (Hprod : get_sign s a * magnitude s a n
                    * (get_sign s b * magnitude s b n)
                  = get_sign s a * get_sign s b * P) by (unfold P; ring).
  rewrite Hprod in Hov |- *. clear Hprod.
  assert (Hss : get_sign s a * get_sign s b = 1 \/
                get_sign s a * get_sign s b = -1) by nia.
  destruct Hss as [Es|Es]; rewrite Es in Hov |- *.
  - replace (1 * P) with P in Hov |- * by lia.
    rewrite Z.quot_div_nonneg in Hov |- * by lia.
    rewrite Z.mod_small; lia.
  - replace (-1 * P) with (- P) in Hov |- * by lia.
    rewrite Z.quot_opp_l in Hov |- * by lia.
    rewrite Z.quot_div_nonneg in Hov |- * by lia.
    rewrite Z.mod_small; lia.
Qed.

(** X10.  [bf_mul] is the exact product truncated toward zero: for
    well-formed [n]-limb operands, an output that is neither of them and a
    product that fits, the result is well-formed and its value is the
    product of the operands' values divided by [2^(32 n - 4)], rounded
    toward zero. *)
Theorem bf_mul_exact (s : state) (r a b : ptr) (n : nat) :
  bf_valid s a n -> bf_valid s b n -> r <> a -> r <> b ->
  (2 * n <= length (scratch s))%nat ->
  (n <= length (limbs (deref s r)))%nat ->
  Z.abs ((value s a n * value s b n) ÷ 2 ^ (32 * Z.of_nat n - 4))
    < 2 ^ (32 * Z.of_nat n) ->
  bf_valid (bf_mul r a b s) r n /\
  value (bf_mul r a b s) r n
  = (value s a n * value s b n) ÷ 2 ^ (32 * Z.of_nat n - 4).
Proof.
  intros Va Vb Nra Nrb Hscr Hlen Hov.
  destruct (bf_mul_value s r a b n Va Vb Nra Nrb Hscr Hlen) as (W & E).
  split; [exact W|]. rewrite E. apply spec_product_exact; assumption.
Qed.

Lemma bf_mul_exact_witness :
  value (bf_mul Demo.r Demo.b Demo.b Demo.s2) Demo.r 1
  = (value Demo.s2 Demo.b 1 * value Demo.s2 Demo.b 1) ÷ 2 ^ (32 * Z.of_nat 1 - 4).
Proof.
  refine (proj2 (bf_mul_exact Demo.s2 Demo.r Demo.b Demo.b 1
                   bf_valid_s2_b bf_valid_s2_b _ _ _ _ _)).
  - discriminate.
  - discriminate.
  - vm_compute. lia.
  - vm_compute. lia.
  - vm_compute. reflexivity.
Defined.

(** X11.  [bf_mul] is commutative on well-formed operands, for an output
    struct that is neither operand: swapping them gives the same limb count,
    sign and limbs, also when the product wraps. *)
Theorem bf_mul_commutes (s : state) (r a b : ptr) (n : nat) :
  bf_valid s a n -> bf_valid s b n -> r <> a -> r <> b ->
  (2 * n <= length (scratch s))%nat ->
  (n <= length (limbs (deref s r)))%nat ->
  get_nlimbs (bf_mul r a b s) r = get_nlimbs (bf_mul r b a s) r /\
  get_sign (bf_mul r a b s) r = get_sign (bf_mul r b a s) r /\
  forall i, (i < n)%nat ->
    limb (bf_mul r a b s) r i = limb (bf_mul r b a s) r i.
Proof.
  intros Va Vb Nra Nrb Hscr Hlen.
  destruct (bf_mul_value s r a b n Va Vb Nra Nrb Hscr Hlen) as (W1 & E1).
  destruct (bf_mul_value s r b a n Vb Va Nrb Nra Hscr Hlen) as (W2 & E2).
  split; [rewrite (proj1 W1), (proj1 W2); reflexivity|].
  apply (value_inj _ _ r r n W1 W2). rewrite E1, E2.
  rewrite (spec_product_comm n (magnitude s b n)). ring.
Qed.

Lemma bf_mul_commutes_witness :
  get_sign (bf_mul Demo.r Demo.a Demo.b Demo.s2) Demo.r
  = get_sign (bf_mul Demo.r Demo.b Demo.a Demo.s2) Demo.r.
Proof.
  refine (proj1 (proj2 (bf_mul_commutes Demo.s2 Demo.r Demo.a Demo.b 1
                          bf_valid_s2_a bf_valid_s2_b _ _ _ _))).
  - discriminate.
  - discriminate.
  - vm_compute. lia.
  - vm_compute. lia.
Defined.

Lemma magnitude_top_only s p k :
  (forall i, (i < k)%nat -> limb s p i = 0) ->
  magnitude s p (S k) = limb s p k * 2 ^ (32 * Z.of_nat k).
Proof.
  intros H. cbn [magnitude]. rewrite (magnitude_zero_limbs s p k H). lia.
Qed.

(** X12.  The value 1.0 (top limb [0x10000000], all lower limbs zero, sign 1)
    is the identity of [bf_mul] on either side, for an output struct that is
    neither operand: the product has the sign and the limbs of the other
    operand, with no rounding. *)
Theorem bf_mul_one (s : state) (r a b : ptr) (k : nat) :
  bf_valid s a (S k) ->
  get_nlimbs s b = Z.of_nat (S k) -> get_sign s b = 1 ->
  limb s b k = 2 ^ 28 -> (forall i, (i < k)%nat -> limb s b i = 0) ->
  r <> a -> r <> b ->
  (2 * S k <= length (scratch s))%nat ->
  (S k <= length (limbs (deref s r)))%nat ->
  (get_sign (bf_mul r a b s) r = get_sign s a /\
   forall i, (i < S k)%nat -> limb (bf_mul r a b s) r i = limb s a i) /\
  (get_sign (bf_mul r b a s) r = get_sign s a /\
   forall i, (i < S k)%nat -> limb (bf_mul r b a s) r i = limb s a i).
Proof.
  intros Va Hnb Hsb Htop Hlow Nra Nrb Hscr Hlen.
  assert (Mb : magnitude s b (S k) = 2 ^ (32 * Z.of_nat (S k) - 4)).
  { rewrite (magnitude_top_only s b k Hlow), Htop.
    rewrite <- Z.pow_add_r by lia. f_equal. lia. }
  assert (HS : 0 < 2 ^ (32 * Z.of_nat (S k) - 4))
    by (apply Z.pow_pos_nonneg; lia).
  assert (Vb : bf_valid s b (S k)).
  { refine (conj Hnb (conj _ (conj _ _))).
    - intros i Hi. destruct (decide (i = k)) as [->|Hne].
      + rewrite Htop. split; [apply Z.pow_nonneg; lia|].
        apply Z.pow_lt_mono_r; lia.
      + rewrite Hlow by lia. lia.
    - right. left. exact Hsb.
    - rewrite Hsb, Mb. split; intros; lia. }
  destruct (bf_mul_value s r a b (S k) Va Vb Nra Nrb Hscr Hlen) as (W1 & E1).
  destruct (bf_mul_value s r b a (S k) Vb Va Nrb Nra Hscr Hlen) as (W2 & E2).
  pose proof (magnitude_bounds s a (S k) (proj1 (proj2 Va))) as Ba.
  assert (Hp : spec_product (S k) (magnitude s a (S k)) (magnitude s b (S k))
               = magnitude s a (S k)).
  { unfold spec_product. rewrite Mb, Z.div_mul by lia.
    apply Z.mod_small. exact Ba. }
  rewrite (spec_product_comm (S k) (magnitude s b (S k))) in E2.
  rewrite Hp, Hsb in E1, E2.
  split; apply (value_inj _ _ r a (S k)); auto.
  - rewrite E1. unfold value. ring.
  - rewrite E2. unfold value. ring.
Qed.

Lemma bf_mul_one_witness :
  get_sign (bf_mul Demo.r Demo.b
              Demo.a (set_limb Demo.a 0 (2 ^ 28) Demo.s2)) Demo.r
  = get_sign (set_limb Demo.a 0 (2 ^ 28) Demo.s2) Demo.b.
Proof.
  refine (proj1 (proj1 (bf_mul_one (set_limb Demo.a 0 (2 ^ 28) Demo.s2)
                          Demo.r Demo.b Demo.a 0 _ _ _ _ _ _ _ _ _))).
  - refine (conj eq_refl (conj _ (conj _ _))).
    + intros i Hi. assert (i = 0%nat) as -> by lia. vm_compute.
      split; [discriminate | reflexivity].
    + right. left. reflexivity.
    + vm_compute. split; discriminate.
  - reflexivity.
  - reflexivity.
  - reflexivity.
  - intros i Hi. lia.
  - discriminate.
  - discriminate.
  - vm_compute. lia.
  - vm_compute. lia.
Defined.

(** ** Squaring: sign and normal form *)

Lemma frame_rel_sqr_rows a n s :
  frame_rel ∅ s (for_loop n (sqr_row a n) (memset_scratch (2 * n + 2) s)).
Proof.
  eapply frame_rel_trans; [apply frame_rel_memset_scratch|].
  apply frame_for_loop. intros. apply frame_rel_sqr_row.
Qed.

Lemma limbs_bf_sqr r a s i :
  limb (bf_sqr r a s) r i
  = limb (extract_result r (Z.to_nat (get_nlimbs s a))
            (for_loop (Z.to_nat (get_nlimbs s a))
               (sqr_row a (Z.to_nat (get_nlimbs s a)))
               (memset_scratch (2 * Z.to_nat (get_nlimbs s a) + 2) s))) r i.
Proof.
  unfold bf_sqr. cbv zeta.
  rewrite limb_normalize_zero, limb_set_sign, limb_set_nlimbs. reflexivity.
Qed.

Lemma limbs_in_range_bf_sqr s r a n :
  get_nlimbs s a = Z.of_nat n ->
  (n <= length (limbs (deref s r)))%nat ->
  limbs_in_range (bf_sqr r a s) r n.
Proof.
  intros Hn Hlen i Hi. rewrite limbs_bf_sqr, Hn, Nat2Z.id.
  apply limbs_in_range_extract_result; [|exact Hi].
  rewrite (frame_rel_deref ∅ s _ r (frame_rel_sqr_rows a n s));
    [exact Hlen | apply not_elem_of_empty].
Qed.

Lemma scr_set_scr_zero k x j : scr x j = 0 -> scr (set_scr k 0 x) j = 0.
Proof.
  intros H. destruct (decide (k = j)) as [->|Hne].
  - destruct (Nat.lt_ge_cases j (length (scratch x))) as [Hlt|Hge].
    + apply scr_set_scr_eq, Hlt.
    + unfold scr, set_scr in *. cbn [scratch].
      rewrite list_insert_ge; [exact H|]. exact Hge.
  - rewrite scr_set_scr_ne by exact Hne. exact H.
Qed.

Lemma sqr_carry_loop_0 fuel k s : sqr_carry_loop fuel k 0 s = s.
Proof. destruct fuel; reflexivity. Qed.

Lemma sqr_diag_zero a i x :
  limb x a i = 0 -> scr x (2 * i) = 0 -> scr x (2 * i + 1) = 0 ->
  sqr_diag a i x = set_scr (2 * i + 1) 0 (set_scr (2 * i) 0 x).
Proof.
  intros H1 H2 H3. unfold sqr_diag. rewrite H1, H2.
  change (to_dlimb (0 * 0)) with 0. change (to_limb 0) with 0.
  change (0 + 0) with 0. change (to_limb 0) with 0.
  change (Z.shiftr 0 32) with 0. change (0 + 0) with 0.
  change (to_dlimb 0) with 0. change (to_limb 0) with 0.
  cbv zeta. rewrite scr_set_scr_ne by lia. rewrite H3.
  change (to_limb (0 + 0)) with 0. change (Z.shiftr 0 32 =? 0) with true.
  reflexivity.
Qed.

Lemma sqr_offdiag_zero a n i j x :
  limb x a i = 0 -> scr x (i + j) = 0 ->
  sqr_offdiag a n i j x = set_scr (i + j) 0 x.
Proof.
  intros H1 H2. unfold sqr_offdiag. rewrite H1, H2, Z.mul_0_l.
  change (to_dlimb 0) with 0. change (Z.shiftl 0 1) with 0.
  change (to_dlimb 0) with 0. change (to_limb 0) with 0.
  change (0 + 0) with 0. change (to_limb 0) with 0.
  change (Z.shiftr 0 63) with 0. change (Z.shiftr 0 32) with 0.
  change (0 + 0 + 0) with 0. change (to_dlimb 0) with 0.
  cbv zeta. apply sqr_carry_loop_0.
Qed.

Lemma sqr_row_zero a n i x :
  (i < n)%nat ->
  (forall j, (j < n)%nat -> limb x a j = 0) ->
  (forall k, (k < 2 * n)%nat -> scr x k = 0) ->
  (forall p j, limb (sqr_row a n i x) p j = limb x p j) /\
  (forall k, (k < 2 * n)%nat -> scr (sqr_row a n i x) k = 0).
Proof.
  intros Hi Hl Hs. unfold sqr_row.
  rewrite (sqr_diag_zero a i x) by (try apply Hl; try apply Hs; lia).
  pose (P := fun (j : nat) (y : state) =>
       (forall p q, limb y p q = limb x p q) /\
       (forall k, (k < 2 * n)%nat -> scr y k = 0)).
  assert (Inv : P (i + 1 + (n - (i + 1)))%nat
                  (for_range (i + 1) n (sqr_offdiag a n i)
                     (set_scr (2 * i + 1) 0 (set_scr (2 * i) 0 x)))).
  { apply (for_range_ind P); unfold P.
    - split.
      + intros p q. rewrite !limb_set_scr. reflexivity.
      + intros k Hk. apply scr_set_scr_zero, scr_set_scr_zero, Hs, Hk.
    - intros j y Hj (IH1 & IH2).
      rewrite (sqr_offdiag_zero a n i j y)
        by (try (rewrite IH1; apply Hl); try apply IH2; lia).
      split.
      + intros p q. rewrite limb_set_scr. apply IH1.
      + intros k Hk. apply scr_set_scr_zero, IH2, Hk. }
  exact Inv.
Qed.

(** Squaring all-zero limbs gives all-zero limbs. *)
Lemma bf_sqr_zero_limbs s r a n :
  get_nlimbs s a = Z.of_nat n ->
  (n <= length (limbs (deref s r)))%nat ->
  (forall i, (i < n)%nat -> limb s a i = 0) ->
  forall i, (i < n)%nat -> limb (bf_sqr r a s) r i = 0.
Proof.
  intros Hn Hlen Hz i Hi. rewrite limbs_bf_sqr, Hn, Nat2Z.id.
  pose (P := fun (k : nat) (y : state) =>
       (forall p q, limb y p q = limb s p q) /\
       (forall k, (k < 2 * n)%nat -> scr y k = 0)).
  assert (Inv : P n (for_loop n (sqr_row a n) (memset_scratch (2 * n + 2) s))).
  { apply (for_loop_ind P); unfold P.
    - split.
      + intros p q. apply limb_heap_eq, heap_memset_scratch.
      + intros k Hk. apply scr_memset_scratch. lia.
    - intros k y Hk (IH1 & IH2).
      destruct (sqr_row_zero a n k y Hk) as (R1 & R2); auto.
      { intros j Hj. rewrite IH1. apply Hz, Hj. }
      split; [|exact R2]. intros p q. rewrite R1. apply IH1. }
  destruct Inv as (_ & Hs).
  pose proof (frame_rel_sqr_rows a n s) as F.
  revert Hs F. generalize (for_loop n (sqr_row a n) (memset_scratch (2 * n + 2) s)).
  intros x Hs F.
  destruct (extract_result_spec r n x) as (Hx & _).
  { rewrite (frame_rel_deref ∅ s x r F); [exact Hlen|apply not_elem_of_empty]. }
  rewrite Hx by exact Hi. unfold extracted_limb.
  assert (Hpos : (0 <? n + i)%nat = true) by (apply Nat.ltb_lt; lia).
  rewrite Hpos, !Hs by lia. reflexivity.
Qed.

Lemma bf_sqr_facts (s : state) (r a : ptr) (n : nat) :
  get_nlimbs s a = Z.of_nat n ->
  (n <= length (limbs (deref s r)))%nat ->
  get_nlimbs (bf_sqr r a s) r = Z.of_nat n /\
  limbs_in_range (bf_sqr r a s) r n /\
  (get_sign (bf_sqr r a s) r = 0 \/ get_sign (bf_sqr r a s) r = 1) /\
  (magnitude (bf_sqr r a s) r n = 0 -> get_sign (bf_sqr r a s) r = 0) /\
  (bf_valid s a n -> bf_valid (bf_sqr r a s) r n).
Proof.
  intros Hn Hlen.
  pose proof (limbs_in_range_bf_sqr s r a n Hn Hlen) as R.
  pose proof (bf_sqr_zero_limbs s r a n Hn Hlen) as Z0.
  revert R Z0. unfold bf_sqr. cbv zeta. rewrite Hn, Nat2Z.id.
  pose proof (hdr_same_trans _ _ _
                (hdr_same_memset_scratch (2 * n + 2) s)
                (hdr_for_loop n (sqr_row a n) _
                   (fun i x => hdr_same_sqr_row a n i x))) as H1.
  revert H1.
  generalize (for_loop n (sqr_row a n) (memset_scratch (2 * n + 2) s)).
  intros x0 H1.
  pose proof (hdr_same_trans _ _ _ H1 (hdr_same_extract_result r n x0)) as H2.
  revert H2. generalize (extract_result r n x0). intros x1 H2.
  assert (Sa : get_sign (set_nlimbs r (Z.of_nat n) x1) a = get_sign s a)
    by (rewrite get_sign_set_nlimbs; apply (proj2 (H2 a))).
  rewrite Sa.
  set (sg := if get_sign s a =? 0 then 0 else 1).
  set (x3 := set_sign r sg (set_nlimbs r (Z.of_nat n) x1)).
  assert (L3 : forall i, limb x3 r i = limb (normalize_zero r x3) r i)
    by (intros; rewrite limb_normalize_zero; reflexivity).
  assert (N3 : get_nlimbs x3 r = Z.of_nat n).
  { unfold x3. rewrite get_nlimbs_set_sign, get_nlimbs_set_nlimbs.
    destruct (decide (r = r)); congruence. }
  assert (S3 : get_sign x3 r = sg).
  { unfold x3. rewrite get_sign_set_sign. destruct (decide (r = r)); congruence. }
  clearbody x3. intros R Z0.
  assert (R3 : limbs_in_range x3 r n)
    by (apply (limbs_in_range_ext _ x3 r r n (fun i _ => L3 i) R)).
  destruct (normalize_zero_spec r x3 n N3 R3) as (Mn & Rn & Nn & Sn).
  assert (Hsg : sg = 0 \/ sg = 1) by (unfold sg; destruct (_ =? _); auto).
  refine (conj Nn (conj Rn (conj _ (conj _ _)))).
  - rewrite Sn, S3. destruct (magnitude x3 r n =? 0); auto.
  - intros Hm. rewrite Sn. rewrite Mn in Hm. rewrite Hm. reflexivity.
  - intros (_ & Hra & Hsa & Hza).
    apply bf_finish; auto.
    + rewrite S3. destruct Hsg; auto.
    + rewrite S3. unfold sg. destruct (Z.eqb_spec (get_sign s a) 0) as [E|E];
        [|discriminate].
      intros _. apply magnitude_zero_limbs. intros i Hi. rewrite L3.
      apply Z0; [|exact Hi].
      apply magnitude_zero_iff; [exact Hra|]. apply Hza, E.
Qed.

(** X13.  A square is never negative and always in normal form: [bf_sqr]
    leaves [n] [uint32_t] limbs with limb count [n], a sign that is 0 or 1,
    and sign 0 whenever all limbs are zero; if the operand is well-formed, so
    is the result, and an operand whose limbs are all zero gives limbs that
    are all zero; all of it also when the output is the operand itself. *)
Theorem bf_sqr_wellformed (s : state) (r a : ptr) (n : nat) :
  get_nlimbs s a = Z.of_nat n ->
  (n <= length (limbs (deref s r)))%nat ->
  get_nlimbs (bf_sqr r a s) r = Z.of_nat n /\
  limbs_in_range (bf_sqr r a s) r n /\
  (get_sign (bf_sqr r a s) r = 0 \/ get_sign (bf_sqr r a s) r = 1) /\
  (magnitude (bf_sqr r a s) r n = 0 -> get_sign (bf_sqr r a s) r = 0) /\
  (bf_valid s a n -> bf_valid (bf_sqr r a s) r n) /\
  ((forall i, (i < n)%nat -> limb s a i = 0) ->
   forall i, (i < n)%nat -> limb (bf_sqr r a s) r i = 0).
Proof.
  intros Hn Hlen.
  destruct (bf_sqr_facts s r a n Hn Hlen) as (H1 & H2 & H3 & H4 & H5).
  repeat (split; [assumption|]).
  exact (bf_sqr_zero_limbs s r a n Hn Hlen).
Qed.

Lemma bf_sqr_wellformed_witness :
  get_sign (bf_sqr Demo.r Demo.a Demo.s1) Demo.r = 0 \/
  get_sign (bf_sqr Demo.r Demo.a Demo.s1) Demo.r = 1.
Proof.
  refine (proj1 (proj2 (proj2 (bf_sqr_wellformed Demo.s1 Demo.r Demo.a 2 _ _)))).
  - reflexivity.
  - vm_compute. lia.
Defined.

Lemma sqr_row_one a m :
  scr m 0 = 0 -> 0 <= limb m a 0 < 2 ^ 32 ->
  sqr_row a 1 0 m = mul_row a a 1 0 m.
Proof.
  intros H0 Hl. unfold sqr_row, mul_row, for_range.
  change (seq (0 + 1) (1 - (0 + 1))) with (@nil nat). cbn [fold_left].
  rewrite for_loop_S, for_loop_0. unfold mul_inner, sqr_diag.
  change (2 * 0)%nat with 0%nat. change (0 + 0)%nat with 0%nat.
  change (0 + 1)%nat with 1%nat. change (0 + 2)%nat with 2%nat.
  rewrite H0. cbv zeta.
  set (l := limb m a 0) in *.
  assert (Hd : 0 <= l * l < 2 ^ 64) by nia.
  assert (Ed : to_dlimb (l * l) = l * l) by (apply Z.mod_small; exact Hd).
  rewrite Ed.
  assert (Hlo : to_limb (to_limb (0 + to_limb (l * l)))
                = to_limb (to_dlimb (0 + l * l + 0))).
  { unfold to_limb, to_dlimb.
    replace (0 + l * l + 0) with (l * l) by lia.
    replace (0 + (l * l) mod 2 ^ 32) with ((l * l) mod 2 ^ 32) by lia.
    rewrite (Z.mod_small (l * l) (2 ^ 64)) by exact Hd.
    rewrite !Z.mod_mod by lia. reflexivity. }
  assert (Hhi : to_dlimb (Z.shiftr (to_limb (0 + to_limb (l * l))) 32
                          + Z.shiftr (l * l) 32)
                = Z.shiftr (to_dlimb (0 + l * l + 0)) 32).
  { unfold to_limb, to_dlimb.
    replace (0 + l * l + 0) with (l * l) by lia.
    replace (0 + (l * l) mod 2 ^ 32) with ((l * l) mod 2 ^ 32) by lia.
    rewrite (Z.mod_small (l * l) (2 ^ 64)) by exact Hd.
    rewrite Z.mod_mod by lia. rewrite !Z.shiftr_div_pow2 by lia.
    rewrite (Z.div_small ((l * l) mod 2 ^ 32))
      by (apply Z.mod_pos_bound; lia).
    rewrite Z.add_0_l. apply Z.mod_small.
    split; [apply Z.div_pos; lia|].
    apply Z.div_lt_upper_bound; lia. }
  rewrite Hlo, Hhi.
  assert (Hc : (Z.shiftr (Z.shiftr (to_dlimb (0 + l * l + 0)) 32) 32 =? 0)
               = true).
  { apply Z.eqb_eq. unfold to_dlimb.
    replace (0 + l * l + 0) with (l * l) by lia.
    rewrite (Z.mod_small (l * l) (2 ^ 64)) by exact Hd.
    rewrite !Z.shiftr_div_pow2 by lia. apply Z.div_small.
    split; [apply Z.div_pos; lia|].
    apply Z.div_lt_upper_bound; lia. }
  rewrite Hc. reflexivity.
Qed.

(** X14.  With a single limb the squaring shortcut has no off-diagonal terms
    and is exact: for an output other than the operand, [bf_sqr r a] leaves
    the very state that [bf_mul r a a] leaves. *)
Theorem bf_sqr_one_limb (s : state) (r a : ptr) :
  get_nlimbs s a = 1 -> 0 <= limb s a 0 < 2 ^ 32 -> r <> a ->
  bf_sqr r a s = bf_mul r a a s.
Proof.
  intros Hn Hl Hra. rewrite bf_mul_dispatch.
  unfold bf_sqr, bf_mul_schoolbook. cbv zeta. rewrite Hn.
  change (Z.to_nat 1) with 1%nat.
  rewrite !for_loop_S, !for_loop_0.
  rewrite sqr_row_one.
  2: { apply scr_memset_scratch. lia. }
  2: { rewrite (limb_heap_eq s _ a 0 (heap_memset_scratch _ s)). exact Hl. }
  generalize (extract_result r 1
                (mul_row a a 1 0 (memset_scratch (2 * 1 + 2) s))).
  intros x. rewrite Z.eqb_refl.
  rewrite !get_sign_set_sign. destruct (decide (r = a)); [congruence|].
  rewrite orb_diag.
  destruct (get_sign (set_nlimbs r 1 x) a =? 0); [|reflexivity].
  f_equal. unfold set_sign. rewrite !deref_store.
  destruct (decide (r = r)); [|congruence]. cbn [limbs nlimbs].
  unfold store. cbn [heap scratch]. rewrite insert_insert_eq. reflexivity.
Qed.

Lemma bf_sqr_one_limb_witness :
  bf_sqr Demo.r Demo.a Demo.s2 = bf_mul Demo.r Demo.a Demo.a Demo.s2.
Proof.
  apply bf_sqr_one_limb.
  - reflexivity.
  - vm_compute. split; [discriminate | reflexivity].
  - discriminate.
Defined.

(** ** Array lengths are never changed *)

Lemma len_same_refl s : len_same s s.
Proof. split; reflexivity. Qed.

Lemma len_same_trans s1 s2 s3 :
  len_same s1 s2 -> len_same s2 s3 -> len_same s1 s3.
Proof.
  intros [A1 B1] [A2 B2]. split; [intros p; rewrite A2; apply A1|congruence].
Qed.

Lemma len_for_loop n body s :
  (forall i x, len_same x (body i x)) -> len_same s (for_loop n body s).
Proof. apply for_loop_rel; [apply len_same_refl | apply len_same_trans]. Qed.

Lemma len_for_loop_fst {C} n (body : nat -> state * C -> state * C) s c :
  (forall i x c', len_same x (fst (body i (x, c')))) ->
  len_same s (fst (for_loop n body (s, c))).
Proof. apply for_loop_fst_rel; [apply len_same_refl | apply len_same_trans]. Qed.

Lemma len_for_range lo n body s :
  (forall i x, len_same x (body i x)) -> len_same s (for_range lo n body s).
Proof. apply for_range_rel; [apply len_same_refl | apply len_same_trans]. Qed.

Lemma len_same_set_limb r i v s : len_same s (set_limb r i v s).
Proof.
  split; [|reflexivity]. intros p. apply length_limbs_set_limb.
Qed.

Lemma len_same_set_nlimbs r n s : len_same s (set_nlimbs r n s).
Proof.
  split; [|reflexivity]. intros p. unfold set_nlimbs. rewrite deref_store.
  destruct (decide (r = p)) as [->|]; reflexivity.
Qed.

Lemma len_same_set_sign r sg s : len_same s (set_sign r sg s).
Proof.
  split; [|reflexivity]. intros p. unfold set_sign. rewrite deref_store.
  destruct (decide (r = p)) as [->|]; reflexivity.
Qed.

Lemma len_same_set_scr k v s : len_same s (set_scr k v s).
Proof. split; [reflexivity|]. apply length_scratch_set_scr. Qed.

Lemma len_same_normalize_zero r s : len_same s (normalize_zero r s).
Proof.
  unfold normalize_zero. destruct (bf_is_zero r s);
    [apply len_same_set_sign | apply len_same_refl].
Qed.

Lemma len_same_memset_scratch m s : len_same s (memset_scratch m s).
Proof. apply len_for_loop. intros. apply len_same_set_scr. Qed.

Lemma len_same_extract_result r n s : len_same s (extract_result r n s).
Proof. apply len_for_loop. intros. apply len_same_set_limb. Qed.

Lemma len_same_mul_row a b n i s : len_same s (mul_row a b n i s).
Proof.
  unfold mul_row.
  assert (H : len_same s (fst (for_loop n (mul_inner a b i) (s, 0))))
    by (apply len_for_loop_fst; intros j y c'; apply len_same_set_scr).
  destruct (for_loop n (mul_inner a b i) (s, 0)) as [x c].
  eapply len_same_trans; [exact H | apply len_same_set_scr].
Qed.

Lemma len_same_sqr_carry_loop fuel k carry s :
  len_same s (sqr_carry_loop fuel k carry s).
Proof.
  revert k carry s. induction fuel as [|fuel IH]; intros k carry s; simpl.
  - apply len_same_refl.
  - destruct (carry =? 0); [apply len_same_refl|].
    eapply len_same_trans; [|apply IH]. apply len_same_set_scr.
Qed.

Lemma len_same_sqr_row a n i s : len_same s (sqr_row a n i s).
Proof.
  unfold sqr_row.
  eapply len_same_trans; [|apply len_for_range].
  - unfold sqr_diag. cbv zeta.
    destruct (_ =? 0);
      repeat (eapply len_same_trans; [|apply len_same_set_scr]);
      apply len_same_refl.
  - intros j y. unfold sqr_offdiag. cbv zeta.
    eapply len_same_trans; [|apply len_same_sqr_carry_loop].
    apply len_same_set_scr.
Qed.

Lemma len_same_bf_sqr r a s : len_same s (bf_sqr r a s).
Proof.
  unfold bf_sqr. cbv zeta.
  eapply len_same_trans; [|apply len_same_normalize_zero].
  eapply len_same_trans; [|apply len_same_set_sign].
  eapply len_same_trans; [|apply len_same_set_nlimbs].
  eapply len_same_trans; [|apply len_same_extract_result].
  eapply len_same_trans; [apply len_same_memset_scratch|].
  apply len_for_loop. intros. apply len_same_sqr_row.
Qed.

Lemma len_same_bf_mul r a b s : len_same s (bf_mul r a b s).
Proof.
  rewrite bf_mul_dispatch. unfold bf_mul_schoolbook. cbv zeta.
  eapply len_same_trans; [|apply len_same_normalize_zero].
  eapply len_same_trans.
  2: { match goal with |- len_same _ (if ?c then _ else _) => destruct c end;
       [apply len_same_set_sign | apply len_same_refl]. }
  eapply len_same_trans; [|apply len_same_set_sign].
  eapply len_same_trans; [|apply len_same_set_nlimbs].
  eapply len_same_trans; [|apply len_same_extract_result].
  eapply len_same_trans; [apply len_same_memset_scratch|].
  apply len_for_loop. intros. apply len_same_mul_row.
Qed.

(** ** The Mandelbrot step *)

Lemma lor_double l c :
  0 <= l -> 0 <= c <= 1 -> Z.lor (2 * l) c = 2 * l + c.
Proof.
  intros Hl Hc. assert (c = 0 \/ c = 1) as [-> | ->] by lia.
  - rewrite Z.lor_0_r. lia.
  - assert (H : Z.land (2 * l) 1 = 0).
    { change 1 with (Z.ones 1). rewrite Z.land_ones by lia.
      change (2 ^ 1) with 2. rewrite Z.mul_comm. apply Z.mod_mul. lia. }
    rewrite <- Z.lxor_lor by exact H.
    rewrite <- Z.add_nocarry_lxor by exact H. reflexivity.
Qed.

(** The doubling loop of [mandelbrot_step] shifts the magnitude left by one
    bit. *)
Lemma double_limbs_spec s p n :
  get_nlimbs s p = Z.of_nat n ->
  (n <= length (limbs (deref s p)))%nat ->
  limbs_in_range s p n ->
  let s' := double_limbs p s in
  magnitude s' p n = (2 * magnitude s p n) mod 2 ^ (32 * Z.of_nat n) /\
  limbs_in_range s' p n /\
  hdr_same s s'.
Proof.
  intros Hn Hlen Hr. cbv zeta. unfold double_limbs. rewrite Hn, Nat2Z.id.
  set (body := fun (i : nat) '(s, carry) =>
                 let val := Z.lor (to_dlimb (Z.shiftl (limb s p i) 1)) carry in
                 (set_limb p i (to_limb val) s, Z.shiftr val 32)).
  pose (P := fun (i : nat) (xc : state * Z) =>
       (i <= n)%nat ->
       (forall j, (i <= j)%nat -> limb (fst xc) p j = limb s p j) /\
       length (limbs (deref (fst xc) p)) = length (limbs (deref s p)) /\
       magnitude (fst xc) p i + snd xc * 2 ^ (32 * Z.of_nat i)
         = 2 * magnitude s p i /\
       0 <= snd xc <= 1 /\
       limbs_in_range (fst xc) p i /\
       hdr_same s (fst xc)).
  assert (Inv : P n (for_loop n body (s, 0))).
  { apply (for_loop_ind P); unfold P.
    - intros _. cbn [fst snd magnitude].
      refine (conj _ (conj _ (conj _ (conj _ (conj _ _))))); auto; try lia.
      + intros i Hi. lia.
      + apply hdr_same_refl.
    - intros i [x c] Hi IH _. specialize (IH ltac:(lia)).
      destruct IH as (Hfr & Hl & Hsum & Hc & Hrg & Hhdr).
      cbn [fst snd] in *. unfold body.
      rewrite (Hfr i) by lia.
      pose proof (Hr i Hi) as Hli.
      set (l := limb s p i) in *.
      assert (Ev : Z.lor (to_dlimb (Z.shiftl l 1)) c = 2 * l + c).
      { rewrite Z.shiftl_mul_pow2 by lia. change (2 ^ 1) with 2.
        unfold to_dlimb. rewrite Z.mod_small by lia.
        rewrite (Z.mul_comm l 2). apply lor_double; lia. }
      cbv zeta. rewrite Ev. cbn [fst snd].
      rewrite Z.shiftr_div_pow2 by lia.
      assert (Hq : 0 <= (2 * l + c) / 2 ^ 32 <= 1).
      { split; [apply Z.div_pos; lia|].
        apply Z.lt_succ_r. apply Z.div_lt_upper_bound; lia. }
      assert (Hmod : 0 <= to_limb (2 * l + c) < 2 ^ 32)
        by (apply Z.mod_pos_bound; lia).
      assert (Hdm : 2 * l + c
                    = 2 ^ 32 * ((2 * l + c) / 2 ^ 32) + to_limb (2 * l + c))
        by (apply Z.div_mod; lia).
      assert (Hmag : magnitude (set_limb p i (to_limb (2 * l + c)) x) p i
                     = magnitude x p i).
      { apply magnitude_ext. intros j Hj. apply limb_set_limb_ne. right. lia. }
      refine (conj _ (conj _ (conj _ (conj _ (conj _ _))))).
      + intros j Hj. rewrite limb_set_limb_ne by (right; lia). apply Hfr. lia.
      + rewrite length_limbs_set_limb. exact Hl.
      + cbn [magnitude]. rewrite Hmag, limb_set_limb_eq by lia.
        fold l. rewrite pow2_32_succ.
        revert Hdm Hsum. generalize (to_limb (2 * l + c)).
        generalize ((2 * l + c) / 2 ^ 32). intros hi lo Hdm Hsum. nia.
      + exact Hq.
      + intros j Hj. destruct (decide (j = i)) as [->|Hne].
        * rewrite limb_set_limb_eq by lia. exact Hmod.
        * rewrite limb_set_limb_ne by (right; lia). apply Hrg. lia.
      + eapply hdr_same_trans; [exact Hhdr | apply hdr_same_set_limb]. }
  unfold P in Inv. clear P. specialize (Inv ltac:(lia)).
  destruct (for_loop n body (s, 0)) as [x c]. cbn [fst snd] in *.
  destruct Inv as (_ & _ & Hsum & Hc & Hrg & Hhdr).
  split; [|split; assumption].
  pose proof (magnitude_bounds x p n Hrg) as Hbd.
  apply Z.mod_unique_pos with (q := c); lia.
Qed.

Lemma frame1_deref r s s' p :
  frame_rel {[r]} s s' -> p <> r -> deref s' p = deref s p.
Proof.
  intros F H. apply (frame_rel_deref {[r]}); [exact F|].
  rewrite not_elem_of_singleton. exact H.
Qed.

Lemma abs_double_lt q b : Z.abs (2 * q) < b -> Z.abs q < b.
Proof. lia. Qed.

Lemma double_fits sg m b :
  sg = 0 \/ sg = 1 \/ sg = -1 -> (sg = 0 <-> m = 0) -> 0 <= m ->
  Z.abs (2 * (sg * m)) < b -> 0 <= 2 * m < b.
Proof. intros [->|[->| ->]] Hz Hm H; lia. Qed.

Lemma bf_valid_double s s' p n :
  bf_valid s p n ->
  hdr_same s s' -> limbs_in_range s' p n ->
  magnitude s' p n = 2 * magnitude s p n ->
  bf_valid s' p n /\ value s' p n = 2 * value s p n.
Proof.
  intros (Hn & Hr & Hs & Hz) Hh Hr' Hm.
  unfold bf_valid, value. rewrite (proj1 (Hh p)), (proj2 (Hh p)), Hm.
  refine (conj (conj Hn (conj Hr' (conj Hs _))) _); [|ring].
  split; intros H.
  - rewrite (proj1 Hz H). reflexivity.
  - apply Hz. lia.
Qed.

(** One step on well-formed operands, in terms of the values the two
    squarings leave in [tmp1] and [tmp2]. *)
Lemma mandelbrot_step_value u f s n :
  frame_live f s ->
  bf_valid s (f_zr f) n -> bf_valid s (f_zi f) n ->
  bf_valid s (f_cr f) n -> bf_valid s (f_ci f) n ->
  (forall p, In p (frame_ptrs f) -> (n <= length (limbs (deref s p)))%nat) ->
  (n <= length (limbs u))%nat ->
  (2 * n <= length (scratch s))%nat ->
  let s1 := bf_sqr (f_tmp1 f) (f_zr f) s in
  let s2 := bf_sqr (f_tmp2 f) (f_zi f) s1 in
  let s' := step_frame u f s in
  let im := 2 * ((value s (f_zr f) n * value s (f_zi f) n)
                 ÷ 2 ^ (32 * Z.of_nat n - 4)) in
  let re := value s1 (f_tmp1 f) n - value s2 (f_tmp2 f) n in
  (Z.abs im < 2 ^ (32 * Z.of_nat n) ->
   Z.abs (im + value s (f_ci f) n) < 2 ^ (32 * Z.of_nat n) ->
   bf_valid s' (f_zi f) n /\ value s' (f_zi f) n = im + value s (f_ci f) n) /\
  (Z.abs re < 2 ^ (32 * Z.of_nat n) ->
   Z.abs (re + value s (f_cr f) n) < 2 ^ (32 * Z.of_nat n) ->
   bf_valid s' (f_zr f) n /\ value s' (f_zr f) n = re + value s (f_cr f) n).
Proof.
  intros [Hnd Hall] Vzr Vzi Vcr Vci Hlens Hu Hscr. cbv zeta.
  destruct f as [cr ci zr zi tmp1 tmp2]. unfold frame_ptrs in *.
  unfold step_frame, mandelbrot_step.
  cbn [f_cr f_ci f_zr f_zi f_tmp1 f_tmp2] in *.
  apply NoDup6 in Hnd.
  destruct Hnd as (N1 & N2 & N3 & N4 & N5 & N6 & N7 & N8 & N9 & N10 & N11
                   & N12 & N13 & N14 & N15).
  repeat (apply Forall_cons in Hall as [? Hall]).
  assert (Lzr : (n <= length (limbs (deref s zr)))%nat)
    by (apply Hlens; cbn; tauto).
  assert (Lzi : (n <= length (limbs (deref s zi)))%nat)
    by (apply Hlens; cbn; tauto).
  assert (Lt1 : (n <= length (limbs (deref s tmp1)))%nat)
    by (apply Hlens; cbn; tauto).
  assert (Lt2 : (n <= length (limbs (deref s tmp2)))%nat)
    by (apply Hlens; cbn; tauto).
  clear Hlens.
  (* tmp1 = zr^2 *)
  pose proof (frame_rel_bf_sqr tmp1 zr s) as F1.
  pose proof (len_same_bf_sqr tmp1 zr s) as L1.
  pose proof (proj2 (proj2 (proj2 (proj2
                (bf_sqr_facts s tmp1 zr n (proj1 Vzr) Lt1)))) Vzr) as Q1.
  revert F1 L1 Q1. generalize (bf_sqr tmp1 zr s). intros s1 F1 L1 Q1.
  assert (D1 : forall p, p <> tmp1 -> deref s1 p = deref s p)
    by (intros p Hp; apply (frame1_deref tmp1); assumption).
  (* tmp2 = zi^2 *)
  destruct (bf_valid_deref s s1 zi n (D1 zi ltac:(congruence)) Vzi)
    as (Vzi1 & _).
  assert (Lt21 : (n <= length (limbs (deref s1 tmp2)))%nat)
    by (rewrite (D1 tmp2) by congruence; exact Lt2).
  pose proof (frame_rel_bf_sqr tmp2 zi s1) as F2.
  pose proof (len_same_bf_sqr tmp2 zi s1) as L2.
  pose proof (proj2 (proj2 (proj2 (proj2
                (bf_sqr_facts s1 tmp2 zi n (proj1 Vzi1) Lt21)))) Vzi1) as Q2.
  revert F2 L2 Q2. generalize (bf_sqr tmp2 zi s1). intros s2 F2 L2 Q2.
  assert (D2 : forall p, p <> tmp1 -> p <> tmp2 -> deref s2 p = deref s p).
  { intros p Hp1 Hp2. rewrite (frame1_deref tmp2 s1 s2 p F2 Hp2).
    apply D1, Hp1. }
  destruct (bf_valid_deref s1 s2 tmp1 n
              (frame1_deref tmp2 s1 s2 tmp1 F2 ltac:(congruence)) Q1)
    as (Q1' & E1).
  rewrite <- E1. clear E1 Q1 Vzi1 Lt21.
  assert (A2 : forall p, allocated s p -> allocated s2 p)
    by (intros p Hp; apply F2, F1, Hp).
  assert (Lt12 : (n <= length (limbs (deref s2 tmp1)))%nat)
    by (rewrite (proj1 L2), (proj1 L1); exact Lt1).
  assert (Hscr2 : (2 * n <= length (scratch s2))%nat)
    by (rewrite (proj2 L2), (proj2 L1); exact Hscr).
  clear F1 L1 F2 L2 D1.
  (* the local prod *)
  destruct (alloca u s2) as [q s3] eqn:E.
  destruct (alloca_spec u s2 q s3 E) as (Es3 & Aq & Hne).
  assert (Qcr : cr <> q) by (apply Hne, A2; assumption).
  assert (Qci : ci <> q) by (apply Hne, A2; assumption).
  assert (Qzr : zr <> q) by (apply Hne, A2; assumption).
  assert (Qzi : zi <> q) by (apply Hne, A2; assumption).
  assert (Qt1 : tmp1 <> q) by (apply Hne, A2; assumption).
  assert (Qt2 : tmp2 <> q) by (apply Hne, A2; assumption).
  assert (D3 : forall p, p <> q -> deref s3 p = deref s2 p).
  { intros p Hp. rewrite Es3, deref_store.
    destruct (decide (q = p)); congruence. }
  assert (Dq3 : deref s3 q = u).
  { rewrite Es3, deref_store. destruct (decide (q = q)); congruence. }
  assert (A3 : forall p, allocated s p -> allocated s3 p)
    by (intros p Hp; rewrite Es3; apply allocated_store, A2, Hp).
  assert (Hscr3 : (2 * n <= length (scratch s3))%nat)
    by (rewrite Es3; exact Hscr2).
  clear E Es3 Hne Hscr2.
  (* prod = zr * zi *)
  assert (Ezr3 : deref s3 zr = deref s zr)
    by (rewrite D3 by assumption; apply D2; congruence).
  assert (Ezi3 : deref s3 zi = deref s zi)
    by (rewrite D3 by assumption; apply D2; congruence).
  destruct (bf_valid_deref s s3 zr n Ezr3 Vzr) as (Vzr3 & Vr3).
  destruct (bf_valid_deref s s3 zi n Ezi3 Vzi) as (Vzi3 & Vi3).
  destruct (bf_mul_value s3 q zr zi n Vzr3 Vzi3 ltac:(congruence)
              ltac:(congruence) Hscr3 ltac:(rewrite Dq3; exact Hu))
    as (W4 & E4).
  pose proof (frame_rel_bf_mul q zr zi s3) as F4.
  pose proof (len_same_bf_mul q zr zi s3) as L4.
  assert (Eprod : Z.abs ((value s zr n * value s zi n)
                         ÷ 2 ^ (32 * Z.of_nat n - 4)) < 2 ^ (32 * Z.of_nat n) ->
                  value (bf_mul q zr zi s3) q n
                  = (value s zr n * value s zi n) ÷ 2 ^ (32 * Z.of_nat n - 4)).
  { intros Hov. rewrite E4, <- Vr3, <- Vi3.
    apply spec_product_exact; try assumption. rewrite Vr3, Vi3. exact Hov. }
  clear E4. revert W4 F4 L4 Eprod. generalize (bf_mul q zr zi s3).
  intros s4 W4 F4 L4 Eprod.
  (* prod doubled *)
  assert (Lq4 : (n <= length (limbs (deref s4 q)))%nat)
    by (rewrite (proj1 L4), Dq3; exact Hu).
  destruct (double_limbs_spec s4 q n (proj1 W4) Lq4 (proj1 (proj2 W4)))
    as (M5 & R5 & H5).
  pose proof (frame_rel_double_limbs q s4) as F5.
  cbv zeta in M5, R5, H5.
  revert M5 R5 H5 F5. generalize (double_limbs q s4). intros s5 M5 R5 H5 F5.
  assert (D5 : forall p, p <> q -> deref s5 p = deref s2 p).
  { intros p Hp. rewrite (frame1_deref q s4 s5 p F5 Hp).
    rewrite (frame1_deref q s3 s4 p F4 Hp). apply D3, Hp. }
  assert (A5 : forall p, allocated s p -> allocated s5 p)
    by (intros p Hp; apply F5, F4, A3, Hp).
  (* zi = prod + ci *)
  pose proof (frame_rel_bf_add zi q ci s5) as F6.
  assert (Im : Z.abs (2 * ((value s zr n * value s zi n)
                           ÷ 2 ^ (32 * Z.of_nat n - 4)))
                 < 2 ^ (32 * Z.of_nat n) ->
               Z.abs (2 * ((value s zr n * value s zi n)
                           ÷ 2 ^ (32 * Z.of_nat n - 4)) + value s ci n)
                 < 2 ^ (32 * Z.of_nat n) ->
               bf_valid (bf_add zi q ci s5) zi n /\
               value (bf_add zi q ci s5) zi n
               = 2 * ((value s zr n * value s zi n)
                      ÷ 2 ^ (32 * Z.of_nat n - 4)) + value s ci n).
  { intros Hov1 Hov2.
    specialize (Eprod (abs_double_lt _ _ Hov1)).
    pose proof (magnitude_bounds s4 q n (proj1 (proj2 W4))) as B4.
    assert (Hm : magnitude s5 q n = 2 * magnitude s4 q n).
    { rewrite M5. apply Z.mod_small.
      rewrite <- Eprod in Hov1. unfold value in Hov1.
      apply (double_fits (get_sign s4 q)); [apply W4 | apply W4 | | exact Hov1].
      apply B4. }
    destruct (bf_valid_double s4 s5 q n W4 H5 R5 Hm) as (W5 & E5).
    assert (Eci5 : deref s5 ci = deref s ci)
      by (rewrite D5 by assumption; apply D2; congruence).
    destruct (bf_valid_deref s s5 ci n Eci5 Vci) as (Vci5 & Ec5).
    assert (Lzi5 : (n <= length (limbs (deref s5 zi)))%nat).
    { rewrite D5 by assumption. rewrite D2 by congruence. exact Lzi. }
    rewrite <- Eprod, <- E5, <- Ec5.
    apply bf_add_value_exact; try assumption.
    rewrite E5, Ec5, Eprod. exact Hov2. }
  revert F6 Im. generalize (bf_add zi q ci s5). intros s6 F6 Im.
  assert (D6 : forall p, p <> q -> p <> zi -> deref s6 p = deref s2 p).
  { intros p Hp1 Hp2. rewrite (frame1_deref zi s5 s6 p F6 Hp2).
    apply D5, Hp1. }
  assert (A6 : forall p, allocated s p -> allocated s6 p)
    by (intros p Hp; apply F6, A5, Hp).
  clear M5 R5 H5 F5 D5 A5 W4 F4 L4 Eprod Lq4 D3 Dq3 A3.
  (* tmp1 = tmp1 - tmp2 *)
  pose proof (frame_rel_bf_sub u tmp1 tmp1 tmp2 s6) as F7.
  assert (Et16 : deref s6 tmp1 = deref s2 tmp1) by (apply D6; congruence).
  assert (Et26 : deref s6 tmp2 = deref s2 tmp2) by (apply D6; congruence).
  destruct (bf_valid_deref s2 s6 tmp1 n Et16 Q1') as (Q16 & V16).
  destruct (bf_valid_deref s2 s6 tmp2 n Et26 Q2) as (Q26 & V26).
  assert (Re1 : Z.abs (value s2 tmp1 n - value s2 tmp2 n)
                  < 2 ^ (32 * Z.of_nat n) ->
                bf_valid (bf_sub u tmp1 tmp1 tmp2 s6) tmp1 n /\
                value (bf_sub u tmp1 tmp1 tmp2 s6) tmp1 n
                = value s2 tmp1 n - value s2 tmp2 n).
  { intros Hov. rewrite <- V16, <- V26.
    apply bf_sub_value_exact; try assumption; try (apply A6; assumption).
    - rewrite Et16. exact Lt12.
    - rewrite V16, V26. exact Hov. }
  revert F7 Re1. generalize (bf_sub u tmp1 tmp1 tmp2 s6). intros s7 F7 Re1.
  (* zr = tmp1 + cr *)
  pose proof (frame_rel_bf_add zr tmp1 cr s7) as F8.
  assert (Ecr7 : deref s7 cr = deref s cr).
  { rewrite (frame1_deref tmp1 s6 s7 cr F7) by congruence.
    rewrite D6 by congruence. apply D2; congruence. }
  assert (Ezr7 : deref s7 zr = deref s zr).
  { rewrite (frame1_deref tmp1 s6 s7 zr F7) by congruence.
    rewrite D6 by congruence. apply D2; congruence. }
  assert (Re : Z.abs (value s2 tmp1 n - value s2 tmp2 n)
                 < 2 ^ (32 * Z.of_nat n) ->
               Z.abs (value s2 tmp1 n - value s2 tmp2 n + value s cr n)
                 < 2 ^ (32 * Z.of_nat n) ->
               bf_valid (bf_add zr tmp1 cr s7) zr n /\
               value (bf_add zr tmp1 cr s7) zr n
               = value s2 tmp1 n - value s2 tmp2 n + value s cr n).
  { intros Hov1 Hov2. destruct (Re1 Hov1) as (W7 & E7).
    destruct (bf_valid_deref s s7 cr n Ecr7 Vcr) as (Vcr7 & Ec7).
    rewrite <- E7, <- Ec7.
    apply bf_add_value_exact; try assumption.
    - rewrite Ezr7. exact Lzr.
    - rewrite E7, Ec7. exact Hov2. }
  revert F8 Re. generalize (bf_add zr tmp1 cr s7). intros s8 F8 Re.
  (* the local is released *)
  assert (Ezi9 : deref (release q s8) zi = deref s6 zi).
  { rewrite deref_release_ne by assumption.
    rewrite (frame1_deref zr s7 s8 zi F8) by congruence.
    apply (frame1_deref tmp1 s6 s7 zi F7). congruence. }
  assert (Ezr9 : deref (release q s8) zr = deref s8 zr)
    by (apply deref_release_ne; assumption).
  split.
  - intros Hov1 Hov2. destruct (Im Hov1 Hov2) as (W & Ev).
    destruct (bf_valid_deref s6 _ zi n Ezi9 W) as (W' & Ev').
    split; [exact W'|]. rewrite Ev'. exact Ev.
  - intros Hov1 Hov2. destruct (Re Hov1 Hov2) as (W & Ev).
    destruct (bf_valid_deref s8 _ zr n Ezr9 W) as (W' & Ev').
    split; [exact W'|]. rewrite Ev'. exact Ev.
Qed.

Lemma limbs_in_range_2 s p :
  0 <= limb s p 0 < 2 ^ 32 -> 0 <= limb s p 1 < 2 ^ 32 ->
  limbs_in_range s p 2.
Proof.
  intros H0 H1 i Hi.
  destruct i as [|[|i]]; [exact H0 | exact H1 | lia].
Qed.

Lemma frame_live_s4 : frame_live Demo.f0 Demo.s4.
Proof.
  split.
  - vm_compute. repeat (apply NoDup_cons; split;
      [rewrite ?elem_of_cons, elem_of_nil; intros H;
       repeat (destruct H as [H|H]; [discriminate|]); exact H|]).
    apply NoDup_nil. exact I.
  - repeat (apply Forall_cons; split; [vm_compute; eauto|]). apply Forall_nil.
    exact I.
Qed.

Lemma bf_valid_s4 :
  bf_valid Demo.s4 (f_zr Demo.f0) 2 /\ bf_valid Demo.s4 (f_zi Demo.f0) 2 /\
  bf_valid Demo.s4 (f_cr Demo.f0) 2 /\ bf_valid Demo.s4 (f_ci Demo.f0) 2.
Proof.
  assert (V : forall p, In p [f_zr Demo.f0; f_zi Demo.f0; f_cr Demo.f0;
                              f_ci Demo.f0] ->
                        bf_valid Demo.s4 p 2).
  { intros p Hp. vm_compute in Hp.
    repeat (destruct Hp as [<-|Hp];
            [refine (conj _ (conj _ (conj _ _)));
             [ vm_compute; reflexivity
             | apply limbs_in_range_2; vm_compute;
               (split; [discriminate | reflexivity])
             | vm_compute; auto
             | vm_compute; split; discriminate ] |]).
    destruct Hp. }
  refine (conj (V _ _) (conj (V _ _) (conj (V _ _) (V _ _)))).
  - left. reflexivity.
  - right. left. reflexivity.
  - right. right. left. reflexivity.
  - right. right. right. left. reflexivity.
Qed.

Lemma lengths_s4 :
  forall p, In p (frame_ptrs Demo.f0) ->
    (2 <= length (limbs (deref Demo.s4 p)))%nat.
Proof.
  intros p Hp. vm_compute in Hp.
  repeat (destruct Hp as [<-|Hp]; [vm_compute; lia|]). destruct Hp.
Qed.

(** X15.  The imaginary part of a step is exact: on well-formed operands in
    six distinct live structs, [mandelbrot_step] leaves in [zi] the value
    [2 * (zr * zi quot 2^(32 n - 4)) + ci] of the old [zr], [zi], provided the
    doubled product and the sum fit [n] limbs. *)
Theorem mandelbrot_step_imag (u : BigFloat) (f : frame) (s : state) (n : nat) :
  frame_live f s ->
  bf_valid s (f_zr f) n -> bf_valid s (f_zi f) n ->
  bf_valid s (f_cr f) n -> bf_valid s (f_ci f) n ->
  (forall p, In p (frame_ptrs f) -> (n <= length (limbs (deref s p)))%nat) ->
  (n <= length (limbs u))%nat ->
  (2 * n <= length (scratch s))%nat ->
  let s' := step_frame u f s in
  let im := 2 * ((value s (f_zr f) n * value s (f_zi f) n)
                 ÷ 2 ^ (32 * Z.of_nat n - 4)) in
  Z.abs im < 2 ^ (32 * Z.of_nat n) ->
  Z.abs (im + value s (f_ci f) n) < 2 ^ (32 * Z.of_nat n) ->
  bf_valid s' (f_zi f) n /\ value s' (f_zi f) n = im + value s (f_ci f) n.
Proof.
  intros Hf Vzr Vzi Vcr Vci Hlens Hu Hscr s' im.
  exact (proj1 (mandelbrot_step_value u f s n Hf Vzr Vzi Vcr Vci Hlens Hu Hscr)).
Qed.

Lemma mandelbrot_step_imag_witness :
  value (step_frame Demo.dirty Demo.f0 Demo.s4) (f_zi Demo.f0) 2
  = 2 * ((value Demo.s4 (f_zr Demo.f0) 2 * value Demo.s4 (f_zi Demo.f0) 2)
         ÷ 2 ^ (32 * Z.of_nat 2 - 4))
    + value Demo.s4 (f_ci Demo.f0) 2.
Proof.
  refine (proj2 (mandelbrot_step_imag Demo.dirty Demo.f0 Demo.s4 2
                   frame_live_s4 (proj1 bf_valid_s4)
                   (proj1 (proj2 bf_valid_s4))
                   (proj1 (proj2 (proj2 bf_valid_s4)))
                   (proj2 (proj2 (proj2 bf_valid_s4)))
                   lengths_s4 _ _ _ _)).
  - vm_compute. lia.
  - vm_compute. lia.
  - vm_compute. reflexivity.
  - vm_compute. reflexivity.
Defined.

(** X16.  The real part of a step is built from the squares of the old
    operands: although [zi] is overwritten first, [mandelbrot_step] leaves in
    [zr] the value [tmp1 - tmp2 + cr], where [tmp1] and [tmp2] hold what
    [bf_sqr] made of the old [zr] and the old [zi], provided the difference
    and the sum fit [n] limbs. *)
Theorem mandelbrot_step_real (u : BigFloat) (f : frame) (s : state) (n : nat) :
  frame_live f s ->
  bf_valid s (f_zr f) n -> bf_valid s (f_zi f) n ->
  bf_valid s (f_cr f) n -> bf_valid s (f_ci f) n ->
  (forall p, In p (frame_ptrs f) -> (n <= length (limbs (deref s p)))%nat) ->
  (n <= length (limbs u))%nat ->
  (2 * n <= length (scratch s))%nat ->
  let s1 := bf_sqr (f_tmp1 f) (f_zr f) s in
  let s2 := bf_sqr (f_tmp2 f) (f_zi f) s1 in
  let s' := step_frame u f s in
  let re := value s1 (f_tmp1 f) n - value s2 (f_tmp2 f) n in
  Z.abs re < 2 ^ (32 * Z.of_nat n) ->
  Z.abs (re + value s (f_cr f) n) < 2 ^ (32 * Z.of_nat n) ->
  bf_valid s' (f_zr f) n /\ value s' (f_zr f) n = re + value s (f_cr f) n.
Proof.
  intros Hf Vzr Vzi Vcr Vci Hlens Hu Hscr s1 s2 s' re.
  exact (proj2 (mandelbrot_step_value u f s n Hf Vzr Vzi Vcr Vci Hlens Hu Hscr)).
Qed.

Lemma mandelbrot_step_real_witness :
  value (step_frame Demo.dirty Demo.f0 Demo.s4) (f_zr Demo.f0) 2
  = value (bf_sqr (f_tmp1 Demo.f0) (f_zr Demo.f0) Demo.s4) (f_tmp1 Demo.f0) 2
    - value (bf_sqr (f_tmp2 Demo.f0) (f_zi Demo.f0)
               (bf_sqr (f_tmp1 Demo.f0) (f_zr Demo.f0) Demo.s4))
            (f_tmp2 Demo.f0) 2
    + value Demo.s4 (f_cr Demo.f0) 2.
Proof.
  refine (proj2 (mandelbrot_step_real Demo.dirty Demo.f0 Demo.s4 2
                   frame_live_s4 (proj1 bf_valid_s4)
                   (proj1 (proj2 bf_valid_s4))
                   (proj1 (proj2 (proj2 bf_valid_s4)))
                   (proj2 (proj2 (proj2 bf_valid_s4)))
                   lengths_s4 _ _ _ _)).
  - vm_compute. lia.
  - vm_compute. lia.
  - vm_compute. reflexivity.
  - vm_compute. reflexivity.
Defined.

(** ** The drivers give back their stack *)

Ltac set_tac := set_unfold; tauto.

Lemma frame_empty_heap s s' : frame_rel ∅ s s' -> heap s' = heap s.
Proof.
  intros [H _]. apply map_eq. intros p. apply H, not_elem_of_empty.
Qed.

Lemma release_comm a b s : release a (release b s) = release b (release a s).
Proof. unfold release. cbn [heap scratch]. f_equal. apply delete_delete. Qed.

(** Work within the six locals, between [enter_frame] and [leave_frame], is
    invisible to the caller's heap. *)
Lemma frame_scoped6 u s x :
  frame_rel (list_to_set (frame_ptrs (fst (enter_frame u s))))
            (snd (enter_frame u s)) x ->
  frame_rel ∅ s (leave_frame (fst (enter_frame u s)) x).
Proof.
  unfold enter_frame.
  destruct (alloca u s) as [p1 s1] eqn:E1.
  destruct (alloca u s1) as [p2 s2] eqn:E2.
  destruct (alloca u s2) as [p3 s3] eqn:E3.
  destruct (alloca u s3) as [p4 s4] eqn:E4.
  destruct (alloca u s4) as [p5 s5] eqn:E5.
  destruct (alloca u s5) as [p6 s6] eqn:E6.
  cbn [fst snd]. unfold leave_frame, frame_ptrs.
  cbn [f_cr f_ci f_zr f_zi f_tmp1 f_tmp2]. intros F.
  apply (frame_rel_scoped ∅ u s p1 s1 _ E1).
  apply (frame_rel_scoped _ u s1 p2 s2 _ E2).
  apply (frame_rel_scoped _ u s2 p3 s3 _ E3).
  apply (frame_rel_scoped _ u s3 p4 s4 _ E4).
  apply (frame_rel_scoped _ u s4 p5 s5 _ E5).
  apply (frame_rel_scoped _ u s5 p6 s6 _ E6).
  eapply frame_rel_weaken; [|exact F]. set_tac.
Qed.

Lemma frame_rel_step_frame u f s :
  frame_rel (list_to_set (frame_ptrs f)) s (step_frame u f s).
Proof.
  unfold step_frame. eapply frame_rel_weaken;
    [|apply frame_rel_mandelbrot_step]. unfold frame_ptrs. set_tac.
Qed.

Lemma frame_rel_mandelbrot_iterate_loop u f max_iter k i s :
  frame_rel (list_to_set (frame_ptrs f)) s
    (snd (mandelbrot_iterate_loop u f max_iter k i s)).
Proof.
  revert i s. induction k as [|k IH]; intros i s; cbn [mandelbrot_iterate_loop].
  - apply frame_rel_refl.
  - destruct (bf_escaped (f_zr f) (f_zi f) Dbl.four s);
      [apply frame_rel_refl|].
    eapply frame_rel_trans; [apply frame_rel_step_frame | apply IH].
Qed.

Lemma frame_rel_compute_reference_orbit_loop u f max_iter k i o s :
  frame_rel (list_to_set (frame_ptrs f)) s
    (snd (compute_reference_orbit_loop u f max_iter k i o s)).
Proof.
  revert i o s. induction k as [|k IH]; intros i o s;
    cbn [compute_reference_orbit_loop].
  - apply frame_rel_refl.
  - cbv zeta.
    destruct (Dbl.gtb _ Dbl.ten16); cbn [snd orbit_re_out orbit_im_out].
    + apply frame_rel_step_frame.
    + eapply frame_rel_trans; [apply frame_rel_step_frame | apply IH].
Qed.

Lemma heap_mandelbrot_iterate u cr_str ci_str max_iter n s :
  heap (snd (mandelbrot_iterate u cr_str ci_str max_iter n s)) = heap s.
Proof.
  apply frame_empty_heap.
  pose proof (frame_scoped6 u s) as Sc. unfold mandelbrot_iterate.
  destruct (enter_frame u s) as [f s1]. cbn [fst snd] in Sc.
  pose proof (frame_rel_trans _ _ _ _
                (frame_rel_orbit_prologue f cr_str ci_str n s1)
                (frame_rel_mandelbrot_iterate_loop u f max_iter
                   (Z.to_nat max_iter) 0
                   (orbit_prologue f cr_str ci_str n s1))) as F.
  destruct (mandelbrot_iterate_loop u f max_iter (Z.to_nat max_iter) 0
              (orbit_prologue f cr_str ci_str n s1)) as [ret s2].
  cbn [snd] in *. apply Sc, F.
Qed.

Lemma heap_compute_reference_orbit u cr_str ci_str max_iter n o s :
  heap (snd (compute_reference_orbit u cr_str ci_str max_iter n o s)) = heap s.
Proof.
  apply frame_empty_heap.
  pose proof (frame_scoped6 u s) as Sc. unfold compute_reference_orbit.
  destruct (enter_frame u s) as [f s1]. cbn [fst snd] in Sc. cbv zeta.
  match goal with
  | |- context [compute_reference_orbit_loop u f max_iter ?k 0 ?o0 ?x] =>
      pose proof (frame_rel_trans _ _ _ _
                    (frame_rel_orbit_prologue f cr_str ci_str n s1)
                    (frame_rel_compute_reference_orbit_loop u f max_iter
                       k 0 o0 x)) as F;
      destruct (compute_reference_orbit_loop u f max_iter k 0 o0 x)
        as [[ret o2] s2]
  end.
  cbn [snd] in *. apply Sc, F.
Qed.

Lemma release_leave_frame q f x :
  release q (leave_frame f x) = leave_frame f (release q x).
Proof.
  unfold leave_frame.
  rewrite (release_comm q (f_cr f)), (release_comm q (f_ci f)),
    (release_comm q (f_zr f)), (release_comm q (f_zi f)),
    (release_comm q (f_tmp1 f)), (release_comm q (f_tmp2 f)).
  reflexivity.
Qed.

Lemma frame_rel_compute_reference_orbit_extended_loop
    u f z2r z2i max_iter k i o s :
  frame_rel (list_to_set (frame_ptrs f) ∪ {[z2r]} ∪ {[z2i]}) s
    (snd (compute_reference_orbit_extended_loop u f z2r z2i max_iter k i o s)).
Proof.
  revert i o s. induction k as [|k IH]; intros i o s.
  - apply frame_rel_refl.
  - rewrite compute_reference_orbit_extended_loop_S. cbv zeta.
    assert (F : frame_rel (list_to_set (frame_ptrs f) ∪ {[z2r]} ∪ {[z2i]}) s
                  (ext_turn u f z2r z2i s)).
    { unfold ext_turn, ext_squares.
      eapply frame_rel_trans;
        [|eapply frame_rel_weaken; [|apply frame_rel_step_frame]; set_tac].
      eapply frame_rel_trans;
        (eapply frame_rel_weaken; [|apply frame_rel_bf_sqr]; set_tac). }
    destruct (Dbl.gtb _ Dbl.ten16); cbn [snd].
    + exact F.
    + eapply frame_rel_trans; [exact F | apply IH].
Qed.

Lemma heap_compute_reference_orbit_extended u cr_str ci_str max_iter n o s :
  heap (snd (compute_reference_orbit_extended u cr_str ci_str max_iter n o s))
  = heap s.
Proof.
  apply frame_empty_heap.
  pose proof (frame_scoped6 u s) as Sc.
  unfold compute_reference_orbit_extended.
  destruct (enter_frame u s) as [f s1]. cbn [fst snd] in Sc.
  destruct (alloca u s1) as [z2r s2] eqn:E1.
  destruct (alloca u s2) as [z2i s3] eqn:E2. cbv zeta.
  match goal with
  | |- context [compute_reference_orbit_extended_loop u f z2r z2i max_iter
                  ?k 0 ?o0 ?x] =>
      pose proof (frame_rel_compute_reference_orbit_extended_loop
                    u f z2r z2i max_iter k 0 o0 x) as F;
      destruct (compute_reference_orbit_extended_loop u f z2r z2i max_iter
                  k 0 o0 x) as [[ret o2] s4]
  end.
  cbn [snd] in *.
  rewrite !release_leave_frame, (release_comm z2i z2r).
  apply Sc.
  apply (frame_rel_scoped _ u s1 z2r s2 _ E1).
  apply (frame_rel_scoped _ u s2 z2i s3 _ E2).
  eapply frame_rel_trans; [|exact F].
  eapply frame_rel_trans;
    [|apply frame_rel_set_nlimbs; set_tac].
  eapply frame_rel_trans;
    [|apply frame_rel_set_nlimbs; set_tac].
  eapply frame_rel_weaken; [|apply frame_rel_orbit_prologue]. set_tac.
Qed.

(** X17.  The three drivers give back their stack: after
    [mandelbrot_iterate], [compute_reference_orbit] and
    [compute_reference_orbit_extended] the heap is exactly the caller's, no
    struct of the caller is changed and no local survives; what they leave
    behind is the shared scratch array. *)
Theorem drivers_restore_heap (u : BigFloat) (cr_str ci_str : string)
    (max_iter n : Z) (o : orbit_out) (ox : orbit_ext) (s : state) :
  heap (snd (mandelbrot_iterate u cr_str ci_str max_iter n s)) = heap s /\
  heap (snd (compute_reference_orbit u cr_str ci_str max_iter n o s)) = heap s /\
  heap (snd (compute_reference_orbit_extended u cr_str ci_str max_iter n ox s))
  = heap s.
Proof.
  refine (conj _ (conj _ _)).
  - apply heap_mandelbrot_iterate.
  - apply heap_compute_reference_orbit.
  - apply heap_compute_reference_orbit_extended.
Qed.

(** ** The orbit buffers beyond the last iteration *)

Lemma compute_reference_orbit_loop_beyond u f max_iter k i o s :
  let res := compute_reference_orbit_loop u f max_iter k i o s in
  let ret := fst (fst res) in
  let o' := snd (fst res) in
  length (orbit_re_out o') = length (orbit_re_out o) /\
  length (orbit_im_out o') = length (orbit_im_out o) /\
  exists m, (m <= k)%nat /\
    (ret = Z.of_nat (i + m) \/ (ret = max_iter /\ m = k)) /\
    forall j, (i + m < j)%nat ->
      orbit_re_out o' !! j = orbit_re_out o !! j /\
      orbit_im_out o' !! j = orbit_im_out o !! j.
Proof.
  revert i o s. induction k as [|k IH]; intros i o s;
    cbn [compute_reference_orbit_loop]; cbv zeta.
  - cbn [fst snd]. refine (conj eq_refl (conj eq_refl _)).
    exists 0%nat. split; [lia|]. split; [right; auto|]. auto.
  - destruct (Dbl.gtb _ Dbl.ten16).
    + cbn [fst snd orbit_re_out orbit_im_out].
      rewrite !length_insert. refine (conj eq_refl (conj eq_refl _)).
      exists 1%nat. split; [lia|]. split; [left; lia|].
      intros j Hj. rewrite !list_lookup_insert_ne by lia. auto.
    + match goal with
      | |- context [compute_reference_orbit_loop u f max_iter k (S i) ?o1 ?s1] =>
          specialize (IH (S i) o1 s1);
          destruct (compute_reference_orbit_loop u f max_iter k (S i) o1 s1)
            as [[ret o'] s']
      end.
      cbn [fst snd orbit_re_out orbit_im_out] in *.
      destruct IH as (L1 & L2 & m & Hm & Hret & Hj).
      rewrite !length_insert in L1, L2.
      refine (conj L1 (conj L2 _)).
      exists (S m). split; [lia|]. split.
      * destruct Hret as [->|[-> ->]]; [left; lia | right; auto].
      * intros j Hlt. destruct (Hj j ltac:(lia)) as [A B].
        rewrite !list_lookup_insert_ne in A, B by lia. auto.
Qed.

Lemma compute_reference_orbit_extended_loop_beyond
    u f z2r z2i max_iter k i o s :
  let res := compute_reference_orbit_extended_loop u f z2r z2i max_iter k i o s in
  let ret := fst (fst res) in
  let o' := snd (fst res) in
  (length (x_re o') = length (x_re o) /\ length (x_im o') = length (x_im o) /\
   length (x_z2_re o') = length (x_z2_re o) /\
   length (x_z2_im o') = length (x_z2_im o)) /\
  exists m, (m <= k)%nat /\
    (ret = Z.of_nat (i + m) \/ (ret = max_iter /\ m = k)) /\
    forall j, (i + m < j)%nat ->
      x_re o' !! j = x_re o !! j /\ x_im o' !! j = x_im o !! j /\
      x_z2_re o' !! j = x_z2_re o !! j /\ x_z2_im o' !! j = x_z2_im o !! j.
Proof.
  revert i o s. induction k as [|k IH]; intros i o s.
  - cbn [compute_reference_orbit_extended_loop fst snd].
    split; [auto|]. exists 0%nat. split; [lia|]. split; [right; auto|]. auto.
  - rewrite compute_reference_orbit_extended_loop_S. cbv zeta.
    destruct (Dbl.gtb _ Dbl.ten16).
    + cbn [fst snd x_re x_im x_z2_re x_z2_im].
      rewrite !length_insert. split; [auto|].
      exists 1%nat. split; [lia|]. split; [left; lia|].
      intros j Hj. rewrite !list_lookup_insert_ne by lia. auto.
    + match goal with
      | |- context [compute_reference_orbit_extended_loop u f z2r z2i max_iter
                      k (S i) ?o1 ?s1] =>
          specialize (IH (S i) o1 s1);
          destruct (compute_reference_orbit_extended_loop u f z2r z2i max_iter
                      k (S i) o1 s1) as [[ret o'] s']
      end.
      cbn [fst snd x_re x_im x_z2_re x_z2_im] in *.
      destruct IH as ((L1 & L2 & L3 & L4) & m & Hm & Hret & Hj).
      rewrite !length_insert in L1, L2, L3, L4.
      split; [auto|].
      exists (S m). split; [lia|]. split.
      * destruct Hret as [->|[-> ->]]; [left; lia | right; auto].
      * intros j Hlt. destruct (Hj j ltac:(lia)) as (A & B & C & D).
        rewrite !list_lookup_insert_ne in A, B, C, D by lia. auto.
Qed.

(** X18.  The reference-orbit drivers write no entry beyond the last
    iteration they ran: in [compute_reference_orbit] and in
    [compute_reference_orbit_extended] every entry of every output array at
    an index from 1 on that is above the value returned keeps the caller's
    content. *)
Theorem orbit_entries_beyond_return (u : BigFloat) (cr_str ci_str : string)
    (max_iter n : Z) (o : orbit_out) (ox : orbit_ext) (s : state) :
  (let res := compute_reference_orbit u cr_str ci_str max_iter n o s in
   forall j : nat, (0 < j)%nat -> fst (fst res) < Z.of_nat j ->
     orbit_re_out (snd (fst res)) !! j = orbit_re_out o !! j /\
     orbit_im_out (snd (fst res)) !! j = orbit_im_out o !! j) /\
  (let res := compute_reference_orbit_extended u cr_str ci_str max_iter n ox s in
   forall j : nat, (0 < j)%nat -> fst (fst res) < Z.of_nat j ->
     x_re (snd (fst res)) !! j = x_re ox !! j /\
     x_im (snd (fst res)) !! j = x_im ox !! j /\
     x_z2_re (snd (fst res)) !! j = x_z2_re ox !! j /\
     x_z2_im (snd (fst res)) !! j = x_z2_im ox !! j).
Proof.
  split; cbv zeta; intros j Hj Hret.
  - rewrite compute_reference_orbit_unfold in *.
    match goal with
    | |- context [compute_reference_orbit_loop u ?f max_iter ?k 0 ?o0 ?x] =>
        destruct (compute_reference_orbit_loop_beyond u f max_iter k 0 o0 x)
          as (_ & _ & m & Hm & Hr & Hb);
        revert Hret Hr Hb;
        generalize (compute_reference_orbit_loop u f max_iter k 0 o0 x)
    end.
    intros res Hret Hr Hb. cbn [orbit_re_out orbit_im_out] in Hb.
    assert (Hjm : (0 + m < j)%nat) by (destruct Hr as [Hr|[Hr ->]]; lia).
    destruct (Hb j Hjm) as [A B].
    rewrite !list_lookup_insert_ne in A, B by lia. auto.
  - pose proof (compute_reference_orbit_extended_unfold
                  u cr_str ci_str max_iter n ox s) as U.
    cbv zeta in U. rewrite U in *. clear U.
    match goal with
    | |- context [compute_reference_orbit_extended_loop u ?f ?a ?b max_iter
                    ?k 0 ?o0 ?x] =>
        destruct (compute_reference_orbit_extended_loop_beyond
                    u f a b max_iter k 0 o0 x) as (_ & m & Hm & Hr & Hb);
        revert Hret Hr Hb;
        generalize (compute_reference_orbit_extended_loop u f a b max_iter
                      k 0 o0 x)
    end.
    intros res Hret Hr Hb. cbn [x_re x_im x_z2_re x_z2_im] in Hb.
    assert (Hjm : (0 + m < j)%nat) by (destruct Hr as [Hr|[Hr ->]]; lia).
    destruct (Hb j Hjm) as (A & B & C & D).
    rewrite !list_lookup_insert_ne in A, B, C, D by lia. auto.
Qed.

(** ** The escape test *)

Lemma SFltb_trans x y z :
  SFltb x y = true -> SFltb y z = true -> SFltb x z = true.
Proof.
  unfold SFltb, SFcompare.
  destruct x as [sx|sx| |sx mx ex], y as [sy|sy| |sy my ey],
           z as [sz|sz| |sz mz ez];
    try discriminate;
    repeat match goal with b : bool |- _ => destruct b end;
    try discriminate; try reflexivity; intros H1 H2.
  all: try (destruct (Z.compare_spec ex ey); try discriminate;
            destruct (Z.compare_spec ey ez); try discriminate;
            destruct (Z.compare_spec ex ez); try reflexivity; try lia).
  all: subst.
  all: rewrite ?Pos.compare_cont_spec in *; cbn [Pos.switch_Eq] in *.
  all: try (destruct (Pos.compare_spec mx my); try discriminate;
            destruct (Pos.compare_spec my mz); try discriminate;
            destruct (Pos.compare_spec mx mz); try reflexivity; try lia).
Qed.

(** X19.  The escape test is monotone in its threshold: a point that has
    escaped for the threshold [t] has escaped for every threshold below [t]. *)
Theorem bf_escaped_monotone (re im : ptr) (t t' : double) (s : state) :
  Dbl.ltb t' t = true ->
  bf_escaped re im t s = true -> bf_escaped re im t' s = true.
Proof.
  unfold bf_escaped, Dbl.gtb, Dbl.ltb. intros Ht.
  destruct (get_nlimbs s re =? 0); [discriminate|].
  apply SFltb_trans, Ht.
Qed.

Lemma bf_escaped_monotone_witness :
  bf_escaped Demo.a Demo.b Dbl.two Demo.s2 = true.
Proof.
  apply (bf_escaped_monotone Demo.a Demo.b Dbl.four Dbl.two Demo.s2).
  - vm_compute. reflexivity.
  - vm_compute. reflexivity.
Defined.

(** ** Decimal text *)

Lemma get_sign_bf_set_d_range r d n s :
  get_sign (bf_set_d r d n s) r = 0 \/ get_sign (bf_set_d r d n s) r = 1 \/
  get_sign (bf_set_d r d n s) r = -1.
Proof.
  unfold bf_set_d. cbv zeta.
  destruct (Dbl.eqb d Dbl.zero); [left; apply get_sign_bf_zero|].
  right.
  match goal with
  | |- context [bf_set_d_loop r n ?k ?d' ?x] =>
      assert (H : get_sign (bf_set_d_loop r n k d' x) r = get_sign x r);
      [ generalize x; generalize d'; generalize k | rewrite H ]
  end.
  - intros k. induction k as [|k IH]; intros d' x; cbn [bf_set_d_loop];
      [reflexivity|].
    destruct (Dbl.gtb d' Dbl.zero); [|reflexivity]. cbv zeta.
    rewrite IH. destruct (Z.of_nat k =? n - 1);
      apply (proj2 (hdr_same_set_limb _ _ _ _ r)).
  - assert (H1 : forall x : state,
               get_sign (if n - 1 <? 0 then x
                         else set_limb r (Z.to_nat (n - 1))
                                (to_limb (Z.shiftl
                                   (to_limb (Dbl.trunc
                                      (if Dbl.ltb d Dbl.zero
                                       then Dbl.neg d else d))) 28)) x) r
               = get_sign x r).
    { intros x. destruct (n - 1 <? 0); [reflexivity|].
      apply (proj2 (hdr_same_set_limb _ _ _ _ r)). }
    rewrite H1, get_sign_set_sign. destruct (decide (r = r)); [|congruence].
    destruct (Dbl.ltb d Dbl.zero); auto.
Qed.

Lemma bf_set_d_zero r n s : bf_set_d r Dbl.zero n s = bf_zero r n s.
Proof. reflexivity. Qed.

Lemma parse_int_no_digit acc p :
  match p with
  | EmptyString => True
  | String c _ => is_digit c = false
  end ->
  parse_int acc p = (acc, p).
Proof. destruct p as [|c p]; [reflexivity|]. cbn. intros ->. reflexivity. Qed.

(** X20.  Text without a number parses to zero, with no error: when, after
    the leading spaces and an optional sign, the text is empty or continues
    with a character that is neither a digit nor a dot, [bf_from_str] leaves
    a zero in normal form ([n] zero limbs, sign 0) that reads back as 0.0. *)
Theorem bf_from_str_no_number (r : ptr) (str : string) (n : Z) (s : state) :
  match snd (parse_sign (skip_spaces str)) with
  | EmptyString => True
  | String c _ => is_digit c = false /\ c <> "."%char
  end ->
  let s' := bf_from_str r str n s in
  get_sign s' r = 0 /\ get_nlimbs s' r = n /\ bf_is_zero r s' = true /\
  bf_to_d r s' = Dbl.zero.
Proof.
  intros H. cbv zeta.
  assert (E : snd (parse_decimal str) = Dbl.zero).
  { unfold parse_decimal.
    destruct (parse_sign (skip_spaces str)) as [neg p]. cbn [snd] in H.
    rewrite parse_int_no_digit by (destruct p; tauto).
    cbn [snd]. destruct p as [|c p]; [reflexivity|]. destruct H as [_ Hc].
    unfold parse_frac. destruct (Ascii.eqb_spec c "."); [contradiction|].
    reflexivity. }
  unfold bf_from_str. cbv zeta.
  destruct (parse_decimal str) as [neg d]. cbn [snd] in E. subst d.
  rewrite bf_set_d_zero.
  assert (Z0 : get_sign (bf_zero r n (bf_zero r n s)) r = 0)
    by apply get_sign_bf_zero.
  assert (K : (if neg
               then set_sign r (neg_int8 (get_sign (bf_zero r n (bf_zero r n s)) r))
                      (bf_zero r n (bf_zero r n s))
               else bf_zero r n (bf_zero r n s))
              = (if neg then set_sign r 0 (bf_zero r n (bf_zero r n s))
                 else bf_zero r n (bf_zero r n s)))
    by (rewrite Z0; reflexivity).
  rewrite K. clear K.
  pose proof (get_nlimbs_bf_zero r n (bf_zero r n s)) as N0.
  pose proof (bf_is_zero_bf_zero r n (bf_zero r n s)) as I0.
  revert Z0 N0 I0. generalize (bf_zero r n (bf_zero r n s)). intros x Z0 N0 I0.
  assert (S' : get_sign (if neg then set_sign r 0 x else x) r = 0).
  { destruct neg; [|exact Z0]. rewrite get_sign_set_sign.
    destruct (decide (r = r)); congruence. }
  refine (conj S' (conj _ (conj _ _))).
  - destruct neg; [|exact N0]. rewrite get_nlimbs_set_sign. exact N0.
  - destruct neg; [|exact I0].
    apply bf_is_zero_true. intros i Hi. rewrite limb_set_sign.
    rewrite get_nlimbs_set_sign in Hi.
    apply (proj1 (bf_is_zero_true r x) I0), Hi.
  - unfold bf_to_d. rewrite S'. reflexivity.
Qed.

Lemma bf_from_str_no_number_witness :
  get_sign (bf_from_str Demo.r "  -abc" 2 Demo.s0) Demo.r = 0 /\
  get_sign (bf_from_str Demo.r "" 2 Demo.s0) Demo.r = 0.
Proof.
  split.
  - refine (proj1 (bf_from_str_no_number Demo.r "  -abc" 2 Demo.s0 _)).
    vm_compute. split; [reflexivity | discriminate].
  - refine (proj1 (bf_from_str_no_number Demo.r "" 2 Demo.s0 _)).
    vm_compute. exact I.
Defined.

(** X21.  The prefix of a number: leading spaces are skipped, a plus sign
    changes nothing, and a minus sign negates the sign and nothing else,
    relative to the text that follows (which starts with neither a space nor
    a sign). *)
Theorem bf_from_str_prefix (r : ptr) (p : string) (n : Z) (s : state) :
  skip_spaces p = p -> parse_sign p = (false, p) ->
  bf_from_str r (String " " p) n s = bf_from_str r p n s /\
  bf_from_str r (String "+" p) n s = bf_from_str r p n s /\
  bf_from_str r (String "-" p) n s
  = set_sign r (- get_sign (bf_from_str r p n s) r) (bf_from_str r p n s).
Proof.
  intros Hsp Hsg.
  assert (E0 : parse_decimal p
               = (false, Dbl.add (fst (parse_int Dbl.zero p))
                                 (parse_frac (snd (parse_int Dbl.zero p))))).
  { unfold parse_decimal. rewrite Hsp, Hsg.
    destruct (parse_int Dbl.zero p). reflexivity. }
  assert (E1 : parse_decimal (String " " p) = parse_decimal p) by reflexivity.
  assert (E2 : parse_decimal (String "+" p) = parse_decimal p).
  { rewrite E0. unfold parse_decimal. cbn.
    destruct (parse_int Dbl.zero p). reflexivity. }
  assert (E3 : parse_decimal (String "-" p) = (true, snd (parse_decimal p))).
  { rewrite E0. unfold parse_decimal. cbn.
    destruct (parse_int Dbl.zero p). reflexivity. }
  unfold bf_from_str. cbv zeta. rewrite E1, E2, E3, E0. cbn [snd].
  refine (conj eq_refl (conj eq_refl _)).
  f_equal. apply neg_int8_sign. apply get_sign_bf_set_d_range.
Qed.

Lemma bf_from_str_prefix_witness :
  bf_from_str Demo.r "-1.5" 2 Demo.s0
  = set_sign Demo.r (- get_sign (bf_from_str Demo.r "1.5" 2 Demo.s0) Demo.r)
      (bf_from_str Demo.r "1.5" 2 Demo.s0).
Proof.
  refine (proj2 (proj2 (bf_from_str_prefix Demo.r "1.5" 2 Demo.s0 _ _))).
  - reflexivity.
  - reflexivity.
Defined.

(** ** Small integers through [bf_set_d] and [bf_to_d] *)

Lemma for_down_S {A} (n : nat) (body : nat -> A -> A) (init : A) :
  for_down (S n) body init = for_down n body (body n init).
Proof.
  unfold for_down. rewrite seq_S, rev_app_distr. reflexivity.
Qed.

Lemma small_int_cases k :
  1 <= k <= 15 ->
  k = 1 \/ k = 2 \/ k = 3 \/ k = 4 \/ k = 5 \/ k = 6 \/ k = 7 \/ k = 8 \/
  k = 9 \/ k = 10 \/ k = 11 \/ k = 12 \/ k = 13 \/ k = 14 \/ k = 15.
Proof. lia. Qed.

Lemma small_int_double k :
  1 <= k <= 15 ->
  Dbl.eqb (Dbl.of_Z k) Dbl.zero = false /\
  Dbl.ltb (Dbl.of_Z k) Dbl.zero = false /\
  Dbl.trunc (Dbl.of_Z k) = k /\
  Dbl.sub (Dbl.of_Z k) (Dbl.of_Z k) = Dbl.zero /\
  to_limb (Z.shiftl (to_limb k) 28) = k * 2 ^ 28 /\
  Z.shiftr (k * 2 ^ 28) 28 = k /\
  Z.land (k * 2 ^ 28) 268435455 = 0 /\
  Dbl.add (Dbl.of_Z k) (Dbl.div (Dbl.of_Z 0) Dbl.two28) = Dbl.of_Z k /\
  Dbl.add (Dbl.of_Z k) Dbl.zero = Dbl.of_Z k /\
  Dbl.eqb (Dbl.of_Z (- k)) Dbl.zero = false /\
  Dbl.ltb (Dbl.of_Z (- k)) Dbl.zero = true /\
  Dbl.neg (Dbl.of_Z (- k)) = Dbl.of_Z k /\
  Dbl.neg (Dbl.of_Z k) = Dbl.of_Z (- k).
Proof.
  intros H. apply small_int_cases in H.
  repeat (destruct H as [->|H]; [vm_compute; repeat split; reflexivity|]).
  subst k. vm_compute. repeat split; reflexivity.
Qed.

(** The weights [2^-32], [2^-64], ... that [bf_to_d] gives the lower limbs;
    they underflow to zero after 34 limbs, and a zero limb contributes
    nothing at any weight. *)
Lemma scale_underflow j :
  (34 <= j)%nat ->
  Nat.iter j (fun x => Dbl.div x Dbl.two32) Dbl.one = Dbl.zero.
Proof.
  intros H. replace j with ((j - 34) + 34)%nat by lia.
  generalize (j - 34)%nat. intros d. induction d as [|d IH].
  - vm_compute. reflexivity.
  - change (S d + 34)%nat with (S (d + 34)).
    rewrite Nat.iter_succ, IH. vm_compute. reflexivity.
Qed.

Lemma scale_mul_zero j :
  Dbl.mul (Dbl.of_Z 0) (Nat.iter j (fun x => Dbl.div x Dbl.two32) Dbl.one)
  = Dbl.zero.
Proof.
  destruct (le_lt_dec 34 j) as [Hge|Hlt].
  - rewrite scale_underflow by exact Hge. vm_compute. reflexivity.
  - do 34 (destruct j as [|j]; [vm_compute; reflexivity|]). lia.
Qed.

(** The state [bf_set_d] leaves for a nonzero integer below 16 in absolute
    value. *)
Lemma bf_set_d_small_int r k n s :
  1 <= k <= 15 -> 1 <= n ->
  bf_set_d r (Dbl.of_Z k) n s
  = set_limb r (Z.to_nat (n - 1)) (k * 2 ^ 28) (set_sign r 1 (bf_zero r n s)) /\
  bf_set_d r (Dbl.of_Z (- k)) n s
  = set_limb r (Z.to_nat (n - 1)) (k * 2 ^ 28)
      (set_sign r (-1) (bf_zero r n s)).
Proof.
  intros Hk Hn.
  destruct (small_int_double k Hk)
    as (F1 & F2 & F3 & F4 & F5 & _ & _ & _ & _ & F6 & F7 & F8 & _).
  assert (Hn1 : (n - 1 <? 0) = false) by (apply Z.ltb_ge; lia).
  assert (Hloop : forall x, bf_set_d_loop r n (Z.to_nat n) Dbl.zero x = x)
    by (intros x; destruct (Z.to_nat n); reflexivity).
  unfold bf_set_d. cbv zeta.
  rewrite F1, F2, F6, F7, F8, F3, F4, F5, Hn1, !Hloop. split; reflexivity.
Qed.

Lemma bf_to_d_small_int r k sg n x :
  1 <= k <= 15 -> 1 <= n -> sg = 1 \/ sg = -1 ->
  get_sign x r = sg -> get_nlimbs x r = n ->
  limb x r (Z.to_nat (n - 1)) = k * 2 ^ 28 ->
  (forall i, (i < Z.to_nat (n - 1))%nat -> limb x r i = 0) ->
  bf_to_d r x = Dbl.of_Z (sg * k).
Proof.
  intros Hk Hn Hsg Es En Etop Elow.
  destruct (small_int_double k Hk)
    as (_ & _ & _ & _ & _ & G1 & G2 & G3 & G4 & _ & _ & _ & G5).
  unfold bf_to_d. rewrite Es, En.
  assert (Hs0 : (sg =? 0) = false) by (apply Z.eqb_neq; lia).
  rewrite Hs0.
  set (body := fun (i : nat) '(result, scale) =>
         if Z.of_nat i =? n - 1
         then (Dbl.add (Dbl.of_Z (Z.shiftr (limb x r i) 28))
                 (Dbl.div (Dbl.of_Z (Z.land (limb x r i) 268435455))
                    Dbl.two28), scale)
         else (Dbl.add result
                 (Dbl.mul (Dbl.of_Z (limb x r i)) (Dbl.div scale Dbl.two32)),
               Dbl.div scale Dbl.two32)).
  assert (Hlow : forall m j, (m <= Z.to_nat (n - 1))%nat ->
            for_down m body
              (Dbl.of_Z k, Nat.iter j (fun y => Dbl.div y Dbl.two32) Dbl.one)
            = (Dbl.of_Z k,
               Nat.iter (m + j) (fun y => Dbl.div y Dbl.two32) Dbl.one)).
  { induction m as [|m IH]; intros j Hm; [reflexivity|].
    rewrite for_down_S. unfold body at 2.
    assert (Hne : (Z.of_nat m =? n - 1) = false) by (apply Z.eqb_neq; lia).
    rewrite Hne, Elow by lia.
    change (Dbl.div (Nat.iter j (fun y => Dbl.div y Dbl.two32) Dbl.one)
              Dbl.two32)
      with (Nat.iter (S j) (fun y => Dbl.div y Dbl.two32) Dbl.one).
    rewrite scale_mul_zero, G4. rewrite IH by lia.
    f_equal. f_equal. lia. }
  replace (Z.to_nat n) with (S (Z.to_nat (n - 1))) by lia.
  rewrite for_down_S. unfold body at 2.
  assert (Heq : (Z.of_nat (Z.to_nat (n - 1)) =? n - 1) = true)
    by (apply Z.eqb_eq; lia).
  rewrite Heq, Etop, G1, G2, G3.
  pose proof (Hlow (Z.to_nat (n - 1)) 0%nat (Nat.le_refl _)) as H0.
  change (Nat.iter 0 (fun y => Dbl.div y Dbl.two32) Dbl.one) with Dbl.one in H0.
  rewrite H0.
  destruct Hsg as [-> | ->].
  - change (1 <? 0) with false. cbv iota.
    replace (1 * k) with k by lia. reflexivity.
  - change (-1 <? 0) with true. cbv iota.
    replace (-1 * k) with (- k) by lia. exact G5.
Qed.

(** X22.  Integers from -15 to 15 survive the round trip through the
    fixed-point format at every precision: [bf_to_d] after [bf_set_d] returns
    the very double that went in, whatever the storage held before. *)
Theorem bf_set_d_to_d_small_int (r : ptr) (k n : Z) (s : state) :
  -15 <= k <= 15 -> 1 <= n ->
  (Z.to_nat n <= length (limbs (deref s r)))%nat ->
  bf_to_d r (bf_set_d r (Dbl.of_Z k) n s) = Dbl.of_Z k.
Proof.
  intros Hk Hn Hlen.
  destruct (Z.eq_dec k 0) as [->|Hk0].
  { change (Dbl.of_Z 0) with Dbl.zero. rewrite bf_set_d_zero.
    unfold bf_to_d. rewrite get_sign_bf_zero. reflexivity. }
  assert (Hcase : exists sg a, (sg = 1 \/ sg = -1) /\ 1 <= a <= 15 /\
            k = sg * a /\
            bf_set_d r (Dbl.of_Z k) n s
            = set_limb r (Z.to_nat (n - 1)) (a * 2 ^ 28)
                (set_sign r sg (bf_zero r n s))).
  { destruct (Z.lt_ge_cases 0 k) as [Hpos|Hneg].
    - exists 1, k. repeat split; try lia.
      apply (bf_set_d_small_int r k n s); lia.
    - exists (-1), (- k). repeat split; try lia.
      replace k with (- - k) at 1 by lia.
      apply (bf_set_d_small_int r (- k) n s); lia. }
  destruct Hcase as (sg & a & Hsg & Ha & -> & ->).
  pose proof (bf_zero_facts r (Z.to_nat n) s) as Hz.
  rewrite Z2Nat.id in Hz by lia. destruct Hz as (Z1 & Z2 & Z3).
  assert (Lz : length (limbs (deref (bf_zero r n s) r))
               = length (limbs (deref s r))).
  { unfold bf_zero. cbv zeta.
    pose proof (len_same_set_sign r 0
                  (set_nlimbs r n (memset_limbs r (Z.to_nat n) s))) as [A _].
    pose proof (len_same_set_nlimbs r n (memset_limbs r (Z.to_nat n) s))
      as [B _].
    rewrite A, B. unfold memset_limbs.
    apply (len_for_loop (Z.to_nat n) (fun i x => set_limb r i 0 x) s).
    intros. apply len_same_set_limb. }
  revert Z1 Z2 Z3 Lz. generalize (bf_zero r n s). intros x Z1 Z2 Z3 Lz.
  apply (bf_to_d_small_int r a sg n); auto.
  - rewrite (proj2 (hdr_same_set_limb _ _ _ _ r)), get_sign_set_sign.
    destruct (decide (r = r)); congruence.
  - rewrite (proj1 (hdr_same_set_limb _ _ _ _ r)), get_nlimbs_set_sign.
    exact Z1.
  - apply limb_set_limb_eq.
    unfold set_sign. rewrite deref_store.
    destruct (decide (r = r)); [|congruence]. cbn [limbs]. lia.
  - intros i Hi. rewrite limb_set_limb_ne by (right; lia).
    rewrite limb_set_sign. apply Z3. lia.
Qed.

Lemma bf_set_d_to_d_small_int_witness :
  bf_to_d Demo.r (bf_set_d Demo.r (Dbl.of_Z (-7)) 3 Demo.s0) = Dbl.of_Z (-7).
Proof.
  apply (bf_set_d_to_d_small_int Demo.r (-7) 3 Demo.s0).
  - lia.
  - lia.
  - vm_compute. lia.
Defined.

(** ** Limb counts along the iteration *)

Lemma get_nlimbs_bf_sqr r a s : get_nlimbs (bf_sqr r a s) r = get_nlimbs s a.
Proof.
  unfold bf_sqr. cbv zeta.
  rewrite get_nlimbs_normalize_zero, get_nlimbs_set_sign, get_nlimbs_set_nlimbs.
  destruct (decide (r = r)); congruence.
Qed.

Lemma get_nlimbs_bf_mul r a b s :
  get_nlimbs (bf_mul r a b s) r = get_nlimbs s a.
Proof.
  rewrite bf_mul_dispatch. unfold bf_mul_schoolbook. cbv zeta.
  rewrite get_nlimbs_normalize_zero.
  match goal with |- get_nlimbs (if ?c then _ else _) _ = _ => destruct c end;
    rewrite ?get_nlimbs_set_sign, get_nlimbs_set_nlimbs;
    destruct (decide (r = r)); congruence.
Qed.

Lemma get_nlimbs_bf_copy r a s :
  get_nlimbs (bf_copy r a s) r = get_nlimbs s a.
Proof.
  unfold bf_copy. cbv zeta.
  rewrite get_nlimbs_set_sign, get_nlimbs_set_nlimbs.
  destruct (decide (r = r)); [|congruence].
  apply (proj1 (hdr_same_memcpy_limbs r a _ s a)).
Qed.

Lemma hdr_same_bf_add_mag r a b s : hdr_same s (bf_add_mag r a b s).
Proof.
  unfold bf_add_mag. apply hdr_for_loop_fst. intros i x c.
  apply hdr_same_set_limb.
Qed.

Lemma hdr_same_bf_sub_mag r a b s : hdr_same s (bf_sub_mag r a b s).
Proof.
  unfold bf_sub_mag. apply hdr_for_loop_fst. intros i x c. cbv zeta.
  destruct (limb x a i - limb x b i - c <? 0); apply hdr_same_set_limb.
Qed.

Lemma get_nlimbs_bf_add r a b s N :
  get_nlimbs s a = N -> get_nlimbs s b = N ->
  get_nlimbs (bf_add r a b s) r = N.
Proof.
  intros Ha Hb. unfold bf_add. cbv zeta. rewrite Ha.
  assert (H1 : forall p, p = r \/ p = a \/ p = b ->
                         get_nlimbs (set_nlimbs r N s) p = N).
  { intros p Hp. rewrite get_nlimbs_set_nlimbs.
    destruct (decide (r = p)); [reflexivity|].
    destruct Hp as [->|[->| ->]]; congruence. }
  revert H1. generalize (set_nlimbs r N s). intros s1 H1.
  destruct (get_sign s1 a =? 0).
  { rewrite get_nlimbs_bf_copy. apply H1. auto. }
  destruct (get_sign s1 b =? 0).
  { rewrite get_nlimbs_bf_copy. apply H1. auto. }
  rewrite get_nlimbs_normalize_zero.
  destruct (get_sign s1 a =? get_sign s1 b).
  { rewrite get_nlimbs_set_sign, (proj1 (hdr_same_bf_add_mag r a b s1 r)).
    apply H1. auto. }
  destruct (bf_cmp_mag a b s1 =? 0).
  { rewrite get_nlimbs_bf_zero. apply H1. auto. }
  destruct (bf_cmp_mag a b s1 >? 0).
  - rewrite get_nlimbs_set_sign, (proj1 (hdr_same_bf_sub_mag r a b s1 r)).
    apply H1. auto.
  - rewrite get_nlimbs_set_sign, (proj1 (hdr_same_bf_sub_mag r b a s1 r)).
    apply H1. auto.
Qed.

Lemma get_nlimbs_deref s s' p :
  deref s' p = deref s p -> get_nlimbs s' p = get_nlimbs s p.
Proof. intros E. unfold get_nlimbs. rewrite E. reflexivity. Qed.

Lemma get_nlimbs_bf_sub u r a b s N :
  allocated s r -> allocated s a -> allocated s b ->
  get_nlimbs s a = N -> get_nlimbs s b = N ->
  get_nlimbs (bf_sub u r a b s) r = N.
Proof.
  intros Ar Aa Ab Ha Hb. unfold bf_sub.
  destruct (alloca u s) as [q s1] eqn:E.
  destruct (alloca_spec u s q s1 E) as (-> & _ & Hq).
  pose proof (Hq r Ar) as Hqr. pose proof (Hq a Aa) as Hqa.
  pose proof (Hq b Ab) as Hqb. clear E Hq.
  assert (D1 : forall p, p <> q -> deref (store q u s) p = deref s p).
  { intros p Hp. rewrite deref_store. destruct (decide (q = p)); congruence. }
  revert D1. generalize (store q u s). intros s1 D1.
  pose proof (get_nlimbs_bf_copy q b s1) as C.
  rewrite (get_nlimbs_deref s s1 b (D1 b Hqb)), Hb in C.
  assert (D2 : forall p, p <> q -> deref (bf_copy q b s1) p = deref s p).
  { intros p Hp. rewrite (frame1_deref q s1 _ p (frame_rel_bf_copy q b s1) Hp).
    apply D1, Hp. }
  revert C D2. generalize (bf_copy q b s1). intros s2 C D2.
  unfold get_nlimbs at 1. rewrite deref_release_ne by exact Hqr.
  apply (get_nlimbs_bf_add r a q).
  - rewrite get_nlimbs_set_sign.
    rewrite (get_nlimbs_deref s s2 a (D2 a Hqa)). exact Ha.
  - rewrite get_nlimbs_set_sign. exact C.
Qed.

(** A step keeps a limb count that the four operands share. *)
Lemma step_frame_nlimbs u f s N :
  frame_live f s ->
  get_nlimbs s (f_zr f) = N -> get_nlimbs s (f_zi f) = N ->
  get_nlimbs s (f_cr f) = N -> get_nlimbs s (f_ci f) = N ->
  get_nlimbs (step_frame u f s) (f_zr f) = N /\
  get_nlimbs (step_frame u f s) (f_zi f) = N /\
  get_nlimbs (step_frame u f s) (f_cr f) = N /\
  get_nlimbs (step_frame u f s) (f_ci f) = N.
Proof.
  intros [Hnd Hall] Hzr Hzi Hcr Hci.
  pose proof (frame_rel_mandelbrot_step u (f_zr f) (f_zi f) (f_cr f) (f_ci f)
                (f_tmp1 f) (f_tmp2 f) s) as Fstep.
  fold (step_frame u f s) in Fstep.
  destruct f as [cr ci zr zi tmp1 tmp2]. unfold frame_ptrs in *.
  cbn [f_cr f_ci f_zr f_zi f_tmp1 f_tmp2] in *.
  apply NoDup6 in Hnd.
  destruct Hnd as (N1 & N2 & N3 & N4 & N5 & N6 & N7 & N8 & N9 & N10 & N11
                   & N12 & N13 & N14 & N15).
  repeat (apply Forall_cons in Hall as [? Hall]).
  assert (Hc : get_nlimbs (step_frame u (mkFrame cr ci zr zi tmp1 tmp2) s) cr = N
               /\ get_nlimbs (step_frame u (mkFrame cr ci zr zi tmp1 tmp2) s) ci
                  = N).
  { split; (erewrite get_nlimbs_deref;
            [|apply (frame_rel_deref _ _ _ _ Fstep); notin]); assumption. }
  destruct Hc as [Hcr' Hci'].
  cut (get_nlimbs (step_frame u (mkFrame cr ci zr zi tmp1 tmp2) s) zr = N /\
       get_nlimbs (step_frame u (mkFrame cr ci zr zi tmp1 tmp2) s) zi = N);
    [tauto|].
  clear Fstep Hcr' Hci'. unfold step_frame, mandelbrot_step.
  cbn [f_cr f_ci f_zr f_zi f_tmp1 f_tmp2].
  pose proof (frame_rel_bf_sqr tmp1 zr s) as F1.
  pose proof (get_nlimbs_bf_sqr tmp1 zr s) as T1. rewrite Hzr in T1.
  revert F1 T1. generalize (bf_sqr tmp1 zr s). intros s1 F1 T1.
  assert (D1 : forall p, p <> tmp1 -> deref s1 p = deref s p)
    by (intros p Hp; apply (frame1_deref tmp1); assumption).
  pose proof (frame_rel_bf_sqr tmp2 zi s1) as F2.
  pose proof (get_nlimbs_bf_sqr tmp2 zi s1) as T2.
  rewrite (get_nlimbs_deref s s1 zi (D1 zi ltac:(congruence))), Hzi in T2.
  revert F2 T2. generalize (bf_sqr tmp2 zi s1). intros s2 F2 T2.
  assert (D2 : forall p, p <> tmp1 -> p <> tmp2 -> deref s2 p = deref s p).
  { intros p Hp1 Hp2. rewrite (frame1_deref tmp2 s1 s2 p F2 Hp2).
    apply D1, Hp1. }
  assert (T12 : get_nlimbs s2 tmp1 = N).
  { rewrite (get_nlimbs_deref s1 s2 tmp1
               (frame1_deref tmp2 s1 s2 tmp1 F2 ltac:(congruence))).
    exact T1. }
  assert (A2 : forall p, allocated s p -> allocated s2 p)
    by (intros p Hp; apply F2, F1, Hp).
  clear F1 F2 D1 T1.
  destruct (alloca u s2) as [q s3] eqn:E.
  destruct (alloca_spec u s2 q s3 E) as (Es3 & Aq & Hne).
  assert (Qcr : cr <> q) by (apply Hne, A2; assumption).
  assert (Qci : ci <> q) by (apply Hne, A2; assumption).
  assert (Qzr : zr <> q) by (apply Hne, A2; assumption).
  assert (Qzi : zi <> q) by (apply Hne, A2; assumption).
  assert (Qt1 : tmp1 <> q) by (apply Hne, A2; assumption).
  assert (Qt2 : tmp2 <> q) by (apply Hne, A2; assumption).
  assert (D3 : forall p, p <> q -> deref s3 p = deref s2 p).
  { intros p Hp. rewrite Es3, deref_store.
    destruct (decide (q = p)); congruence. }
  assert (A3 : forall p, allocated s p -> allocated s3 p)
    by (intros p Hp; rewrite Es3; apply allocated_store, A2, Hp).
  clear E Es3 Hne.
  pose proof (frame_rel_bf_mul q zr zi s3) as F4.
  pose proof (get_nlimbs_bf_mul q zr zi s3) as T4.
  rewrite (get_nlimbs_deref s2 s3 zr (D3 zr Qzr)),
    (get_nlimbs_deref s s2 zr (D2 zr ltac:(congruence) ltac:(congruence))),
    Hzr in T4.
  revert F4 T4. generalize (bf_mul q zr zi s3). intros s4 F4 T4.
  pose proof (frame_rel_double_limbs q s4) as F5.
  pose proof (proj1 (hdr_same_double_limbs q s4 q)) as T5. rewrite T4 in T5.
  revert F5 T5. generalize (double_limbs q s4). intros s5 F5 T5.
  assert (D5 : forall p, p <> q -> deref s5 p = deref s2 p).
  { intros p Hp. rewrite (frame1_deref q s4 s5 p F5 Hp).
    rewrite (frame1_deref q s3 s4 p F4 Hp). apply D3, Hp. }
  assert (A5 : forall p, allocated s p -> allocated s5 p)
    by (intros p Hp; apply F5, F4, A3, Hp).
  pose proof (frame_rel_bf_add zi q ci s5) as F6.
  assert (T6 : get_nlimbs (bf_add zi q ci s5) zi = N).
  { apply get_nlimbs_bf_add; [exact T5|].
    rewrite (get_nlimbs_deref s2 s5 ci (D5 ci Qci)).
    rewrite (get_nlimbs_deref s s2 ci (D2 ci ltac:(congruence) ltac:(congruence))).
    exact Hci. }
  revert F6 T6. generalize (bf_add zi q ci s5). intros s6 F6 T6.
  assert (D6 : forall p, p <> q -> p <> zi -> deref s6 p = deref s2 p).
  { intros p Hp1 Hp2. rewrite (frame1_deref zi s5 s6 p F6 Hp2).
    apply D5, Hp1. }
  assert (A6 : forall p, allocated s p -> allocated s6 p)
    by (intros p Hp; apply F6, A5, Hp).
  pose proof (frame_rel_bf_sub u tmp1 tmp1 tmp2 s6) as F7.
  assert (T7 : get_nlimbs (bf_sub u tmp1 tmp1 tmp2 s6) tmp1 = N).
  { apply get_nlimbs_bf_sub; try (apply A6; assumption).
    - rewrite (get_nlimbs_deref s2 s6 tmp1 (D6 tmp1 Qt1 ltac:(congruence))).
      exact T12.
    - rewrite (get_nlimbs_deref s2 s6 tmp2 (D6 tmp2 Qt2 ltac:(congruence))).
      exact T2. }
  revert F7 T7. generalize (bf_sub u tmp1 tmp1 tmp2 s6). intros s7 F7 T7.
  pose proof (frame_rel_bf_add zr tmp1 cr s7) as F8.
  assert (T8 : get_nlimbs (bf_add zr tmp1 cr s7) zr = N).
  { apply get_nlimbs_bf_add; [exact T7|].
    rewrite (get_nlimbs_deref s6 s7 cr
               (frame1_deref tmp1 s6 s7 cr F7 ltac:(congruence))).
    rewrite (get_nlimbs_deref s2 s6 cr (D6 cr Qcr ltac:(congruence))).
    rewrite (get_nlimbs_deref s s2 cr (D2 cr ltac:(congruence) ltac:(congruence))).
    exact Hcr. }
  revert F8 T8. generalize (bf_add zr tmp1 cr s7). intros s8 F8 T8.
  unfold get_nlimbs. rewrite !deref_release_ne by assumption.
  fold (get_nlimbs s8 zr). fold (get_nlimbs s8 zi).
  split; [exact T8|].
  rewrite (get_nlimbs_deref s7 s8 zi
             (frame1_deref zr s7 s8 zi F8 ltac:(congruence))).
  rewrite (get_nlimbs_deref s6 s7 zi
             (frame1_deref tmp1 s6 s7 zi F7 ltac:(congruence))).
  exact T6.
Qed.

Lemma get_nlimbs_bf_set_d_loop r n k d x :
  get_nlimbs (bf_set_d_loop r n k d x) r = get_nlimbs x r.
Proof.
  revert d x. induction k as [|k IH]; intros d x; cbn [bf_set_d_loop];
    [reflexivity|].
  destruct (Dbl.gtb d Dbl.zero); [|reflexivity]. cbv zeta.
  rewrite IH. destruct (Z.of_nat k =? n - 1);
    apply (proj1 (hdr_same_set_limb _ _ _ _ r)).
Qed.

Lemma get_nlimbs_bf_set_d r d n s : get_nlimbs (bf_set_d r d n s) r = n.
Proof.
  unfold bf_set_d. cbv zeta.
  destruct (Dbl.eqb d Dbl.zero); [apply get_nlimbs_bf_zero|].
  rewrite get_nlimbs_bf_set_d_loop.
  destruct (n - 1 <? 0).
  - rewrite get_nlimbs_set_sign. apply get_nlimbs_bf_zero.
  - rewrite (proj1 (hdr_same_set_limb _ _ _ _ r)), get_nlimbs_set_sign.
    apply get_nlimbs_bf_zero.
Qed.

Lemma get_nlimbs_bf_from_str r str n s :
  get_nlimbs (bf_from_str r str n s) r = n.
Proof.
  unfold bf_from_str. cbv zeta. destruct (parse_decimal str) as [neg d].
  destruct neg; [rewrite get_nlimbs_set_sign|]; apply get_nlimbs_bf_set_d.
Qed.

Lemma orbit_prologue_nlimbs f cr_str ci_str n s :
  frame_live f s ->
  let s0 := orbit_prologue f cr_str ci_str n s in
  get_nlimbs s0 (f_zr f) = n /\ get_nlimbs s0 (f_zi f) = n /\
  get_nlimbs s0 (f_cr f) = n /\ get_nlimbs s0 (f_ci f) = n.
Proof.
  intros [Hnd _]. cbv zeta. unfold orbit_prologue. cbv zeta.
  destruct f as [cr ci zr zi tmp1 tmp2]. unfold frame_ptrs in Hnd.
  cbn [f_cr f_ci f_zr f_zi f_tmp1 f_tmp2] in *.
  apply NoDup6 in Hnd.
  destruct Hnd as (N1 & N2 & N3 & N4 & N5 & N6 & N7 & N8 & N9 & N10 & N11
                   & N12 & N13 & N14 & N15).
  pose proof (get_nlimbs_bf_from_str cr cr_str n s) as T1.
  revert T1. generalize (bf_from_str cr cr_str n s). intros s1 T1.
  pose proof (frame_rel_bf_from_str ci ci_str n s1) as F2.
  pose proof (get_nlimbs_bf_from_str ci ci_str n s1) as T2.
  revert F2 T2. generalize (bf_from_str ci ci_str n s1). intros s2 F2 T2.
  pose proof (frame_rel_bf_zero zr n s2) as F3.
  pose proof (get_nlimbs_bf_zero zr n s2) as T3.
  revert F3 T3. generalize (bf_zero zr n s2). intros s3 F3 T3.
  pose proof (frame_rel_bf_zero zi n s3) as F4.
  pose proof (get_nlimbs_bf_zero zi n s3) as T4.
  revert F4 T4. generalize (bf_zero zi n s3). intros s4 F4 T4.
  rewrite !get_nlimbs_set_nlimbs.
  repeat match goal with
         | |- context [decide (?a = ?b)] =>
             destruct (decide (a = b)); [congruence|]
         end.
  refine (conj _ (conj T4 (conj _ _))).
  - rewrite (get_nlimbs_deref s3 s4 zr (frame1_deref zi s3 s4 zr F4 ltac:(congruence))).
    exact T3.
  - rewrite (get_nlimbs_deref s3 s4 cr (frame1_deref zi s3 s4 cr F4 ltac:(congruence))).
    rewrite (get_nlimbs_deref s2 s3 cr (frame1_deref zr s2 s3 cr F3 ltac:(congruence))).
    rewrite (get_nlimbs_deref s1 s2 cr (frame1_deref ci s1 s2 cr F2 ltac:(congruence))).
    exact T1.
  - rewrite (get_nlimbs_deref s3 s4 ci (frame1_deref zi s3 s4 ci F4 ltac:(congruence))).
    rewrite (get_nlimbs_deref s2 s3 ci (frame1_deref zr s2 s3 ci F3 ltac:(congruence))).
    exact T2.
Qed.

Lemma iter_step_nlimbs u f s N k :
  frame_live f s ->
  get_nlimbs s (f_zr f) = N -> get_nlimbs s (f_zi f) = N ->
  get_nlimbs s (f_cr f) = N -> get_nlimbs s (f_ci f) = N ->
  frame_live f (Nat.iter k (step_frame u f) s) /\
  get_nlimbs (Nat.iter k (step_frame u f) s) (f_zr f) = N /\
  get_nlimbs (Nat.iter k (step_frame u f) s) (f_zi f) = N /\
  get_nlimbs (Nat.iter k (step_frame u f) s) (f_cr f) = N /\
  get_nlimbs (Nat.iter k (step_frame u f) s) (f_ci f) = N.
Proof.
  intros Hl Hzr Hzi Hcr Hci. induction k as [|k IH].
  - cbn [Nat.iter nat_rect]. auto.
  - rewrite Nat.iter_succ. destruct IH as (Hl' & Hzr' & Hzi' & Hcr' & Hci').
    split; [apply frame_live_step, Hl'|].
    apply step_frame_nlimbs; assumption.
Qed.

(** A value above [1e16] is above 4, and operands of no limbs read as zero. *)
Lemma big_implies_escaped re im s :
  get_nlimbs s im = get_nlimbs s re ->
  Dbl.gtb (mag_sq (bf_to_d re s) (bf_to_d im s)) Dbl.ten16 = true ->
  bf_escaped re im Dbl.four s = true.
Proof.
  intros Hn Hbig. unfold bf_escaped.
  destruct (Z.eqb_spec (get_nlimbs s re) 0) as [E|E].
  - exfalso. revert Hbig. unfold bf_to_d. rewrite Hn, E.
    change (Z.to_nat 0) with 0%nat. unfold for_down. cbn [seq rev fold_left].
    destruct (get_sign s re =? 0), (get_sign s im =? 0),
             (get_sign s re <? 0), (get_sign s im <? 0);
      vm_compute; discriminate.
  - unfold Dbl.gtb in *. apply (SFltb_trans _ Dbl.ten16); [|exact Hbig].
    vm_compute. reflexivity.
Qed.

(** X23.  [mandelbrot_iterate] never counts further than the reference orbit
    runs: for the same point, precision and iteration limit, the count it
    returns is at most the number of iterations [compute_reference_orbit]
    returns, because a value above the orbit's bound [1e16] is above the
    escape radius. *)
Theorem mandelbrot_iterate_le_orbit (u : BigFloat) (cr_str ci_str : string)
    (max_iter n : Z) (o : orbit_out) (s : state) :
  0 <= max_iter ->
  (Z.to_nat max_iter < length (orbit_re_out o))%nat ->
  (Z.to_nat max_iter < length (orbit_im_out o))%nat ->
  fst (mandelbrot_iterate u cr_str ci_str max_iter n s)
  <= fst (fst (compute_reference_orbit u cr_str ci_str max_iter n o s)).
Proof.
  intros Hmax Lre Lim.
  rewrite fst_mandelbrot_iterate, compute_reference_orbit_unfold.
  destruct (enter_frame_live u s) as [Hlive _].
  set (f := fst (enter_frame u s)) in *.
  set (s1 := snd (enter_frame u s)) in *.
  pose proof (orbit_prologue_zero f cr_str ci_str n s1 Hlive) as (Hlive0 & _).
  pose proof (orbit_prologue_nlimbs f cr_str ci_str n s1 Hlive)
    as (Nzr & Nzi & Ncr & Nci).
  cbv zeta in Hlive0, Nzr, Nzi, Ncr, Nci.
  revert Hlive0 Nzr Nzi Ncr Nci.
  generalize (orbit_prologue f cr_str ci_str n s1). intros s0 Hlive0 Nzr Nzi Ncr Nci.
  pose proof (mandelbrot_iterate_loop_spec u f max_iter (Z.to_nat max_iter) 0 s0)
    as Hi.
  pose proof (compute_reference_orbit_loop_spec u f max_iter (Z.to_nat max_iter)
                0 (mkOrbit (<[0%nat := Dbl.zero]> (orbit_re_out o))
                           (<[0%nat := Dbl.zero]> (orbit_im_out o)) (-1)) s0)
    as Ho.
  cbn [orbit_re_out orbit_im_out] in Ho. rewrite !length_insert in Ho.
  specialize (Ho Lre Lim). cbv zeta in Hi, Ho.
  destruct Ho as (_ & m & Hm & _ & _ & Ho).
  revert Hi Ho.
  generalize (fst (mandelbrot_iterate_loop u f max_iter (Z.to_nat max_iter) 0 s0)).
  generalize (fst (fst (compute_reference_orbit_loop u f max_iter
                          (Z.to_nat max_iter) 0
                          (mkOrbit (<[0%nat := Dbl.zero]> (orbit_re_out o))
                             (<[0%nat := Dbl.zero]> (orbit_im_out o)) (-1))
                          s0))).
  intros ro ri Hi Ho.
  assert (Hesc : forall j,
             Dbl.gtb (mag_sq (bf_to_d (f_zr f) (Nat.iter j (step_frame u f) s0))
                             (bf_to_d (f_zi f) (Nat.iter j (step_frame u f) s0)))
                     Dbl.ten16 = true ->
             bf_escaped (f_zr f) (f_zi f) Dbl.four
               (Nat.iter j (step_frame u f) s0) = true).
  { intros j Hb. apply big_implies_escaped; [|exact Hb].
    destruct (iter_step_nlimbs u f s0 n j Hlive0 Nzr Nzi Ncr Nci)
      as (_ & A & B & _).
    congruence. }
  destruct Ho as [(Hro & Hm1 & _ & Hbig)|(Hro & _)].
  - apply Hesc in Hbig.
    destruct Hi as [(Hri & Hno)|(j & Hj & Hri & _ & Hfirst)].
    + destruct (Nat.lt_ge_cases m (Z.to_nat max_iter)) as [Hlt|Hge].
      * rewrite (Hno m Hlt) in Hbig. discriminate.
      * lia.
    + destruct (Nat.lt_ge_cases m j) as [Hlt|Hge].
      * rewrite (Hfirst m Hlt) in Hbig. discriminate.
      * lia.
  - destruct Hi as [(Hri & _)|(j & Hj & Hri & _)]; lia.
Qed.

Lemma mandelbrot_iterate_le_orbit_witness :
  fst (mandelbrot_iterate Demo.dirty "1" "0" 6 2 Demo.s0)
  <= fst (fst (compute_reference_orbit Demo.dirty "1" "0" 6 2
                 (mkOrbit (replicate 7 Dbl.one) (replicate 7 Dbl.one) 77)
                 Demo.s0)).
Proof.
  apply mandelbrot_iterate_le_orbit.
  - lia.
  - vm_compute. lia.
  - vm_compute. lia.
Defined.

(** ** The tile driver *)

Lemma frame_scoped6_in W u s x :
  frame_rel (W ∪ list_to_set (frame_ptrs (fst (enter_frame u s))))
            (snd (enter_frame u s)) x ->
  frame_rel W s (leave_frame (fst (enter_frame u s)) x).
Proof.
  unfold enter_frame.
  destruct (alloca u s) as [p1 s1] eqn:E1.
  destruct (alloca u s1) as [p2 s2] eqn:E2.
  destruct (alloca u s2) as [p3 s3] eqn:E3.
  destruct (alloca u s3) as [p4 s4] eqn:E4.
  destruct (alloca u s4) as [p5 s5] eqn:E5.
  destruct (alloca u s5) as [p6 s6] eqn:E6.
  cbn [fst snd]. unfold leave_frame, frame_ptrs.
  cbn [f_cr f_ci f_zr f_zi f_tmp1 f_tmp2]. intros F.
  apply (frame_rel_scoped W u s p1 s1 _ E1).
  apply (frame_rel_scoped _ u s1 p2 s2 _ E2).
  apply (frame_rel_scoped _ u s2 p3 s3 _ E3).
  apply (frame_rel_scoped _ u s3 p4 s4 _ E4).
  apply (frame_rel_scoped _ u s4 p5 s5 _ E5).
  apply (frame_rel_scoped _ u s5 p6 s6 _ E6).
  eapply frame_rel_weaken; [|exact F]. set_tac.
Qed.

Lemma frame_rel_tile_iterate_loop u f k i s :
  frame_rel (list_to_set (frame_ptrs f)) s
    (snd (tile_iterate_loop u f k i s)).
Proof.
  revert i s. induction k as [|k IH]; intros i s; cbn [tile_iterate_loop].
  - apply frame_rel_refl.
  - destruct (bf_escaped (f_zr f) (f_zi f) Dbl.four s);
      [apply frame_rel_refl|].
    eapply frame_rel_trans; [apply frame_rel_step_frame | apply IH].
Qed.

(** One pixel writes one cell of the output and, on the heap, only the
    locals [cr, ci, zr, zi, tmp1, tmp2] and [pixel_offset]. *)
Lemma tile_pixel_spec u log t ts max_iter n py px out s :
  let res := tile_pixel u log t ts max_iter n py px (out, s) in
  frame_rel (list_to_set (frame_ptrs (t_frame t)) ∪ {[t_pixel_offset t]})
            s (snd res) /\
  exists v, fst res = <[Z.to_nat (Z.of_nat py * ts + Z.of_nat px) := v]> out /\
            (max_iter <= 0 -> v = Flt.of_Z max_iter).
Proof.
  cbv zeta. unfold tile_pixel. cbv zeta.
  set (W := list_to_set (frame_ptrs (t_frame t)) ∪ {[t_pixel_offset t]}
            : gset ptr).
  assert (Hfr : list_to_set (frame_ptrs (t_frame t)) ⊆ W)
    by apply union_subseteq_l.
  assert (Hpo : t_pixel_offset t ∈ W)
    by (apply elem_of_union_r, elem_of_singleton; reflexivity).
  assert (Hin : forall p, In p (frame_ptrs (t_frame t)) -> p ∈ W).
  { intros p Hp. apply Hfr, elem_of_list_to_set, list_elem_of_In, Hp. }
  assert (Hcr : f_cr (t_frame t) ∈ W) by (apply Hin; cbn; tauto).
  assert (Hci : f_ci (t_frame t) ∈ W) by (apply Hin; cbn; tauto).
  assert (Hzr : f_zr (t_frame t) ∈ W) by (apply Hin; cbn; tauto).
  assert (Hzi : f_zi (t_frame t) ∈ W) by (apply Hin; cbn; tauto).
  clear Hin.
  assert (Sub : forall (r : ptr) (V : gset ptr), r ∈ V -> {[r]} ⊆ V)
    by (intros r V Hr; apply singleton_subseteq_l, Hr).
  assert (F3 : frame_rel W s
                 (bf_set_d (t_pixel_offset t) (pixel_norm (Z.of_nat px) ts) n
                    (bf_copy (f_ci (t_frame t)) (t_center_i t)
                       (bf_copy (f_cr (t_frame t)) (t_center_r t) s)))).
  { eapply frame_rel_trans;
      [|eapply frame_rel_weaken; [|apply frame_rel_bf_set_d]; apply Sub, Hpo].
    eapply frame_rel_trans;
      (eapply frame_rel_weaken; [|apply frame_rel_bf_copy]; apply Sub);
      assumption. }
  revert F3.
  generalize (bf_set_d (t_pixel_offset t) (pixel_norm (Z.of_nat px) ts) n
                (bf_copy (f_ci (t_frame t)) (t_center_i t)
                   (bf_copy (f_cr (t_frame t)) (t_center_r t) s))).
  intros s3 F3.
  destruct (alloca u s3) as [tmp s4] eqn:E.
  match goal with
  | |- context [tile_iterate_loop u ?f ?k 0 ?x] =>
      assert (F : frame_rel (W ∪ {[tmp]}) s4 x);
      [| pose proof (frame_rel_tile_iterate_loop u f k 0 x) as FL;
         assert (K : k = 0%nat -> tile_iterate_loop u f k 0 x = (0, x))
           by (intros ->; reflexivity);
         revert F FL K; generalize x; intros x' F FL K;
         destruct (tile_iterate_loop u f k 0 x') as [iter s9] eqn:EL ]
  end.
  { assert (Ht : tmp ∈ W ∪ {[tmp]})
      by (apply elem_of_union_r, elem_of_singleton; reflexivity).
    assert (Sub' : forall r, r ∈ W -> {[r]} ⊆ W ∪ {[tmp]})
      by (intros r Hr; apply Sub, elem_of_union_l, Hr).
    repeat match goal with
           | |- frame_rel ?V ?a (bf_zero ?r ?m ?x) =>
               apply (frame_rel_trans V a x);
               [| eapply frame_rel_weaken; [|apply frame_rel_bf_zero];
                  apply Sub'; assumption]
           | |- frame_rel ?V ?a (bf_add ?r ?p ?q ?x) =>
               apply (frame_rel_trans V a x);
               [| eapply frame_rel_weaken; [|apply frame_rel_bf_add];
                  apply Sub'; assumption]
           | |- frame_rel ?V ?a (bf_set_d ?r ?d ?m ?x) =>
               apply (frame_rel_trans V a x);
               [| eapply frame_rel_weaken; [|apply frame_rel_bf_set_d];
                  apply Sub'; assumption]
           | |- frame_rel ?V ?a (bf_mul ?r ?p ?q ?x) =>
               apply (frame_rel_trans V a x);
               [| eapply frame_rel_weaken; [|apply frame_rel_bf_mul];
                  apply Sub, Ht]
           end.
    apply frame_rel_refl. }
  cbn [fst snd] in *. split.
  - eapply frame_rel_trans; [exact F3|].
    apply (frame_rel_scoped W u s3 tmp s4 _ E).
    eapply frame_rel_trans; [exact F|].
    eapply frame_rel_weaken; [|exact FL].
    etrans; [exact Hfr | apply union_subseteq_l].
  - eexists. split; [reflexivity|]. intros Hmax.
    specialize (K ltac:(lia)). injection K as -> _.
    assert (H0 : (0 <? max_iter) = false) by (apply Z.ltb_ge; lia).
    rewrite H0. reflexivity.
Qed.

Lemma tile_index_bound (ts : Z) (py px : nat) :
  (py < Z.to_nat ts)%nat -> (px < Z.to_nat ts)%nat ->
  (Z.to_nat (Z.of_nat py * ts + Z.of_nat px) < Z.to_nat (ts * ts))%nat.
Proof. intros Hy Hx. apply Z2Nat.inj_lt; nia. Qed.

(** The two pixel loops. *)
Lemma tile_loops_spec u log t ts max_iter n out s :
  let res :=
    for_loop (Z.to_nat ts)
      (fun py acc =>
         for_loop (Z.to_nat ts) (tile_pixel u log t ts max_iter n py) acc)
      (out, s) in
  frame_rel (list_to_set (frame_ptrs (t_frame t)) ∪ {[t_pixel_offset t]})
            s (snd res) /\
  length (fst res) = length out /\
  (forall j, (Z.to_nat (ts * ts) <= j)%nat -> fst res !! j = out !! j) /\
  (max_iter <= 0 ->
   forall py px, (py < Z.to_nat ts)%nat -> (px < Z.to_nat ts)%nat ->
     (Z.to_nat (Z.of_nat py * ts + Z.of_nat px) < length out)%nat ->
     fst res !! Z.to_nat (Z.of_nat py * ts + Z.of_nat px)
     = Some (Flt.of_Z max_iter)).
Proof.
  cbv zeta.
  set (W := list_to_set (frame_ptrs (t_frame t)) ∪ {[t_pixel_offset t]}
            : gset ptr).
  set (T := Z.to_nat ts).
  set (idx := fun py px : nat => Z.to_nat (Z.of_nat py * ts + Z.of_nat px)).
  pose (Q := fun (k i : nat) (acc : list float * state) =>
       frame_rel W s (snd acc) /\
       length (fst acc) = length out /\
       (forall j, (Z.to_nat (ts * ts) <= j)%nat -> fst acc !! j = out !! j) /\
       (max_iter <= 0 ->
        forall py px, (py < k \/ (py = k /\ px < i))%nat -> (px < T)%nat ->
          (idx py px < length out)%nat ->
          fst acc !! idx py px = Some (Flt.of_Z max_iter))).
  assert (Inner : forall k acc, (k < T)%nat -> Q k 0%nat acc ->
            Q k T (for_loop T (tile_pixel u log t ts max_iter n k) acc)).
  { intros k acc Hk H0.
    apply (for_loop_ind (fun i a => Q k i a)); [exact H0|].
    intros i [o x] Hi (F & L & B & M). cbn [fst snd] in F, L, B, M.
    destruct (tile_pixel_spec u log t ts max_iter n k i o x)
      as (F' & v & Ev & Hv).
    cbv zeta in F', Ev. fold W in F'. fold (idx k i) in Ev.
    revert F' Ev. generalize (tile_pixel u log t ts max_iter n k i (o, x)).
    intros [o' x'] F' Ev. cbn [fst snd] in F', Ev. subst o'.
    pose proof (tile_index_bound ts k i Hk Hi) as Hb. fold (idx k i) in Hb.
    unfold Q. cbn [fst snd].
    refine (conj _ (conj _ (conj _ _))).
    - eapply frame_rel_trans; [exact F | exact F'].
    - rewrite length_insert. exact L.
    - intros j Hj. rewrite list_lookup_insert_ne by lia. apply B, Hj.
    - intros Hmax py px Hp Hpx Hlen.
      destruct (decide (idx k i = idx py px)) as [E|E].
      + rewrite <- E. rewrite list_lookup_insert_eq by (rewrite L, E; exact Hlen).
        rewrite (Hv Hmax). reflexivity.
      + rewrite list_lookup_insert_ne by exact E.
        apply (M Hmax); [|exact Hpx|exact Hlen].
        destruct Hp as [Hp|[-> Hp]]; [left; exact Hp|].
        right. split; [reflexivity|].
        destruct (decide (px = i)) as [->|]; [congruence|lia]. }
  assert (Outer : Q T 0%nat
            (for_loop T
               (fun py acc =>
                  for_loop T (tile_pixel u log t ts max_iter n py) acc)
               (out, s))).
  { apply (for_loop_ind (fun k a => Q k 0%nat a)).
    - refine (conj (frame_rel_refl _ _) (conj eq_refl (conj _ _))); [auto|].
      intros _ py px [Hp|[_ Hp]]; lia.
    - intros k acc Hk Hq. specialize (Inner k acc Hk Hq).
      revert Inner.
      generalize (for_loop T (tile_pixel u log t ts max_iter n k) acc).
      intros acc' (F & L & B & M).
      refine (conj F (conj L (conj B _))).
      intros Hmax py px Hp Hpx Hlen. apply (M Hmax); [|exact Hpx|exact Hlen].
      destruct Hp as [Hp|[_ Hp]]; [|lia].
      destruct (decide (py = k)) as [->|]; [right; auto | left; lia]. }
  destruct Outer as (F & L & B & M).
  refine (conj F (conj L (conj B _))).
  intros Hmax py px Hy Hx Hlen. apply (M Hmax); auto.
Qed.

Lemma mandelbrot_tile_facts u log cr_str ci_str sc_str ts max_iter n out s :
  let res := mandelbrot_tile u log cr_str ci_str sc_str ts max_iter n out s in
  heap (snd res) = heap s /\
  length (fst res) = length out /\
  (forall j, (Z.to_nat (ts * ts) <= j)%nat -> fst res !! j = out !! j) /\
  (max_iter <= 0 ->
   forall py px, (py < Z.to_nat ts)%nat -> (px < Z.to_nat ts)%nat ->
     (Z.to_nat (Z.of_nat py * ts + Z.of_nat px) < length out)%nat ->
     fst res !! Z.to_nat (Z.of_nat py * ts + Z.of_nat px)
     = Some (Flt.of_Z max_iter)).
Proof.
  cbv zeta. unfold mandelbrot_tile.
  destruct (alloca u s) as [center_r s1] eqn:E1.
  destruct (alloca u s1) as [center_i s2] eqn:E2.
  destruct (alloca u s2) as [scale s3] eqn:E3.
  pose proof (frame_scoped6_in (∅ ∪ {[center_r]} ∪ {[center_i]} ∪ {[scale]})
                u s3) as Sc.
  destruct (enter_frame u s3) as [f s4]. cbn [fst snd] in Sc.
  destruct (alloca u s4) as [po s5] eqn:E5. cbv zeta.
  set (t := mkTile center_r center_i scale f po).
  set (W := (∅ ∪ {[center_r]} ∪ {[center_i]} ∪ {[scale]}
             ∪ list_to_set (frame_ptrs f) ∪ {[po]} : gset ptr)) in *.
  assert (F0 : frame_rel W s5
                 (bf_from_str scale sc_str n
                    (bf_from_str center_i ci_str n
                       (bf_from_str center_r cr_str n s5)))).
  { assert (Sub : forall r : ptr, r ∈ W -> {[r]} ⊆ W)
      by (intros r Hr; apply singleton_subseteq_l, Hr).
    eapply frame_rel_trans; [eapply frame_rel_trans|];
      (eapply frame_rel_weaken; [|apply frame_rel_bf_from_str]; apply Sub);
      unfold W; set_tac. }
  revert F0.
  generalize (bf_from_str scale sc_str n
                (bf_from_str center_i ci_str n
                   (bf_from_str center_r cr_str n s5))).
  intros s6 F0.
  destruct (tile_loops_spec u log t ts max_iter n out s6) as (F & L & B & M).
  cbv zeta in F, L, B, M. cbn [t_frame t_pixel_offset t] in F.
  revert F L B M.
  generalize (for_loop (Z.to_nat ts)
                (fun py acc =>
                   for_loop (Z.to_nat ts)
                     (tile_pixel u log t ts max_iter n py) acc) (out, s6)).
  intros [o x] F L B M. cbn [fst snd] in *.
  refine (conj _ (conj L (conj B M))).
  apply frame_empty_heap.
  apply (frame_rel_scoped ∅ u s center_r s1 _ E1).
  apply (frame_rel_scoped _ u s1 center_i s2 _ E2).
  apply (frame_rel_scoped _ u s2 scale s3 _ E3).
  apply Sc.
  apply (frame_rel_scoped _ u s4 po s5 _ E5).
  eapply frame_rel_trans; [exact F0|].
  eapply frame_rel_weaken; [|exact F]. unfold W. set_tac.
Qed.

(** X24.  [mandelbrot_tile] stays inside its tile and gives back its stack:
    the output keeps its length, every cell from index
    [tile_size * tile_size] on keeps the caller's content, and on return the
    heap is exactly the caller's. *)
Theorem mandelbrot_tile_footprint (u : BigFloat) (log : double -> double)
    (center_r_str center_i_str scale_str : string)
    (tile_size max_iter n : Z) (out : list float) (s : state) :
  let res := mandelbrot_tile u log center_r_str center_i_str scale_str
               tile_size max_iter n out s in
  heap (snd res) = heap s /\
  length (fst res) = length out /\
  forall j, (Z.to_nat (tile_size * tile_size) <= j)%nat ->
    fst res !! j = out !! j.
Proof.
  cbv zeta.
  destruct (mandelbrot_tile_facts u log center_r_str center_i_str scale_str
              tile_size max_iter n out s) as (H & L & B & _).
  exact (conj H (conj L B)).
Qed.

(** X25.  With no iterations to run ([max_iter <= 0]) every pixel of the
    tile reports [max_iter]: the cell [py * tile_size + px] of every pixel
    inside the buffer holds [(float)max_iter], whatever centre, scale and
    precision were asked for. *)
Theorem mandelbrot_tile_no_iterations (u : BigFloat) (log : double -> double)
    (center_r_str center_i_str scale_str : string)
    (tile_size max_iter n : Z) (out : list float) (s : state)
    (py px : nat) :
  max_iter <= 0 ->
  Z.of_nat py < tile_size -> Z.of_nat px < tile_size ->
  (Z.to_nat (Z.of_nat py * tile_size + Z.of_nat px) < length out)%nat ->
  fst (mandelbrot_tile u log center_r_str center_i_str scale_str
         tile_size max_iter n out s)
    !! Z.to_nat (Z.of_nat py * tile_size + Z.of_nat px)
  = Some (Flt.of_Z max_iter).
Proof.
  intros Hmax Hy Hx Hlen.
  destruct (mandelbrot_tile_facts u log center_r_str center_i_str scale_str
              tile_size max_iter n out s) as (_ & _ & _ & M).
  apply (M Hmax); [lia | lia | exact Hlen].
Qed.

Lemma mandelbrot_tile_no_iterations_witness :
  fst (mandelbrot_tile Demo.dirty (fun d => d) "0.25" "0.5" "2"
         2 0 2 (replicate 4 Dbl.one) Demo.s0)
    !! Z.to_nat (Z.of_nat 1 * 2 + Z.of_nat 1)
  = Some (Flt.of_Z 0).
Proof.
  apply mandelbrot_tile_no_iterations.
  - lia.
  - lia.
  - lia.
  - vm_compute. lia.
Defined.

(** ** More on the primitives *)

(** X26.  [bf_is_zero] is the test for magnitude zero: on [uint32_t] limbs it
    answers true exactly when the magnitude held in the [nlimbs] limbs is 0. *)
Theorem bf_is_zero_magnitude (s : state) (a : ptr) (n : nat) :
  get_nlimbs s a = Z.of_nat n -> limbs_in_range s a n ->
  (bf_is_zero a s = true <-> magnitude s a n = 0).
Proof.
  intros Hn Hr. rewrite bf_is_zero_true, Hn, Nat2Z.id.
  symmetry. apply magnitude_zero_iff, Hr.
Qed.

Lemma bf_is_zero_magnitude_witness :
  bf_is_zero Demo.a Demo.s2 = true <-> magnitude Demo.s2 Demo.a 1 = 0.
Proof.
  apply (bf_is_zero_magnitude Demo.s2 Demo.a 1).
  - reflexivity.
  - apply bf_valid_s2_a.
Defined.

Lemma lor_range a b :
  0 <= a < 2 ^ 32 -> 0 <= b < 2 ^ 32 -> 0 <= Z.lor a b < 2 ^ 32.
Proof.
  intros Ha Hb.
  assert (H0 : 0 <= Z.lor a b) by (apply Z.lor_nonneg; lia).
  split; [exact H0|].
  assert (La : Z.log2 a < 32).
  { destruct (Z.eq_dec a 0) as [->|]; [cbn; lia|].
    apply Z.log2_lt_pow2; lia. }
  assert (Lb : Z.log2 b < 32).
  { destruct (Z.eq_dec b 0) as [->|]; [cbn; lia|].
    apply Z.log2_lt_pow2; lia. }
  destruct (Z.eq_dec (Z.lor a b) 0) as [E|E]; [rewrite E; lia|].
  apply Z.log2_lt_pow2; [lia|]. rewrite Z.log2_lor by lia. lia.
Qed.

Lemma to_limb_range x : 0 <= to_limb x < 2 ^ 32.
Proof. unfold to_limb. apply Z.mod_pos_bound. lia. Qed.

Lemma limb_set_limb_range r i v x K :
  0 <= v < 2 ^ 32 -> limbs_in_range x r K ->
  limbs_in_range (set_limb r i v x) r K.
Proof.
  intros Hv Hr j Hj. destruct (decide (i = j)) as [->|Hne].
  - destruct (Nat.lt_ge_cases j (length (limbs (deref x r)))) as [Hlt|Hge].
    + rewrite limb_set_limb_eq by exact Hlt. exact Hv.
    + unfold limb, set_limb. rewrite deref_store.
      destruct (decide (r = r)); [|congruence]. cbn [limbs].
      rewrite list_insert_ge by exact Hge. apply Hr, Hj.
  - rewrite limb_set_limb_ne by (right; exact Hne). apply Hr, Hj.
Qed.

Lemma bf_set_d_loop_post r n k d x K :
  (k <= K)%nat -> limbs_in_range x r K ->
  limbs_in_range (bf_set_d_loop r n k d x) r K /\
  forall p i, p <> r \/ (K <= i)%nat ->
    limb (bf_set_d_loop r n k d x) p i = limb x p i.
Proof.
  revert d x. induction k as [|k IH]; intros d x Hk Hr;
    cbn [bf_set_d_loop]; [auto|].
  destruct (Dbl.gtb d Dbl.zero); [|auto]. cbv zeta.
  match goal with
  | |- context [bf_set_d_loop r n k ?d' ?x'] =>
      assert (Hx : limbs_in_range x' r K /\
                   forall p i, p <> r \/ (K <= i)%nat ->
                               limb x' p i = limb x p i);
      [| destruct (IH d' x' ltac:(lia) (proj1 Hx)) as (R & U);
         split; [exact R|];
         intros p i Hp; rewrite U by exact Hp; apply (proj2 Hx), Hp ]
  end.
  destruct (Z.of_nat k =? n - 1).
  - split.
    + apply limb_set_limb_range; [|exact Hr].
      apply lor_range; [apply Hr; lia|].
      rewrite Z.shiftr_div_pow2 by lia.
      pose proof (to_limb_range
                    (Dbl.trunc (Dbl.mul d Dbl.two32))) as Hl.
      split; [apply Z.div_pos; lia|].
      apply Z.div_lt_upper_bound; lia.
    + intros p i Hp. apply limb_set_limb_ne.
      destruct Hp; [left; congruence | right; lia].
  - split.
    + apply limb_set_limb_range; [apply to_limb_range | exact Hr].
    + intros p i Hp. apply limb_set_limb_ne.
      destruct Hp; [left; congruence | right; lia].
Qed.

(** X27.  What [bf_set_d] leaves, for every double: the limb count [n]; the
    sign 0 for a zero, -1 for a negative and 1 for any other double; [n]
    limbs that are [uint32_t] values; the limbs from index [n] on and every
    other struct untouched. *)
Theorem bf_set_d_post (r : ptr) (d : double) (n : Z) (s : state) :
  let s' := bf_set_d r d n s in
  get_nlimbs s' r = n /\
  get_sign s' r
  = (if Dbl.eqb d Dbl.zero then 0 else if Dbl.ltb d Dbl.zero then -1 else 1) /\
  limbs_in_range s' r (Z.to_nat n) /\
  (forall i, (Z.to_nat n <= i)%nat -> limb s' r i = limb s r i) /\
  (forall p, p <> r -> deref s' p = deref s p).
Proof.
  cbv zeta.
  refine (conj (get_nlimbs_bf_set_d r d n s) (conj _ (conj _ (conj _ _)))).
  - unfold bf_set_d. cbv zeta.
    destruct (Dbl.eqb d Dbl.zero); [apply get_sign_bf_zero|].
    match goal with
    | |- get_sign (bf_set_d_loop r n ?k ?d' ?x) r = _ =>
        assert (H : get_sign (bf_set_d_loop r n k d' x) r = get_sign x r);
        [ generalize x; generalize d'; generalize k | rewrite H ]
    end.
    + intros k. induction k as [|k IH]; intros d' x; cbn [bf_set_d_loop];
        [reflexivity|].
      destruct (Dbl.gtb d' Dbl.zero); [|reflexivity]. cbv zeta.
      rewrite IH. destruct (Z.of_nat k =? n - 1);
        apply (proj2 (hdr_same_set_limb _ _ _ _ r)).
    + destruct (n - 1 <? 0);
        [|rewrite (proj2 (hdr_same_set_limb _ _ _ _ r))];
        rewrite get_sign_set_sign; destruct (decide (r = r)); congruence.
  - unfold bf_set_d. cbv zeta.
    assert (Z0 : limbs_in_range (bf_zero r n s) r (Z.to_nat n)).
    { intros i Hi. unfold bf_zero. cbv zeta.
      rewrite limb_set_sign, limb_set_nlimbs, limb_memset_limbs by exact Hi.
      lia. }
    destruct (Dbl.eqb d Dbl.zero); [exact Z0|].
    apply bf_set_d_loop_post; [lia|].
    destruct (n - 1 <? 0).
    + apply (limbs_in_range_ext (bf_zero r n s) _ r r); [|exact Z0].
      intros; apply limb_set_sign.
    + apply limb_set_limb_range; [apply to_limb_range|].
      apply (limbs_in_range_ext (bf_zero r n s) _ r r); [|exact Z0].
      intros; apply limb_set_sign.
  - intros i Hi. unfold bf_set_d. cbv zeta.
    assert (Z0 : limb (bf_zero r n s) r i = limb s r i).
    { unfold bf_zero. cbv zeta. rewrite limb_set_sign, limb_set_nlimbs.
      apply limb_memset_limbs_other. right. exact Hi. }
    destruct (Dbl.eqb d Dbl.zero); [exact Z0|].
    match goal with
    | |- limb (bf_set_d_loop r n ?k ?d' ?x) r i = _ =>
        assert (H : limb (bf_set_d_loop r n k d' x) r i = limb x r i);
        [ generalize x; generalize d' | rewrite H ]
    end.
    + intros d' x.
      pose (P := fun k => forall d' x, (k <= Z.to_nat n)%nat ->
                   limb (bf_set_d_loop r n k d' x) r i = limb x r i).
      assert (HP : forall k, P k).
      { induction k as [|k IH]; intros d'' x' Hk; cbn [bf_set_d_loop];
          [reflexivity|].
        destruct (Dbl.gtb d'' Dbl.zero); [|reflexivity]. cbv zeta.
        rewrite IH by lia.
        destruct (Z.of_nat k =? n - 1); apply limb_set_limb_ne; right; lia. }
      apply HP. lia.
    + destruct (n - 1 <? 0) eqn:En.
      * rewrite limb_set_sign. exact Z0.
      * apply Z.ltb_ge in En.
        rewrite limb_set_limb_ne by (right; lia).
        rewrite limb_set_sign. exact Z0.
  - intros p Hp. apply (frame1_deref r); [apply frame_rel_bf_set_d | exact Hp].
Qed.

(** X28.  [mandelbrot_step] touches only its outputs and scratch operands:
    every struct other than [zr], [zi], [tmp1], [tmp2] is as before, among
    them [cr] and [ci] when they are distinct from those four, and when those
    four are live the set of live structs is unchanged: the local product
    does not outlive the call. *)
Theorem mandelbrot_step_footprint (u : BigFloat)
    (zr zi cr ci tmp1 tmp2 : ptr) (s : state) :
  allocated s zr -> allocated s zi -> allocated s tmp1 -> allocated s tmp2 ->
  let s' := mandelbrot_step u zr zi cr ci tmp1 tmp2 s in
  (forall p, p <> zr -> p <> zi -> p <> tmp1 -> p <> tmp2 ->
     heap s' !! p = heap s !! p) /\
  dom (heap s') = dom (heap s).
Proof.
  intros Azr Azi At1 At2. cbv zeta.
  destruct (frame_rel_mandelbrot_step u zr zi cr ci tmp1 tmp2 s) as [H A].
  assert (Hout : forall p, p <> zr -> p <> zi -> p <> tmp1 -> p <> tmp2 ->
            heap (mandelbrot_step u zr zi cr ci tmp1 tmp2 s) !! p
            = heap s !! p).
  { intros p H1 H2 H3 H4. apply H. notin. }
  split; [exact Hout|].
  apply set_eq. intros p. rewrite !elem_of_dom.
  destruct (decide (p = zr)) as [->|H1]; [split; intros _; [exact Azr | apply A, Azr]|].
  destruct (decide (p = zi)) as [->|H2]; [split; intros _; [exact Azi | apply A, Azi]|].
  destruct (decide (p = tmp1)) as [->|H3];
    [split; intros _; [exact At1 | apply A, At1]|].
  destruct (decide (p = tmp2)) as [->|H4];
    [split; intros _; [exact At2 | apply A, At2]|].
  rewrite (Hout p H1 H2 H3 H4). reflexivity.
Qed.

Lemma mandelbrot_step_footprint_witness :
  dom (heap (step_frame Demo.dirty Demo.f0 Demo.s3)) = dom (heap Demo.s3).
Proof.
  refine (proj2 (mandelbrot_step_footprint Demo.dirty
                   (f_zr Demo.f0) (f_zi Demo.f0) (f_cr Demo.f0) (f_ci Demo.f0)
                   (f_tmp1 Demo.f0) (f_tmp2 Demo.f0) Demo.s3 _ _ _ _)).
  - vm_compute. eauto.
  - vm_compute. eauto.
  - vm_compute. eauto.
  - vm_compute. eauto.
Defined.

(** X29.  With no iterations to run ([max_iter <= 0]) the drivers return
    [max_iter] as it is, a negative one included: [mandelbrot_iterate] without
    testing the point, [compute_reference_orbit] after writing only entry 0
    and the escape value -1. *)
Theorem drivers_no_iterations (u : BigFloat) (cr_str ci_str : string)
    (max_iter n : Z) (o : orbit_out) (s : state) :
  max_iter <= 0 ->
  fst (mandelbrot_iterate u cr_str ci_str max_iter n s) = max_iter /\
  fst (compute_reference_orbit u cr_str ci_str max_iter n o s)
  = (max_iter,
     mkOrbit (<[0%nat := Dbl.zero]> (orbit_re_out o))
             (<[0%nat := Dbl.zero]> (orbit_im_out o)) (-1)).
Proof.
  intros Hmax.
  rewrite fst_mandelbrot_iterate, compute_reference_orbit_unfold.
  replace (Z.to_nat max_iter) with 0%nat by lia.
  split; reflexivity.
Qed.

Lemma drivers_no_iterations_witness :
  fst (mandelbrot_iterate Demo.dirty "3" "0" (-5) 2 Demo.s0) = -5.
Proof.
  refine (proj1 (drivers_no_iterations Demo.dirty "3" "0" (-5) 2
                   (mkOrbit [] [] 0) Demo.s0 _)).
  lia.
Defined.

(** X30.  The first iterate is [c]: from a well-formed [z = 0] one
    [mandelbrot_step] leaves in [zr] and [zi] exactly the sign and the limbs
    of [cr] and [ci], for every well-formed [c], with no rounding. *)
Theorem mandelbrot_step_from_zero (u : BigFloat) (f : frame) (s : state)
    (n : nat) :
  frame_live f s ->
  bf_valid s (f_zr f) n -> bf_valid s (f_zi f) n ->
  bf_valid s (f_cr f) n -> bf_valid s (f_ci f) n ->
  get_sign s (f_zr f) = 0 -> get_sign s (f_zi f) = 0 ->
  (forall p, In p (frame_ptrs f) -> (n <= length (limbs (deref s p)))%nat) ->
  (n <= length (limbs u))%nat ->
  (2 * n <= length (scratch s))%nat ->
  let s' := step_frame u f s in
  (get_sign s' (f_zr f) = get_sign s (f_cr f) /\
   forall i, (i < n)%nat -> limb s' (f_zr f) i = limb s (f_cr f) i) /\
  (get_sign s' (f_zi f) = get_sign s (f_ci f) /\
   forall i, (i < n)%nat -> limb s' (f_zi f) i = limb s (f_ci f) i).
Proof.
  intros Hf Vzr Vzi Vcr Vci Szr Szi Hlens Hu Hscr. cbv zeta.
  destruct (mandelbrot_step_value u f s n Hf Vzr Vzi Vcr Vci Hlens Hu Hscr)
    as (Him & Hre).
  cbv zeta in Him, Hre.
  assert (Ezr : value s (f_zr f) n = 0) by (unfold value; rewrite Szr; lia).
  assert (E1 : value (bf_sqr (f_tmp1 f) (f_zr f) s) (f_tmp1 f) n = 0).
  { unfold value. rewrite get_sign_bf_sqr_zero by exact Szr. lia. }
  assert (E2 : value (bf_sqr (f_tmp2 f) (f_zi f)
                        (bf_sqr (f_tmp1 f) (f_zr f) s)) (f_tmp2 f) n = 0).
  { unfold value. rewrite get_sign_bf_sqr_zero; [lia|].
    rewrite (get_sign_frame _ _ _ _ (frame_rel_bf_sqr (f_tmp1 f) (f_zr f) s));
      [exact Szi|].
    destruct Hf as [Hnd _]. destruct f as [cr ci zr zi tmp1 tmp2].
    unfold frame_ptrs in Hnd. cbn [f_zi f_tmp1]. apply NoDup6 in Hnd.
    rewrite not_elem_of_singleton. intuition congruence. }
  rewrite Ezr, E1, E2 in *.
  rewrite Z.mul_0_l, quot_0_l in Him. cbn [Z.mul Z.sub Z.add Z.opp] in Him, Hre.
  pose proof (magnitude_bounds s (f_cr f) n (proj1 (proj2 Vcr))) as Bcr.
  pose proof (magnitude_bounds s (f_ci f) n (proj1 (proj2 Vci))) as Bci.
  assert (Hb : forall p, bf_valid s p n ->
                 Z.abs (value s p n) < 2 ^ (32 * Z.of_nat n)).
  { intros p (_ & Hr & [E|[E|E]] & _);
      pose proof (magnitude_bounds s p n Hr); unfold value; rewrite E; lia. }
  assert (H0 : Z.abs 0 < 2 ^ (32 * Z.of_nat n)) by (cbn; lia).
  destruct (Him H0 (Hb _ Vci)) as (Wzi & Ezi).
  destruct (Hre H0 (Hb _ Vcr)) as (Wzr & Ezr').
  split; apply (value_inj _ _ _ _ n); auto.
Qed.

Lemma frame_live_s3 : frame_live Demo.f0 Demo.s3.
Proof.
  split.
  - vm_compute. repeat (apply NoDup_cons; split;
      [rewrite ?elem_of_cons, elem_of_nil; intros H;
       repeat (destruct H as [H|H]; [discriminate|]); exact H|]).
    apply NoDup_nil. exact I.
  - repeat (apply Forall_cons; split; [vm_compute; eauto|]). apply Forall_nil.
    exact I.
Qed.

Lemma bf_valid_s3 :
  bf_valid Demo.s3 (f_zr Demo.f0) 2 /\ bf_valid Demo.s3 (f_zi Demo.f0) 2 /\
  bf_valid Demo.s3 (f_cr Demo.f0) 2 /\ bf_valid Demo.s3 (f_ci Demo.f0) 2.
Proof.
  assert (V : forall p, In p [f_cr Demo.f0; f_ci Demo.f0] ->
                        bf_valid Demo.s3 p 2).
  { intros p Hp. vm_compute in Hp.
    repeat (destruct Hp as [<-|Hp];
            [refine (conj _ (conj _ (conj _ _)));
             [ vm_compute; reflexivity
             | apply limbs_in_range_2; vm_compute;
               (split; [discriminate | reflexivity])
             | vm_compute; auto
             | vm_compute; split; discriminate ] |]).
    destruct Hp. }
  assert (Z0 : forall p, In p [f_zr Demo.f0; f_zi Demo.f0] ->
                         bf_valid Demo.s3 p 2).
  { intros p Hp. vm_compute in Hp.
    repeat (destruct Hp as [<-|Hp];
            [refine (conj _ (conj _ (conj _ _)));
             [ vm_compute; reflexivity
             | apply limbs_in_range_2; vm_compute;
               (split; [discriminate | reflexivity])
             | vm_compute; auto
             | vm_compute; split; reflexivity ] |]).
    destruct Hp. }
  refine (conj (Z0 _ _) (conj (Z0 _ _) (conj (V _ _) (V _ _)))).
  - left. reflexivity.
  - right. left. reflexivity.
  - left. reflexivity.
  - right. left. reflexivity.
Qed.

Lemma lengths_s3 :
  forall p, In p (frame_ptrs Demo.f0) ->
    (2 <= length (limbs (deref Demo.s3 p)))%nat.
Proof.
  intros p Hp. vm_compute in Hp.
  repeat (destruct Hp as [<-|Hp]; [vm_compute; lia|]). destruct Hp.
Qed.

Lemma mandelbrot_step_from_zero_witness :
  get_sign (step_frame Demo.dirty Demo.f0 Demo.s3) (f_zr Demo.f0)
  = get_sign Demo.s3 (f_cr Demo.f0).
Proof.
  refine (proj1 (proj1 (mandelbrot_step_from_zero Demo.dirty Demo.f0 Demo.s3 2
                          frame_live_s3 (proj1 bf_valid_s3)
                          (proj1 (proj2 bf_valid_s3))
                          (proj1 (proj2 (proj2 bf_valid_s3)))
                          (proj2 (proj2 (proj2 bf_valid_s3)))
                          _ _ lengths_s3 _ _))).
  - vm_compute. reflexivity.
  - vm_compute. reflexivity.
  - vm_compute. lia.
  - vm_compute. lia.
Defined.
